(* ===== verification/_CoqProject ===== *)
-Q . S2P
Prelude.v
Wire.v
Protocol.v
Framing.v
RoomCache.v
Stream.v
Server.v
ServerExec.v
Lobby.v
WellFormed.v
Refine.v
ServerInv.v
Rules.v
Authority.v
RoomCodes.v
RoomData.v
Mirror.v
Sendable.v
Client.v
ClientMesh.v
ClientConn.v
MeshRules.v
Session.v
SessionInv.v
Scheduler.v
Turns.v
ClientSends.v
ChatOrder.v
Reader.v
Rest.v
Network.v
NetRuns.v
Settle.v
Delivery.v
NetworkRules.v
Handshake.v
Peering.v
CApi.v
CApiRules.v
EndToEnd.v
