(* ===== verification/Prelude.v ===== *)
(** * Weyvelength: rooms, clients and peer-to-peer links, verified

    Weyvelength is a room server with a C++ client library.  Clients hold one
    TCP connection to the server, create and join rooms, chat, and keep room
    and member metadata; inside a room they exchange ICE descriptions through
    the server and build direct links with libjuice.  This development models
    the server, the client, what they say to each other and the C interface
    over the client, and proves that the parts are correct and fit together.

    ** The program and its model

    Both sides speak [ServerMessage]s ([Shared/protocol.h]) serialised by
    zpp_bits and cut into frames ([Shared/framing.h]).

    - [Wire]: the part of the vendored zpp_bits the messages go through, as
      codecs with their laws ([LawfulCodec]: reading inverts writing, and reads
      only what writing produces).  A [bool] is the byte that the archive copies,
      whatever it is; the code that reads the [bool] is undefined if that byte is
      no value of the type ([load_bool]).
    - [Protocol]: the messages, their order in the variant, the limits;
      [serialize] and [deserialize].
    - [Framing]: [FrameMessage], [DecodeFrameHeader], [AppendFragment], and the
      relation [framed] of what the loop writes.
    - [Stream]: a stream of frames that arrives in pieces; both readers use it.

    The server ([Server/src/weyvelength_server.cpp]) is single-threaded: all
    coroutines run on one io context.

    - [Server]: [struct Server] as a record over a heap of connections, and
      every handler, from [HandleMessage] to [LeaveRoom] and [MakeRoomCode], as
      a program of the effect monad below.
    - [Lobby]: the specification: [lobby_message] is a function from state,
      sender and message to a [delta] - who is sent what, the new rooms, who
      moves - with no frame, queue or pointer in it.
    - [ServerExec], [Refine]: symbolic execution of the handlers and the
      refinement of [Lobby] by each of them.
    - [WellFormed], [ServerInv]: the well-formedness invariant [wf], which
      every message keeps.
    - [Rules], [Authority], [RoomCodes], [RoomData]: the rules of rooms, stated
      on [HandleMessage].
    - [Session]: [Init], [Run], [main], and the coroutines [AcceptLoop],
      [Session], [ReadLoop] and [WriteLoop]: a suspended coroutine is the point
      it waits at with its local variables.  [io_work] is one completion on an
      established connection - a read or a write completes, a timer wait is
      cancelled -, [io_failure] a read or a write that fails, [io_step] either;
      [sys_step] adds what comes from outside: bytes arrive, a socket is
      accepted or fails to be.  [Process] and [Stop] are
      the io context with its stop flag.
    - [SessionInv]: the invariant of every reachable state of the coroutines.
    - [Scheduler]: [sys_step] as functions, sound for the relation, and a
      computed run that the examples use.
    - [Turns]: what a step does to each connection; [io_step_turn] is the
      simulation of the steps by moves of single connections.
    - [ChatOrder]: the chat lines members are sent.
    - [Reader]: [ReadLoop]'s loop, turn after turn of [read_loop], on a stream
      that arrives in pieces ([receive], which takes steps of the system only),
      and when a turn of it is undefined.
    - [Rest]: what every [io_step] uses up, and where the coroutines wait when
      nothing is left to do.

    The client ([Client/src/client.cpp], [Client/src/p2p_mesh.cpp]) is polled by
    one thread; callbacks of libjuice only queue events.

    - [RoomCache]: the fields the room accessors read and what each message
      does to them.
    - [Client]: [Connect], [Poll] ([DrainServer], [CarveServer], [PollPeers],
      [FlushServer]), [Next], the requests and accessors, and the whole mesh
      from [SendP2P] to [HandleLinkState].  Libjuice is not in the repository:
      the class [Juice] has its answers as functions of the calls made so far,
      and the client keeps the log of its calls.
    - [ClientMesh], [ClientConn], [MeshRules]: the mesh invariant, polling any
      input and polling what a server framed, the rules of the mesh.
    - [ClientSends]: the bytes a client writes are frames of messages the
      server's reader accepts.
    - [CApi]: every function of [Client/src/weyvelength.cpp] and of
      [marshal.h], and the event type of [weyvelength.h].
    - [CApiRules]: its properties.

    The two sides together:

    - [Mirror]: what a handler sends takes each client's image of its room
      before to the image after, through [CacheRoomState].
    - [Sendable]: what it sends has the types and sizes its clients accept, and
      is never a request.
    - [Network]: the whole system.  A [Node] is a client of the library at the
      other end of a server connection, with the bytes still on their way to
      the server and the number of bytes it has read of the server's; [net_step]
      is a step of the server, of a client, or of the network, which delivers any
      part of what is under way.  A client whose connection ended may connect
      again.  Connections without a node are strangers who
      send anything.  [net_ok] is its invariant.
    - [NetRuns]: [net_step] as a function, and a computed run of two clients, one
      of whom comes back after its connection was lost.
    - [Settle]: [runs], the runs of the system left to itself - no call, no
      connection, no failure - that bring clients to have read everything, and
      what they will then have in their inboxes ([due]).
    - [Delivery]: a request's way from the call to the others' inboxes and
      caches; the whole system against [Lobby].
    - [NetworkRules]: the properties of the whole system.
    - [Handshake], [Peering]: two clients and the relay build a peer-to-peer
      link, call by call and as a run of the network.
    - [EndToEnd]: the properties of runs of the server among arbitrary peers,
      from the bytes that arrive to what a client's program reads.

    ** What the theorems show

    - Wire and frames: every message is read back ([message_roundtrip]), only
      from its own bytes ([message_canonical]); the loop of [FrameMessage] ends
      and its output has the stated size.  However a stream is cut into reads,
      [ReadLoop] does with it exactly what handling its messages in order does
      ([server_reads_the_stream]), and the client takes exactly its messages out
      ([client_reads_the_stream]).  A client can make the server undefined with a
      byte that is no [bool] in one case, as the host of a room
      ([read_undefined_iff]).
    - Handlers: refinement ([handle_message_refines_lobby]), invariant
      ([handle_message_keeps_wf]), and the rules: admission, isolation of rooms,
      host-only requests, succession, bans, metadata within limits, secrecy of
      the password, errors without effect, sender ids that cannot be forged,
      and when creating a room ends ([create_room_terminates_iff]) and when it
      does not ([create_room_hangs]).
    - Coroutines: in every reachable state the server is well-formed, no
      wake-up of a writer is lost, a lost connection leaves its room, and all
      that is sent is typed ([server_stays_well_formed], [writers_are_woken],
      [lost_connection_leaves], [server_output_is_typed]).  Under every order
      of completions and failures the coroutines come to rest, with nothing left
      undone ([server_comes_to_rest]).
      Members that stay together are sent the same chat lines in the same order
      ([chat_order_agrees]); a request longer than the cap on a message ends the
      session and loses what is behind it ([chat_length_limit]).
    - Client: polling ends on any bytes, and is undefined exactly on the [bool]s
      of a [RoomAccessChanged] that are none ([poll_outcome]); libjuice is used by
      its rules ([juice_used_by_its_rules]); what a send, an event, a
      description and a departure do.
    - Two peers: one send builds the link through the server, and dials that
      cross meet in one link at each end ([dial_is_answered],
      [crossed_dials_meet]).  In the whole system, a member's first datagram to
      another gets the link built and into the other application's inbox
      ([datagram_gets_through]).
    - C interface: a C program reads exactly what [Client::Next] would hand out
      ([c_events_are_next_messages], [weyve_next_outcome]) and finds every key
      ([room_data_keys_by_index]).
    - End to end: from any reachable state of the server, a client that polls
      what was sent or is queued for it, cut in any way, sees its room as the
      server has it ([clients_see_their_rooms]), and so does a program on the C
      interface ([c_program_sees_its_room]).
    - The whole system: as long as the applications' requests keep to the cap,
      the server and its library clients never refuse each other's bytes
      ([both_sides_understand]); clients that have read everything
      agree on their room and on its host ([settled_clients_agree]); and from
      every reachable state the system left to itself can bring all
      standing clients there ([network_settles]).  Every request the server
      accepts can be carried out: the rooms, every settled client's inbox and
      its cached room become what the specification [lobby_message] says
      ([requests_are_carried_out]); for a line of chat, that is the line once in
      every member's inbox under its sender's id ([chat_gets_through]).

    ** Bounds and fuel

    Integers are [N]; [valid] and [fits] say that a value is one of its C++
    type, wrap-around is written out ([mod 2 ^ 32]) where the code can reach it
    (the id counter, the lengths of the C interface).  Two loops of the program
    have no bound of their own: the draw of a room code, for which the end is a
    theorem, and [weyve_next], which ends with the inbox.  The client's loops
    over its socket run along the list of the socket's answers, the server's
    coroutines one step at a time.  Every other fuel is the number of bytes or
    messages at hand, and a theorem says that it is enough.  [reachable] and
    [net_reachable] follow the coroutines as long as fewer than 2 ^ 32 - 1
    connections were accepted; beyond that ids repeat.

    ** Assumptions of the whole system

    Libjuice is the class [Juice]; [ShortSdp] is the documented size of the
    buffer for a local description, 4096 bytes, and [short_event] says that a
    candidate handed to the callback is no longer than that.  Both are needed
    for the signals of the mesh to fit the cap on a message.  The requests that
    an application makes in [net_step] are those of at most 16384 bytes
    ([sendable]); [chat_length_limit] is about the longer ones.  A library client
    connects again only after an orderly end ([net_reconnect]): nothing is left
    half read in its buffers, and what it had not sent is whole frames.
    [Client::Connect] does not clear the buffers ([refused_frame_outlives_connection]),
    so that after any other end the two sides need not understand each other.

    ** What is not modelled

    Sockets, name resolution, timers and libjuice are their answers, given as
    arguments.  The heap's shared ownership is: objects live as long as they
    are reachable, no memory runs out, and [or_throw] of a serialisation into
    a growing vector does not throw.  Of the log only the functions that
    choose its words are modelled; the sinks, their set-up from the
    environment, the example client and the repository's tests are left out.  The mutex of the mesh guards one
    queue; its callbacks are steps between polls ([client_step]).  What two
    libjuice agents say to each other is not tied together: an agent's events
    may come at any time, also when no peer answered, and
    [datagram_gets_through] says what follows when they do come. *)
From stdpp Require Export base gmap strings list sorting pretty.
From Stdlib Require Export Strings.Byte.
From Stdlib Require Strings.String.

(** ** Effects

    A handler of the program runs to completion on the single thread of the
    io context: it reads and writes the state [S] and returns a value.  Two
    other outcomes are kept apart, because both are possible in C++ and both
    have to be excluded by a theorem: [Dangling], the behaviour is undefined -
    the code followed a pointer or a reference to an object that no longer
    exists, or read a value outside its type - and [Loops], the fuel given to an
    unbounded loop ran out. *)
Inductive outcome (S A : Type) : Type :=
| Done (a : A) (s : S)
| Dangling
| Loops.
Arguments Done {S A} a s.
Arguments Dangling {S A}.
Arguments Loops {S A}.

Definition M (S A : Type) : Type := S -> outcome S A.

Definition ret {S A} (a : A) : M S A := fun s => Done a s.

Definition bind {S A B} (m : M S A) (k : A -> M S B) : M S B :=
  fun s =>
    match m s with
    | Done a s' => k a s'
    | Dangling => Dangling
    | Loops => Loops
    end.

Definition gets {S A} (f : S -> A) : M S A := fun s => Done (f s) s.
Definition modify {S} (f : S -> S) : M S unit := fun s => Done tt (f s).
Definition dangling {S A} : M S A := fun _ => Dangling.
Definition loops {S A} : M S A := fun _ => Loops.

(** stdpp's notations [x ← m; k] and [m ;; k] read as statement sequencing. *)
#[export] Instance M_ret {S} : MRet (M S) := fun A a => ret a.
#[export] Instance M_bind {S} : MBind (M S) := fun A B k m => bind m k.

(** A range-based for loop over a vector: one run of the body per element. *)
Fixpoint for_each {S A} (l : list A) (body : A -> M S unit) : M S unit :=
  match l with
  | [] => ret tt
  | x :: l' => body x ;; for_each l' body
  end.

(** [wlp m Q s]: if [m] run from [s] finishes, it ends in a state that satisfies
    [Q]. *)
Definition wlp {S A} (m : M S A) (Q : A -> S -> Prop) (s : S) : Prop :=
  match m s with
  | Done a s' => Q a s'
  | Dangling | Loops => True
  end.

(** [twp m Q s]: [m] run from [s] does finish, in a state that satisfies [Q]. *)
Definition twp {S A} (m : M S A) (Q : A -> S -> Prop) (s : S) : Prop :=
  match m s with
  | Done a s' => Q a s'
  | Dangling | Loops => False
  end.

Section Effects.
Context {S : Type}.

Lemma bind_done {A B} (m : M S A) (k : A -> M S B) s a s' :
  m s = Done a s' -> (m ≫= k) s = k a s'.
Proof. intros Hm. unfold mbind, M_bind, bind. by rewrite Hm. Qed.

Lemma bind_done_inv {A B} (m : M S A) (k : A -> M S B) s b s' :
  (m ≫= k) s = Done b s' -> exists a s1, m s = Done a s1 /\ k a s1 = Done b s'.
Proof. unfold mbind, M_bind, bind. destruct (m s) as [a s1| |]; [|done..]. eauto. Qed.

Lemma for_each_app {A} (l l' : list A) (body : A -> M S unit) s :
  for_each (l ++ l') body s = (for_each l body ;; for_each l' body) s.
Proof.
  revert s. induction l as [|x l IH]; intros s; [done|]. cbn [app for_each]. unfold mbind, M_bind, bind in *.
  destruct (body x s) as [[] s1| |]; [|done..]. apply IH.
Qed.

Lemma bind_gets {A B} (f : S -> A) (k : A -> M S B) s :
  (gets f ≫= k) s = k (f s) s.
Proof. done. Qed.

Lemma bind_modify {B} (f : S -> S) (k : unit -> M S B) s :
  (modify f ≫= k) s = k tt (f s).
Proof. done. Qed.

Lemma wlp_done {A} (m : M S A) (Q : A -> S -> Prop) s a s' : wlp m Q s -> m s = Done a s' -> Q a s'.
Proof. unfold wlp. intros Hm Hrun. by rewrite Hrun in Hm. Qed.

Lemma wlp_intro {A} (m : M S A) (Q : A -> S -> Prop) s a s' : m s = Done a s' -> Q a s' -> wlp m Q s.
Proof. unfold wlp. by intros ->. Qed.

Lemma wlp_ret {A} (a : A) (Q : A -> S -> Prop) s : Q a s -> wlp (ret a) Q s.
Proof. done. Qed.

Lemma wlp_gets {A} (f : S -> A) (Q : A -> S -> Prop) s : Q (f s) s -> wlp (gets f) Q s.
Proof. done. Qed.

Lemma wlp_modify (f : S -> S) (Q : unit -> S -> Prop) s : Q tt (f s) -> wlp (modify f) Q s.
Proof. done. Qed.

Lemma wlp_bind {A B} (m : M S A) (k : A -> M S B) (Q : B -> S -> Prop) s :
  wlp m (fun a s' => wlp (k a) Q s') s -> wlp (m ≫= k) Q s.
Proof. unfold wlp, mbind, M_bind, bind. by destruct (m s). Qed.

Lemma wlp_mono {A} (m : M S A) (P Q : A -> S -> Prop) s :
  wlp m P s -> (forall a s', P a s' -> Q a s') -> wlp m Q s.
Proof. unfold wlp. destruct (m s); eauto. Qed.

(** A loop whose body keeps [I]. *)
Lemma wlp_for_each {A} (l : list A) (body : A -> M S unit) (I : S -> Prop) s :
  (forall x s, x ∈ l -> I s -> wlp (body x) (fun _ => I) s) ->
  I s -> wlp (for_each l body) (fun _ => I) s.
Proof.
  intros Hbody. revert s. induction l as [|x l IH]; intros s HI; [done|]. cbn [for_each].
  apply wlp_bind. eapply wlp_mono; [apply Hbody; [set_solver|done]|].
  intros [] s' HI'. apply IH; [|done]. intros y s0 Hy. apply Hbody. set_solver.
Qed.

Lemma twp_done {A} (m : M S A) (Q : A -> S -> Prop) s :
  twp m Q s -> exists a s', m s = Done a s' /\ Q a s'.
Proof. unfold twp. destruct (m s) as [a s'| |]; [eauto|done|done]. Qed.

Lemma twp_intro {A} (m : M S A) (Q : A -> S -> Prop) s a s' : m s = Done a s' -> Q a s' -> twp m Q s.
Proof. unfold twp. by intros ->. Qed.

Lemma twp_ret {A} (a : A) (Q : A -> S -> Prop) s : Q a s -> twp (ret a) Q s.
Proof. done. Qed.

Lemma twp_gets {A} (f : S -> A) (Q : A -> S -> Prop) s : Q (f s) s -> twp (gets f) Q s.
Proof. done. Qed.

Lemma twp_modify (f : S -> S) (Q : unit -> S -> Prop) s : Q tt (f s) -> twp (modify f) Q s.
Proof. done. Qed.

Lemma twp_bind {A B} (m : M S A) (k : A -> M S B) (Q : B -> S -> Prop) s :
  twp m (fun a s' => twp (k a) Q s') s -> twp (m ≫= k) Q s.
Proof. unfold twp, mbind, M_bind, bind. by destruct (m s). Qed.

Lemma twp_mono {A} (m : M S A) (P Q : A -> S -> Prop) s :
  twp m P s -> (forall a s', P a s' -> Q a s') -> twp m Q s.
Proof. unfold twp. destruct (m s); eauto. Qed.

(** A loop whose body keeps [I]. *)
Lemma twp_for_each {A} (l : list A) (body : A -> M S unit) (I : S -> Prop) s :
  (forall x s, x ∈ l -> I s -> twp (body x) (fun _ => I) s) ->
  I s -> twp (for_each l body) (fun _ => I) s.
Proof.
  intros Hbody. revert s. induction l as [|x l IH]; intros s HI; [done|]. cbn [for_each].
  apply twp_bind. eapply twp_mono; [apply Hbody; [set_solver|done]|].
  intros [] s' HI'. apply IH; [|done]. intros y s0 Hy. apply Hbody. set_solver.
Qed.

Lemma for_each_modify {A} (l : list A) (f : A -> S -> S) s :
  for_each l (fun x => modify (f x)) s = Done tt (fold_left (fun s x => f x s) l s).
Proof.
  revert s. induction l as [|x l IH]; intros s; [done|].
  cbn [for_each fold_left]. by rewrite bind_modify, IH.
Qed.
End Effects.

(** ** Bytes and machine integers *)

Definition byte_of_N (n : N) : byte := default x00 (Byte.of_N (n mod 256)).

Lemma byte_to_of_N n : Byte.to_N (byte_of_N n) = (n mod 256)%N.
Proof.
  unfold byte_of_N.
  destruct (Byte.of_N (n mod 256)) as [b|] eqn:Hb.
  - by apply Byte.to_of_N.
  - pose proof (Byte.to_of_N_option_map (n mod 256)) as Hm. rewrite Hb in Hm. cbn in Hm.
    destruct (N.leb_spec (n mod 256) 255); [done|].
    pose proof (N.mod_lt n 256 ltac:(done)). lia.
Qed.

Lemma byte_of_to_N b : byte_of_N (Byte.to_N b) = b.
Proof.
  unfold byte_of_N. pose proof (Byte.to_N_bounded b).
  rewrite N.mod_small by lia. by rewrite Byte.of_to_N.
Qed.

#[export] Instance byte_eq_dec : EqDecision byte := Byte.byte_eq_dec.

(** [fits w n]: the number [n] is a value of the unsigned [8 * w]-bit type. *)
Definition fits (w : nat) (n : N) : Prop := (n < 256 ^ N.of_nat w)%N.
#[export] Instance fits_dec w n : Decision (fits w n) := N.lt_dec _ _.

Lemma fits_S w n : fits (S w) n -> fits w (n / 256)%N.
Proof.
  unfold fits. rewrite Nat2N.inj_succ, N.pow_succ_r'.
  intros ?. apply N.Div0.div_lt_upper_bound. lia.
Qed.

(** The length of a container, as the [size_t] the code computes with. *)
Definition sizeN {A} (l : list A) : N := N.of_nat (length l).

Lemma sizeN_app {A} (l1 l2 : list A) : sizeN (l1 ++ l2) = (sizeN l1 + sizeN l2)%N.
Proof. unfold sizeN. rewrite length_app. lia. Qed.

Lemma sizeN_cons {A} (x : A) l : sizeN (x :: l) = (1 + sizeN l)%N.
Proof. unfold sizeN. cbn [length]. lia. Qed.

Lemma sizeN_nil {A} : sizeN (@nil A) = 0%N.
Proof. done. Qed.

Lemma take_sizeN_app {A} (l1 l2 : list A) : take (N.to_nat (sizeN l1)) (l1 ++ l2) = l1.
Proof. unfold sizeN. rewrite Nat2N.id. apply take_app_length. Qed.

Lemma drop_sizeN_app {A} (l1 l2 : list A) : drop (N.to_nat (sizeN l1)) (l1 ++ l2) = l2.
Proof. unfold sizeN. rewrite Nat2N.id. apply drop_app_length. Qed.

Lemma sizeN_take {A} n (l : list A) : (n <= sizeN l)%N -> sizeN (take (N.to_nat n) l) = n.
Proof. unfold sizeN. rewrite length_take. lia. Qed.

Lemma sizeN_drop {A} n (l : list A) : sizeN (drop (N.to_nat n) l) = (sizeN l - n)%N.
Proof. unfold sizeN. rewrite length_drop. lia. Qed.

(** ** [std::string]: a sequence of bytes *)

Definition str_bytes (s : string) : list byte := String.list_byte_of_string s.
Definition str_of_bytes (bs : list byte) : string := String.string_of_list_byte bs.

(** [s.size()] and [s.empty()]. *)
Definition str_size (s : string) : N := N.of_nat (String.length s).
Definition str_empty (s : string) : bool := bool_decide (s = EmptyString).

Lemma str_of_bytes_bytes s : str_of_bytes (str_bytes s) = s.
Proof. apply String.string_of_list_byte_of_string. Qed.

Lemma str_bytes_of_bytes bs : str_bytes (str_of_bytes bs) = bs.
Proof. apply String.list_byte_of_string_of_list_byte. Qed.

Lemma length_list_ascii s : length (String.list_ascii_of_string s) = String.length s.
Proof. induction s; cbn; auto. Qed.

Lemma sizeN_str_bytes s : sizeN (str_bytes s) = str_size s.
Proof.
  unfold sizeN, str_size, str_bytes, String.list_byte_of_string.
  by rewrite length_map, length_list_ascii.
Qed.

Lemma str_empty_spec s : str_empty s = true <-> s = EmptyString.
Proof. unfold str_empty. by rewrite bool_decide_eq_true. Qed.

Lemma str_size_of_bytes l : str_size (str_of_bytes l) = sizeN l.
Proof. by rewrite <-sizeN_str_bytes, str_bytes_of_bytes. Qed.

Lemma str_size_pos s : s <> EmptyString -> (0 < str_size s)%N.
Proof. destruct s; unfold str_size; cbn; [done|lia]. Qed.

(** ** [std::map]: a finite map with an iteration order *)

(** [std::less] of the key type, as the test [!(b < a)]. *)
Class KeyOrder (K : Type) : Type := key_leb : K -> K -> bool.
Class KeyOrderLaws (K : Type) `{KeyOrder K} : Prop :=
  key_leb_total : forall a b, key_leb a b = true \/ key_leb b a = true.

#[export] Instance string_order : KeyOrder string := String.leb.
#[export] Instance N_order : KeyOrder N := N.leb.
#[export] Instance string_order_laws : KeyOrderLaws string.
Proof. intros a b. apply String.leb_total. Qed.
#[export] Instance N_order_laws : KeyOrderLaws N.
Proof. intros a b. unfold key_leb, N_order. rewrite !N.leb_le. lia. Qed.

Section Items.
Context {K : Type} `{Countable K, KeyOrder K} {A : Type}.
Implicit Types (m : gmap K A).

Definition item_le (p q : K * A) : Prop := key_leb p.1 q.1 = true.
#[global] Instance item_le_dec p q : Decision (item_le p q) := bool_eq_dec _ _.

(** The elements of the map, first to last. *)
Definition items m : list (K * A) := merge_sort item_le (map_to_list m).

Lemma items_perm m : items m ≡ₚ map_to_list m.
Proof. apply merge_sort_Permutation. Qed.

Lemma elem_of_items m k x : (k, x) ∈ items m <-> m !! k = Some x.
Proof. rewrite items_perm. apply elem_of_map_to_list. Qed.

Lemma items_Forall m (P : K * A -> Prop) :
  Forall P (items m) <-> map_Forall (fun k x => P (k, x)) m.
Proof.
  rewrite items_perm, map_Forall_to_list. apply Forall_iff. by intros [].
Qed.

Lemma items_NoDup m : NoDup (items m).*1.
Proof. rewrite items_perm. apply NoDup_fst_map_to_list. Qed.

Lemma length_items m : length (items m) = size m.
Proof. by rewrite items_perm, length_map_to_list. Qed.

Lemma items_sorted `{!KeyOrderLaws K} m : Sorted item_le (items m).
Proof. apply Sorted_merge_sort. intros p q. apply key_leb_total. Qed.

(** Replaying the elements as assignments rebuilds the map. *)
Lemma fold_insert_items m m0 :
  fold_left (fun acc kx => <[kx.1 := kx.2]> acc) (items m) m0 = m ∪ m0.
Proof.
  assert (Hgen : forall l, NoDup l.*1 ->
    fold_left (fun acc kx => <[kx.1 := kx.2]> acc) l m0 = list_to_map (M:=gmap K A) l ∪ m0).
  { intros l. revert m0. induction l as [|[k x] l IH]; intros m0 Hnd; cbn.
    - by rewrite (left_id_L ∅ (∪)).
    - apply NoDup_cons in Hnd as [Hk Hnd]. rewrite IH by done.
      rewrite <-insert_union_r, <-insert_union_l; [done|].
      by apply not_elem_of_list_to_map_1. }
  rewrite Hgen by apply items_NoDup. f_equal.
  rewrite (list_to_map_proper (items m) (map_to_list m)).
  - apply list_to_map_to_list.
  - apply items_NoDup.
  - apply items_perm.
Qed.
End Items.
