(* ===== verification/Wire.v ===== *)
(** The part of the vendored serialisation library
    [Shared/thirdparty/zpp_bits/zpp_bits.h] that the program's messages go
    through: archives [zpp::bits::out] over a growing vector of bytes and
    [zpp::bits::in] over a byte range, with the default options (native byte
    order, here little-endian; 32-bit container sizes; no allocation limit).

    A [codec] is what the two overloads of [serialize_one] do for one type:
    [enc] is the bytes an [out] archive appends, [dec] what an [in] archive
    reads from its remaining bytes.  Every codec has the two laws of
    [LawfulCodec]: reading inverts writing, and a successful read consumed
    exactly the bytes that writing its result produces. *)
From S2P Require Import Prelude.
Local Open Scope N_scope.

(** ** Definitions *)

(** The error codes of the [in] archive. *)
Inductive errc : Type :=
| result_out_of_range
| bad_message.
#[export] Instance errc_eq_dec : EqDecision errc.
Proof. solve_decision. Defined.

Inductive result (A : Type) : Type :=
| Ok (a : A)
| Err (e : errc).
Arguments Ok {A} a.
Arguments Err {A} e.

#[export] Instance result_ret : MRet result := @Ok.
#[export] Instance result_bind : MBind result := fun A B k r =>
  match r with
  | Ok a => k a
  | Err e => Err e
  end.

Record codec (A : Type) : Type := Codec {
  enc : A -> list byte;
  dec : list byte -> result (A * list byte);
  valid : A -> Prop
}.
Arguments Codec {A} enc dec valid.
Arguments enc {A} c a : rename.
Arguments dec {A} c bs : rename.
Arguments valid {A} c a : rename.

Class LawfulCodec {A} (c : codec A) : Prop := {
  dec_enc : forall a rest, valid c a -> dec c (enc c a ++ rest) = Ok (a, rest);
  dec_canonical : forall bs a rest,
    dec c bs = Ok (a, rest) -> bs = enc c a ++ rest /\ valid c a
}.

(** *** Fundamental types and enumerations: [memcpy] of the object's bytes *)

Fixpoint le_bytes (w : nat) (n : N) : list byte :=
  match w with
  | O => []
  | S w' => byte_of_N n :: le_bytes w' (n / 256)
  end.

Fixpoint le_value (bs : list byte) : N :=
  match bs with
  | [] => 0
  | b :: bs' => Byte.to_N b + 256 * le_value bs'
  end.

(** An unsigned integer of [w] bytes, or an enumeration over one. *)
Definition uint (w : nat) : codec N := Codec
  (le_bytes w)
  (fun bs =>
    if bool_decide (sizeN bs < N.of_nat w) then Err result_out_of_range
    else Ok (le_value (take w bs), drop w bs))
  (fits w).

(** The object representation of a [bool] is one byte, which the archive copies
    whatever it is.  Only 0 and 1 are values: reading an object that holds
    another byte, with [read_bool], is undefined behaviour. *)
Definition bool_rep (b : bool) : byte := if b then x01 else x00.
Coercion bool_rep : bool >-> byte.

Definition read_bool (rep : byte) : option bool :=
  match rep with
  | x00 => Some false
  | x01 => Some true
  | _ => None
  end.

Definition load_bool {S} (rep : byte) : M S bool :=
  match read_bool rep with
  | Some b => ret b
  | None => dangling
  end.

(** A struct of one [bool], copied as its byte. *)
Definition boolean : codec byte := Codec
  (fun rep => [rep])
  (fun bs : list byte =>
    match bs with
    | rep :: bs' => Ok (rep, bs')
    | [] => Err result_out_of_range
    end)
  (fun _ => True).

(** A trivially copyable struct of two [bool]s ([serialize_as_bytes]): both
    bytes are checked for at once and copied by one [memcpy]. *)
Definition boolean_pair : codec (byte * byte) := Codec
  (fun reps => [reps.1; reps.2])
  (fun bs : list byte =>
    match bs with
    | rep1 :: rep2 :: bs' => Ok ((rep1, rep2), bs')
    | _ => Err result_out_of_range
    end)
  (fun _ => True).

(** A type without members writes and reads nothing. *)
Definition empty_struct : codec () := Codec
  (fun _ => []) (fun bs => Ok (tt, bs)) (fun _ => True).

(** *** Members in sequence: [serialize_many] *)

Definition seq_codec {A B} (ca : codec A) (cb : codec B) : codec (A * B) := Codec
  (fun ab => enc ca ab.1 ++ enc cb ab.2)
  (fun bs => '(a, bs1) ← dec ca bs; '(b, bs2) ← dec cb bs1; mret ((a, b), bs2))
  (fun ab => valid ca ab.1 /\ valid cb ab.2).
Declare Scope wire_scope.
Infix "⊗" := seq_codec (at level 40, left associativity) : wire_scope.
Open Scope wire_scope.

(** A struct is its members in sequence, taken apart and put together. *)
Definition struct_codec {A B} (c : codec A) (to : B -> A) (from : A -> B) : codec B := Codec
  (fun b => enc c (to b))
  (fun bs => '(a, bs1) ← dec c bs; mret (from a, bs1))
  (fun b => valid c (to b)).

(** *** Containers: a 32-bit element count, then the elements *)

(** The count is [static_cast<uint32_t>(container.size())]: [uint 4] writes the
    low 32 bits. *)
Definition size_codec : codec N := uint 4.

(** [std::string]: the count and that many bytes.  The [in] archive resizes the
    string to the count first and then compares it with the bytes that are
    left; memory for the resize is taken to be available. *)
Definition std_string : codec string := Codec
  (fun s => enc size_codec (str_size s) ++ str_bytes s)
  (fun bs =>
    '(size, bs1) ← dec size_codec bs;
    if bool_decide (sizeN bs1 < size) then Err result_out_of_range
    else Ok (str_of_bytes (take (N.to_nat size) bs1), drop (N.to_nat size) bs1))
  (fun s => fits 4 (str_size s)).

(** The element loop of a vector of [n] elements.  Every element of the codecs
    used here takes at least one byte, so that a run of more iterations than
    there are bytes ends with a truncated element: the fuel of [vector] is one
    more than the bytes left, and never runs out ([dec_items_fuel]). *)
Fixpoint dec_items {A} (c : codec A) (fuel : nat) (n : N) (bs : list byte) :
    result (list A * list byte) :=
  if bool_decide (n = 0) then Ok ([], bs)
  else
    match fuel with
    | O => Err result_out_of_range
    | S fuel' =>
        '(a, bs1) ← dec c bs;
        '(l, bs2) ← dec_items c fuel' (n - 1) bs1;
        mret (a :: l, bs2)
    end.

Definition enc_items {A} (c : codec A) (l : list A) : list byte := concat (enc c <$> l).

Definition vector {A} (c : codec A) : codec (list A) := Codec
  (fun l => enc size_codec (sizeN l) ++ enc_items c l)
  (fun bs => '(n, bs1) ← dec size_codec bs; dec_items c (S (length bs1)) n bs1)
  (fun l => fits 4 (sizeN l) /\ Forall (valid c) l).

(** *** [std::variant]: one byte for the alternative's index, then its value

    An [alternative] is one type of the variant, with the injection into the
    variant and [std::get_if]. *)
Record alternative (V : Type) : Type := Alternative {
  alt_type : Type;
  alt_codec : codec alt_type;
  alt_in : alt_type -> V;
  alt_get : V -> option alt_type
}.
Arguments Alternative {V alt_type} alt_codec alt_in alt_get.
Arguments alt_type {V} a.
Arguments alt_codec {V} a.
Arguments alt_in {V} a t : rename.
Arguments alt_get {V} a v : rename.

Definition variant_enc {V} (alts : list (alternative V)) (index : V -> nat) (v : V) : list byte :=
  match alts !! index v with
  | Some alt =>
      match alt_get alt v with
      | Some t => enc (uint 1) (N.of_nat (index v)) ++ enc (alt_codec alt) t
      | None => []
      end
  | None => []
  end.

(** An index byte that names no alternative is a bad message. *)
Definition variant_dec {V} (alts : list (alternative V)) (bs : list byte) :
    result (V * list byte) :=
  '(id, bs1) ← dec (uint 1) bs;
  match alts !! N.to_nat id with
  | Some alt => '(t, bs2) ← dec (alt_codec alt) bs1; mret (alt_in alt t, bs2)
  | None => Err bad_message
  end.

Definition variant_valid {V} (alts : list (alternative V)) (index : V -> nat) (v : V) : Prop :=
  match alts !! index v with
  | Some alt =>
      match alt_get alt v with
      | Some t => valid (alt_codec alt) t
      | None => False
      end
  | None => False
  end.

Definition variant {V} (alts : list (alternative V)) (index : V -> nat) : codec V :=
  Codec (variant_enc alts index) (variant_dec alts) (variant_valid alts index).

(** What makes a list of alternatives a variant. *)
Class LawfulVariant {V} (alts : list (alternative V)) (index : V -> nat) : Prop := {
  variant_small : (length alts <= 256)%nat;
  variant_codecs : Forall (fun alt => LawfulCodec (alt_codec alt)) alts;
  variant_get_in : forall i alt t,
    alts !! i = Some alt -> alt_get alt (alt_in alt t) = Some t /\ index (alt_in alt t) = i;
  variant_in_get : forall v alt t,
    alts !! index v = Some alt -> alt_get alt v = Some t -> alt_in alt t = v
}.

(** ** Laws *)

Lemma length_le_bytes w n : length (le_bytes w n) = w.
Proof. revert n. induction w as [|w IH]; intros n; cbn; [done|]. by rewrite IH. Qed.

Lemma le_value_bytes w n : fits w n -> le_value (le_bytes w n) = n.
Proof.
  revert n. induction w as [|w IH]; intros n Hn; cbn.
  - unfold fits in Hn. cbn in Hn. lia.
  - rewrite byte_to_of_N, IH by by apply fits_S.
    pose proof (N.div_mod n 256 ltac:(done)). lia.
Qed.

Lemma le_bytes_value bs : le_bytes (length bs) (le_value bs) = bs.
Proof.
  induction bs as [|b bs IH]; cbn; [done|].
  pose proof (Byte.to_N_bounded b) as Hb.
  assert (Hdiv : (Byte.to_N b + 256 * le_value bs) / 256 = le_value bs).
  { rewrite (N.mul_comm 256), N.div_add by done. rewrite N.div_small by lia. lia. }
  assert (Hmod : (Byte.to_N b + 256 * le_value bs) mod 256 = Byte.to_N b).
  { rewrite (N.mul_comm 256), N.Div0.mod_add. apply N.mod_small. lia. }
  rewrite Hdiv, IH. f_equal.
  unfold byte_of_N. by rewrite Hmod, Byte.of_to_N.
Qed.

Lemma le_value_fits bs : fits (length bs) (le_value bs).
Proof.
  induction bs as [|b bs IH]; cbn; [done|].
  pose proof (Byte.to_N_bounded b). unfold fits in *.
  rewrite Nat2N.inj_succ, N.pow_succ_r'. lia.
Qed.

#[export] Instance uint_lawful w : LawfulCodec (uint w).
Proof.
  split; cbn [enc dec valid uint].
  - intros n rest Hn. rewrite bool_decide_false.
    + rewrite <-(length_le_bytes w n) at 1. rewrite take_app_length.
      rewrite <-(length_le_bytes w n) at 2. rewrite drop_app_length.
      by rewrite le_value_bytes.
    + rewrite sizeN_app. unfold sizeN at 1. rewrite length_le_bytes. lia.
  - intros bs n rest Hd. case_bool_decide as Hlen; [done|].
    injection Hd as <- <-.
    assert (Hw : length (take w bs) = w).
    { rewrite length_take. unfold sizeN in Hlen. lia. }
    pose proof (le_bytes_value (take w bs)) as Hv.
    pose proof (le_value_fits (take w bs)) as Hf. rewrite Hw in Hv, Hf.
    split; [|done]. by rewrite Hv, take_drop.
Qed.

Lemma dec_u8 b bs : dec (uint 1) (b :: bs) = Ok (Byte.to_N b, bs).
Proof.
  cbn [dec uint]. rewrite bool_decide_false by (rewrite sizeN_cons; lia).
  cbn [take drop le_value]. by rewrite N.mul_0_r, N.add_0_r.
Qed.

Lemma uint_size w n : sizeN (enc (uint w) n) = N.of_nat w.
Proof. cbn. unfold sizeN. by rewrite length_le_bytes. Qed.

Lemma read_bool_rep b : read_bool (bool_rep b) = Some b.
Proof. by destruct b. Qed.

Lemma load_bool_rep {S} b (s : S) : load_bool (bool_rep b) s = Done b s.
Proof. unfold load_bool. by rewrite read_bool_rep. Qed.

Lemma read_bool_some rep b : read_bool rep = Some b -> rep = bool_rep b.
Proof. by destruct rep; intros [= <-]. Qed.

#[export] Instance boolean_lawful : LawfulCodec boolean.
Proof. split; [done|]. intros [|rep bs] a rest [= <- <-]. done. Qed.

#[export] Instance boolean_pair_lawful : LawfulCodec boolean_pair.
Proof. split; [by intros []|]. intros [|rep1 [|rep2 bs]] a rest [= <- <-]. done. Qed.

#[export] Instance empty_struct_lawful : LawfulCodec empty_struct.
Proof. split; cbn; [by intros [] ??|]. intros bs [] rest [= <-]. done. Qed.

(** Case analysis on the first read of a compound one. *)
Ltac dec_case Hd x bs1 Hx :=
  match type of Hd with
  | context [dec ?c ?bs] =>
      destruct (dec c bs) as [[x bs1]|] eqn:Hx;
      cbn -[dec_items] in Hd; [|discriminate Hd]
  end.

#[export] Instance seq_codec_lawful {A B} (ca : codec A) (cb : codec B) :
  LawfulCodec ca -> LawfulCodec cb -> LawfulCodec (ca ⊗ cb).
Proof.
  intros La Lb. split; cbn.
  - intros [a b] rest [Ha Hb]; cbn in *. rewrite <-app_assoc.
    rewrite dec_enc by done. cbn. by rewrite dec_enc.
  - intros bs [a b] rest Hd.
    dec_case Hd a' bs1 Ha. dec_case Hd b' bs2 Hb. injection Hd as <- <- <-.
    apply dec_canonical in Ha as [-> ?]. apply dec_canonical in Hb as [-> ?].
    by rewrite <-app_assoc.
Qed.

Lemma struct_codec_lawful {A B} (c : codec A) (to : B -> A) (from : A -> B) :
  LawfulCodec c -> (forall b, from (to b) = b) -> (forall a, to (from a) = a) ->
  LawfulCodec (struct_codec c to from).
Proof.
  intros Lc Hft Htf. split; cbn.
  - intros b rest Hb. rewrite dec_enc by done. cbn. by rewrite Hft.
  - intros bs b rest Hd. dec_case Hd a bs1 Ha.
    injection Hd as <- <-. apply dec_canonical in Ha as [-> ?]. by rewrite Htf.
Qed.

#[export] Instance std_string_lawful : LawfulCodec std_string.
Proof.
  split; cbn [enc dec valid std_string].
  - intros s rest Hs. rewrite <-app_assoc, dec_enc by done. cbn.
    rewrite bool_decide_false by (rewrite sizeN_app, sizeN_str_bytes; lia).
    by rewrite <-sizeN_str_bytes, take_sizeN_app, drop_sizeN_app, str_of_bytes_bytes.
  - intros bs s rest Hd. dec_case Hd n bs1 Hn.
    case_bool_decide as Hlen; [done|]. injection Hd as <- <-.
    apply dec_canonical in Hn as [-> Hv].
    assert (str_size (str_of_bytes (take (N.to_nat n) bs1)) = n) as ->.
    { rewrite str_size_of_bytes. apply sizeN_take. lia. }
    by rewrite str_bytes_of_bytes, <-app_assoc, take_drop.
Qed.

Lemma std_string_size s : sizeN (enc std_string s) = 4 + str_size s.
Proof.
  change (enc std_string s) with (enc (uint 4) (str_size s) ++ str_bytes s).
  by rewrite sizeN_app, uint_size, sizeN_str_bytes.
Qed.

Section Vector.
Context {A : Type} (c : codec A) `{!LawfulCodec c}.
Hypothesis enc_nonempty : forall a, valid c a -> enc c a <> [].

Lemma enc_items_cons a l : enc_items c (a :: l) = enc c a ++ enc_items c l.
Proof. done. Qed.

Lemma dec_items_enc l rest fuel :
  Forall (valid c) l -> (length l <= fuel)%nat ->
  dec_items c fuel (sizeN l) (enc_items c l ++ rest) = Ok (l, rest).
Proof.
  intros Hl. revert fuel. induction Hl as [|a l Ha Hl IH]; intros fuel Hfuel.
  - by destruct fuel.
  - destruct fuel as [|fuel]; cbn [length] in Hfuel; [lia|]. cbn [dec_items].
    rewrite sizeN_cons, bool_decide_false by lia.
    rewrite enc_items_cons, <-app_assoc, dec_enc by done. cbn.
    replace (1 + sizeN l - 1) with (sizeN l) by lia.
    rewrite IH by lia. done.
Qed.

Lemma dec_items_canonical fuel n bs l rest :
  dec_items c fuel n bs = Ok (l, rest) ->
  bs = enc_items c l ++ rest /\ sizeN l = n /\ Forall (valid c) l.
Proof.
  revert n bs l. induction fuel as [|fuel IH]; intros n bs l Hd; cbn in Hd;
    case_bool_decide as Hn; try done.
  - injection Hd as <- <-. done.
  - injection Hd as <- <-. done.
  - dec_case Hd a bs1 Ha.
    destruct (dec_items c fuel (n - 1) bs1) as [[l' bs2]|] eqn:Hl; cbn in Hd; [|done].
    injection Hd as <- <-. apply IH in Hl as (-> & Hsize & Hv).
    apply dec_canonical in Ha as [-> ?].
    rewrite sizeN_cons, Hsize. split_and!; [|lia|by constructor].
    by rewrite enc_items_cons, <-app_assoc.
Qed.

Lemma enc_items_length l : Forall (valid c) l -> (length l <= length (enc_items c l))%nat.
Proof.
  induction 1 as [|a l Ha Hl IH]; [done|].
  rewrite enc_items_cons, length_app. pose proof (enc_nonempty a Ha) as Hne.
  cbn [length]. destruct (enc c a); [done|]. cbn [length]. lia.
Qed.

Lemma vector_lawful : LawfulCodec (vector c).
Proof.
  split; cbn [enc dec valid vector].
  - intros l rest [Hsize Hl]. rewrite <-app_assoc, dec_enc by done. cbn -[dec_items].
    apply dec_items_enc; [done|]. rewrite length_app.
    pose proof (enc_items_length l Hl). lia.
  - intros bs l rest Hd. dec_case Hd n bs1 Hn.
    apply dec_canonical in Hn as [-> Hv].
    apply dec_items_canonical in Hd as (-> & <- & Hl).
    by rewrite <-app_assoc.
Qed.

(** The fuel of [vector] is enough: more fuel never changes the answer. *)
Lemma dec_items_fuel f1 f2 n bs :
  (length bs < f1)%nat -> (f1 <= f2)%nat -> dec_items c f2 n bs = dec_items c f1 n bs.
Proof.
  revert f2 n bs. induction f1 as [|f1 IH]; intros f2 n bs Hlen Hle; [lia|].
  destruct f2 as [|f2]; [lia|]. cbn [dec_items].
  case_bool_decide; [done|].
  destruct (dec c bs) as [[a bs1]|] eqn:Ha; cbn; [|done].
  apply dec_canonical in Ha as [-> Hva].
  rewrite length_app in Hlen. pose proof (enc_nonempty a Hva).
  assert (length bs1 < f1)%nat by (destruct (enc c a); cbn in *; [done|lia]).
  by rewrite (IH f2) by lia.
Qed.
End Vector.

Lemma variant_codec_lawful {V} (alts : list (alternative V)) index i alt :
  LawfulVariant alts index -> alts !! i = Some alt -> LawfulCodec (alt_codec alt).
Proof.
  intros L Halt. pose proof variant_codecs as Hf.
  exact (proj1 (Forall_lookup _ _) Hf i alt Halt).
Qed.

#[export] Instance variant_lawful {V} (alts : list (alternative V)) (index : V -> nat) :
  LawfulVariant alts index -> LawfulCodec (variant alts index).
Proof.
  intros L. split; cbn [enc dec valid variant].
  - intros v rest. unfold variant_valid, variant_enc, variant_dec.
    destruct (alts !! index v) as [alt|] eqn:Halt; [|done].
    destruct (alt_get alt v) as [t|] eqn:Ht; [|done]. intros Hv.
    pose proof (variant_codec_lawful _ _ _ _ L Halt).
    rewrite <-app_assoc, dec_enc.
    + cbn -[dec uint]. rewrite Nat2N.id, Halt, dec_enc by done. cbn.
      by rewrite (variant_in_get v alt t).
    + apply lookup_lt_Some in Halt. pose proof variant_small. cbn. unfold fits. lia.
  - intros bs v rest Hd. unfold variant_dec in Hd. dec_case Hd ix bs1 Hid.
    destruct (alts !! N.to_nat ix) as [alt|] eqn:Halt; [|done].
    dec_case Hd t bs2 Ht. injection Hd as <- <-.
    pose proof (variant_codec_lawful _ _ _ _ L Halt).
    apply dec_canonical in Hid as [-> _]. apply dec_canonical in Ht as [-> ?].
    destruct (variant_get_in _ _ t Halt) as [Hget Hindex].
    unfold variant_enc, variant_valid. rewrite Hindex, Halt, Hget, N2Nat.id.
    by rewrite <-app_assoc.
Qed.
