(* ===== verification/Protocol.v ===== *)
(** The messages of the server connection: [Shared/protocol.h].

    Module [Proto] is the namespace [Weyvelength::Proto]: the message structs,
    the [ServerMessage] variant with its alternatives in wire order, and the
    limits.  Numbers are [N]; [valid message_codec] says that each one is a
    value of its C++ type and that strings have a 32-bit length.  The theorems
    are the round trip and the canonicity of the wire format, and the sizes of
    the messages on the wire. *)
From S2P Require Import Prelude Wire.
Local Open Scope N_scope.

Module Proto.

(** *** Enumerations over [uint8_t]: any byte is a value of the type *)

Definition RoomErrorCode : Type := N.
Definition AlreadyInRoom : RoomErrorCode := 0.
Definition NoSuchRoom : RoomErrorCode := 1.
Definition NotInRoom : RoomErrorCode := 2.
Definition NotHost : RoomErrorCode := 3.
Definition BadRoomData : RoomErrorCode := 4.
Definition NoSuchMember : RoomErrorCode := 5.
Definition RoomClosed : RoomErrorCode := 6.
Definition BadPassword : RoomErrorCode := 7.
Definition Banned : RoomErrorCode := 8.

Definition P2PSignalKind : Type := N.
Definition Description : P2PSignalKind := 0.
Definition Candidate : P2PSignalKind := 1.
Definition GatheringDone : P2PSignalKind := 2.

(** *** Structs that are not messages, or are used outside the variant *)

Record TurnServer : Type := mkTurnServer {
  turn_host : string;
  turn_port : N;
  turn_username : string;
  turn_password : string
}.

Record IceServers : Type := mkIceServers {
  stun_host : string;
  stun_port : N;
  turn : list TurnServer
}.

(** All traffic on the server connection, both directions.  A [bool] member is
    its byte ([bool_rep]). *)
Inductive ServerMessage : Type :=
| Heartbeat (timestamp : N)
| AssignClientId (id : N)
| AssignRoomId (id : string)
| CreateRoom
| JoinRoom (id password : string)
| RoomError (code : RoomErrorCode) (context : string)
| RoomChat (from : N) (text : string)
| LeaveRoom
| PeerJoined (id : N)
| PeerLeft (id : N)
| HostChanged (id : N)
| SetRoomData (key value : string)
| RoomDataChanged (key value : string)
| SetMemberData (key value : string)
| MemberDataChanged (id : N) (key value : string)
| KickMember (id : N)
| TransferHost (id : N)
| SetRoomJoinable (opened : byte)
| SetRoomPassword (password : string)
| KickedByHost
| RoomAccessChanged (opened passworded : byte)
| BanMember (id : N)
| BannedByHost
| P2PSignal (id : N) (kind : P2PSignalKind) (payload : string)
| IceServersMsg (ice : IceServers).

(** [variant::index()]. *)
Definition index (msg : ServerMessage) : nat :=
  match msg with
  | Heartbeat _ => 0
  | AssignClientId _ => 1
  | AssignRoomId _ => 2
  | CreateRoom => 3
  | JoinRoom _ _ => 4
  | RoomError _ _ => 5
  | RoomChat _ _ => 6
  | LeaveRoom => 7
  | PeerJoined _ => 8
  | PeerLeft _ => 9
  | HostChanged _ => 10
  | SetRoomData _ _ => 11
  | RoomDataChanged _ _ => 12
  | SetMemberData _ _ => 13
  | MemberDataChanged _ _ _ => 14
  | KickMember _ => 15
  | TransferHost _ => 16
  | SetRoomJoinable _ => 17
  | SetRoomPassword _ => 18
  | KickedByHost => 19
  | RoomAccessChanged _ _ => 20
  | BanMember _ => 21
  | BannedByHost => 22
  | P2PSignal _ _ _ => 23
  | IceServersMsg _ => 24
  end%nat.

(** *** Limits *)

Definition max_p2p_message_size : N := 1024.
Definition max_message_size : N := 1024.
Definition max_room_data_key : N := 128.
Definition max_room_data_value : N := 512.
Definition max_room_data_keys : nat := 64.
Definition max_member_data_keys : nat := 16.
Definition max_room_password : N := 64.

(** *** The wire format: members in declaration order, behind the index byte *)

Definition turn_server_codec : codec TurnServer := struct_codec
  (std_string ⊗ uint 2 ⊗ std_string ⊗ std_string)
  (fun t => (turn_host t, turn_port t, turn_username t, turn_password t))
  (fun '(h, p, u, w) => mkTurnServer h p u w).

Definition ice_servers_codec : codec IceServers := struct_codec
  (std_string ⊗ uint 2 ⊗ vector turn_server_codec)
  (fun i => (stun_host i, stun_port i, turn i))
  (fun '(h, p, t) => mkIceServers h p t).

Definition alternatives : list (alternative ServerMessage) := [
  Alternative (uint 8) Heartbeat
    (fun m => match m with Heartbeat t => Some t | _ => None end);
  Alternative (uint 4) AssignClientId
    (fun m => match m with AssignClientId i => Some i | _ => None end);
  Alternative std_string AssignRoomId
    (fun m => match m with AssignRoomId i => Some i | _ => None end);
  Alternative empty_struct (fun _ => CreateRoom)
    (fun m => match m with CreateRoom => Some () | _ => None end);
  Alternative (std_string ⊗ std_string) (uncurry JoinRoom)
    (fun m => match m with JoinRoom i p => Some (i, p) | _ => None end);
  Alternative (uint 1 ⊗ std_string) (uncurry RoomError)
    (fun m => match m with RoomError c x => Some (c, x) | _ => None end);
  Alternative (uint 4 ⊗ std_string) (uncurry RoomChat)
    (fun m => match m with RoomChat f t => Some (f, t) | _ => None end);
  Alternative empty_struct (fun _ => LeaveRoom)
    (fun m => match m with LeaveRoom => Some () | _ => None end);
  Alternative (uint 4) PeerJoined
    (fun m => match m with PeerJoined i => Some i | _ => None end);
  Alternative (uint 4) PeerLeft
    (fun m => match m with PeerLeft i => Some i | _ => None end);
  Alternative (uint 4) HostChanged
    (fun m => match m with HostChanged i => Some i | _ => None end);
  Alternative (std_string ⊗ std_string) (uncurry SetRoomData)
    (fun m => match m with SetRoomData k v => Some (k, v) | _ => None end);
  Alternative (std_string ⊗ std_string) (uncurry RoomDataChanged)
    (fun m => match m with RoomDataChanged k v => Some (k, v) | _ => None end);
  Alternative (std_string ⊗ std_string) (uncurry SetMemberData)
    (fun m => match m with SetMemberData k v => Some (k, v) | _ => None end);
  Alternative (uint 4 ⊗ std_string ⊗ std_string) (uncurry (uncurry MemberDataChanged))
    (fun m => match m with MemberDataChanged i k v => Some (i, k, v) | _ => None end);
  Alternative (uint 4) KickMember
    (fun m => match m with KickMember i => Some i | _ => None end);
  Alternative (uint 4) TransferHost
    (fun m => match m with TransferHost i => Some i | _ => None end);
  Alternative boolean SetRoomJoinable
    (fun m => match m with SetRoomJoinable o => Some o | _ => None end);
  Alternative std_string SetRoomPassword
    (fun m => match m with SetRoomPassword p => Some p | _ => None end);
  Alternative empty_struct (fun _ => KickedByHost)
    (fun m => match m with KickedByHost => Some () | _ => None end);
  Alternative boolean_pair (uncurry RoomAccessChanged)
    (fun m => match m with RoomAccessChanged o p => Some (o, p) | _ => None end);
  Alternative (uint 4) BanMember
    (fun m => match m with BanMember i => Some i | _ => None end);
  Alternative empty_struct (fun _ => BannedByHost)
    (fun m => match m with BannedByHost => Some () | _ => None end);
  Alternative (uint 4 ⊗ uint 1 ⊗ std_string) (uncurry (uncurry P2PSignal))
    (fun m => match m with P2PSignal i k p => Some (i, k, p) | _ => None end);
  Alternative ice_servers_codec IceServersMsg
    (fun m => match m with IceServersMsg i => Some i | _ => None end)
].

Definition message_codec : codec ServerMessage := variant alternatives index.

End Proto.

(** [zpp::bits::out{ body }(msg)] into an empty vector, and
    [zpp::bits::in{ body }(msg)], which leaves trailing bytes unread. *)
Definition serialize (msg : Proto.ServerMessage) : list byte := enc Proto.message_codec msg.

Definition deserialize (body : list byte) : result Proto.ServerMessage :=
  '(msg, _) ← dec Proto.message_codec body; mret msg.

(** The message's numbers and lengths are values of their C++ types. *)
Definition valid_message (msg : Proto.ServerMessage) : Prop := valid Proto.message_codec msg.

(** The [bool]s of the message have values, as those of a message that a program
    builds do. *)
Definition has_value (rep : byte) : Prop := is_Some (read_bool rep).
Definition readable (msg : Proto.ServerMessage) : Prop :=
  match msg with
  | Proto.SetRoomJoinable opened => has_value opened
  | Proto.RoomAccessChanged opened passworded => has_value opened /\ has_value passworded
  | _ => True
  end.

(** The number of bytes a message takes on the wire. *)
Definition turn_server_size (t : Proto.TurnServer) : N :=
  14 + str_size (Proto.turn_host t) + str_size (Proto.turn_username t)
     + str_size (Proto.turn_password t).

Definition payload_size (msg : Proto.ServerMessage) : N :=
  match msg with
  | Proto.Heartbeat _ => 8
  | Proto.AssignClientId _ | Proto.PeerJoined _ | Proto.PeerLeft _ | Proto.HostChanged _
  | Proto.KickMember _ | Proto.TransferHost _ | Proto.BanMember _ => 4
  | Proto.CreateRoom | Proto.LeaveRoom | Proto.KickedByHost | Proto.BannedByHost => 0
  | Proto.AssignRoomId s | Proto.SetRoomPassword s => 4 + str_size s
  | Proto.JoinRoom s1 s2 | Proto.SetRoomData s1 s2 | Proto.RoomDataChanged s1 s2
  | Proto.SetMemberData s1 s2 => 8 + str_size s1 + str_size s2
  | Proto.RoomError _ s => 5 + str_size s
  | Proto.RoomChat _ s => 8 + str_size s
  | Proto.MemberDataChanged _ s1 s2 => 12 + str_size s1 + str_size s2
  | Proto.SetRoomJoinable _ => 1
  | Proto.RoomAccessChanged _ _ => 2
  | Proto.P2PSignal _ _ s => 9 + str_size s
  | Proto.IceServersMsg i =>
      10 + str_size (Proto.stun_host i) + foldr N.add 0 (turn_server_size <$> Proto.turn i)
  end.

Definition wire_size (msg : Proto.ServerMessage) : N := 1 + payload_size msg.

(** ** Laws *)

#[export] Instance TurnServer_eq_dec : EqDecision Proto.TurnServer.
Proof. solve_decision. Defined.
#[export] Instance IceServers_eq_dec : EqDecision Proto.IceServers.
Proof. solve_decision. Defined.
#[export] Instance ServerMessage_eq_dec : EqDecision Proto.ServerMessage.
Proof. solve_decision. Defined.

#[export] Instance turn_server_lawful : LawfulCodec Proto.turn_server_codec.
Proof. apply struct_codec_lawful; [apply _|by intros []|by intros [[[] ]]]. Qed.

#[export] Instance ice_servers_lawful : LawfulCodec Proto.ice_servers_codec.
Proof.
  apply struct_codec_lawful; [|by intros []|by intros [[]]].
  apply seq_codec_lawful; [apply _|]. apply vector_lawful; [apply _|]. by intros [] _.
Qed.

#[export] Instance alternatives_lawful : LawfulVariant Proto.alternatives Proto.index.
Proof.
  split.
  - cbn. lia.
  - unfold Proto.alternatives. rewrite !Forall_cons, Forall_nil.
    split_and!; [apply _..|done].
  - intros i alt t Halt.
    do 25 (destruct i as [|i]; [injection Halt as <-; cbn in t;
      first [done | by destruct t | by destruct t as [[] ?] ]|]).
    done.
  - intros v alt t Halt Hget.
    destruct v; injection Halt as <-; by injection Hget as <-.
Qed.


(** Sizes: unfold the encoder of a struct and add up its members. *)
Ltac member_sizes :=
  repeat match goal with
  | |- context [enc (?a ⊗ ?b) ?p] =>
      change (enc (a ⊗ b) p) with (enc a (fst p) ++ enc b (snd p)); cbn [fst snd]
  | |- context [enc boolean ?b] => change (enc boolean b) with [b : byte]
  | |- context [enc boolean_pair ?p] => change (enc boolean_pair p) with [p.1; p.2]
  | |- context [enc empty_struct ?b] => change (enc empty_struct b) with (@nil byte)
  | |- context [enc (vector ?c) ?l] =>
      change (enc (vector c) l) with (enc (uint 4) (sizeN l) ++ enc_items c l)
  | |- context [enc (struct_codec ?c ?to ?from) ?b] =>
      change (enc (struct_codec c to from) b) with (enc c (to b)); cbn beta iota
  end;
  rewrite ?sizeN_app, ?sizeN_cons, ?sizeN_nil, ?uint_size, ?std_string_size.

#[export] Instance has_value_dec rep : Decision (has_value rep).
Proof. unfold has_value. apply _. Defined.
#[export] Instance readable_dec msg : Decision (readable msg).
Proof. destruct msg; cbn; apply _. Defined.

Lemma has_value_rep (b : bool) : has_value b.
Proof. unfold has_value. rewrite read_bool_rep. by exists b. Qed.
#[export] Hint Resolve has_value_rep : core.

Lemma size_turn_server t : sizeN (enc Proto.turn_server_codec t) = turn_server_size t.
Proof. unfold Proto.turn_server_codec, turn_server_size. member_sizes. lia. Qed.

Lemma size_turn_servers l :
  sizeN (enc_items Proto.turn_server_codec l) = foldr N.add 0 (turn_server_size <$> l).
Proof.
  induction l as [|t l IH]; [done|].
  rewrite enc_items_cons, sizeN_app, size_turn_server, IH. done.
Qed.

Lemma serialize_alternative msg alt t :
  Proto.alternatives !! Proto.index msg = Some alt -> alt_get alt msg = Some t ->
  serialize msg = enc (uint 1) (N.of_nat (Proto.index msg)) ++ enc (alt_codec alt) t.
Proof. intros Halt Hget. cbn. unfold variant_enc. by rewrite Halt, Hget. Qed.

Lemma size_serialize msg : sizeN (serialize msg) = wire_size msg.
Proof.
  destruct msg; erewrite serialize_alternative by reflexivity;
    cbn [alt_codec]; unfold Proto.ice_servers_codec; member_sizes;
    rewrite ?size_turn_servers; unfold wire_size; cbn [payload_size]; lia.
Qed.

(** ** Properties *)

(** Claim C35: reading a message back from its serialised bytes gives the same
    message, for every message whose numbers and lengths fit their C++ types,
    and whatever bytes follow it in the buffer. *)
Theorem message_roundtrip (msg : Proto.ServerMessage) (rest : list byte)
    (Hvalid : valid_message msg) :
  deserialize (serialize msg ++ rest) = Ok msg.
Proof. unfold deserialize, serialize. by rewrite dec_enc by done. Qed.

Lemma message_roundtrip_witness :
  deserialize (serialize (Proto.P2PSignal 7 Proto.Candidate "a=candidate") ++ [x2a])
  = Ok (Proto.P2PSignal 7 Proto.Candidate "a=candidate").
Proof. apply message_roundtrip. vm_compute. done. Defined.

(** The wire format is canonical.  Whenever the bytes of a body read
    as a message, the body starts with exactly the bytes that serialising this
    message produces, and the message's fields fit their types: no two byte
    strings of the same length mean the same message. *)
Theorem message_canonical (body : list byte) (msg : Proto.ServerMessage)
    (Hread : deserialize body = Ok msg) :
  valid_message msg /\ exists rest, body = serialize msg ++ rest.
Proof.
  unfold deserialize in Hread.
  destruct (dec Proto.message_codec body) as [[m rest]|] eqn:Hdec; [|done].
  injection Hread as ->. apply dec_canonical in Hdec as [-> ?]. eauto.
Qed.

Lemma message_canonical_witness :
  valid_message (Proto.RoomChat 3 "hi")
  /\ exists rest, [x06; x03; x00; x00; x00; x02; x00; x00; x00; x68; x69; xff]
                  = serialize (Proto.RoomChat 3 "hi") ++ rest.
Proof. apply message_canonical. vm_compute. reflexivity. Defined.

(** Reading a body copies bytes only, and is always defined.  It leaves a [bool]
    without a value for exactly these bodies: a [SetRoomJoinable] whose byte is
    neither 0 nor 1, and a [RoomAccessChanged] of two bytes, one of which is
    neither; a [RoomAccessChanged] of one byte is refused, whatever it is. *)
Theorem deserialize_without_value (body : list byte) :
  (exists msg, deserialize body = Ok msg /\ ~ readable msg) <->
  exists rep rest, read_bool rep = None /\
    (body = x11 :: rep :: rest \/
     exists other, body = x14 :: rep :: other :: rest \/ body = x14 :: other :: rep :: rest).
Proof.
  split.
  - intros (msg & Hread & Hbad).
    destruct (message_canonical body msg Hread) as [_ [rest ->]].
    destruct msg; try (by destruct Hbad); cbn in Hbad |- *.
    + exists opened, rest. split; [|by left]. by apply eq_None_not_Some.
    + apply not_and_l in Hbad as [Hbad|Hbad]; apply eq_None_not_Some in Hbad; eexists _, rest; (split; [exact Hbad|]);
        right; eexists; [left|right]; reflexivity.
  - intros (rep & rest & Hrep & [->|(other & [-> | ->])]); unfold deserialize;
      cbn [dec Proto.message_codec variant]; unfold variant_dec; rewrite dec_u8; eexists; (split; [reflexivity|]); cbn;
      unfold has_value; rewrite Hrep; first [by intros []|by intros [[] _]|by intros [_ []]].
Qed.

(** One key and value within the limits, with the owner's id or
    without, is a message of at most 653 bytes, so it always travels in a
    single frame. *)
Theorem data_message_one_frame (id : N) (key value : string)
    (Hkey : str_size key <= Proto.max_room_data_key)
    (Hvalue : str_size value <= Proto.max_room_data_value) :
  sizeN (serialize (Proto.MemberDataChanged id key value)) <= 653 /\
  sizeN (serialize (Proto.RoomDataChanged key value)) <= 649 /\
  653 < Proto.max_message_size.
Proof.
  rewrite !size_serialize. unfold wire_size, payload_size.
  unfold Proto.max_room_data_key, Proto.max_room_data_value in *.
  split_and!; [lia..|done].
Qed.

Lemma data_message_one_frame_witness :
  sizeN (serialize (Proto.MemberDataChanged 5 "char" "akuma")) <= 653 /\
  sizeN (serialize (Proto.RoomDataChanged "char" "akuma")) <= 649 /\
  653 < Proto.max_message_size.
Proof. apply data_message_one_frame; vm_compute; discriminate. Defined.
