(* ===== verification/Framing.v ===== *)
(** Wire framing, [Shared/framing.h]: a message is one or more frames, each a
    32-bit header and a fragment.  [FrameMessage], [DecodeFrameHeader] and
    [AppendFragment] are the three functions of the header; [framed] says what
    [FrameMessage] writes, independently of its loop, and is what the two
    readers (the server's [ReadLoop], the client's [CarveServer]) are proved
    against. *)
From S2P Require Import Prelude Wire Protocol.
Local Open Scope N_scope.

(** ** Definitions *)

Definition frame_header_size : N := 4.
Definition frame_more_flag : N := 0x80000000.
Definition max_reassembled_size : N := 16 * Proto.max_message_size.

(** [~frame_more_flag] on [uint32_t]. *)
Definition frame_length_mask : N := N.lxor 0xFFFFFFFF frame_more_flag.

(** The four header bytes of a frame: [chunk | (more ? frame_more_flag : 0)]. *)
Definition frame_header (chunk : N) (more : bool) : list byte :=
  enc (uint 4) (N.lor chunk (if more then frame_more_flag else 0)).

(** The do-while loop of [FrameMessage]; [None] means the fuel ran out. *)
Fixpoint frame_loop (fuel : nat) (body : list byte) (offset : N) (frames : list byte) :
    option (list byte) :=
  match fuel with
  | O => None
  | S fuel' =>
      let chunk := N.min Proto.max_message_size (sizeN body - offset) in
      let more := bool_decide (offset + chunk < sizeN body) in
      let frames' := frames ++ frame_header chunk more
                       ++ take (N.to_nat chunk) (drop (N.to_nat offset) body) in
      if bool_decide (offset + chunk < sizeN body)
      then frame_loop fuel' body (offset + chunk) frames'
      else Some frames'
  end.

(** One iteration per byte of the body, and one more, is enough fuel. *)
Definition FrameMessage (msg : Proto.ServerMessage) : list byte :=
  let body := serialize msg in
  default [] (frame_loop (S (length body)) body 0 []).

(** The fragment length and the more-fragments flag; [None] for false. *)
Definition DecodeFrameHeader (header : list byte) : option (N * bool) :=
  match dec (uint 4) header with
  | Ok (raw, _) =>
      let more := negb (bool_decide (N.land raw frame_more_flag = 0)) in
      let len := N.land raw frame_length_mask in
      if bool_decide (len <= Proto.max_message_size) then Some (len, more) else None
  | _ => None
  end.

(** The reassembled message with the fragment appended; [None] for false. *)
Definition AppendFragment (body payload : list byte) : option (list byte) :=
  if bool_decide (max_reassembled_size < sizeN body + sizeN payload) then None
  else Some (body ++ payload).

(** The frames of a body, as a relation: full fragments with the flag set,
    then one last fragment with the flag clear. *)
Inductive framed : list byte -> list byte -> Prop :=
| framed_last frag :
    sizeN frag <= Proto.max_message_size ->
    framed frag (frame_header (sizeN frag) false ++ frag)
| framed_more frag body stream :
    sizeN frag = Proto.max_message_size -> body <> [] -> framed body stream ->
    framed (frag ++ body) (frame_header (sizeN frag) true ++ frag ++ stream).

(** The bytes of a sequence of messages, framed back to back. *)
Definition frame_all (msgs : list Proto.ServerMessage) : list byte :=
  concat (FrameMessage <$> msgs).

(** A message the readers accept: its values fit their types, its bytes the cap
    on a reassembled message. *)
Definition acceptable (msg : Proto.ServerMessage) : Prop :=
  valid_message msg /\ wire_size msg <= max_reassembled_size.

(** One that a program builds: its [bool]s have values. *)
Definition sendable (msg : Proto.ServerMessage) : Prop := acceptable msg /\ readable msg.

(** ** Lemmas *)

Lemma deserialize_serialize msg : valid_message msg -> deserialize (serialize msg) = Ok msg.
Proof.
  intros Hvalid. unfold deserialize, serialize. rewrite <-(app_nil_r (enc _ msg)).
  by rewrite (dec_enc (c := Proto.message_codec)).
Qed.

Lemma frame_all_app m1 m2 : frame_all (m1 ++ m2) = frame_all m1 ++ frame_all m2.
Proof. unfold frame_all. by rewrite fmap_app, concat_app. Qed.

Lemma frame_all_cons m ms : frame_all (m :: ms) = FrameMessage m ++ frame_all ms.
Proof. done. Qed.

Lemma sizeN_frame_header chunk more : sizeN (frame_header chunk more) = frame_header_size.
Proof. apply uint_size. Qed.

Lemma take_header chunk more rest :
  take (N.to_nat frame_header_size) (frame_header chunk more ++ rest) = frame_header chunk more.
Proof. rewrite <-(sizeN_frame_header chunk more). apply take_sizeN_app. Qed.

Lemma drop_header chunk more rest :
  drop (N.to_nat frame_header_size) (frame_header chunk more ++ rest) = rest.
Proof. rewrite <-(sizeN_frame_header chunk more). apply drop_sizeN_app. Qed.

Lemma land_small n mask k : n < 2 ^ k -> N.land (N.ones k) mask = 0 -> N.land n mask = 0.
Proof.
  intros Hn Hmask.
  rewrite <-(N.mod_small n (2 ^ k)), <-N.land_ones, <-N.land_assoc, Hmask by done.
  apply N.land_0_r.
Qed.

Lemma decode_header chunk more :
  chunk <= Proto.max_message_size ->
  DecodeFrameHeader (frame_header chunk more) = Some (chunk, more).
Proof.
  unfold Proto.max_message_size. intros Hchunk.
  assert (Hmask : N.land chunk frame_length_mask = chunk).
  { change frame_length_mask with (N.ones 31). rewrite N.land_ones.
    apply N.mod_small. lia. }
  assert (Hflag : N.land chunk frame_more_flag = 0).
  { apply (land_small _ _ 31); [lia|reflexivity]. }
  unfold DecodeFrameHeader, frame_header.
  rewrite <-(app_nil_r (enc (uint 4) _)), dec_enc.
  - rewrite !N.land_lor_distr_l, Hmask, Hflag.
    assert (N.land (if more then frame_more_flag else 0) frame_length_mask = 0) as ->
      by by destruct more.
    rewrite !N.lor_0_r, N.lor_0_l, bool_decide_true by done.
    by destruct more.
  - cbn [valid uint]. unfold fits. change (256 ^ N.of_nat 4) with (2 ^ 32).
    destruct (decide (N.lor chunk (if more then frame_more_flag else 0) = 0)) as [->|Hpos]; [done|].
    apply N.log2_lt_pow2; [lia|].
    rewrite N.log2_lor. apply N.max_lub_lt.
    + destruct (decide (chunk = 0)) as [->|]; [done|].
      apply N.log2_lt_pow2; lia.
    + by destruct more.
Qed.

(** Every iteration of the loop but the last consumes a full fragment. *)
Lemma frame_loop_framed fuel body offset frames :
  offset < sizeN body \/ (offset = 0 /\ body = []) ->
  (N.to_nat (sizeN body - offset) < fuel)%nat ->
  exists stream, frame_loop fuel body offset frames = Some (frames ++ stream)
                 /\ framed (drop (N.to_nat offset) body) stream.
Proof.
  revert offset frames. induction fuel as [|fuel IH]; intros offset frames Hoff Hfuel; [lia|].
  cbn [frame_loop]. unfold Proto.max_message_size.
  set (chunk := N.min 1024 (sizeN body - offset)).
  set (rest := drop (N.to_nat offset) body).
  assert (Hrest : sizeN rest = sizeN body - offset) by apply sizeN_drop.
  case_bool_decide as Hmore.
  - assert (Hchunk : chunk = 1024) by (unfold chunk in *; lia).
    destruct (IH (offset + chunk) (frames ++ frame_header chunk true ++ take (N.to_nat chunk) rest))
      as (stream & Hloop & Hstream); [lia..|].
    exists (frame_header chunk true ++ take (N.to_nat chunk) rest ++ stream).
    rewrite Hloop, <-!app_assoc. split; [done|].
    assert (Hsize : sizeN (take (N.to_nat chunk) rest) = chunk) by (apply sizeN_take; lia).
    rewrite <-(take_drop (N.to_nat chunk) rest) at 1. rewrite <-Hsize at 3.
    assert (Hdrop : drop (N.to_nat chunk) rest = drop (N.to_nat (offset + chunk)) body).
    { unfold rest. rewrite drop_drop. f_equal. lia. }
    apply framed_more.
    + rewrite Hsize. apply Hchunk.
    + intros Hnil. apply (f_equal sizeN) in Hnil. rewrite sizeN_drop, sizeN_nil in Hnil. lia.
    + by rewrite Hdrop.
  - assert (Hchunk : chunk = sizeN rest) by (unfold chunk in *; lia).
    exists (frame_header chunk false ++ take (N.to_nat chunk) rest). split; [done|].
    assert (Htake : take (N.to_nat chunk) rest = rest).
    { rewrite Hchunk. unfold sizeN. rewrite Nat2N.id. by rewrite firstn_all. }
    rewrite Htake, Hchunk. apply framed_last. unfold chunk, Proto.max_message_size in *. lia.
Qed.

Lemma FrameMessage_framed msg : framed (serialize msg) (FrameMessage msg).
Proof.
  unfold FrameMessage.
  destruct (frame_loop_framed (S (length (serialize msg))) (serialize msg) 0 [])
    as (stream & -> & Hstream).
  - left. rewrite size_serialize. unfold wire_size. lia.
  - unfold sizeN. lia.
  - done.
Qed.

(** The number of frames of a body of [n] bytes. *)
Definition fragments (n : N) : N := N.max 1 ((n + 1023) / 1024).

Lemma framed_size body stream :
  framed body stream ->
  sizeN stream = sizeN body + frame_header_size * fragments (sizeN body).
Proof.
  unfold fragments.
  induction 1 as [frag Hfrag|frag body stream Hfrag Hbody _ IH];
    rewrite ?sizeN_app, sizeN_frame_header.
  - unfold Proto.max_message_size in *. replace (N.max _ _) with 1; [unfold frame_header_size; lia|].
    assert ((sizeN frag + 1023) / 1024 < 2) by (apply N.Div0.div_lt_upper_bound; lia). lia.
  - rewrite IH. unfold Proto.max_message_size in Hfrag. rewrite Hfrag.
    replace (1024 + sizeN body + 1023) with (sizeN body + 1023 + 1 * 1024) by lia.
    rewrite N.div_add by done.
    assert (1 <= (sizeN body + 1023) / 1024).
    { apply N.div_le_lower_bound; [done|]. destruct body; [done|]. rewrite sizeN_cons. lia. }
    unfold frame_header_size. lia.
Qed.

(** ** Properties *)

(** The loop of [FrameMessage] ends, within one iteration per byte of
    the serialised message and one more, and what it writes is the message cut
    into frames: every fragment but the last has [max_message_size] bytes and
    a header with the more-fragments flag, the last one is no longer than that
    and its header is the plain length. *)
Theorem frame_message_terminates (msg : Proto.ServerMessage) :
  frame_loop (S (length (serialize msg))) (serialize msg) 0 [] = Some (FrameMessage msg)
  /\ framed (serialize msg) (FrameMessage msg).
Proof.
  split; [|apply FrameMessage_framed].
  destruct (frame_loop_framed (S (length (serialize msg))) (serialize msg) 0 [])
    as (stream & Hloop & _).
  - left. rewrite size_serialize. unfold wire_size. lia.
  - unfold sizeN. lia.
  - unfold FrameMessage. by rewrite Hloop.
Qed.

(** The bytes [FrameMessage] writes are the message's bytes plus one
    four-byte header per fragment, and the number of fragments is the
    message's size divided by [max_message_size], rounded up. *)
Theorem frame_message_size (msg : Proto.ServerMessage) :
  sizeN (FrameMessage msg) = wire_size msg + frame_header_size * fragments (wire_size msg).
Proof. rewrite (framed_size _ _ (FrameMessage_framed msg)). by rewrite size_serialize. Qed.

(** [DecodeFrameHeader] accepts a four-byte header exactly when its
    low 31 bits are a length within [max_message_size], and then returns that
    length and the top bit; it is the inverse of the header [FrameMessage]
    writes, and any header without four bytes is refused. *)
Theorem decode_frame_header_spec (raw len : N) (more : bool) (rest short : list byte)
    (Hraw : fits 4 raw) (Hshort : sizeN short < frame_header_size) :
  (DecodeFrameHeader (enc (uint 4) raw ++ rest) = Some (len, more) <->
   len <= Proto.max_message_size /\ raw = len + (if more then 2 ^ 31 else 0))
  /\ DecodeFrameHeader short = None.
Proof.
  split.
  - unfold DecodeFrameHeader. rewrite dec_enc by done.
    assert (Hlen : N.land raw frame_length_mask = raw mod 2 ^ 31).
    { change frame_length_mask with (N.ones 31). apply N.land_ones. }
    assert (Hmore : N.land raw frame_more_flag = 2 ^ 31 * (raw / 2 ^ 31)).
    { change frame_more_flag with (N.shiftl 1 31).
      rewrite <-(N.shiftr_div_pow2 raw 31), N.mul_comm, <-N.shiftl_mul_pow2.
      apply N.bits_inj. intros i. rewrite N.land_spec.
      destruct (decide (i < 31)) as [Hi|Hi].
      - rewrite !N.shiftl_spec_low by done. apply andb_false_r.
      - rewrite !N.shiftl_spec_high', N.shiftr_spec' by lia.
        replace (i - 31 + 31) with i by lia.
        destruct (decide (i = 31)) as [->|Hne]; [by rewrite andb_true_r|].
        replace (N.testbit 1 (i - 31)) with false.
        + rewrite andb_false_r. symmetry.
          destruct (decide (raw = 0)) as [->|Hpos]; [apply N.bits_0|].
          apply N.bits_above_log2. unfold fits in Hraw. change (256 ^ N.of_nat 4) with (2 ^ 32) in Hraw.
          apply N.log2_lt_pow2 in Hraw; lia.
        + symmetry. apply N.bits_above_log2. cbn. lia. }
    rewrite Hlen, Hmore. unfold fits in Hraw. change (256 ^ N.of_nat 4) with (2 ^ 32) in Hraw.
    pose proof (N.div_mod raw (2 ^ 31) ltac:(done)) as Hdm.
    assert (Hq : raw / 2 ^ 31 < 2) by (apply N.Div0.div_lt_upper_bound; lia).
    assert (Hr : raw mod 2 ^ 31 < 2 ^ 31) by (apply N.mod_lt; done).
    unfold Proto.max_message_size.
    split.
    + case_bool_decide as Hle; [|done]. intros [= <- <-]. split; [done|].
      case_bool_decide; cbn [negb]; lia.
    + intros [Hle Heq].
      assert (raw mod 2 ^ 31 = len /\ raw / 2 ^ 31 = if more then 1 else 0) as [-> ->].
      { destruct more; split; [symmetry; apply (N.mod_unique _ _ 1)|symmetry; apply (N.div_unique _ _ 1 len)
          |symmetry; apply (N.mod_unique _ _ 0)|symmetry; apply (N.div_unique _ _ 0 len)]; lia. }
      rewrite bool_decide_true by done. by destruct more.
  - unfold DecodeFrameHeader. cbn [dec uint]. by rewrite bool_decide_true.
Qed.

Lemma decode_frame_header_spec_witness :
  DecodeFrameHeader (enc (uint 4) (1024 + 2 ^ 31) ++ []) = Some (1024, true)
  /\ DecodeFrameHeader (enc (uint 4) 1025 ++ []) <> Some (1025, false)
  /\ DecodeFrameHeader [x00; x04; x00] = None.
Proof.
  split_and!.
  - apply (decode_frame_header_spec _ _ _ _ []); vm_compute; (done || split; done).
  - intros H. apply (decode_frame_header_spec _ _ _ _ []) in H as [H _]; [|done..].
    by vm_compute in H.
  - apply (decode_frame_header_spec 0 0 false []); vm_compute; done.
Defined.
