(* ===== verification/RoomCache.v ===== *)
(** The room state a client keeps: the fields [_id] to [_member_data] of
    [Client] ([Client/include/private/client.h]), and what
    [Client::CacheRoomState], [Client::ClearRoomState] and the dispatch of
    [Client::CarveServer] ([Client/src/client.cpp]) do to them.  The mesh side
    effects of the same functions are in [Client]. *)
From S2P Require Import Prelude Wire Protocol.

(** ** Definitions *)

Record RoomCache : Type := mkRoomCache {
  _id : N;
  _room : string;
  _host : N;
  _room_open : bool;
  _room_passworded : bool;
  _members : list N;
  _data : gmap string string;
  _member_data : gmap N (gmap string string)
}.

(** The member initialisers of [Client]. *)
Definition cache_init : RoomCache := mkRoomCache 0 "" 0 true false [] ∅ ∅.

(** [std::erase(vector, value)]. *)
Definition vector_erase (x : N) (l : list N) : list N := filter (fun y => y <> x) l.
Arguments vector_erase : simpl never.

(** The field assignments of [Client::ClearRoomState]. *)
Definition clear_room_state (c : RoomCache) : RoomCache :=
  mkRoomCache (_id c) "" 0 true false [] ∅ ∅.

(** In no room. *)
Definition blank (c : RoomCache) : Prop := c = clear_room_state c.

(** The messages whose [bool]s [Client::CacheRoomState] reads have values. *)
Definition cacheable (msg : Proto.ServerMessage) : Prop :=
  match msg with
  | Proto.RoomAccessChanged opened passworded => has_value opened /\ has_value passworded
  | _ => True
  end.
#[export] Instance cacheable_dec msg : Decision (cacheable msg).
Proof. destruct msg; cbn; apply _. Defined.

(** The value of a [bool] that has one. *)
Definition bool_value (rep : byte) : bool := default false (read_bool rep).

(** The field assignments of [Client::CacheRoomState] for a [cacheable] message. *)
Definition cache_room_state (msg : Proto.ServerMessage) (c : RoomCache) : RoomCache :=
  match msg with
  | Proto.AssignRoomId id =>
      mkRoomCache (_id c) id 0 true false [_id c] ∅ ∅
  | Proto.PeerJoined id =>
      mkRoomCache (_id c) (_room c) (_host c) (_room_open c) (_room_passworded c)
        (_members c ++ [id]) (_data c) (_member_data c)
  | Proto.PeerLeft id =>
      if bool_decide (id = _id c) then clear_room_state c
      else mkRoomCache (_id c) (_room c) (_host c) (_room_open c) (_room_passworded c)
             (vector_erase id (_members c)) (_data c) (delete id (_member_data c))
  | Proto.HostChanged id =>
      mkRoomCache (_id c) (_room c) id (_room_open c) (_room_passworded c)
        (_members c) (_data c) (_member_data c)
  | Proto.RoomDataChanged key value =>
      mkRoomCache (_id c) (_room c) (_host c) (_room_open c) (_room_passworded c) (_members c)
        (if str_empty value then delete key (_data c) else <[key := value]> (_data c))
        (_member_data c)
  | Proto.MemberDataChanged id key value =>
      mkRoomCache (_id c) (_room c) (_host c) (_room_open c) (_room_passworded c) (_members c)
        (_data c)
        (if str_empty value then
           match _member_data c !! id with
           | Some slots =>
               let slots' := delete key slots in
               if bool_decide (slots' = ∅) then delete id (_member_data c)
               else <[id := slots']> (_member_data c)
           | None => _member_data c
           end
         else <[id := <[key := value]> (default ∅ (_member_data c !! id))]> (_member_data c))
  | Proto.KickedByHost => clear_room_state c
  | Proto.BannedByHost => clear_room_state c
  | Proto.RoomAccessChanged opened passworded =>
      mkRoomCache (_id c) (_room c) (_host c) (bool_value opened) (bool_value passworded)
        (_members c) (_data c) (_member_data c)
  | _ => c
  end.

(** What one message out of [CarveServer] does to the fields. *)
Definition cache_incoming (c : RoomCache) (msg : Proto.ServerMessage) : RoomCache :=
  match msg with
  | Proto.AssignClientId id =>
      mkRoomCache id (_room c) (_host c) (_room_open c) (_room_passworded c)
        (_members c) (_data c) (_member_data c)
  | Proto.IceServersMsg _ => c
  | Proto.P2PSignal _ _ _ => c
  | _ => cache_room_state msg c
  end.

(** The cache after a whole sequence of messages. *)
Definition cache_all (c : RoomCache) (msgs : list Proto.ServerMessage) : RoomCache :=
  fold_left cache_incoming msgs c.

(** ** Lemmas *)

Lemma bool_value_rep (b : bool) : bool_value b = b.
Proof. by destruct b. Qed.

Lemma readable_cacheable msg : readable msg -> cacheable msg.
Proof. by destruct msg. Qed.

Lemma cache_all_app c m1 m2 : cache_all c (m1 ++ m2) = cache_all (cache_all c m1) m2.
Proof. apply fold_left_app. Qed.

Lemma cache_all_cons c m ms : cache_all c (m :: ms) = cache_all (cache_incoming c m) ms.
Proof. done. Qed.

#[export] Hint Rewrite cache_all_app cache_all_cons : cache.
