(* ===== verification/Stream.v ===== *)
(** A stream of frames that arrives in pieces.

    Both readers, [Client::CarveServer] and the server's [ReadLoop], keep the
    fragments of an unfinished message in one buffer and what follows in the
    socket or in another.  [pending] relates such a state to the messages that
    are still to come; [bodies] is what a reader takes out of arbitrary bytes,
    without any assumption on who sent them. *)
From S2P Require Import Prelude Wire Protocol Framing RoomCache.
Local Open Scope N_scope.

(** ** Bytes that were framed *)

(** After the fragments [partial] of the first of [msgs], [bytes] are the rest
    of its frames and the frames of the others. *)
Inductive pending : list byte -> list byte -> list Proto.ServerMessage -> Prop :=
| pending_none : pending [] [] []
| pending_some partial body stream m ms :
    serialize m = partial ++ body -> framed body stream ->
    pending partial (stream ++ frame_all ms) (m :: ms).

Lemma pending_all msgs : pending [] (frame_all msgs) msgs.
Proof.
  destruct msgs as [|m ms]; [constructor|]. rewrite frame_all_cons.
  by apply (pending_some [] (serialize m)); [|apply FrameMessage_framed].
Qed.

Lemma append_fragment_fits partial frag rest msg :
  sendable msg -> serialize msg = partial ++ frag ++ rest ->
  AppendFragment partial frag = Some (partial ++ frag).
Proof.
  intros [[_ Hsize] _] Hmsg. unfold AppendFragment. rewrite bool_decide_false; [done|].
  apply (f_equal sizeN) in Hmsg. rewrite size_serialize, !sizeN_app in Hmsg. lia.
Qed.

(** The next frame. *)
Lemma pending_next partial bytes m ms :
  sendable m -> pending partial bytes (m :: ms) ->
  exists frag (more : bool) rest,
    bytes = frame_header (sizeN frag) more ++ frag ++ rest /\
    sizeN frag <= Proto.max_message_size /\
    AppendFragment partial frag = Some (partial ++ frag) /\
    if more then pending (partial ++ frag) rest (m :: ms)
    else partial ++ frag = serialize m /\ pending [] rest ms.
Proof.
  intros Hm Hp. inversion Hp as [|? body stream ? ? Hser Hframed]; subst.
  inversion Hframed as [frag Hfrag|frag body' stream' Hfrag Hbody Hframed']; subst.
  - exists body, false, (frame_all ms). rewrite <-app_assoc. split_and!; try done.
    + apply (append_fragment_fits partial body [] m); [done|]. by rewrite app_nil_r.
    + apply pending_all.
  - exists frag, true, (stream' ++ frame_all ms). rewrite <-!app_assoc. split_and!; try done.
    + lia.
    + by apply (append_fragment_fits partial frag body' m).
    + apply (pending_some _ body'); [by rewrite <-app_assoc|done].
Qed.

Lemma length_frame_header chunk more : length (frame_header chunk more) = 4%nat.
Proof. pose proof (sizeN_frame_header chunk more). unfold sizeN, frame_header_size in *. lia. Qed.

Lemma pending_nil partial bytes : pending partial bytes [] -> partial = [] /\ bytes = [].
Proof. by inversion 1. Qed.

(** A prefix of a frame, cut before its end. *)
Lemma app_prefix {A} (have suf l rest : list A) :
  have ++ suf = l ++ rest -> (sizeN l <= sizeN have) -> exists have', have = l ++ have' /\ have' ++ suf = rest.
Proof.
  intros Heq Hsize. unfold sizeN in Hsize. exists (drop (length l) have).
  assert (take (length l) have = l) as Hl.
  { rewrite <-(take_app_le have suf) by lia. rewrite Heq. apply take_app_length. }
  split; [rewrite <-Hl at 1; by rewrite take_drop|].
  rewrite <-(drop_app_le have suf) by lia. rewrite Heq. apply drop_app_length.
Qed.

(** ** Any bytes *)

(** What is left over when a reader stops: less than a header, or a header and
    less than its fragment. *)
Definition incomplete (bytes : list byte) : Prop :=
  sizeN bytes < frame_header_size \/
  exists len more, DecodeFrameHeader (take (N.to_nat frame_header_size) bytes) = Some (len, more) /\
    sizeN bytes < frame_header_size + len.

(** The complete bodies at the front of [bytes], up to the first frame that is
    refused and the first body that is no message. *)
Fixpoint bodies (fuel : nat) (partial bytes : list byte) : list (list byte) :=
  if bool_decide (sizeN bytes < frame_header_size) then []
  else
    match fuel, DecodeFrameHeader (take (N.to_nat frame_header_size) bytes) with
    | S fuel', Some (len, more) =>
        if bool_decide (sizeN bytes < frame_header_size + len) then []
        else
          let rest := drop (N.to_nat (frame_header_size + len)) bytes in
          match AppendFragment partial (take (N.to_nat len) (drop (N.to_nat frame_header_size) bytes)) with
          | None => []
          | Some body =>
              if (more : bool) then bodies fuel' body rest
              else body :: match deserialize body with
                           | Ok _ => bodies fuel' [] rest
                           | _ => []
                           end
          end
    | _, _ => []
    end.

(** The body is no [RoomAccessChanged] with a [bool] that [CacheRoomState] would
    read without its having a value. *)
Definition cacheable_body (body : list byte) : Prop :=
  match body with
  | x14 :: opened :: passworded :: _ => has_value opened /\ has_value passworded
  | _ => True
  end.
#[export] Instance cacheable_body_dec body : Decision (cacheable_body body).
Proof. destruct body as [|[] [|opened [|passworded rest]]]; cbn; apply _. Defined.

Lemma cacheable_body_ok body msg : deserialize body = Ok msg -> cacheable_body body <-> cacheable msg.
Proof. intros [_ [rest ->]]%message_canonical. destruct msg; reflexivity. Qed.

Lemma cacheable_body_err body e : deserialize body = Err e -> cacheable_body body.
Proof.
  intros Hread. destruct body as [|b [|opened [|passworded rest]]]; [exact I|destruct b; exact I..|].
  destruct b; try exact I. exfalso. revert Hread. unfold deserialize.
  cbn [dec Proto.message_codec variant]. unfold variant_dec. by rewrite dec_u8.
Qed.

(** Reading this input never reads a [bool] without a value. *)
Definition defined_input (partial bytes : list byte) : Prop :=
  Forall cacheable_body (bodies (length bytes) partial bytes).
#[export] Instance defined_input_dec partial bytes : Decision (defined_input partial bytes).
Proof. unfold defined_input. apply _. Defined.

(** No complete frame, no message to come. *)
Lemma pending_incomplete partial kept msgs :
  Forall sendable msgs -> pending partial kept msgs -> incomplete kept -> msgs = [] /\ partial = [] /\ kept = [].
Proof.
  intros Hmsgs Hp Hkept. destruct msgs as [|m ms]; [by destruct (pending_nil _ _ Hp)|]. exfalso.
  apply Forall_cons in Hmsgs as [Hm _].
  destruct (pending_next _ _ _ _ Hm Hp) as (frag & more & rest & -> & Hfrag & _ & _).
  destruct Hkept as [Hshort|(len & more' & Hdecode & Hshort)].
  - rewrite sizeN_app, sizeN_frame_header in Hshort. lia.
  - rewrite take_header, decode_header in Hdecode by done. injection Hdecode as <- _.
    rewrite !sizeN_app, sizeN_frame_header in Hshort. lia.
Qed.
