(* ===== verification/Server.v ===== *)
(** The server's rooms: [Server/include/weyvelength_server.h] and the message
    handlers of [Server/src/weyvelength_server.cpp].

    The state of [Server] is the object heap its [shared_ptr]s point into (the
    connections), the connection table, the room table and the counters.  A
    [shared_ptr<Connection>] is a [ptr] into that heap; a [Room&] or [Room*]
    is the key of the room's entry, and following it after the entry was
    erased is [Dangling].  Handlers are programs of the effect monad: they run
    without interruption on the one thread of the io context.  Logging keeps
    its arguments, because evaluating them follows pointers, and has no other
    effect. *)
From S2P Require Import Prelude Wire Protocol Framing RoomCache.

(** ** State *)

Definition ptr : Type := nat.

Record ServerConfig : Type := mkServerConfig {
  port : N;
  room_code_length : N; (* 0 = use the default (8) *)
  ice : Proto.IceServers
}.

(** The connection's socket, as far as the program uses it: whether it is open,
    the received bytes that were not read yet, and the bytes handed to it for
    sending. *)
Record Socket : Type := mkSocket {
  sk_open : bool;
  sk_in : list byte;
  sk_out : list byte
}.

Module Connection.
Record t : Type := mk {
  id : N;
  room : string;              (* empty = not in a room *)
  socket : Socket;
  out : list (list byte);     (* outbound queue; WriteLoop is the sole writer *)
  wake : bool;                (* an async_wait of the timer is pending *)
  closing : bool
}.
Definition set_room (v : string) (c : t) : t :=
  mk (id c) v (socket c) (out c) (wake c) (closing c).
Definition set_socket (v : Socket) (c : t) : t :=
  mk (id c) (room c) v (out c) (wake c) (closing c).
Definition set_out (v : list (list byte)) (c : t) : t :=
  mk (id c) (room c) (socket c) v (wake c) (closing c).
Definition set_wake (v : bool) (c : t) : t :=
  mk (id c) (room c) (socket c) (out c) v (closing c).
Definition set_closing (v : bool) (c : t) : t :=
  mk (id c) (room c) (socket c) (out c) (wake c) v.
End Connection.

Module Room.
Record t : Type := mk {
  id : string;
  host : N;                   (* the creator, until they leave or hand it over *)
  members : list N;
  data : gmap string string;
  member_data : gmap N (gmap string string);
  open : bool;                (* joinable right now? *)
  password : string;          (* empty = none *)
  banned_members : list N     (* ids barred from joining *)
}.
Definition set_host (v : N) (r : t) : t :=
  mk (id r) v (members r) (data r) (member_data r) (open r) (password r) (banned_members r).
Definition set_members (v : list N) (r : t) : t :=
  mk (id r) (host r) v (data r) (member_data r) (open r) (password r) (banned_members r).
Definition set_data (v : gmap string string) (r : t) : t :=
  mk (id r) (host r) (members r) v (member_data r) (open r) (password r) (banned_members r).
Definition set_member_data (v : gmap N (gmap string string)) (r : t) : t :=
  mk (id r) (host r) (members r) (data r) v (open r) (password r) (banned_members r).
Definition set_open (v : bool) (r : t) : t :=
  mk (id r) (host r) (members r) (data r) (member_data r) v (password r) (banned_members r).
Definition set_password (v : string) (r : t) : t :=
  mk (id r) (host r) (members r) (data r) (member_data r) (open r) v (banned_members r).
Definition set_banned_members (v : list N) (r : t) : t :=
  mk (id r) (host r) (members r) (data r) (member_data r) (open r) (password r) v.

(** [Room{ code, host, { host } }]: the other members take their initialisers. *)
Definition fresh (code : string) (host : N) : t := mk code host [host] ∅ ∅ true "" [].
End Room.

Record Server : Type := mkServer {
  heap : gmap ptr Connection.t;
  heap_next : ptr;
  connections : gmap N ptr;
  rooms : gmap string Room.t;
  next_id : N;
  config : ServerConfig;
  rng : nat                   (* draws taken from the generator so far *)
}.
Definition set_heap (v : gmap ptr Connection.t) (s : Server) : Server :=
  mkServer v (heap_next s) (connections s) (rooms s) (next_id s) (config s) (rng s).
Definition set_connections (v : gmap N ptr) (s : Server) : Server :=
  mkServer (heap s) (heap_next s) v (rooms s) (next_id s) (config s) (rng s).
Definition set_rooms (v : gmap string Room.t) (s : Server) : Server :=
  mkServer (heap s) (heap_next s) (connections s) v (next_id s) (config s) (rng s).
Definition set_rng (v : nat) (s : Server) : Server :=
  mkServer (heap s) (heap_next s) (connections s) (rooms s) (next_id s) (config s) v.

(** The random draws of [MakeRoomCode]: the [k]-th value of the
    [uniform_int_distribution<size_t>] over [0 .. sizeof(alphabet) - 2]. *)
Class RoomRng : Type := {
  pick : nat -> nat;
  pick_range : forall k, (pick k < 32)%nat
}.

(** ** Objects, containers, logging *)

Definition get_conn (conn : ptr) : M Server Connection.t := fun s =>
  match heap s !! conn with
  | Some c => Done c s
  | None => Dangling
  end.

Definition update_conn (conn : ptr) (f : Connection.t -> Connection.t) (s : Server) : Server :=
  set_heap (alter f conn (heap s)) s.

(** Reading and assigning through a [Room&] or a [Room*]. *)
Definition get_room (room : string) : M Server Room.t := fun s =>
  match rooms s !! room with
  | Some r => Done r s
  | None => Dangling
  end.

Definition put_room (room : string) (r : Room.t) : M Server unit :=
  modify (fun s => set_rooms (<[room := r]> (rooms s)) s).

(** [map.emplace(key, value)]: no effect when the key is taken. *)
Definition emplace {K A} `{Countable K} (k : K) (x : A) (m : gmap K A) : gmap K A :=
  match m !! k with Some _ => m | None => <[k := x]> m end.

Definition vector_contains (l : list N) (x : N) : bool := bool_decide (x ∈ l).

Definition spdlog_info {A} (args : A) : M Server unit := ret tt.

(** ** Sending *)

Definition Enqueue (conn : ptr) (frame : list byte) : M Server unit :=
  modify (update_conn conn (fun c =>
    Connection.set_wake false (Connection.set_out (Connection.out c ++ [frame]) c))).

Definition SendFrame (id : N) (frame : list byte) : M Server unit :=
  conns ← gets connections;
  match conns !! id with
  | Some conn => Enqueue conn frame
  | None => ret tt
  end.

Definition SendTo (id : N) (msg : Proto.ServerMessage) : M Server unit :=
  SendFrame id (FrameMessage msg).

Definition SendToMany (ids : list N) (msg : Proto.ServerMessage) : M Server unit :=
  let frame := FrameMessage msg in
  for_each ids (fun id => SendFrame id frame).

(** ** Handlers *)

Section Handlers.
Context `{!RoomRng}.

Definition alphabet : string := "ABCDEFGHJKLMNPQRSTUVWXYZ23456789".

Definition alphabet_at (i : nat) : Ascii.ascii := default Ascii.zero (String.get i alphabet).

(** One character per draw. *)
Fixpoint MakeRoomCode (length : nat) : M Server string :=
  match length with
  | O => ret EmptyString
  | S length' =>
      k ← gets rng;
      modify (set_rng (S k)) ;;
      code ← MakeRoomCode length';
      ret (String (alphabet_at (pick k)) code)
  end.

(** [std::string code = MakeRoomCode(n); while (_rooms.contains(code)) code =
    MakeRoomCode(n);] with at most [fuel] repetitions. *)
Fixpoint fresh_room_code (fuel : nat) : M Server string :=
  cfg ← gets config;
  code ← MakeRoomCode (N.to_nat (room_code_length cfg));
  rs ← gets rooms;
  match rs !! code with
  | None => ret code
  | Some _ =>
      match fuel with
      | O => loops
      | S fuel' => fresh_room_code fuel'
      end
  end.

Definition HandleCreateRoom (fuel : nat) (conn : ptr) : M Server unit :=
  c ← get_conn conn;
  if negb (str_empty (Connection.room c)) then
    SendTo (Connection.id c) (Proto.RoomError Proto.AlreadyInRoom (Connection.room c))
  else
    code ← fresh_room_code fuel;
    modify (fun s => set_rooms (emplace code (Room.fresh code (Connection.id c)) (rooms s)) s) ;;
    modify (update_conn conn (Connection.set_room code)) ;;
    SendTo (Connection.id c) (Proto.AssignRoomId code) ;;
    SendTo (Connection.id c) (Proto.HostChanged (Connection.id c)) ;;
    spdlog_info (Connection.id c, code).
End Handlers.

Definition HandleJoinRoom (conn : ptr) (msg_id msg_password : string) : M Server unit :=
  c ← get_conn conn;
  if negb (str_empty (Connection.room c)) then
    SendTo (Connection.id c) (Proto.RoomError Proto.AlreadyInRoom (Connection.room c))
  else
    rs ← gets rooms;
    match rs !! msg_id with
    | None => SendTo (Connection.id c) (Proto.RoomError Proto.NoSuchRoom msg_id)
    | Some room =>
        if vector_contains (Room.banned_members room) (Connection.id c) then
          SendTo (Connection.id c) (Proto.RoomError Proto.Banned msg_id)
        else if negb (Room.open room) then
          SendTo (Connection.id c) (Proto.RoomError Proto.RoomClosed msg_id)
        else if negb (str_empty (Room.password room))
                && bool_decide (msg_password <> Room.password room) then
          SendTo (Connection.id c) (Proto.RoomError Proto.BadPassword msg_id)
        else
          SendToMany (Room.members room) (Proto.PeerJoined (Connection.id c)) ;;
          SendTo (Connection.id c) (Proto.AssignRoomId msg_id) ;;
          for_each (Room.members room) (fun member =>
            SendTo (Connection.id c) (Proto.PeerJoined member)) ;;
          SendTo (Connection.id c) (Proto.HostChanged (Room.host room)) ;;
          SendTo (Connection.id c)
            (Proto.RoomAccessChanged (Room.open room) (negb (str_empty (Room.password room)))) ;;
          for_each (items (Room.data room)) (fun '(key, value) =>
            SendTo (Connection.id c) (Proto.RoomDataChanged key value)) ;;
          for_each (items (Room.member_data room)) (fun '(member, data) =>
            for_each (items data) (fun '(key, value) =>
              SendTo (Connection.id c) (Proto.MemberDataChanged member key value))) ;;
          put_room msg_id (Room.set_members (Room.members room ++ [Connection.id c]) room) ;;
          modify (update_conn conn (Connection.set_room msg_id)) ;;
          spdlog_info (Connection.id c, msg_id)
    end.

(** [std::vector::front]; undefined on an empty vector. *)
Definition vector_front (l : list N) : M Server N :=
  match l with
  | [] => dangling
  | x :: _ => ret x
  end.

Definition LeaveRoom (conn : ptr) : M Server unit :=
  c ← get_conn conn;
  if str_empty (Connection.room c) then ret tt
  else
    rs ← gets rooms;
    match rs !! Connection.room c with
    | None => ret tt
    | Some r =>
        let r1 := Room.set_member_data (delete (Connection.id c) (Room.member_data r))
                    (Room.set_members (vector_erase (Connection.id c) (Room.members r)) r) in
        put_room (Connection.room c) r1 ;;
        if bool_decide (Room.members r1 = []) then
          modify (fun s => set_rooms (delete (Connection.room c) (rooms s)) s) ;;
          spdlog_info (Connection.room c)
        else
          SendToMany (Room.members r1) (Proto.PeerLeft (Connection.id c)) ;;
          if bool_decide (Room.host r1 = Connection.id c) then
            front ← vector_front (Room.members r1);
            put_room (Connection.room c) (Room.set_host front r1) ;;
            SendToMany (Room.members r1) (Proto.HostChanged front) ;;
            spdlog_info (front, Connection.room c)
          else ret tt
    end ;;
    modify (update_conn conn (Connection.set_room "")).

Definition HandleLeaveRoom (conn : ptr) : M Server unit :=
  c ← get_conn conn;
  if str_empty (Connection.room c) then
    SendTo (Connection.id c) (Proto.RoomError Proto.NotInRoom "")
  else
    SendTo (Connection.id c) (Proto.PeerLeft (Connection.id c)) ;;
    LeaveRoom conn.

Definition HandleRoomChat (conn : ptr) (msg_text : string) : M Server unit :=
  c ← get_conn conn;
  rs ← gets rooms;
  match rs !! Connection.room c with
  | None => SendTo (Connection.id c) (Proto.RoomError Proto.NotInRoom "")
  | Some room =>
      SendToMany (Room.members room) (Proto.RoomChat (Connection.id c) msg_text)
  end.

(** A kind off the wire may be none of the three. *)
Definition P2PSignalKindName (kind : Proto.P2PSignalKind) : string :=
  if bool_decide (kind = Proto.Description) then "description"
  else if bool_decide (kind = Proto.Candidate) then "candidate"
  else if bool_decide (kind = Proto.GatheringDone) then "gathering done"
  else "unknown".

Definition HandleP2PSignal (conn : ptr) (msg_id : N) (msg_kind : Proto.P2PSignalKind)
    (msg_payload : string) : M Server unit :=
  c ← get_conn conn;
  rs ← gets rooms;
  match rs !! Connection.room c with
  | None => spdlog_info (Connection.id c, P2PSignalKindName msg_kind)
  | Some room =>
      if bool_decide (msg_id = Connection.id c)
         || negb (vector_contains (Room.members room) msg_id) then
        spdlog_info (Connection.id c, P2PSignalKindName msg_kind, msg_id, Room.id room)
      else
        (if bool_decide (msg_kind = Proto.Description) then
           spdlog_info (Connection.id c, msg_id, str_size msg_payload)
         else ret tt) ;;
        spdlog_info (Connection.id c, msg_id, P2PSignalKindName msg_kind, msg_payload) ;;
        SendTo msg_id (Proto.P2PSignal (Connection.id c) msg_kind msg_payload)
  end.

(** The preamble of every host-only action: the key of the room the sender
    hosts, or [None] after sending the error. *)
Definition HostRoom (conn : ptr) : M Server (option string) :=
  c ← get_conn conn;
  rs ← gets rooms;
  match rs !! Connection.room c with
  | None =>
      SendTo (Connection.id c) (Proto.RoomError Proto.NotInRoom "") ;;
      ret None
  | Some r =>
      if bool_decide (Room.host r <> Connection.id c) then
        SendTo (Connection.id c) (Proto.RoomError Proto.NotHost "") ;;
        ret None
      else ret (Some (Connection.room c))
  end.

(** The size checks of a data message. *)
Definition bad_room_data (key value : string) : bool :=
  str_empty key
  || bool_decide (Proto.max_room_data_key < str_size key)%N
  || bool_decide (Proto.max_room_data_value < str_size value)%N.

Definition HandleSetRoomData (conn : ptr) (msg_key msg_value : string) : M Server unit :=
  c ← get_conn conn;
  hosted ← HostRoom conn;
  match hosted with
  | None => ret tt
  | Some key =>
      room ← get_room key;
      if bad_room_data msg_key msg_value then
        SendTo (Connection.id c) (Proto.RoomError Proto.BadRoomData msg_key)
      else if str_empty msg_value then
        match Room.data room !! msg_key with
        | None => ret tt
        | Some _ =>
            put_room key (Room.set_data (delete msg_key (Room.data room)) room) ;;
            SendToMany (Room.members room) (Proto.RoomDataChanged msg_key msg_value)
        end
      else
        match Room.data room !! msg_key with
        | None =>
            let data := <[msg_key := msg_value]> (Room.data room) in
            if bool_decide (Proto.max_room_data_keys < size data) then
              put_room key (Room.set_data (delete msg_key data) room) ;;
              SendTo (Connection.id c) (Proto.RoomError Proto.BadRoomData msg_key)
            else
              put_room key (Room.set_data data room) ;;
              SendToMany (Room.members room) (Proto.RoomDataChanged msg_key msg_value)
        | Some value =>
            if bool_decide (value = msg_value) then ret tt
            else
              put_room key (Room.set_data (<[msg_key := msg_value]> (Room.data room)) room) ;;
              SendToMany (Room.members room) (Proto.RoomDataChanged msg_key msg_value)
        end
  end.

Definition HandleSetMemberData (conn : ptr) (msg_key msg_value : string) : M Server unit :=
  c ← get_conn conn;
  rs ← gets rooms;
  match rs !! Connection.room c with
  | None => SendTo (Connection.id c) (Proto.RoomError Proto.NotInRoom "")
  | Some room =>
      if bad_room_data msg_key msg_value then
        SendTo (Connection.id c) (Proto.RoomError Proto.BadRoomData msg_key)
      else
        let announce :=
          SendToMany (Room.members room)
            (Proto.MemberDataChanged (Connection.id c) msg_key msg_value) in
        let put_data m := put_room (Connection.room c) (Room.set_member_data m room) in
        if str_empty msg_value then
          match Room.member_data room !! Connection.id c with
          | None => ret tt
          | Some member =>
              match member !! msg_key with
              | None => ret tt
              | Some _ =>
                  let member' := delete msg_key member in
                  (if bool_decide (member' = ∅) then
                     put_data (delete (Connection.id c) (Room.member_data room))
                   else put_data (<[Connection.id c := member']> (Room.member_data room))) ;;
                  announce
              end
          end
        else
          (* room.member_data[conn->id] creates the entry when it is missing *)
          let data := default ∅ (Room.member_data room !! Connection.id c) in
          match data !! msg_key with
          | None =>
              let data' := <[msg_key := msg_value]> data in
              if bool_decide (Proto.max_member_data_keys < size data') then
                put_data (<[Connection.id c := delete msg_key data']> (Room.member_data room)) ;;
                SendTo (Connection.id c) (Proto.RoomError Proto.BadRoomData msg_key)
              else
                put_data (<[Connection.id c := data']> (Room.member_data room)) ;;
                announce
          | Some value =>
              if bool_decide (value = msg_value) then ret tt
              else
                put_data (<[Connection.id c := <[msg_key := msg_value]> data]>
                            (Room.member_data room)) ;;
                announce
          end
  end.

(** The target of a kick or a ban: a connection in the host's room, other than
    the host. *)
Definition room_target (room : Room.t) (msg_id : N) : M Server (option ptr) :=
  conns ← gets connections;
  if bool_decide (msg_id = Room.host room) then ret None
  else
    match conns !! msg_id with
    | None => ret None
    | Some target =>
        t ← get_conn target;
        if bool_decide (Connection.room t <> Room.id room) then ret None
        else ret (Some target)
    end.

(** [std::to_string]. *)
Definition to_string (n : N) : string := pretty n.

Definition HandleKickMember (conn : ptr) (msg_id : N) : M Server unit :=
  c ← get_conn conn;
  hosted ← HostRoom conn;
  match hosted with
  | None => ret tt
  | Some key =>
      room ← get_room key;
      target ← room_target room msg_id;
      match target with
      | None =>
          SendTo (Connection.id c) (Proto.RoomError Proto.NoSuchMember (to_string msg_id))
      | Some target =>
          SendTo msg_id Proto.KickedByHost ;;
          LeaveRoom target ;;
          room ← get_room key;
          spdlog_info (msg_id, Room.id room, Connection.id c)
      end
  end.

Definition HandleBanMember (conn : ptr) (msg_id : N) : M Server unit :=
  c ← get_conn conn;
  hosted ← HostRoom conn;
  match hosted with
  | None => ret tt
  | Some key =>
      room ← get_room key;
      target ← room_target room msg_id;
      match target with
      | None =>
          SendTo (Connection.id c) (Proto.RoomError Proto.NoSuchMember (to_string msg_id))
      | Some target =>
          (if vector_contains (Room.banned_members room) msg_id then ret tt
           else put_room key (Room.set_banned_members (Room.banned_members room ++ [msg_id]) room)) ;;
          SendTo msg_id Proto.BannedByHost ;;
          LeaveRoom target ;;
          room ← get_room key;
          spdlog_info (msg_id, Room.id room, Connection.id c)
      end
  end.

Definition HandleTransferHost (conn : ptr) (msg_id : N) : M Server unit :=
  c ← get_conn conn;
  hosted ← HostRoom conn;
  match hosted with
  | None => ret tt
  | Some key =>
      if bool_decide (msg_id = Connection.id c) then ret tt
      else
        room ← get_room key;
        if negb (vector_contains (Room.members room) msg_id) then
          SendTo (Connection.id c) (Proto.RoomError Proto.NoSuchMember (to_string msg_id))
        else
          put_room key (Room.set_host msg_id room) ;;
          SendToMany (Room.members room) (Proto.HostChanged msg_id) ;;
          spdlog_info (msg_id, Room.id room)
  end.

Definition HandleSetRoomJoinable (conn : ptr) (msg_open : byte) : M Server unit :=
  hosted ← HostRoom conn;
  match hosted with
  | None => ret tt
  | Some key =>
      room ← get_room key;
      opened ← load_bool msg_open;
      if Bool.eqb (Room.open room) opened then ret tt
      else
        put_room key (Room.set_open opened room) ;;
        SendToMany (Room.members room)
          (Proto.RoomAccessChanged opened (negb (str_empty (Room.password room)))) ;;
        spdlog_info (Room.id room, opened)
  end.

Definition HandleSetRoomPassword (conn : ptr) (msg_password : string) : M Server unit :=
  c ← get_conn conn;
  hosted ← HostRoom conn;
  match hosted with
  | None => ret tt
  | Some key =>
      room ← get_room key;
      if bool_decide (Proto.max_room_password < str_size msg_password)%N then
        SendTo (Connection.id c) (Proto.RoomError Proto.BadPassword "")
      else
        let was_passworded := negb (str_empty (Room.password room)) in
        if bool_decide (Room.password room = msg_password) then ret tt
        else
          put_room key (Room.set_password msg_password room) ;;
          if negb (Bool.eqb was_passworded (negb (str_empty msg_password))) then
            SendToMany (Room.members room)
              (Proto.RoomAccessChanged (Room.open room) (negb (str_empty msg_password)))
          else ret tt
  end.

Definition HandleMessage `{!RoomRng} (fuel : nat) (conn : ptr) (msg : Proto.ServerMessage) :
    M Server unit :=
  match msg with
  | Proto.Heartbeat timestamp =>
      c ← get_conn conn;
      SendTo (Connection.id c) (Proto.Heartbeat timestamp)
  | Proto.CreateRoom => HandleCreateRoom fuel conn
  | Proto.JoinRoom id password => HandleJoinRoom conn id password
  | Proto.LeaveRoom => HandleLeaveRoom conn
  | Proto.RoomChat _ text => HandleRoomChat conn text
  | Proto.P2PSignal id kind payload => HandleP2PSignal conn id kind payload
  | Proto.SetRoomData key value => HandleSetRoomData conn key value
  | Proto.SetMemberData key value => HandleSetMemberData conn key value
  | Proto.KickMember id => HandleKickMember conn id
  | Proto.BanMember id => HandleBanMember conn id
  | Proto.TransferHost id => HandleTransferHost conn id
  | Proto.SetRoomJoinable opened => HandleSetRoomJoinable conn opened
  | Proto.SetRoomPassword password => HandleSetRoomPassword conn password
  | _ => ret tt
  end.
