(* ===== verification/ServerExec.v ===== *)
(** Symbolic execution of the server's handlers.

    A handler that runs from a state [s] has three kinds of effect: it appends
    frames to outbound queues, it rewrites the room table, and it moves
    connections in and out of rooms.  A [delta] collects them, [commit s d]
    applies them to [s], and every primitive of [Server] is an equation on
    [commit s d]; the handlers then run by rewriting, and their normal forms
    are the functional specifications the other files use. *)
From S2P Require Import Prelude Wire Protocol Framing RoomCache Server.

(** ** Definitions *)

Abbreviation outgoing := (list (N * Proto.ServerMessage)).

Record delta : Type := mkDelta {
  d_sent : outgoing;                 (* messages, oldest first *)
  d_rooms : gmap string Room.t;      (* the room table now *)
  d_where : gmap ptr string;         (* connections whose room changed *)
  d_rng : nat
}.

Definition no_delta (s : Server) : delta := mkDelta [] (rooms s) ∅ (rng s).

Definition send (d : delta) (l : outgoing) : delta :=
  mkDelta (d_sent d ++ l) (d_rooms d) (d_where d) (d_rng d).
Definition with_rooms (d : delta) (R : gmap string Room.t) : delta :=
  mkDelta (d_sent d) R (d_where d) (d_rng d).
Definition move (d : delta) (p : ptr) (room : string) : delta :=
  mkDelta (d_sent d) (d_rooms d) (<[p := room]> (d_where d)) (d_rng d).
Definition draw (d : delta) (n : nat) : delta :=
  mkDelta (d_sent d) (d_rooms d) (d_where d) n.

Definition to_all (ids : list N) (msg : Proto.ServerMessage) : outgoing :=
  (fun i => (i, msg)) <$> ids.

(** The messages of [l] that reach the connection object [q]. *)
Definition reaching (conns : gmap N ptr) (q : ptr) (l : outgoing) : list Proto.ServerMessage :=
  (filter (fun im => conns !! im.1 = Some q) l).*2.

Definition conn_after (s : Server) (d : delta) (q : ptr) (c : Connection.t) : Connection.t :=
  let frames := FrameMessage <$> reaching (connections s) q (d_sent d) in
  Connection.mk (Connection.id c) (default (Connection.room c) (d_where d !! q))
    (Connection.socket c) (Connection.out c ++ frames)
    (Connection.wake c && bool_decide (frames = [])) (Connection.closing c).

Definition commit (s : Server) (d : delta) : Server :=
  mkServer (map_imap (fun q c => Some (conn_after s d q c)) (heap s)) (heap_next s)
    (connections s) (d_rooms d) (next_id s) (config s) (d_rng d).

(** ** The primitives *)

Lemma heap_commit s d q : heap (commit s d) !! q = conn_after s d q <$> heap s !! q.
Proof. cbn. rewrite map_lookup_imap. by destruct (heap s !! q). Qed.

Lemma server_eq s1 s2 :
  (forall q, heap s1 !! q = heap s2 !! q) -> heap_next s1 = heap_next s2 ->
  connections s1 = connections s2 -> rooms s1 = rooms s2 -> next_id s1 = next_id s2 ->
  config s1 = config s2 -> rng s1 = rng s2 -> s1 = s2.
Proof.
  destruct s1, s2; cbn. intros Hh. apply map_eq in Hh. by intros; subst.
Qed.

Lemma reaching_app conns q l1 l2 :
  reaching conns q (l1 ++ l2) = reaching conns q l1 ++ reaching conns q l2.
Proof. unfold reaching. by rewrite filter_app, fmap_app. Qed.

Lemma reaching_one conns q i m :
  reaching conns q [(i, m)] = if decide (conns !! i = Some q) then [m] else [].
Proof.
  unfold reaching. rewrite filter_cons. cbn.
  by destruct (decide (conns !! i = Some q)).
Qed.

Lemma commit_no_delta s : commit s (no_delta s) = s.
Proof.
  apply server_eq; try done. intros q. rewrite heap_commit.
  destruct (heap s !! q) as [[]|]; [|done]. cbn.
  unfold conn_after. cbn. by rewrite app_nil_r, andb_true_r, lookup_empty.
Qed.

Lemma exec_SendTo s d i m : SendTo i m (commit s d) = Done tt (commit s (send d [(i, m)])).
Proof.
  unfold SendTo, SendFrame. rewrite bind_gets. cbn [connections commit].
  destruct (connections s !! i) as [p|] eqn:Hp.
  - unfold Enqueue, modify. f_equal. apply server_eq; try done. intros q.
    unfold update_conn. cbn [heap set_heap]. rewrite lookup_alter, !heap_commit.
    case_decide as Hpq; [subst q|].
    + destruct (heap s !! p) as [c|]; [|done]. cbn. unfold conn_after. cbn [d_sent send d_where].
      rewrite reaching_app, reaching_one, decide_True by done.
      rewrite fmap_app, app_assoc. f_equal. unfold Connection.set_wake. cbn. f_equal.
      rewrite bool_decide_false; [by rewrite andb_false_r|].
      intros Hnil. by apply app_nil in Hnil as [_ ?].
    + destruct (heap s !! q) as [c|]; [|done]. cbn. unfold conn_after. cbn [d_sent send d_where].
      rewrite reaching_app, reaching_one, decide_False by congruence.
      by rewrite app_nil_r.
  - unfold ret. f_equal. apply server_eq; try done. intros q. rewrite !heap_commit.
    destruct (heap s !! q) as [c|]; [|done]. cbn. unfold conn_after. cbn [d_sent send d_where].
    rewrite reaching_app, reaching_one, decide_False by congruence. by rewrite app_nil_r.
Qed.

Lemma send_nil d : send d [] = d.
Proof. destruct d. unfold send. cbn. by rewrite app_nil_r. Qed.

Lemma send_send d l1 l2 : send (send d l1) l2 = send d (l1 ++ l2).
Proof. unfold send. cbn. by rewrite app_assoc. Qed.

Lemma exec_for_each {A} s d (l : list A) (body : A -> M Server unit) (F : A -> outgoing) :
  (forall x d, body x (commit s d) = Done tt (commit s (send d (F x)))) ->
  for_each l body (commit s d) = Done tt (commit s (send d (concat (F <$> l)))).
Proof.
  intros Hbody. revert d. induction l as [|x l IH]; intros d.
  - cbn. by rewrite send_nil.
  - cbn [for_each]. rewrite (bind_done _ _ _ _ _ (Hbody x d)), IH, send_send. done.
Qed.

Lemma exec_SendToMany s d ids m :
  SendToMany ids m (commit s d) = Done tt (commit s (send d (to_all ids m))).
Proof.
  unfold SendToMany. rewrite (exec_for_each _ _ _ _ (fun i => [(i, m)])).
  - do 3 f_equal. induction ids as [|i ids IH]; [done|]. cbn. by rewrite IH.
  - intros i d'. apply exec_SendTo.
Qed.

Lemma exec_get_conn s d p c :
  heap s !! p = Some c -> get_conn p (commit s d) = Done (conn_after s d p c) (commit s d).
Proof. intros Hp. unfold get_conn. by rewrite heap_commit, Hp. Qed.

Lemma exec_get_room s d k r :
  d_rooms d !! k = Some r -> get_room k (commit s d) = Done r (commit s d).
Proof. intros Hr. unfold get_room. cbn. by rewrite Hr. Qed.

Lemma exec_put_room s d k r :
  put_room k r (commit s d) = Done tt (commit s (with_rooms d (<[k := r]> (d_rooms d)))).
Proof. done. Qed.

Lemma exec_set_rooms s d f :
  modify (fun s => set_rooms (f (rooms s)) s) (commit s d)
  = Done tt (commit s (with_rooms d (f (d_rooms d)))).
Proof. done. Qed.

Lemma exec_move s d p v :
  modify (update_conn p (Connection.set_room v)) (commit s d) = Done tt (commit s (move d p v)).
Proof.
  unfold modify. f_equal. apply server_eq; try done. intros q.
  unfold update_conn. cbn [heap set_heap]. rewrite lookup_alter, !heap_commit.
  case_decide as Hpq; [subst q|].
  - destruct (heap s !! p) as [c|]; [|done]. cbn. unfold conn_after. cbn.
    by rewrite lookup_insert_eq.
  - destruct (heap s !! q) as [c|]; [|done]. cbn. unfold conn_after. cbn.
    by rewrite lookup_insert_ne.
Qed.

Lemma exec_set_rng s d n : modify (set_rng n) (commit s d) = Done tt (commit s (draw d n)).
Proof. done. Qed.
