(* ===== verification/Lobby.v ===== *)
(** What each message does, as a function: the specification of the server's
    handlers.

    [lobby_message] maps a state, a sender and a message to the [delta] the
    handler applies: who is sent which message in which order, the new room
    table, who moves where.  Frames, queues, pointers, wake-ups and loops do
    not appear in it.  It is [None] where the handler does not run to the end: no
    attempt of a room creation drew a free code, or the handler reads a [bool]
    that is none ([reads_no_bool]).  [exec_HandleMessage] is the refinement: on
    every well-formed state the handler of [Server] follows no dangling pointer
    and commits exactly this delta. *)
From S2P Require Import Prelude Wire Protocol Framing RoomCache Server ServerExec.

(** ** The specification *)

Section Spec.
Context (s : Server) (p : ptr) (c : Connection.t).

Definition reply (msg : Proto.ServerMessage) : delta :=
  send (no_delta s) [(Connection.id c, msg)].
Definition reject (code : Proto.RoomErrorCode) (context : string) : delta :=
  reply (Proto.RoomError code context).

(** The sender's room, and the room if the sender hosts it. *)
Definition in_room (k : string -> Room.t -> delta) (otherwise : delta) : delta :=
  match rooms s !! Connection.room c with
  | None => otherwise
  | Some r => k (Connection.room c) r
  end.
Definition as_host (k : string -> Room.t -> delta) : delta :=
  in_room (fun code r =>
    if bool_decide (Room.host r <> Connection.id c) then reject Proto.NotHost ""
    else k code r)
    (reject Proto.NotInRoom "").

(** [r] becomes the room at [code], and the members of [r] are told [msg]. *)
Definition announce (code : string) (r : Room.t) (msg : Proto.ServerMessage) : delta :=
  send (with_rooms (no_delta s) (<[code := r]> (rooms s))) (to_all (Room.members r) msg).

(** The events that bring a joiner up to date. *)
Definition hydration (i : N) (code : string) (r : Room.t) : outgoing :=
  [(i, Proto.AssignRoomId code)]
  ++ ((fun m => (i, Proto.PeerJoined m)) <$> Room.members r)
  ++ [(i, Proto.HostChanged (Room.host r));
      (i, Proto.RoomAccessChanged (Room.open r) (negb (str_empty (Room.password r))))]
  ++ ((fun kv => (i, Proto.RoomDataChanged kv.1 kv.2)) <$> items (Room.data r))
  ++ concat ((fun mkv =>
       (fun kv => (i, Proto.MemberDataChanged mkv.1 kv.1 kv.2)) <$> items mkv.2)
       <$> items (Room.member_data r)).

Definition lobby_join (code password : string) : delta :=
  if negb (str_empty (Connection.room c)) then
    reject Proto.AlreadyInRoom (Connection.room c)
  else
    match rooms s !! code with
    | None => reject Proto.NoSuchRoom code
    | Some r =>
        if vector_contains (Room.banned_members r) (Connection.id c) then
          reject Proto.Banned code
        else if negb (Room.open r) then reject Proto.RoomClosed code
        else if negb (str_empty (Room.password r))
                && bool_decide (password <> Room.password r) then
          reject Proto.BadPassword code
        else
          move (with_rooms
            (send (no_delta s)
              (to_all (Room.members r) (Proto.PeerJoined (Connection.id c))
               ++ hydration (Connection.id c) code r))
            (<[code := Room.set_members (Room.members r ++ [Connection.id c]) r]> (rooms s)))
            p code
    end.

(** The room without the member [i]. *)
Definition room_without (i : N) (r : Room.t) : Room.t :=
  Room.set_member_data (delete i (Room.member_data r))
    (Room.set_members (vector_erase i (Room.members r)) r).

Definition lobby_set_room_data (key value : string) : delta :=
  as_host (fun code r =>
    if bad_room_data key value then reject Proto.BadRoomData key
    else if str_empty value then
      if bool_decide (Room.data r !! key = None) then no_delta s
      else announce code (Room.set_data (delete key (Room.data r)) r)
             (Proto.RoomDataChanged key value)
    else if bool_decide (Room.data r !! key = Some value) then no_delta s
    else if bool_decide (Room.data r !! key = None
                         /\ Proto.max_room_data_keys <= size (Room.data r)) then
      reject Proto.BadRoomData key
    else announce code (Room.set_data (<[key := value]> (Room.data r)) r)
           (Proto.RoomDataChanged key value)).

(** A member's slots with one key set or, for an empty value, deleted; a member
    without slots has no entry. *)
Definition set_slot (i : N) (key value : string) (m : gmap N (gmap string string)) :
    gmap N (gmap string string) :=
  let slots := default ∅ (m !! i) in
  let slots' := if str_empty value then delete key slots else <[key := value]> slots in
  if bool_decide (slots' = ∅) then delete i m else <[i := slots']> m.

Definition lobby_set_member_data (key value : string) : delta :=
  in_room (fun code r =>
    let slots := default ∅ (Room.member_data r !! Connection.id c) in
    if bad_room_data key value then reject Proto.BadRoomData key
    else if bool_decide (default EmptyString (slots !! key) = value) then no_delta s
    else if negb (str_empty value)
            && bool_decide (slots !! key = None /\ Proto.max_member_data_keys <= size slots) then
      reject Proto.BadRoomData key
    else announce code
           (Room.set_member_data (set_slot (Connection.id c) key value (Room.member_data r)) r)
           (Proto.MemberDataChanged (Connection.id c) key value))
    (reject Proto.NotInRoom "").

Definition lobby_transfer_host (target : N) : delta :=
  as_host (fun code r =>
    if bool_decide (target = Connection.id c) then no_delta s
    else if vector_contains (Room.members r) target then
      announce code (Room.set_host target r) (Proto.HostChanged target)
    else reject Proto.NoSuchMember (to_string target)).

Definition lobby_set_room_joinable (opened : bool) : delta :=
  as_host (fun code r =>
    if Bool.eqb (Room.open r) opened then no_delta s
    else announce code (Room.set_open opened r)
           (Proto.RoomAccessChanged opened (negb (str_empty (Room.password r))))).

(** The one request whose handler reads a [bool] off the wire, in the one case
    in which it gets there: undefined behaviour if the byte is no value. *)
Definition hosts : bool :=
  match rooms s !! Connection.room c with
  | Some r => bool_decide (Room.host r = Connection.id c)
  | None => false
  end.
Definition reads_no_bool (msg : Proto.ServerMessage) : bool :=
  match msg with
  | Proto.SetRoomJoinable opened => hosts && bool_decide (read_bool opened = None)
  | _ => false
  end.

Definition lobby_set_room_password (password : string) : delta :=
  as_host (fun code r =>
    if bool_decide (Proto.max_room_password < str_size password)%N then
      reject Proto.BadPassword ""
    else
      let r' := Room.set_password password r in
      if Bool.eqb (str_empty (Room.password r)) (str_empty password) then
        with_rooms (no_delta s) (<[code := r']> (rooms s))
      else announce code r'
             (Proto.RoomAccessChanged (Room.open r) (negb (str_empty password)))).

Definition lobby_chat (text : string) : delta :=
  in_room (fun code r =>
    send (no_delta s) (to_all (Room.members r) (Proto.RoomChat (Connection.id c) text)))
    (reject Proto.NotInRoom "").

Definition lobby_signal (target : N) (kind : Proto.P2PSignalKind) (payload : string) : delta :=
  in_room (fun code r =>
    if bool_decide (target <> Connection.id c /\ target ∈ Room.members r) then
      send (no_delta s) [(target, Proto.P2PSignal (Connection.id c) kind payload)]
    else no_delta s)
    (no_delta s).
End Spec.

(** The member [i], connection [p], leaves the room at [code]: the last member
    closes the room; otherwise the others are told, and a host who leaves is
    succeeded by the oldest remaining member. *)
Definition lobby_leave (d : delta) (p : ptr) (i : N) (code : string) : delta :=
  match d_rooms d !! code with
  | None => move d p ""
  | Some r =>
      let r' := room_without i r in
      match Room.members r' with
      | [] => move (with_rooms d (delete code (d_rooms d))) p ""
      | (front :: _) as others =>
          let left := send d (to_all others (Proto.PeerLeft i)) in
          if bool_decide (Room.host r = i) then
            move (send (with_rooms left (<[code := Room.set_host front r']> (d_rooms d)))
                    (to_all others (Proto.HostChanged front))) p ""
          else move (with_rooms left (<[code := r']> (d_rooms d))) p ""
      end
  end.

(** Removal by the host: the target is told why, and leaves; a ban is entered
    in the room first. *)
Definition lobby_remove (s : Server) (c : Connection.t) (target : N)
    (notice : Proto.ServerMessage) (enter : Room.t -> Room.t) : delta :=
  as_host s c (fun code r =>
    match connections s !! target with
    | Some q =>
        if bool_decide (target <> Room.host r /\ target ∈ Room.members r) then
          lobby_leave
            (send (with_rooms (no_delta s) (<[code := enter r]> (rooms s))) [(target, notice)])
            q target code
        else reject s c Proto.NoSuchMember (to_string target)
    | None => reject s c Proto.NoSuchMember (to_string target)
    end).

Definition enter_ban (target : N) (r : Room.t) : Room.t :=
  if vector_contains (Room.banned_members r) target then r
  else Room.set_banned_members (Room.banned_members r ++ [target]) r.

Section Create.
Context `{!RoomRng}.

(** The code made from [n] draws, the first one being draw number [k]. *)
Fixpoint code_from (k n : nat) : string :=
  match n with
  | O => EmptyString
  | S n' => String (alphabet_at (pick k)) (code_from (S k) n')
  end.

(** The [i]-th code tried by a server whose next draw is number [k]. *)
Definition attempt (k n i : nat) : string := code_from (k + i * n) n.

Definition code_length (s : Server) : nat := N.to_nat (room_code_length (config s)).

(** The first of [fuel + 1] attempts that is no room's code. *)
Fixpoint first_free (R : gmap string Room.t) (k n fuel : nat) : option (string * nat) :=
  match R !! code_from k n with
  | None => Some (code_from k n, (k + n)%nat)
  | Some _ =>
      match fuel with
      | O => None
      | S fuel' => first_free R (k + n) n fuel'
      end
  end.

Definition lobby_create (fuel : nat) (s : Server) (p : ptr) (c : Connection.t) : option delta :=
  if negb (str_empty (Connection.room c)) then
    Some (reject s c Proto.AlreadyInRoom (Connection.room c))
  else
    '(code, k) ← first_free (rooms s) (rng s) (code_length s) fuel;
    Some (send
      (move (with_rooms (draw (no_delta s) k)
               (<[code := Room.fresh code (Connection.id c)]> (rooms s))) p code)
      [(Connection.id c, Proto.AssignRoomId code);
       (Connection.id c, Proto.HostChanged (Connection.id c))]).

Definition lobby_message (fuel : nat) (s : Server) (p : ptr) (c : Connection.t)
    (msg : Proto.ServerMessage) : option delta :=
  match msg with
  | Proto.Heartbeat timestamp => Some (reply s c (Proto.Heartbeat timestamp))
  | Proto.CreateRoom => lobby_create fuel s p c
  | Proto.JoinRoom code password => Some (lobby_join s p c code password)
  | Proto.LeaveRoom => Some (
      if str_empty (Connection.room c) then reject s c Proto.NotInRoom ""
      else lobby_leave (reply s c (Proto.PeerLeft (Connection.id c))) p
             (Connection.id c) (Connection.room c))
  | Proto.RoomChat _ text => Some (lobby_chat s c text)
  | Proto.P2PSignal target kind payload => Some (lobby_signal s c target kind payload)
  | Proto.SetRoomData key value => Some (lobby_set_room_data s c key value)
  | Proto.SetMemberData key value => Some (lobby_set_member_data s c key value)
  | Proto.KickMember target => Some (lobby_remove s c target Proto.KickedByHost id)
  | Proto.BanMember target => Some (lobby_remove s c target Proto.BannedByHost (enter_ban target))
  | Proto.TransferHost target => Some (lobby_transfer_host s c target)
  | Proto.SetRoomJoinable opened =>
      if reads_no_bool s c msg then None
      else Some (lobby_set_room_joinable s c (bool_value opened))
  | Proto.SetRoomPassword password => Some (lobby_set_room_password s c password)
  | _ => Some (no_delta s)
  end.
End Create.

(** The specification reads the rooms, the connections, the draws and the
    settings, and of the sender its id and room. *)
Definition lobby (s : Server) : gmap string Room.t * gmap N ptr * nat * ServerConfig := (rooms s, connections s, rng s, config s).

Lemma lobby_message_ext `{!RoomRng} fuel s s' p c c' msg :
  lobby s' = lobby s -> Connection.id c' = Connection.id c -> Connection.room c' = Connection.room c ->
  lobby_message fuel s' p c' msg = lobby_message fuel s p c msg.
Proof. destruct s, s', c, c'. cbn. intros [= -> -> -> ->] -> ->. reflexivity. Qed.

Lemma reads_no_bool_ext s s' c c' msg :
  lobby s' = lobby s -> Connection.id c' = Connection.id c -> Connection.room c' = Connection.room c ->
  reads_no_bool s' c' msg = reads_no_bool s c msg.
Proof. destruct s, s', c, c'. cbn. intros [= -> -> -> ->] -> ->. reflexivity. Qed.

(** The cases of a message, one goal for each, with what the handler commits. *)
Ltac lobby_cases msg Hd :=
  destruct msg; cbn [lobby_message] in Hd;
  try (match type of Hd with (if ?b then None else _) = _ => destruct b; [discriminate Hd|] end);
  try (injection Hd as <-).
