(* ===== verification/WellFormed.v ===== *)
(** Well-formed server states: the connection table, the connections' rooms and
    the rooms' member lists agree, and every room respects the limits.  An
    executable check decides the property of a concrete state; [Demo] is such a
    state, the one the examples of the other files run on. *)
From S2P Require Import Prelude Wire Protocol Framing RoomCache Server ServerExec Lobby.

(** ** Well-formedness *)

(** The limits on a table of room or member data; a deleted key is absent. *)
Definition data_ok (limit : nat) (m : gmap string string) : Prop :=
  (size m <= limit)%nat /\
  map_Forall (fun k v => bad_room_data k v = false /\ v <> EmptyString) m.

Record room_ok (code : string) (r : Room.t) : Prop := {
  room_key : Room.id r = code;
  room_code : code <> EmptyString;
  room_nodup : NoDup (Room.members r);
  room_host : Room.host r ∈ Room.members r;
  room_banned : forall i, i ∈ Room.members r -> i ∉ Room.banned_members r;
  room_banned_nodup : NoDup (Room.banned_members r);
  room_data : data_ok Proto.max_room_data_keys (Room.data r);
  room_member_data : forall i slots, Room.member_data r !! i = Some slots ->
    i ∈ Room.members r /\ slots <> ∅ /\ data_ok Proto.max_member_data_keys slots;
  room_password : (str_size (Room.password r) <= Proto.max_room_password)%N
}.

(** Every entry of the connection table is a live object with that id; every
    room is well-formed and its members are connections that are in it; a
    connection that is in a room is in the table and in the room's list. *)
Record wf (s : Server) : Prop := {
  wf_table : forall i p, connections s !! i = Some p ->
    exists c, heap s !! p = Some c /\ Connection.id c = i;
  wf_rooms : map_Forall room_ok (rooms s);
  wf_members : forall code r i, rooms s !! code = Some r -> i ∈ Room.members r ->
    exists p c, connections s !! i = Some p /\ heap s !! p = Some c /\ Connection.room c = code;
  wf_conns : forall p c, heap s !! p = Some c -> Connection.room c <> EmptyString ->
    connections s !! Connection.id c = Some p /\
    exists r, rooms s !! Connection.room c = Some r /\ Connection.id c ∈ Room.members r;
  wf_config : code_length s <> 0%nat
}.

(** ** A check of well-formedness *)

Definition map_all {K A} `{Countable K} (f : K -> A -> bool) (m : gmap K A) : bool :=
  forallb (fun kx => f kx.1 kx.2) (map_to_list m).

Lemma map_all_spec {K A} `{Countable K} (f : K -> A -> bool) (m : gmap K A) :
  map_all f m = true -> map_Forall (fun k x => f k x = true) m.
Proof.
  unfold map_all. rewrite forallb_forall. intros Hall k x Hx.
  apply (Hall (k, x)). apply list_elem_of_In, elem_of_map_to_list, Hx.
Qed.

Definition data_check (limit : nat) (m : gmap string string) : bool :=
  bool_decide (size m <= limit)%nat
  && map_all (fun k v => negb (bad_room_data k v) && negb (str_empty v)) m.

Definition member_check (s : Server) (code : string) (i : N) : bool :=
  match connections s !! i ≫= fun p => heap s !! p with
  | Some c => bool_decide (Connection.room c = code)
  | None => false
  end.

Definition room_check (code : string) (r : Room.t) : bool :=
  bool_decide (Room.id r = code) && bool_decide (code <> EmptyString)
  && bool_decide (NoDup (Room.members r)) && bool_decide (Room.host r ∈ Room.members r)
  && forallb (fun i => bool_decide (i ∉ Room.banned_members r)) (Room.members r)
  && bool_decide (NoDup (Room.banned_members r))
  && data_check Proto.max_room_data_keys (Room.data r)
  && map_all (fun i slots => bool_decide (i ∈ Room.members r) && bool_decide (slots <> ∅)
       && data_check Proto.max_member_data_keys slots) (Room.member_data r)
  && bool_decide (str_size (Room.password r) <= Proto.max_room_password)%N.

Definition conn_check (s : Server) (p : ptr) (c : Connection.t) : bool :=
  str_empty (Connection.room c)
  || (bool_decide (connections s !! Connection.id c = Some p)
      && match rooms s !! Connection.room c with
         | Some r => bool_decide (Connection.id c ∈ Room.members r)
         | None => false
         end).

Definition wf_check (s : Server) : bool :=
  map_all (fun i p => match heap s !! p with
                      | Some c => bool_decide (Connection.id c = i)
                      | None => false
                      end) (connections s)
  && map_all room_check (rooms s)
  && map_all (fun code r => forallb (member_check s code) (Room.members r)) (rooms s)
  && map_all (conn_check s) (heap s)
  && bool_decide (code_length s <> 0%nat).

Ltac split_check :=
  repeat match goal with
  | H : (_ && _)%bool = true |- _ => apply andb_true_iff in H as [? ?]
  | H : bool_decide _ = true |- _ => apply bool_decide_eq_true in H
  end.

Lemma data_check_sound limit m : data_check limit m = true -> data_ok limit m.
Proof.
  unfold data_check. intros. split_check. split; [done|].
  match goal with H : map_all _ _ = true |- _ => apply map_all_spec in H as Hall end.
  intros k v Hkv. specialize (Hall k v Hkv). cbn in Hall. split_check.
  rewrite negb_true_iff in *. split; [done|]. intros ->. done.
Qed.

Lemma room_check_sound code r : room_check code r = true -> room_ok code r.
Proof.
  unfold room_check. intros. split_check. rewrite !forallb_forall in *.
  split; auto using data_check_sound.
  - intros i Hi. match goal with H : forall x, In x _ -> bool_decide _ = true |- _ =>
      specialize (H i ltac:(by apply list_elem_of_In)) end. by split_check.
  - intros i slots Hi. match goal with H : map_all _ (Room.member_data _) = true |- _ =>
      apply map_all_spec in H; specialize (H i slots Hi); cbn in H end.
    split_check. auto using data_check_sound.
Qed.

Lemma member_check_sound s code i :
  member_check s code i = true ->
  exists p c, connections s !! i = Some p /\ heap s !! p = Some c /\ Connection.room c = code.
Proof.
  unfold member_check. destruct (connections s !! i) as [p|]; cbn; [|done].
  destruct (heap s !! p) as [c|] eqn:Hp; cbn; [|done]. intros. split_check. eauto.
Qed.

Lemma wf_check_sound s : wf_check s = true -> wf s.
Proof.
  unfold wf_check. intros. split_check.
  repeat match goal with H : map_all _ _ = true |- _ => apply map_all_spec in H end.
  split; [| | | |done].
  - intros i p Hp. match goal with H : map_Forall _ (connections s) |- _ =>
      specialize (H i p Hp); cbn in H end.
    destruct (heap s !! p) as [c|]; [|done]. split_check. eauto.
  - intros code r Hr. apply room_check_sound. eauto.
  - intros code r i Hr Hi. apply member_check_sound.
    match goal with H : map_Forall (fun _ _ => forallb _ _ = true) (rooms s) |- _ =>
      specialize (H code r Hr); cbn in H; rewrite forallb_forall in H; apply H end.
    by apply list_elem_of_In.
  - intros p c Hp Hroom. match goal with H : map_Forall _ (heap s) |- _ =>
      specialize (H p c Hp); unfold conn_check in H end.
    destruct (str_empty (Connection.room c)) eqn:Hempty; [by apply str_empty_spec in Hempty|].
    cbn [orb] in *. split_check.
    destruct (rooms s !! Connection.room c) as [r|]; [|done]. split_check. eauto.
Qed.

(** A server with a room of two, a client the room bars and one it does not. *)
Module Demo.
Definition conn (i : N) (room : string) : Connection.t :=
  Connection.mk i room (mkSocket true [] []) [] true false.
Definition room : Room.t :=
  Room.mk "WXYZ" 1 [1; 2]%N {[ "map" := "dust" ]} {[ 2%N := {[ "team" := "red" ]} ]} true "pw" [3%N].
Definition config : ServerConfig := mkServerConfig 5000 4 (Proto.mkIceServers "" 0 []).
Definition server : Server :=
  mkServer {[ 0%nat := conn 1 "WXYZ"; 1%nat := conn 2 "WXYZ"; 2%nat := conn 3 "";
    3%nat := conn 4 "" ]} 4
    {[ 1%N := 0%nat; 2%N := 1%nat; 3%N := 2%nat; 4%N := 3%nat ]} {[ "WXYZ" := room ]} 5 config 0.
#[export] Instance rng : RoomRng.
Proof.
  refine {| pick := fun k => (k mod 32)%nat |}. intros k. by apply Nat.mod_upper_bound.
Defined.
End Demo.
