(* ===== verification/Refine.v ===== *)
(** The refinement: on a well-formed state every handler of [Server] commits the
    delta that [Lobby] specifies. *)
From S2P Require Import Prelude Wire Protocol Framing RoomCache Server ServerExec Lobby WellFormed.

(** ** Running a handler *)

Lemma conn_after_id s d p c : Connection.id (conn_after s d p c) = Connection.id c.
Proof. done. Qed.
Lemma conn_after_room s d p c :
  Connection.room (conn_after s d p c) = default (Connection.room c) (d_where d !! p).
Proof. done. Qed.

Section Run.
Context {A : Type}.
Implicit Types (k : unit -> M Server A).

Lemma run_get_conn s d p c (k : Connection.t -> M Server A) :
  heap s !! p = Some c ->
  (get_conn p ≫= k) (commit s d) = k (conn_after s d p c) (commit s d).
Proof. intros Hp. by apply bind_done, exec_get_conn. Qed.
Lemma run_get_room s d r code (k : Room.t -> M Server A) :
  d_rooms d !! code = Some r -> (get_room code ≫= k) (commit s d) = k r (commit s d).
Proof. intros Hr. by apply bind_done, exec_get_room. Qed.
Lemma run_rooms s d (k : gmap string Room.t -> M Server A) :
  (gets rooms ≫= k) (commit s d) = k (d_rooms d) (commit s d).
Proof. done. Qed.
Lemma run_connections s d (k : gmap N ptr -> M Server A) :
  (gets connections ≫= k) (commit s d) = k (connections s) (commit s d).
Proof. done. Qed.
Lemma run_rng s d (k : nat -> M Server A) : (gets rng ≫= k) (commit s d) = k (d_rng d) (commit s d).
Proof. done. Qed.
Lemma run_config s d (k : ServerConfig -> M Server A) :
  (gets config ≫= k) (commit s d) = k (config s) (commit s d).
Proof. done. Qed.
Lemma run_SendTo s d i m k :
  (SendTo i m ≫= k) (commit s d) = k () (commit s (send d [(i, m)])).
Proof. apply bind_done, exec_SendTo. Qed.
Lemma run_SendToMany s d ids m k :
  (SendToMany ids m ≫= k) (commit s d) = k () (commit s (send d (to_all ids m))).
Proof. apply bind_done, exec_SendToMany. Qed.
Lemma run_for_each {B} s d (l : list B) body (F : B -> outgoing) k :
  (forall x d, body x (commit s d) = Done tt (commit s (send d (F x)))) ->
  (for_each l body ≫= k) (commit s d) = k () (commit s (send d (concat (F <$> l)))).
Proof. intros Hbody. by apply bind_done, exec_for_each. Qed.
Lemma run_put_room s d code r k :
  (put_room code r ≫= k) (commit s d)
  = k () (commit s (with_rooms d (<[code := r]> (d_rooms d)))).
Proof. done. Qed.
Lemma run_set_rooms s d f k :
  (modify (fun s => set_rooms (f (rooms s)) s) ≫= k) (commit s d)
  = k () (commit s (with_rooms d (f (d_rooms d)))).
Proof. done. Qed.
Lemma run_set_rng s d n k :
  (modify (set_rng n) ≫= k) (commit s d) = k () (commit s (draw d n)).
Proof. done. Qed.
Lemma run_move s d p v k :
  (modify (update_conn p (Connection.set_room v)) ≫= k) (commit s d) = k () (commit s (move d p v)).
Proof. apply bind_done, exec_move. Qed.
Lemma run_log s d {B} (args : B) k : (spdlog_info args ≫= k) (commit s d) = k () (commit s d).
Proof. done. Qed.
Lemma run_ret s {B} (b : B) (k : B -> M Server A) : ((ret b : M Server B) ≫= k) s = k b s.
Proof. done. Qed.
Lemma run_assoc s {B C} (m : M Server B) (j : B -> M Server C) (k : C -> M Server A) :
  ((m ≫= j) ≫= k) s = (m ≫= fun x => j x ≫= k) s.
Proof. unfold mbind, M_bind, bind. by destruct (m s). Qed.
End Run.

Lemma exec_log s d {B} (args : B) : spdlog_info args (commit s d) = Done () (commit s d).
Proof. done. Qed.
Lemma exec_ret (s : Server) {B} (b : B) : ret b s = Done b s.
Proof. done. Qed.

Lemma concat_singletons {A B} (f : A -> B) l : concat ((fun x => [f x]) <$> l) = f <$> l.
Proof. induction l; cbn; congruence. Qed.

(** Rewrites with the equations of the primitives until a branch remains. *)
Ltac run_step :=
  first
  [ rewrite run_assoc | rewrite run_rooms | rewrite run_connections | rewrite run_rng
  | rewrite run_config | rewrite run_SendTo | rewrite run_SendToMany | rewrite run_put_room
  | rewrite run_move | rewrite run_set_rng | rewrite run_log | rewrite run_ret
  | erewrite run_get_conn by eassumption
  | erewrite run_get_room by (cbn [d_rooms send with_rooms move draw no_delta]; eassumption)
  | rewrite exec_SendTo | rewrite exec_SendToMany | rewrite exec_put_room | rewrite exec_move
  | rewrite exec_log | rewrite exec_ret ].
Ltac run := repeat (run_step; cbn beta iota);
  rewrite ?conn_after_id, ?conn_after_room; cbn [d_rooms d_where d_rng send with_rooms move draw no_delta];
  rewrite ?lookup_empty; cbn [from_option id].
Ltac start := match goal with |- ?m ?s = _ => rewrite <-(commit_no_delta s) at 1 end.

Section Handlers.
Context (s : Server) (p : ptr) (c : Connection.t) (Hp : heap s !! p = Some c).

Lemma exec_Heartbeat t `{!RoomRng} fuel :
  HandleMessage fuel p (Proto.Heartbeat t) s = Done () (commit s (reply s c (Proto.Heartbeat t))).
Proof. cbn [HandleMessage]. start. run. done. Qed.

Lemma exec_HandleRoomChat text :
  HandleRoomChat p text s = Done () (commit s (lobby_chat s c text)).
Proof.
  unfold HandleRoomChat, lobby_chat, in_room. start. run.
  destruct (rooms s !! Connection.room c); run; done.
Qed.

Lemma exec_HandleP2PSignal target kind payload :
  HandleP2PSignal p target kind payload s = Done () (commit s (lobby_signal s c target kind payload)).
Proof.
  unfold HandleP2PSignal, lobby_signal, in_room, vector_contains. start. run.
  destruct (rooms s !! Connection.room c) as [r|]; run; [|done].
  repeat case_bool_decide; cbn [orb negb andb]; run; first [done | exfalso; naive_solver].
Qed.

Lemma run_HostRoom (k : option string -> M Server unit) :
  (HostRoom p ≫= k) (commit s (no_delta s)) =
  match rooms s !! Connection.room c with
  | None => k None (commit s (reject s c Proto.NotInRoom ""))
  | Some r =>
      if bool_decide (Room.host r <> Connection.id c) then
        k None (commit s (reject s c Proto.NotHost ""))
      else k (Some (Connection.room c)) (commit s (no_delta s))
  end.
Proof.
  unfold HostRoom. run.
  destruct (rooms s !! Connection.room c) as [r|]; [case_bool_decide|]; run; done.
Qed.

(** The preamble of a host-only handler, on both sides. *)
Ltac host_preamble Hr r :=
  start; run; rewrite run_HostRoom; unfold as_host, in_room;
  destruct (rooms s !! Connection.room c) as [r|] eqn:Hr; [|run; done];
  case_bool_decide; [run; done|]; run.

Lemma exec_HandleTransferHost target :
  HandleTransferHost p target s = Done () (commit s (lobby_transfer_host s c target)).
Proof.
  unfold HandleTransferHost, lobby_transfer_host. host_preamble Hr r.
  case_bool_decide; run; [done|].
  destruct (vector_contains (Room.members r) target); cbn [negb]; run; done.
Qed.

Lemma exec_HandleSetRoomJoinable opened :
  HandleSetRoomJoinable p opened s =
  if reads_no_bool s c (Proto.SetRoomJoinable opened) then Dangling
  else Done () (commit s (lobby_set_room_joinable s c (bool_value opened))).
Proof.
  unfold HandleSetRoomJoinable, lobby_set_room_joinable, reads_no_bool, hosts. start. run. rewrite run_HostRoom.
  unfold as_host, in_room. destruct (rooms s !! Connection.room c) as [r|] eqn:Hr; [|run; done].
  destruct (decide (Room.host r = Connection.id c)) as [Hhost|Hhost].
  - rewrite bool_decide_false, (bool_decide_true (Room.host r = _)) by auto. run. cbn [andb].
    unfold load_bool, bool_value. destruct (read_bool opened) as [b|]; [|done]. cbn [default from_option id].
    rewrite bool_decide_false by done. run. destruct (Bool.eqb (Room.open r) b); run; done.
  - rewrite bool_decide_true, (bool_decide_false (Room.host r = _)) by auto. run. done.
Qed.

Lemma with_same_rooms d code r : d_rooms d !! code = Some r -> with_rooms d (<[code := r]> (d_rooms d)) = d.
Proof. intros Hr. destruct d. unfold with_rooms. cbn in *. by rewrite insert_id. Qed.

Lemma exec_HandleSetRoomPassword password :
  HandleSetRoomPassword p password s = Done () (commit s (lobby_set_room_password s c password)).
Proof.
  unfold HandleSetRoomPassword, lobby_set_room_password. host_preamble Hr r.
  case_bool_decide; run; [done|].
  case_bool_decide as Hsame; run.
  - subst password. rewrite Bool.eqb_reflx.
    change (rooms s) with (d_rooms (no_delta s)). rewrite with_same_rooms; [done|].
    cbn. rewrite Hr. by destruct r.
  - destruct (str_empty (Room.password r)), (str_empty password); cbn [negb Bool.eqb]; run; done.
Qed.

Lemma exec_HandleSetRoomData key value :
  HandleSetRoomData p key value s = Done () (commit s (lobby_set_room_data s c key value)).
Proof.
  unfold HandleSetRoomData, lobby_set_room_data. host_preamble Hr r.
  destruct (bad_room_data key value); run; [done|].
  destruct (str_empty value) eqn:Hempty.
  { destruct (Room.data r !! key); [rewrite bool_decide_false by done|rewrite bool_decide_true by done];
      run; done. }
  destruct (Room.data r !! key) as [old|] eqn:Hold.
  - rewrite (bool_decide_ext (Some old = Some value) (old = value)) by naive_solver.
    case_bool_decide; run; [done|]. rewrite bool_decide_false by naive_solver. done.
  - rewrite (bool_decide_false (None = Some value)) by done.
    rewrite map_size_insert_None by done.
    rewrite (bool_decide_ext (_ /\ _) (Proto.max_room_data_keys < S (size (Room.data r)))%nat)
      by (split; [intros [_ ?]|split]; [lia|done|lia]).
    case_bool_decide; run; [|done]. rewrite delete_insert_id by done.
    do 2 f_equal. unfold reject, reply. f_equal.
    change (rooms s) with (d_rooms (no_delta s)). rewrite with_same_rooms; [done|].
    cbn. rewrite Hr. by destruct r.
Qed.

Lemma exec_HandleJoinRoom code password :
  HandleJoinRoom p code password s = Done () (commit s (lobby_join s p c code password)).
Proof.
  unfold HandleJoinRoom, lobby_join. start. run.
  destruct (str_empty (Connection.room c)); cbn [negb]; run; [|done].
  destruct (rooms s !! code) as [r|] eqn:Hr; run; [|done].
  destruct (vector_contains _ _); run; [done|].
  destruct (Room.open r) eqn:Hopen; cbn [negb]; run; [|done].
  destruct (negb (str_empty (Room.password r)) && _); run; [done|].
  rewrite (run_for_each _ _ _ _ (fun m => [(Connection.id c, Proto.PeerJoined m)]))
    by (intros; run; done). run.
  rewrite (run_for_each _ _ _ _
    (fun kv => [(Connection.id c, Proto.RoomDataChanged kv.1 kv.2)]))
    by (intros []; intros; run; done). run.
  rewrite (run_for_each _ _ _ _
    (fun mkv => (fun kv => (Connection.id c, Proto.MemberDataChanged mkv.1 kv.1 kv.2)) <$> items mkv.2)).
  2:{ intros [m slots] d.
      rewrite (exec_for_each _ _ _ _
        (fun kv => [(Connection.id c, Proto.MemberDataChanged m kv.1 kv.2)]))
        by (intros []; intros; run; done).
      by rewrite concat_singletons. }
  run. rewrite !send_send, !concat_singletons. unfold hydration. by rewrite Hopen.
Qed.

(** The room a member belongs to, with its invariant. *)
Lemma wf_room code r : wf s -> rooms s !! code = Some r -> room_ok code r.
Proof. intros Hwf Hr. by apply (wf_rooms _ Hwf). Qed.

Lemma put_same_room code r (d : delta) :
  rooms s !! code = Some r -> commit s (with_rooms d (<[code := r]> (rooms s)))
  = commit s (with_rooms d (rooms s)).
Proof. intros Hr. by rewrite insert_id. Qed.

Lemma set_slot_insert i key value m :
  str_empty value = false ->
  set_slot i key value m = <[i := <[key := value]> (default ∅ (m !! i))]> m.
Proof.
  intros Hv. unfold set_slot. rewrite Hv. rewrite bool_decide_false; [done|].
  apply insert_non_empty.
Qed.

Lemma set_slot_delete i key m slots :
  m !! i = Some slots ->
  set_slot i key "" m =
    if bool_decide (delete key slots = ∅) then delete i m else <[i := delete key slots]> m.
Proof. intros Hm. unfold set_slot. by rewrite Hm. Qed.

Lemma exec_HandleSetMemberData key value :
  wf s -> HandleSetMemberData p key value s = Done () (commit s (lobby_set_member_data s c key value)).
Proof.
  intros Hwf. unfold HandleSetMemberData, lobby_set_member_data, in_room. start. run.
  destruct (rooms s !! Connection.room c) as [r|] eqn:Hr; run; [|done].
  destruct (bad_room_data key value); run; [done|].
  pose proof (wf_room _ _ Hwf Hr) as Hok.
  destruct (str_empty value) eqn:Hv; cbn [negb andb].
  - apply str_empty_spec in Hv as ->.
    destruct (Room.member_data r !! Connection.id c) as [slots|] eqn:Hm; cbn [from_option id]; run;
      [|by rewrite bool_decide_true by done].
    destruct (slots !! key) as [v|] eqn:Hk; run; [|by rewrite bool_decide_true by done].
    destruct (room_member_data _ _ Hok _ _ Hm) as (_ & _ & _ & Hdata).
    destruct (Hdata _ _ Hk) as [_ Hne]. cbn [from_option id]. rewrite (bool_decide_false (v = "")) by done.
    rewrite (set_slot_delete _ _ _ slots) by done.
    case_bool_decide; run; done.
  - assert (value <> EmptyString) as Hne.
    { intros Hnil. apply str_empty_spec in Hnil. congruence. }
    rewrite set_slot_insert by done.
    set (slots := default ∅ (Room.member_data r !! Connection.id c)).
    destruct (slots !! key) as [v|] eqn:Hk; cbn [from_option id].
    + case_bool_decide; run; [done|]. rewrite (bool_decide_false (_ /\ _)) by naive_solver. done.
    + rewrite (bool_decide_false ("" = value)) by done.
      rewrite map_size_insert_None by done.
      rewrite (bool_decide_ext (_ /\ _) (Proto.max_member_data_keys < S (size slots))%nat)
        by (split; [intros [_ ?]|split]; [lia|done|lia]).
      case_bool_decide as Hfull; run; [|done].
      rewrite delete_insert_id by done. unfold reject, reply.
      destruct (Room.member_data r !! Connection.id c) as [m|] eqn:Hm; cbn [from_option id] in slots.
      2:{ subst slots. rewrite map_size_empty in Hfull. unfold Proto.max_member_data_keys in Hfull. lia. }
      subst slots. rewrite (insert_id (Room.member_data r)) by done.
      rewrite insert_id; [done|]. rewrite Hr. by destruct r.
Qed.

End Handlers.

(** ** Leaving and removal *)

Lemma exec_LeaveRoom s d p c :
  heap s !! p = Some c ->
  let code := default (Connection.room c) (d_where d !! p) in
  str_empty code = false ->
  LeaveRoom p (commit s d) = Done () (commit s (lobby_leave d p (Connection.id c) code)).
Proof.
  intros Hp code Hcode. unfold LeaveRoom, lobby_leave. run. fold code. rewrite Hcode. run.
  destruct (d_rooms d !! code) as [r|]; run; [|done].
  unfold room_without. cbn [Room.members Room.set_member_data Room.set_members].
  destruct (vector_erase (Connection.id c) (Room.members r)) as [|front others].
  - rewrite bool_decide_true by done. run. rewrite run_set_rooms. run.
    by rewrite delete_insert_eq.
  - rewrite bool_decide_false by done. run.
    cbn [Room.host Room.set_member_data Room.set_members].
    case_bool_decide; cbn [vector_front]; run; [|done].
    by rewrite insert_insert_eq.
Qed.

Section Removal.
Context (s : Server) (p : ptr) (c : Connection.t) (Hp : heap s !! p = Some c).

Lemma exec_HandleLeaveRoom :
  HandleLeaveRoom p s = Done () (commit s (
    if str_empty (Connection.room c) then reject s c Proto.NotInRoom ""
    else lobby_leave (reply s c (Proto.PeerLeft (Connection.id c))) p
           (Connection.id c) (Connection.room c))).
Proof.
  unfold HandleLeaveRoom. start. run.
  destruct (str_empty (Connection.room c)) eqn:Hroom; run; [done|].
  by rewrite (exec_LeaveRoom _ _ _ c).
Qed.

(** On a well-formed state the connection table, the rooms of the connections
    and the member lists agree about who is in a room. *)
Lemma wf_member i q t code r :
  wf s -> rooms s !! code = Some r -> connections s !! i = Some q -> heap s !! q = Some t ->
  Connection.room t = code <-> i ∈ Room.members r.
Proof.
  intros Hwf Hr Hi Hq. destruct (wf_table _ Hwf _ _ Hi) as (t' & Hq' & Hid). simplify_eq.
  pose proof (wf_rooms _ Hwf _ _ Hr) as Hok. split.
  - intros <-. destruct (wf_conns _ Hwf _ _ Hq (room_code _ _ Hok)) as (_ & r' & Hr' & Hin).
    by simplify_eq.
  - intros Hin. destruct (wf_members _ Hwf _ _ _ Hr Hin) as (q' & t' & ? & ? & ?). by simplify_eq.
Qed.

Lemma run_room_target r target (k : option ptr -> M Server unit) d :
  wf s -> d_where d = ∅ -> rooms s !! Connection.room c = Some r ->
  (room_target r target ≫= k) (commit s d) =
  match connections s !! target with
  | Some q =>
      if bool_decide (target <> Room.host r /\ target ∈ Room.members r) then
        k (Some q) (commit s d)
      else k None (commit s d)
  | None => k None (commit s d)
  end.
Proof.
  intros Hwf Hd Hr. unfold room_target. run.
  case_bool_decide as Hhost.
  { run. destruct (connections s !! target); [|done]. by rewrite bool_decide_false by naive_solver. }
  destruct (connections s !! target) as [q|] eqn:Hq; run; [|done].
  destruct (wf_table _ Hwf _ _ Hq) as (t & Ht & _).
  pose proof (wf_member _ _ _ _ _ Hwf Hr Hq Ht) as Hmem.
  pose proof (room_key _ _ (wf_rooms _ Hwf _ _ Hr)) as Hid.
  erewrite run_get_conn by eassumption. run. rewrite Hd, lookup_empty, Hid. cbn [from_option id].
  repeat case_bool_decide; run; first [done | exfalso; naive_solver].
Qed.

(** The host is still in the room after another member left it. *)
Lemma host_stays r target :
  Room.host r ∈ Room.members r -> target <> Room.host r ->
  Room.host r ∈ Room.members (room_without target r).
Proof.
  intros Hin Hne. cbn. unfold vector_erase. by apply list_elem_of_filter.
Qed.

Lemma leave_keeps_room d q target code r :
  d_rooms d !! code = Some r -> Room.host r ∈ Room.members r -> target <> Room.host r ->
  exists r', d_rooms (lobby_leave d q target code) !! code = Some r'.
Proof.
  intros Hr Hin Hne. unfold lobby_leave. rewrite Hr.
  pose proof (host_stays _ _ Hin Hne) as Hstay.
  destruct (Room.members (room_without target r)) as [|front others]; [by apply not_elem_of_nil in Hstay|].
  case_bool_decide; eexists; apply lookup_insert_eq.
Qed.

(** What both kinds of removal do once the target is found. *)
Lemma run_removal code r r1 target q notice (log : Room.t -> M Server unit) :
  wf s -> rooms s !! code = Some r -> connections s !! target = Some q ->
  target ∈ Room.members r -> target <> Room.host r ->
  Room.members r1 = Room.members r -> Room.host r1 = Room.host r ->
  (forall r' s', log r' s' = Done () s') ->
  let d := with_rooms (no_delta s) (<[code := r1]> (rooms s)) in
  (SendTo target notice ;; LeaveRoom q ;; room ← get_room code; log room) (commit s d)
  = Done () (commit s (lobby_leave (send d [(target, notice)]) q target code)).
Proof.
  intros Hwf Hr Hq Hin Hne Hmem Hhost Hlog d. run.
  destruct (wf_members _ Hwf _ _ _ Hr Hin) as (q' & t & Hq' & Ht & Hroom).
  simplify_eq. destruct (wf_table _ Hwf _ _ Hq) as (t' & Ht' & Hid). simplify_eq.
  pose proof (wf_room s _ _ Hwf Hr) as Hok.
  erewrite bind_done.
  2:{ apply (exec_LeaveRoom _ _ _ _ Ht). cbn. rewrite lookup_empty. cbn.
      apply bool_decide_false, (room_code _ _ Hok). }
  cbn [d_where send d with_rooms no_delta]. rewrite lookup_empty. cbn [from_option id].
  destruct (leave_keeps_room (send d [(Connection.id t, notice)]) q (Connection.id t)
    (Connection.room t) r1) as [r' Hr'].
  - apply lookup_insert_eq.
  - rewrite Hmem, Hhost. apply (room_host _ _ Hok).
  - by rewrite Hhost.
  - erewrite run_get_room by exact Hr'. apply Hlog.
Qed.

Lemma exec_HandleKickMember target :
  wf s -> HandleKickMember p target s
  = Done () (commit s (lobby_remove s c target Proto.KickedByHost id)).
Proof.
  intros Hwf. unfold HandleKickMember, lobby_remove, as_host, in_room. start. run.
  rewrite (run_HostRoom s p c Hp). destruct (rooms s !! Connection.room c) as [r|] eqn:Hr; [|run; done].
  case_bool_decide; [run; done|]. run. rewrite run_room_target by done.
  destruct (connections s !! target) as [q|] eqn:Hq; [|run; done].
  case_bool_decide as Htarget; [|run; done]. destruct Htarget as [Hne Hin].
  pose proof (run_removal _ _ r _ _ Proto.KickedByHost
    (fun room => spdlog_info (target, Room.id room, Connection.id c))
    Hwf Hr Hq Hin Hne eq_refl eq_refl (fun _ _ => eq_refl)) as Hrun.
  assert (with_rooms (no_delta s) (<[Connection.room c := r]> (rooms s)) = no_delta s) as Hsame
    by (by apply (with_same_rooms (no_delta s))).
  cbn [id]. rewrite Hsame in *. exact Hrun.
Qed.

Lemma exec_HandleBanMember target :
  wf s -> HandleBanMember p target s
  = Done () (commit s (lobby_remove s c target Proto.BannedByHost (enter_ban target))).
Proof.
  intros Hwf. unfold HandleBanMember, lobby_remove, as_host, in_room. start. run.
  rewrite (run_HostRoom s p c Hp). destruct (rooms s !! Connection.room c) as [r|] eqn:Hr; [|run; done].
  case_bool_decide; [run; done|]. run. rewrite run_room_target by done.
  destruct (connections s !! target) as [q|] eqn:Hq; [|run; done].
  case_bool_decide as Htarget; [|run; done]. destruct Htarget as [Hne Hin].
  assert (Room.members (enter_ban target r) = Room.members r /\
          Room.host (enter_ban target r) = Room.host r) as [Hmem Hhost]
    by (unfold enter_ban; by destruct (vector_contains _ _)).
  pose proof (run_removal _ _ (enter_ban target r) _ _ Proto.BannedByHost
    (fun room => spdlog_info (target, Room.id room, Connection.id c))
    Hwf Hr Hq Hin Hne Hmem Hhost (fun _ _ => eq_refl)) as Hrun.
  unfold enter_ban in *. rewrite run_SendTo in Hrun.
  destruct (vector_contains (Room.banned_members r) target); run.
  - assert (with_rooms (no_delta s) (<[Connection.room c := r]> (rooms s)) = no_delta s) as Hsame
      by (by apply (with_same_rooms (no_delta s))).
    rewrite Hsame in *. exact Hrun.
  - exact Hrun.
Qed.

End Removal.

(** ** Creating a room *)

Section Create.
Context `{!RoomRng} (s : Server).

Lemma exec_MakeRoomCode n d :
  MakeRoomCode n (commit s d)
  = Done (code_from (d_rng d) n) (commit s (draw d (d_rng d + n)%nat)).
Proof.
  revert d. induction n as [|n IH]; intros d; cbn [MakeRoomCode code_from].
  - rewrite Nat.add_0_r. by destruct d.
  - run. rewrite (bind_done _ _ _ _ _ (IH _)). run. by rewrite <-plus_n_Sm.
Qed.

Lemma exec_fresh_room_code fuel d :
  fresh_room_code fuel (commit s d) =
  match first_free (d_rooms d) (d_rng d) (code_length s) fuel with
  | Some (code, k) => Done code (commit s (draw d k))
  | None => Loops
  end.
Proof.
  revert d. induction fuel as [|fuel IH]; intros d; cbn [fresh_room_code first_free];
    run; rewrite (bind_done _ _ _ _ _ (exec_MakeRoomCode _ _)); run; unfold code_length;
    destruct (d_rooms d !! code_from (d_rng d) _) eqn:Hcode; run; try done.
  by rewrite IH.
Qed.

Lemma first_free_fresh R k n fuel code k' : first_free R k n fuel = Some (code, k') -> R !! code = None.
Proof.
  revert k. induction fuel as [|fuel IH]; intros k; cbn [first_free];
    destruct (R !! code_from k n) eqn:Hcode; intros ?; simplify_eq; eauto.
Qed.

Lemma exec_HandleCreateRoom fuel p c :
  heap s !! p = Some c ->
  HandleCreateRoom fuel p s =
  match lobby_create fuel s p c with Some d => Done () (commit s d) | None => Loops end.
Proof.
  intros Hp. unfold HandleCreateRoom, lobby_create. start. run.
  destruct (str_empty (Connection.room c)); cbn [negb]; [|run; done].
  pose proof (exec_fresh_room_code fuel (no_delta s)) as Hrun. cbn [d_rooms d_rng no_delta] in Hrun.
  destruct (first_free (rooms s) (rng s) (code_length s) fuel) as [[code k]|] eqn:Hfree; cbn.
  - rewrite (bind_done _ _ _ _ _ Hrun). rewrite run_set_rooms. run.
    unfold emplace. by rewrite (first_free_fresh _ _ _ _ _ _ Hfree).
  - unfold mbind, M_bind, bind. by rewrite Hrun.
Qed.
End Create.

(** ** The refinement *)

Lemma exec_HandleMessage `{!RoomRng} s (Hwf : wf s) p c (Hp : heap s !! p = Some c) fuel msg :
  HandleMessage fuel p msg s =
  match lobby_message fuel s p c msg with
  | Some d => Done () (commit s d)
  | None => if reads_no_bool s c msg then Dangling else Loops
  end.
Proof.
  destruct msg; cbn [HandleMessage lobby_message];
    auto using exec_HandleCreateRoom, exec_HandleJoinRoom, exec_HandleLeaveRoom,
      exec_HandleRoomChat, exec_HandleP2PSignal, exec_HandleSetRoomData, exec_HandleSetMemberData,
      exec_HandleKickMember, exec_HandleBanMember, exec_HandleTransferHost,
      exec_HandleSetRoomPassword;
    first [by rewrite commit_no_delta | by apply (exec_Heartbeat s p c Hp _ fuel) | idtac].
  rewrite (exec_HandleSetRoomJoinable s p c Hp). by destruct (reads_no_bool _ _ _).
Qed.

(** A message of a program has values to read. *)
Lemma readable_reads s c msg : readable msg -> reads_no_bool s c msg = false.
Proof. destruct msg; try done. intros [b Hb]. cbn. rewrite bool_decide_false by congruence. apply andb_false_r. Qed.

(** Claim C6: on a well-formed server, the whole message handler - the pointers
    it follows, the queues it writes, the loops it runs - is the delta the
    lobby specification gives: no handler dereferences a dangling pointer, and
    the only ways not to finish are a host's [SetRoomJoinable] whose byte is no
    [bool], which is undefined behaviour, and a room creation that draws a taken
    code on every attempt. *)
Theorem handle_message_refines_lobby `{!RoomRng} (fuel : nat) (s : Server) (p : ptr)
    (c : Connection.t) (msg : Proto.ServerMessage) :
  wf s -> heap s !! p = Some c ->
  HandleMessage fuel p msg s =
  match lobby_message fuel s p c msg with
  | Some d => Done () (commit s d)
  | None => if reads_no_bool s c msg then Dangling else Loops
  end.
Proof.
  intros Hwf Hp. by apply exec_HandleMessage.
Qed.

Lemma handle_message_refines_lobby_witness :
  @HandleMessage Demo.rng 8 0%nat (Proto.KickMember 2) Demo.server =
  match @lobby_message Demo.rng 8 Demo.server 0%nat (Demo.conn 1 "WXYZ") (Proto.KickMember 2) with
  | Some d => Done () (commit Demo.server d)
  | None => if reads_no_bool Demo.server (Demo.conn 1 "WXYZ") (Proto.KickMember 2) then Dangling else Loops
  end.
Proof.
  apply (@handle_message_refines_lobby Demo.rng 8 Demo.server 0%nat (Demo.conn 1 "WXYZ"));
    [apply wf_check_sound; vm_compute; reflexivity | reflexivity].
Defined.
