(* ===== verification/ServerInv.v ===== *)
(** Every message keeps the server well-formed.

    The deltas of [Lobby] come in four shapes: the room table as it was, one
    room changed with the same members, a connection that enters a room, a
    connection that leaves one.  Each shape has a lemma; the handlers are
    instances of them. *)
From S2P Require Import Prelude Wire Protocol Framing RoomCache Server ServerExec Lobby WellFormed.
From S2P Require Import Refine.

(** ** The shapes *)

Section Shapes.
Context (s : Server) (Hwf : wf s).
Implicit Types (d : delta) (r : Room.t).

Definition room_after d (p : ptr) (c : Connection.t) : string :=
  default (Connection.room c) (d_where d !! p).

Lemma wf_commit d :
  map_Forall room_ok (d_rooms d) ->
  (forall code r i, d_rooms d !! code = Some r -> i ∈ Room.members r ->
     exists p c, connections s !! i = Some p /\ heap s !! p = Some c /\ room_after d p c = code) ->
  (forall p c, heap s !! p = Some c -> room_after d p c <> EmptyString ->
     connections s !! Connection.id c = Some p /\
     exists r, d_rooms d !! room_after d p c = Some r /\ Connection.id c ∈ Room.members r) ->
  wf (commit s d).
Proof.
  intros Hrooms Hmem Hconn. split; [|done| | |apply (wf_config _ Hwf)].
  - intros i p Hp. destruct (wf_table _ Hwf _ _ Hp) as (c & Hc & Hid).
    exists (conn_after s d p c). by rewrite heap_commit, Hc.
  - intros code r i Hr Hi. destruct (Hmem _ _ _ Hr Hi) as (p & c & ? & Hc & ?).
    exists p, (conn_after s d p c). by rewrite heap_commit, Hc.
  - intros p c'. rewrite heap_commit. intros Hc'.
    destruct (heap s !! p) as [c|] eqn:Hc; [|done]. injection Hc' as <-.
    rewrite conn_after_room, conn_after_id. apply (Hconn p c Hc).
Qed.

Lemma wf_same d : d_rooms d = rooms s -> d_where d = ∅ -> wf (commit s d).
Proof.
  intros HR HW. apply wf_commit; unfold room_after; rewrite ?HR, ?HW.
  - apply (wf_rooms _ Hwf).
  - intros code r i Hr Hi. destruct (wf_members _ Hwf _ _ _ Hr Hi) as (p & c & ? & ? & ?).
    exists p, c. by rewrite lookup_empty.
  - intros p c Hp. rewrite lookup_empty. by apply (wf_conns _ Hwf).
Qed.

Lemma wf_put d code r r' :
  rooms s !! code = Some r -> Room.members r' = Room.members r -> room_ok code r' ->
  d_rooms d = <[code := r']> (rooms s) -> d_where d = ∅ -> wf (commit s d).
Proof.
  intros Hr Hmem Hok HR HW. apply wf_commit; unfold room_after; rewrite ?HR, ?HW.
  - by apply map_Forall_insert_2, (wf_rooms _ Hwf).
  - intros code0 r0 i Hr0 Hi.
    assert (exists r1, rooms s !! code0 = Some r1 /\ i ∈ Room.members r1) as (r1 & Hr1 & Hi1).
    { apply lookup_insert_Some in Hr0 as [[<- <-]|[_ Hr0]]; eauto. rewrite Hmem in Hi. eauto. }
    destruct (wf_members _ Hwf _ _ _ Hr1 Hi1) as (p & c & ? & ? & ?).
    exists p, c. by rewrite lookup_empty.
  - intros p c Hp. rewrite lookup_empty. cbn [from_option id]. intros Hroom.
    destruct (wf_conns _ Hwf _ _ Hp Hroom) as (Hid & r1 & Hr1 & Hi1). split; [done|].
    destruct (decide (code = Connection.room c)) as [->|Hne].
    + exists r'. rewrite lookup_insert_eq. simplify_eq. by rewrite Hmem.
    + exists r1. by rewrite lookup_insert_ne.
Qed.

(** The members of the room at [code], none if there is no such room. *)
Definition members_at (R : gmap string Room.t) (code : string) : list N :=
  from_option Room.members [] (R !! code).

Lemma wf_enter d p c code r' :
  heap s !! p = Some c -> connections s !! Connection.id c = Some p ->
  Connection.room c = EmptyString ->
  Room.members r' = members_at (rooms s) code ++ [Connection.id c] -> room_ok code r' ->
  d_rooms d = <[code := r']> (rooms s) -> d_where d = {[ p := code ]} -> wf (commit s d).
Proof.
  intros Hp Hid Hroom Hmem Hok HR HW. apply wf_commit; unfold room_after; rewrite ?HR, ?HW.
  - by apply map_Forall_insert_2, (wf_rooms _ Hwf).
  - intros code0 r0 i Hr0 Hi.
    destruct (decide (i = Connection.id c /\ code0 = code)) as [[-> ->]|Hnew].
    { exists p, c. by rewrite lookup_singleton_eq. }
    assert (exists r1, rooms s !! code0 = Some r1 /\ i ∈ Room.members r1) as (r1 & Hr1 & Hi1).
    { apply lookup_insert_Some in Hr0 as [[<- <-]|[_ Hr0]]; eauto.
      rewrite Hmem in Hi. apply elem_of_app in Hi as [Hi|Hi%list_elem_of_singleton]; [|naive_solver].
      unfold members_at in Hi. destruct (rooms s !! code) as [r1|]; [eauto|].
      by apply not_elem_of_nil in Hi. }
    destruct (wf_members _ Hwf _ _ _ Hr1 Hi1) as (q & t & ? & Hq & Hcode).
    exists q, t. rewrite lookup_singleton_ne; [done|]. intros <-. simplify_eq.
    by apply (room_code _ _ (wf_rooms _ Hwf _ _ Hr1)).
  - intros q t Hq Hne. destruct (decide (p = q)) as [<-|Hpq].
    + simplify_eq. rewrite lookup_singleton_eq. cbn [from_option id]. split; [done|].
      exists r'. rewrite lookup_insert_eq, Hmem. set_solver.
    + rewrite lookup_singleton_ne in * by done. cbn [from_option id] in *.
      destruct (wf_conns _ Hwf _ _ Hq Hne) as (Hidt & r1 & Hr1 & Hi1). split; [done|].
      destruct (decide (code = Connection.room t)) as [->|Hcode].
      * exists r'. rewrite lookup_insert_eq, Hmem. unfold members_at. rewrite Hr1. set_solver.
      * exists r1. by rewrite lookup_insert_ne.
Qed.

(** [R'] is the room table after the member [i] left the room [r] at [code]. *)
Definition left_rooms (i : N) (code : string) (r : Room.t) (R' : gmap string Room.t) : Prop :=
  (vector_erase i (Room.members r) = [] /\ R' = delete code (rooms s)) \/
  (exists r', room_ok code r' /\ Room.members r' = vector_erase i (Room.members r) /\
     R' = <[code := r']> (rooms s)).

Lemma elem_of_vector_erase i j (l : list N) : j ∈ vector_erase i l <-> j <> i /\ j ∈ l.
Proof. unfold vector_erase. by rewrite list_elem_of_filter. Qed.

Lemma left_rooms_lookup i code r R' j code0 :
  rooms s !! code = Some r -> left_rooms i code r R' ->
  (exists r0, R' !! code0 = Some r0 /\ j ∈ Room.members r0) <->
  (exists r0, rooms s !! code0 = Some r0 /\ j ∈ Room.members r0) /\ ~ (code0 = code /\ j = i).
Proof.
  intros Hr Hleft. destruct (decide (code0 = code)) as [->|Hne].
  - assert ((exists r0, R' !! code = Some r0 /\ j ∈ Room.members r0) <->
            j ∈ vector_erase i (Room.members r)) as ->.
    { destruct Hleft as [[-> ->]|(r' & _ & <- & ->)].
      - rewrite lookup_delete_eq. set_solver.
      - rewrite lookup_insert_eq. naive_solver. }
    rewrite elem_of_vector_erase, Hr. naive_solver.
  - assert (R' !! code0 = rooms s !! code0) as ->; [|naive_solver].
    destruct Hleft as [[_ ->]|(r' & _ & _ & ->)];
      [by rewrite lookup_delete_ne|by rewrite lookup_insert_ne].
Qed.

Lemma wf_leave d p c r :
  heap s !! p = Some c -> connections s !! Connection.id c = Some p ->
  rooms s !! Connection.room c = Some r ->
  left_rooms (Connection.id c) (Connection.room c) r (d_rooms d) ->
  d_where d = {[ p := EmptyString ]} -> wf (commit s d).
Proof.
  intros Hp Hid Hr Hleft HW. apply wf_commit; unfold room_after; rewrite ?HW.
  - destruct Hleft as [[_ ->]|(r' & Hok & _ & ->)].
    + apply map_Forall_delete, (wf_rooms _ Hwf).
    + by apply map_Forall_insert_2, (wf_rooms _ Hwf).
  - intros code0 r0 i Hr0 Hi.
    destruct (proj1 (left_rooms_lookup _ _ _ _ i code0 Hr Hleft)) as [(r1 & Hr1 & Hi1) Hnot]; eauto.
    destruct (wf_members _ Hwf _ _ _ Hr1 Hi1) as (q & t & Ht & Hq & Hcode).
    exists q, t. rewrite lookup_singleton_ne; [done|]. intros <-. simplify_eq.
    destruct (wf_table _ Hwf _ _ Ht) as (t' & ? & ?). simplify_eq. naive_solver.
  - intros q t Hq Hne. destruct (decide (p = q)) as [<-|Hpq]; [by rewrite lookup_singleton_eq in Hne|].
    rewrite lookup_singleton_ne in * by done. cbn [from_option id] in *.
    destruct (wf_conns _ Hwf _ _ Hq Hne) as (Hidt & Hin). split; [done|].
    apply (left_rooms_lookup _ _ _ _ _ _ Hr Hleft). split; [done|].
    intros [_ Heq]. rewrite Heq in Hidt. by simplify_eq.
Qed.
End Shapes.

(** ** Rooms after an operation *)

Lemma data_ok_delete limit k m : data_ok limit m -> data_ok limit (delete k m).
Proof.
  intros [Hsize Hall]. split; [|by apply map_Forall_delete].
  rewrite map_size_delete. destruct (m !! k); cbn; lia.
Qed.

Lemma data_ok_insert limit k v m :
  data_ok limit m -> bad_room_data k v = false -> v <> EmptyString ->
  ~ (m !! k = None /\ (limit <= size m)%nat) -> data_ok limit (<[k := v]> m).
Proof.
  intros [Hsize Hall] Hok Hne Hroom. split; [|by apply map_Forall_insert_2].
  rewrite map_size_insert. destruct (m !! k) as [v'|] eqn:Hk; [done|].
  destruct (decide (limit <= size m)%nat); [naive_solver|lia].
Qed.

Lemma data_ok_empty limit : data_ok limit ∅.
Proof. split; [rewrite map_size_empty; lia|apply map_Forall_empty]. Qed.

Section RoomOk.
Context (code : string) (r : Room.t) (Hok : room_ok code r).

Ltac keep := destruct Hok as [Hkey Hcode Hnd Hhost Hban Hbnd Hdata Hmdata Hpw]; split; cbn; auto.

Lemma room_ok_set_open v : room_ok code (Room.set_open v r).
Proof. keep. Qed.

Lemma room_ok_set_password v :
  (str_size v <= Proto.max_room_password)%N -> room_ok code (Room.set_password v r).
Proof. intros. keep. Qed.

Lemma room_ok_set_host i : i ∈ Room.members r -> room_ok code (Room.set_host i r).
Proof. intros. keep. Qed.

Lemma room_ok_set_data m :
  data_ok Proto.max_room_data_keys m -> room_ok code (Room.set_data m r).
Proof. intros. keep. Qed.

Lemma room_ok_join i :
  i ∉ Room.members r -> i ∉ Room.banned_members r ->
  room_ok code (Room.set_members (Room.members r ++ [i]) r).
Proof.
  intros Hnew Hbar. keep.
  - apply NoDup_app. split_and!; [done|set_solver|apply NoDup_singleton].
  - set_solver.
  - intros j. rewrite elem_of_app, list_elem_of_singleton. intros [?| ->]; auto.
  - intros j slots Hj. destruct (Hmdata j slots Hj) as (? & ? & ?).
    split_and!; [set_solver|done..].
Qed.

Lemma room_ok_set_slot i key value :
  i ∈ Room.members r -> bad_room_data key value = false ->
  let slots := default ∅ (Room.member_data r !! i) in
  (value = EmptyString \/
     ~ (slots !! key = None /\ (Proto.max_member_data_keys <= size slots)%nat)) ->
  room_ok code (Room.set_member_data (set_slot i key value (Room.member_data r)) r).
Proof.
  intros Hi Hgood slots Hroom.
  assert (data_ok Proto.max_member_data_keys slots) as Hslots.
  { subst slots. destruct (Room.member_data r !! i) as [m|] eqn:Hm; [|apply data_ok_empty].
    apply (room_member_data _ _ Hok _ _ Hm). }
  keep. intros j m. unfold set_slot. fold slots.
  assert (data_ok Proto.max_member_data_keys
    (if str_empty value then delete key slots else <[key := value]> slots)).
  { destruct (str_empty value) eqn:Hv; [by apply data_ok_delete|].
    assert (value <> EmptyString) by (intros ->; done). apply data_ok_insert; naive_solver. }
  case_bool_decide.
  - intros [_ Hj]%lookup_delete_Some. auto.
  - intros [[<- <-]|[_ Hj]]%lookup_insert_Some; auto.
Qed.

(** Leaving: whoever is host afterwards has to be one of the others.  A ban of
    the leaver may have been entered before. *)
Lemma room_ok_leave i h bans :
  Room.host r <> i /\ h = Room.host r \/ h ∈ vector_erase i (Room.members r) ->
  NoDup bans -> (forall j, j ∈ bans -> j = i \/ j ∈ Room.banned_members r) ->
  room_ok code (Room.set_host h (room_without i (Room.set_banned_members bans r))).
Proof.
  intros Hh Hndb Hbans. keep.
  - by apply NoDup_filter.
  - destruct Hh as [[? ->]|?]; [|done]. by apply elem_of_vector_erase.
  - intros j [? ?]%elem_of_vector_erase Hj. destruct (Hbans j Hj); [done|].
    by apply (Hban j).
  - intros j slots [? Hj]%lookup_delete_Some. destruct (Hmdata j slots Hj) as (? & ? & ?).
    split_and!; [by apply elem_of_vector_erase|done..].
Qed.

Lemma room_ok_remove i h bans :
  Room.host r <> i /\ h = Room.host r \/ h ∈ vector_erase i (Room.members r) ->
  bans = Room.banned_members r \/ i ∉ Room.banned_members r /\ bans = Room.banned_members r ++ [i] ->
  room_ok code (Room.set_host h (room_without i (Room.set_banned_members bans r))).
Proof.
  intros Hh Hbans. pose proof (room_banned_nodup _ _ Hok) as Hnd.
  apply room_ok_leave; [done| |]; destruct Hbans as [->|[Hnew ->]]; auto.
  - apply NoDup_app. split_and!; [done|set_solver|apply NoDup_singleton].
  - set_solver.
Qed.
End RoomOk.

Lemma room_ok_fresh code i : code <> EmptyString -> room_ok code (Room.fresh code i).
Proof.
  intros Hcode. split; cbn; try done.
  - apply NoDup_singleton.
  - set_solver.
  - set_solver.
  - apply NoDup_nil_2.
  - apply data_ok_empty.
Qed.

(** ** The handlers *)

Section Preservation.
Context (s : Server) (Hwf : wf s).

Lemma lobby_leave_rooms d q i code r bans :
  rooms s !! code = Some r -> room_ok code r ->
  d_rooms d = <[code := Room.set_banned_members bans r]> (rooms s) ->
  bans = Room.banned_members r \/ i ∉ Room.banned_members r /\ bans = Room.banned_members r ++ [i] ->
  left_rooms s i code r (d_rooms (lobby_leave d q i code)).
Proof.
  intros Hr Hok HR Hbans. unfold lobby_leave, left_rooms. rewrite HR, lookup_insert_eq.
  set (r1 := Room.set_banned_members bans r) in *.
  change (vector_erase i (Room.members r)) with (Room.members (room_without i r1)).
  destruct (Room.members (room_without i r1)) as [|front others] eqn:Hothers.
  - left. split; [done|]. apply delete_insert_eq.
  - right. assert (forall x, x = Room.set_host (Room.host x) x) as Heta by (by intros []).
    case_bool_decide as Hhost; eexists;
      (split_and!; [| |cbn; rewrite insert_insert_eq; reflexivity]); [| exact Hothers | | exact Hothers].
    + apply (room_ok_remove code r Hok i front bans); [right|done].
      change (front ∈ Room.members (room_without i r1)). rewrite Hothers. set_solver.
    + rewrite (Heta (room_without i r1)).
      apply (room_ok_remove code r Hok i (Room.host r) bans); [by left|done].
Qed.

Lemma lobby_leave_where d q i code : d_where (lobby_leave d q i code) = <[q := EmptyString]> (d_where d).
Proof.
  unfold lobby_leave. destruct (d_rooms d !! code) as [r|]; [|done].
  destruct (Room.members (room_without i r)); [done|]. by case_bool_decide.
Qed.

Lemma wf_lobby_leave d q t r bans :
  heap s !! q = Some t -> connections s !! Connection.id t = Some q ->
  rooms s !! Connection.room t = Some r ->
  d_rooms d = <[Connection.room t := Room.set_banned_members bans r]> (rooms s) ->
  bans = Room.banned_members r \/
    Connection.id t ∉ Room.banned_members r /\ bans = Room.banned_members r ++ [Connection.id t] ->
  d_where d = ∅ ->
  wf (commit s (lobby_leave d q (Connection.id t) (Connection.room t))).
Proof.
  intros Hq Hid Hr HR Hbans HW. apply (wf_leave _ Hwf _ q t r); try done.
  - apply (lobby_leave_rooms _ _ _ _ _ bans); try done. apply (wf_rooms _ Hwf _ _ Hr).
  - rewrite lobby_leave_where, HW. done.
Qed.

Lemma same_bans r : Room.set_banned_members (Room.banned_members r) r = r.
Proof. by destruct r. Qed.

Context (p : ptr) (c : Connection.t) (Hp : heap s !! p = Some c).
Context (Hid : connections s !! Connection.id c = Some p).

Lemma wf_announce code r r' msg :
  rooms s !! code = Some r -> Room.members r' = Room.members r -> room_ok code r' ->
  wf (commit s (announce s code r' msg)).
Proof. intros Hr Hmem Hok. by apply (wf_put _ Hwf _ code r r'). Qed.

Lemma wf_reply msg : wf (commit s (reply s c msg)).
Proof. by apply wf_same. Qed.

Lemma wf_as_host (k : string -> Room.t -> delta) :
  (forall r, rooms s !! Connection.room c = Some r -> Room.host r = Connection.id c ->
     wf (commit s (k (Connection.room c) r))) ->
  wf (commit s (as_host s c k)).
Proof.
  intros Hk. unfold as_host, in_room. destruct (rooms s !! Connection.room c) as [r|] eqn:Hr;
    [|apply wf_reply]. case_bool_decide as Hhost; [apply wf_reply|].
  apply Hk; [done|]. destruct (decide (Room.host r = Connection.id c)); tauto.
Qed.

Lemma not_empty s0 : str_empty s0 = false -> s0 <> EmptyString.
Proof. by intros ? ->. Qed.

Lemma member_of_room r :
  rooms s !! Connection.room c = Some r -> Connection.id c ∈ Room.members r.
Proof.
  intros Hr. pose proof (room_code _ _ (wf_rooms _ Hwf _ _ Hr)) as Hne.
  destruct (wf_conns _ Hwf _ _ Hp Hne) as (_ & r' & ? & ?). by simplify_eq.
Qed.

Lemma wf_join code password : wf (commit s (lobby_join s p c code password)).
Proof.
  unfold lobby_join. destruct (str_empty (Connection.room c)) eqn:Hroom; [|apply wf_reply].
  apply str_empty_spec in Hroom. cbn [negb].
  destruct (rooms s !! code) as [r|] eqn:Hr; [|apply wf_reply].
  destruct (vector_contains _ _) eqn:Hban; [apply wf_reply|].
  destruct (Room.open r); cbn [negb]; [|apply wf_reply].
  destruct (negb (str_empty (Room.password r)) && _); [apply wf_reply|].
  apply bool_decide_eq_false in Hban.
  apply (wf_enter _ Hwf _ p c code (Room.set_members (Room.members r ++ [Connection.id c]) r)); try done.
  - unfold members_at. by rewrite Hr.
  - apply room_ok_join; [apply (wf_rooms _ Hwf _ _ Hr)| |done].
    intros Hin. destruct (wf_members _ Hwf _ _ _ Hr Hin) as (q & t & ? & ? & ?). simplify_eq.
    apply (room_code _ _ (wf_rooms _ Hwf _ _ Hr)). congruence.
Qed.

Lemma wf_set_room_data key value : wf (commit s (lobby_set_room_data s c key value)).
Proof.
  apply wf_as_host. intros r Hr _. pose proof (wf_rooms _ Hwf _ _ Hr) as Hok.
  destruct (bad_room_data key value) eqn:Hbad; [apply wf_reply|].
  destruct (str_empty value) eqn:Hv.
  - case_bool_decide; [by apply wf_same|]. apply (wf_announce _ r); [done|done|].
    by apply room_ok_set_data, data_ok_delete, (room_data _ _ Hok).
  - case_bool_decide; [by apply wf_same|]. case_bool_decide; [apply wf_reply|].
    apply (wf_announce _ r); [done|done|]. apply room_ok_set_data; [done|].
    pose proof (room_data _ _ Hok). apply data_ok_insert; auto using not_empty.
Qed.

Lemma wf_set_member_data key value : wf (commit s (lobby_set_member_data s c key value)).
Proof.
  unfold lobby_set_member_data, in_room.
  destruct (rooms s !! Connection.room c) as [r|] eqn:Hr; [|apply wf_reply].
  pose proof (wf_rooms _ Hwf _ _ Hr) as Hok.
  destruct (bad_room_data key value) eqn:Hbad; [apply wf_reply|].
  case_bool_decide; [by apply wf_same|].
  destruct (negb (str_empty value) && bool_decide _) eqn:Hfull; [apply wf_reply|].
  apply (wf_announce _ r); [done|done|]. apply room_ok_set_slot; auto using member_of_room.
  apply andb_false_iff in Hfull as [Hv|Hfull].
  - left. apply str_empty_spec. by destruct (str_empty value).
  - right. by apply bool_decide_eq_false in Hfull.
Qed.

Lemma wf_remove target notice enter :
  (forall r, enter r = r \/ target ∉ Room.banned_members r /\
     enter r = Room.set_banned_members (Room.banned_members r ++ [target]) r) ->
  wf (commit s (lobby_remove s c target notice enter)).
Proof.
  intros Henter. apply wf_as_host. intros r Hr Hhost.
  destruct (connections s !! target) as [q|] eqn:Hq; [|apply wf_reply].
  case_bool_decide as Htarget; [|apply wf_reply]. destruct Htarget as [Hne Hin].
  destruct (wf_members _ Hwf _ _ _ Hr Hin) as (q' & t & Hq' & Ht & Hcode).
  destruct (wf_table _ Hwf _ _ Hq) as (t' & Ht' & Hidt). simplify_eq.
  rewrite <-Hcode in Hr |- *.
  destruct (Henter r) as [->|[Hnew ->]]; eapply wf_lobby_leave; try done; cbn; eauto.
  by rewrite same_bans.
Qed.

Lemma wf_leave_room :
  wf (commit s (
    if str_empty (Connection.room c) then reject s c Proto.NotInRoom ""
    else lobby_leave (reply s c (Proto.PeerLeft (Connection.id c))) p
           (Connection.id c) (Connection.room c))).
Proof.
  destruct (str_empty (Connection.room c)) eqn:Hroom; [apply wf_reply|].
  destruct (wf_conns _ Hwf _ _ Hp (not_empty _ Hroom)) as (_ & r & Hr & _).
  apply (wf_lobby_leave _ _ c r (Room.banned_members r)); try done; [|by left].
  rewrite same_bans. cbn. by rewrite insert_id.
Qed.

Lemma length_code_from `{!RoomRng} k n : String.length (code_from k n) = n.
Proof. revert k. induction n as [|n IH]; intros k; cbn; auto. Qed.

Lemma first_free_code `{!RoomRng} R k n fuel code k' :
  first_free R k n fuel = Some (code, k') -> exists j, code = code_from j n.
Proof.
  revert k. induction fuel as [|fuel IH]; intros k; cbn [first_free];
    destruct (R !! code_from k n); intros ?; simplify_eq; eauto.
Qed.

Lemma wf_create `{!RoomRng} fuel d : lobby_create fuel s p c = Some d -> wf (commit s d).
Proof.
  unfold lobby_create. destruct (str_empty (Connection.room c)) eqn:Hroom; cbn [negb];
    [|intros [= <-]; apply wf_reply].
  destruct (first_free _ _ _ _) as [[code k]|] eqn:Hfree; intros [= <-].
  pose proof (first_free_fresh _ _ _ _ _ _ Hfree) as Hfresh.
  apply (wf_enter _ Hwf _ p c code (Room.fresh code (Connection.id c))); try done.
  - by apply str_empty_spec.
  - unfold members_at. by rewrite Hfresh.
  - apply room_ok_fresh. destruct (first_free_code _ _ _ _ _ _ Hfree) as [j ->]. intros Hnil.
    apply (wf_config _ Hwf). rewrite <-(length_code_from j (code_length s)), Hnil. done.
Qed.

Lemma wf_lobby_message `{!RoomRng} fuel msg d :
  lobby_message fuel s p c msg = Some d -> wf (commit s d).
Proof.
  intros Hd. lobby_cases msg Hd; try (apply (wf_create _ _ Hd));
    eauto using wf_reply, wf_same, wf_join, wf_leave_room, wf_set_room_data, wf_set_member_data.
  - unfold lobby_chat, in_room. destruct (rooms s !! Connection.room c); by apply wf_same.
  - apply wf_remove. by left.
  - apply wf_as_host. intros r Hr _. case_bool_decide; [by apply wf_same|].
    destruct (vector_contains _ _) eqn:Hin; [|apply wf_reply].
    apply bool_decide_eq_true in Hin. apply (wf_announce _ r); [done|done|].
    apply room_ok_set_host; [apply (wf_rooms _ Hwf _ _ Hr)|done].
  - apply wf_as_host. intros r Hr _. destruct (Bool.eqb _ _); [by apply wf_same|].
    apply (wf_announce _ r); [done|done|]. apply room_ok_set_open, (wf_rooms _ Hwf _ _ Hr).
  - apply wf_as_host. intros r Hr _. case_bool_decide; [apply wf_reply|].
    assert (room_ok (Connection.room c) (Room.set_password password r)) as Hok
      by (apply room_ok_set_password; [apply (wf_rooms _ Hwf _ _ Hr)|lia]).
    destruct (Bool.eqb _ _); [by apply (wf_put _ Hwf _ (Connection.room c) r (Room.set_password password r))|].
    by apply (wf_announce _ r).
  - apply wf_remove. intros r. unfold enter_ban, vector_contains.
    case_bool_decide; [by left|by right].
  - unfold lobby_signal, in_room. destruct (rooms s !! Connection.room c); [case_bool_decide|];
      by apply wf_same.
Qed.
End Preservation.

(** Claim C9: every message from a registered connection keeps the server
    well-formed: the connection table, the connections' rooms and the member
    lists stay in agreement, hosts are members, nobody is in a room that bars
    them, data stays within its limits and rooms without members are closed. *)
Theorem handle_message_keeps_wf `{!RoomRng} (fuel : nat) (s s' : Server) (p : ptr)
    (c : Connection.t) (msg : Proto.ServerMessage) :
  wf s -> heap s !! p = Some c -> connections s !! Connection.id c = Some p ->
  HandleMessage fuel p msg s = Done () s' -> wf s'.
Proof.
  intros Hwf Hp Hid Hrun. rewrite (exec_HandleMessage s Hwf p c Hp) in Hrun.
  destruct (lobby_message fuel s p c msg) as [d|] eqn:Hd; [|by destruct (reads_no_bool _ _ _)]. injection Hrun as <-.
  by apply (wf_lobby_message s Hwf p c Hp Hid fuel msg).
Qed.

Lemma handle_message_keeps_wf_witness :
  exists s', @HandleMessage Demo.rng 0 0%nat Proto.LeaveRoom Demo.server = Done () s' /\ wf s'.
Proof.
  eexists. split; [vm_compute; reflexivity|].
  eapply (@handle_message_keeps_wf Demo.rng 0 Demo.server _ 0%nat (Demo.conn 1 "WXYZ") Proto.LeaveRoom);
    [apply wf_check_sound; vm_compute; reflexivity|reflexivity..|vm_compute; reflexivity].
Defined.
