(* ===== verification/Rules.v ===== *)
(** The rules of the rooms, as properties of the server's handlers: who gets
    in, who may change what, who is told, and what stays as it was.

    [where_is] and [queue] are what a handler can change about a client: the
    room it is in and the frames waiting to be written to it. *)
From S2P Require Import Prelude Wire Protocol Framing RoomCache Server ServerExec Lobby WellFormed.
From S2P Require Import Refine ServerInv.

(** ** What is observed of a client *)

Definition client (s : Server) (i : N) : option Connection.t :=
  connections s !! i ≫= fun p => heap s !! p.
Definition where_is (s : Server) (i : N) : string :=
  from_option Connection.room EmptyString (client s i).
Definition queue (s : Server) (i : N) : list (list byte) :=
  from_option Connection.out [] (client s i).

(** The messages of [l] for the client [i]. *)
Definition told (i : N) (l : outgoing) : list Proto.ServerMessage := (filter (fun im => im.1 = i) l).*2.

Lemma told_app i l1 l2 : told i (l1 ++ l2) = told i l1 ++ told i l2.
Proof. unfold told. by rewrite filter_app, fmap_app. Qed.

Lemma told_cons i j m l : told i ((j, m) :: l) = (if decide (j = i) then [m] else []) ++ told i l.
Proof. unfold told. rewrite filter_cons. cbn. by case_decide. Qed.

Lemma told_one i j m : told i [(j, m)] = if decide (j = i) then [m] else [].
Proof. unfold told. rewrite filter_cons. cbn. by case_decide. Qed.

Lemma told_none i l : (forall m, (i, m) ∉ l) -> told i l = [].
Proof.
  intros Hno. unfold told. induction l as [|[j m] l IH]; [done|].
  rewrite filter_cons. cbn [fst]. rewrite decide_False by (intros ->; set_solver).
  apply IH. set_solver.
Qed.

Lemma told_to_all i ids m : NoDup ids -> told i (to_all ids m) = if decide (i ∈ ids) then [m] else [].
Proof.
  unfold told, to_all. induction ids as [|j ids IH]; intros Hnd; [done|].
  apply NoDup_cons in Hnd as [Hj Hnd]. rewrite fmap_cons, filter_cons. cbn [fst].
  destruct (decide (j = i)) as [->|Hne].
  - rewrite decide_True by set_solver. cbn. rewrite IH, decide_False by done. done.
  - rewrite IH by done. repeat case_decide; set_solver.
Qed.

Section Observe.
Context (s : Server) (Hwf : wf s).

Lemma client_commit d i p c :
  connections s !! i = Some p -> heap s !! p = Some c ->
  client (commit s d) i = Some (conn_after s d p c).
Proof.
  intros Hi Hp. unfold client. cbn [connections commit]. rewrite Hi. cbn [mbind option_bind].
  by rewrite heap_commit, Hp.
Qed.

Lemma reaching_told d i p : connections s !! i = Some p -> reaching (connections s) p (d_sent d) = told i (d_sent d).
Proof.
  intros Hi. unfold reaching, told. f_equal. apply list_filter_iff. intros [j m]. cbn. split.
  - intros Hj. destruct (wf_table _ Hwf _ _ Hi) as (c & Hc & <-).
    destruct (wf_table _ Hwf _ _ Hj) as (c' & Hc' & <-). by simplify_eq.
  - by intros ->.
Qed.

Lemma queue_commit d i :
  client s i <> None -> queue (commit s d) i = queue s i ++ (FrameMessage <$> told i (d_sent d)).
Proof.
  intros Hi. unfold queue. destruct (connections s !! i) as [p|] eqn:Hp.
  2:{ unfold client in Hi. by rewrite Hp in Hi. }
  destruct (wf_table _ Hwf _ _ Hp) as (c & Hc & _).
  rewrite (client_commit d i p c) by done. unfold client. rewrite Hp. cbn. rewrite Hc. cbn.
  by rewrite (reaching_told d i p).
Qed.

Lemma where_commit d i p c :
  connections s !! i = Some p -> heap s !! p = Some c ->
  where_is (commit s d) i = default (Connection.room c) (d_where d !! p).
Proof. intros Hi Hp. unfold where_is. by rewrite (client_commit d i p c). Qed.

Lemma where_commit_same d i : d_where d = ∅ -> where_is (commit s d) i = where_is s i.
Proof.
  intros HW. unfold where_is, client. cbn [connections commit].
  destruct (connections s !! i) as [p|]; [|done]. cbn [mbind option_bind]. rewrite heap_commit.
  destruct (heap s !! p) as [c|]; [|done]. cbn. by rewrite HW, lookup_empty.
Qed.
End Observe.

(** A message is handled for a registered connection of a well-formed server. *)
Record sender (s : Server) (p : ptr) (c : Connection.t) : Prop := {
  sender_wf : wf s;
  sender_heap : heap s !! p = Some c;
  sender_conn : connections s !! Connection.id c = Some p
}.

Lemma sender_client s p c : sender s p c -> client s (Connection.id c) = Some c.
Proof. intros [_ Hp Hid]. unfold client. rewrite Hid. cbn. by rewrite Hp. Qed.

Lemma sender_where s p c : sender s p c -> where_is s (Connection.id c) = Connection.room c.
Proof. intros Hs. unfold where_is. by rewrite (sender_client s p c). Qed.

Lemma sender_where_after s p c d :
  sender s p c -> where_is (commit s d) (Connection.id c) = room_after d p c.
Proof. intros []. by apply where_commit. Qed.

Lemma sender_message `{!RoomRng} s p c fuel msg s' :
  sender s p c -> HandleMessage fuel p msg s = Done () s' ->
  exists d, lobby_message fuel s p c msg = Some d /\ s' = commit s d /\ wf s'.
Proof.
  intros [Hwf Hp Hid] Hrun. rewrite (exec_HandleMessage s Hwf p c Hp) in Hrun.
  destruct (lobby_message fuel s p c msg) as [d|] eqn:Hd; [|by destruct (reads_no_bool _ _ _)]. injection Hrun as <-.
  exists d. split_and!; [done..|]. by apply (wf_lobby_message s Hwf p c Hp Hid fuel msg).
Qed.

Lemma member_client s code r j :
  wf s -> rooms s !! code = Some r -> j ∈ Room.members r -> client s j <> None /\ where_is s j = code.
Proof.
  intros Hwf Hr Hj. destruct (wf_members _ Hwf _ _ _ Hr Hj) as (q & t & Hq & Ht & Hroom).
  unfold where_is, client. rewrite Hq. cbn. rewrite Ht. done.
Qed.

Lemma queue_reply s p c m j :
  sender s p c -> client s j <> None ->
  queue (commit s (reply s c m)) j
  = queue s j ++ if decide (j = Connection.id c) then [FrameMessage m] else [].
Proof.
  intros Hs Hj. rewrite queue_commit by (done || apply Hs).
  cbn [d_sent reply send no_delta app]. rewrite told_one.
  destruct (decide (Connection.id c = j)), (decide (j = Connection.id c)); congruence || done.
Qed.

(** ** Joining *)

(** The conditions [HandleJoinRoom] checks. *)
Definition admitted (r : Room.t) (i : N) (password : string) : Prop :=
  i ∉ Room.banned_members r /\ Room.open r = true /\
  (Room.password r = EmptyString \/ Room.password r = password).

Lemma lobby_join_cases s p c code password :
  (exists r, Connection.room c = EmptyString /\ rooms s !! code = Some r /\
     admitted r (Connection.id c) password /\
     lobby_join s p c code password =
     move (with_rooms
       (send (no_delta s) (to_all (Room.members r) (Proto.PeerJoined (Connection.id c))
          ++ hydration (Connection.id c) code r))
       (<[code := Room.set_members (Room.members r ++ [Connection.id c]) r]> (rooms s))) p code) \/
  (~ (Connection.room c = EmptyString /\
      exists r, rooms s !! code = Some r /\ admitted r (Connection.id c) password) /\
   exists e ctx, (e < 9)%N /\ lobby_join s p c code password = reject s c e ctx).
Proof.
  unfold lobby_join, vector_contains, admitted, str_empty.
  destruct (rooms s !! code) as [r|] eqn:Hr; [destruct (Room.open r) eqn:Hopen|];
    repeat case_bool_decide; cbn [negb andb]; repeat case_bool_decide;
    first [ left; exists r; split_and!; by auto
          | right; (split; [|by do 2 eexists; split; [|reflexivity]]); intros (? & ? & ? & ? & ? & ?); simplify_eq; intuition congruence ].
Qed.

Lemma told_own i (l : outgoing) : Forall (fun im => im.1 = i) l -> forall j,
  told j l = if decide (j = i) then l.*2 else [].
Proof.
  intros Hall j. unfold told. induction Hall as [|[i' m] l Hi Hall IH]; [by case_decide|].
  cbn in Hi. subst i'. rewrite filter_cons. cbn [fst]. case_decide as Hj.
  - subst i. rewrite decide_True in * by done. cbn. by rewrite IH.
  - rewrite decide_False in * by done. done.
Qed.

Lemma hydration_own i code r : Forall (fun im => im.1 = i) (hydration i code r).
Proof.
  unfold hydration. rewrite !Forall_app, Forall_concat, !Forall_fmap, !Forall_forall. split_and!; try set_solver.
  intros mkv _. cbn. rewrite Forall_fmap, Forall_forall. done.
Qed.

(** Claim C23: a client gets into a room exactly when it is in no room, the room
    exists, is open, does not bar the client and the password, if there is
    one, matches.  Then it becomes the youngest member, everyone who was there
    is told once, and the client is sent the room's state; otherwise the room
    table stays as it was and the client is sent one error. *)
Theorem join_room_admission (s : Server) (p : ptr) (c : Connection.t) (code password : string) :
  wf s -> heap s !! p = Some c -> connections s !! Connection.id c = Some p ->
  exists s', HandleJoinRoom p code password s = Done () s' /\
  let i := Connection.id c in
  (forall r, Connection.room c = EmptyString -> rooms s !! code = Some r -> admitted r i password ->
     where_is s' i = code /\
     rooms s' = <[code := Room.set_members (Room.members r ++ [i]) r]> (rooms s) /\
     queue s' i = queue s i ++ (FrameMessage <$> (hydration i code r).*2) /\
     (forall j, j ∈ Room.members r -> queue s' j = queue s j ++ [FrameMessage (Proto.PeerJoined i)])) /\
  (~ (Connection.room c = EmptyString /\ exists r, rooms s !! code = Some r /\ admitted r i password) ->
     where_is s' i = where_is s i /\ rooms s' = rooms s /\
     exists e ctx, queue s' i = queue s i ++ [FrameMessage (Proto.RoomError e ctx)]).
Proof.
  intros Hwf Hp Hid. eexists. split; [by apply exec_HandleJoinRoom|]. cbn zeta.
  assert (client s (Connection.id c) = Some c) as Hc.
  { unfold client. rewrite Hid. cbn. by rewrite Hp. }
  split.
  - intros r Hroom Hr Hadm. pose proof (wf_rooms _ Hwf _ _ Hr) as Hok.
    assert (Connection.id c ∉ Room.members r) as Hnew.
    { intros Hin. destruct (wf_members _ Hwf _ _ _ Hr Hin) as (q & t & ? & ? & ?). simplify_eq.
      apply (room_code _ _ Hok). congruence. }
    assert (forall j, told j (hydration (Connection.id c) code r) =
      if decide (j = Connection.id c) then (hydration (Connection.id c) code r).*2 else []) as Hhyd.
    { apply told_own, hydration_own. }
    destruct (lobby_join_cases s p c code password) as [(r' & _ & Hr' & _ & ->)|[Hno _]];
      [simplify_eq|naive_solver]. split_and!.
    + rewrite (where_commit _ _ _ p c) by done. cbn. by rewrite lookup_insert_eq.
    + done.
    + rewrite queue_commit by (done || by rewrite Hc). cbn [d_sent send move with_rooms no_delta app].
      rewrite told_app, Hhyd, decide_True by done.
      rewrite told_to_all, decide_False by (done || apply (room_nodup _ _ Hok)). done.
    + intros j Hj. rewrite queue_commit; [|done|].
      2:{ destruct (wf_members _ Hwf _ _ _ Hr Hj) as (q & t & Hq & Ht & _).
          unfold client. rewrite Hq. cbn. by rewrite Ht. }
      cbn [d_sent send move with_rooms no_delta app].
      rewrite told_app, Hhyd, decide_False by (intros ->; done).
      rewrite told_to_all, decide_True by (done || apply (room_nodup _ _ Hok)).
      by rewrite app_nil_r.
  - intros Hno. destruct (lobby_join_cases s p c code password) as [(r & ? & ? & ? & _)|(_ & e & ctx & He & ->)];
      [naive_solver|].
    split_and!; [by apply where_commit_same|done|]. exists e, ctx.
    rewrite queue_commit by (done || by rewrite Hc).
    cbn [d_sent reject reply send no_delta app]. by rewrite told_one, decide_True by done.
Qed.

Lemma join_room_admission_witness :
  exists s', HandleJoinRoom 3%nat "WXYZ" "pw" Demo.server = Done () s' /\ where_is s' 4 = "WXYZ".
Proof.
  destruct (join_room_admission Demo.server 3%nat (Demo.conn 4 "") "WXYZ" "pw") as (s' & Hrun & Hin & _);
    [apply wf_check_sound; vm_compute; reflexivity|reflexivity..|].
  exists s'. split; [exact Hrun|].
  apply (Hin Demo.room); [reflexivity..|]. split; [|split; [reflexivity|right; reflexivity]].
  apply (bool_decide_unpack _). vm_compute. exact I.
Defined.

(** ** What a message can do

    [notice i m]: [m] is an event the server sends, not an error, and if it
    relays something a client said, it names the client [i]. *)
Definition notice (i : N) (m : Proto.ServerMessage) : Prop :=
  match m with
  | Proto.RoomChat from _ | Proto.P2PSignal from _ _ => from = i
  | Proto.AssignRoomId _ | Proto.PeerJoined _ | Proto.PeerLeft _ | Proto.HostChanged _
  | Proto.RoomDataChanged _ _ | Proto.MemberDataChanged _ _ _ | Proto.KickedByHost
  | Proto.BannedByHost | Proto.RoomAccessChanged _ _ => True
  | _ => False
  end.

(** What the room [r] is told of the client [i]'s doings. *)
Definition room_notice (i : N) (r : Room.t) (im : N * Proto.ServerMessage) : Prop :=
  im.1 ∈ Room.members r /\ notice i im.2.

(** Every delta of [Lobby] is one of eight kinds. *)
Inductive effect (s : Server) (p : ptr) (c : Connection.t) : delta -> Prop :=
| effect_none : effect s p c (no_delta s)
| effect_echo t : effect s p c (reply s c (Proto.Heartbeat t))
| effect_error e ctx : (e < 9)%N -> effect s p c (reject s c e ctx)
| effect_relay r l :
    rooms s !! Connection.room c = Some r -> Forall (room_notice (Connection.id c) r) l ->
    effect s p c (send (no_delta s) l)
| effect_update r r' l :
    rooms s !! Connection.room c = Some r -> Room.members r' = Room.members r ->
    Room.banned_members r' = Room.banned_members r ->
    Forall (room_notice (Connection.id c) r) l ->
    effect s p c (send (with_rooms (no_delta s) (<[Connection.room c := r']> (rooms s))) l)
| effect_join code password r :
    Connection.room c = EmptyString -> rooms s !! code = Some r ->
    admitted r (Connection.id c) password ->
    effect s p c (move (with_rooms
      (send (no_delta s) (to_all (Room.members r) (Proto.PeerJoined (Connection.id c))
         ++ hydration (Connection.id c) code r))
      (<[code := Room.set_members (Room.members r ++ [Connection.id c]) r]> (rooms s))) p code)
| effect_create code k :
    Connection.room c = EmptyString -> rooms s !! code = None -> String.length code = code_length s ->
    effect s p c (send
      (move (with_rooms (draw (no_delta s) k)
               (<[code := Room.fresh code (Connection.id c)]> (rooms s))) p code)
      [(Connection.id c, Proto.AssignRoomId code);
       (Connection.id c, Proto.HostChanged (Connection.id c))])
| effect_leave r bans q i m :
    rooms s !! Connection.room c = Some r -> connections s !! i = Some q -> i ∈ Room.members r ->
    bans = Room.banned_members r \/
      i ∉ Room.banned_members r /\ bans = Room.banned_members r ++ [i] ->
    (i = Connection.id c \/ Room.host r = Connection.id c) -> notice (Connection.id c) m ->
    effect s p c (lobby_leave
      (send (with_rooms (no_delta s)
               (<[Connection.room c := Room.set_banned_members bans r]> (rooms s))) [(i, m)])
      q i (Connection.room c)).

Lemma to_all_members ids m : Forall (fun im => im.1 ∈ ids) (to_all ids m).
Proof. unfold to_all. rewrite Forall_fmap, Forall_forall. done. Qed.

Lemma to_all_notice i r m :
  notice i m -> Forall (room_notice i r) (to_all (Room.members r) m).
Proof. intros Hm. unfold to_all. rewrite Forall_fmap, Forall_forall. intros j Hj. by split. Qed.

Section Effects.
Context (s : Server) (p : ptr) (c : Connection.t).

Lemma effect_announce r r' m :
  rooms s !! Connection.room c = Some r -> Room.members r' = Room.members r ->
  Room.banned_members r' = Room.banned_members r ->
  notice (Connection.id c) m ->
  effect s p c (announce s (Connection.room c) r' m).
Proof.
  intros Hr Hmem Hban Hm. eapply (effect_update s p c r r'); [done..|].
  rewrite Hmem. by apply to_all_notice.
Qed.

Lemma effect_as_host k :
  (forall r, rooms s !! Connection.room c = Some r -> Room.host r = Connection.id c ->
     effect s p c (k (Connection.room c) r)) ->
  effect s p c (as_host s c k).
Proof.
  intros Hk. unfold as_host, in_room. destruct (rooms s !! Connection.room c) as [r|] eqn:Hr;
    [|by constructor]. case_bool_decide as Hhost; [by constructor|].
  by apply Hk.
Qed.

Lemma effect_remove target m enter :
  notice (Connection.id c) m ->
  (forall r, exists bans, enter r = Room.set_banned_members bans r /\
     (bans = Room.banned_members r \/
      target ∉ Room.banned_members r /\ bans = Room.banned_members r ++ [target])) ->
  effect s p c (lobby_remove s c target m enter).
Proof.
  intros Hm Henter. apply effect_as_host. intros r Hr Hhost.
  destruct (connections s !! target) as [q|] eqn:Hq; [|by constructor].
  case_bool_decide as Htarget; [|by constructor].
  destruct (Henter r) as (bans & -> & Hbans). apply effect_leave; naive_solver.
Qed.

Context (Hwf : wf s) (Hp : heap s !! p = Some c) (Hid : connections s !! Connection.id c = Some p).

Lemma effect_lobby_message `{!RoomRng} fuel msg d :
  lobby_message fuel s p c msg = Some d -> effect s p c d.
Proof.
  intros Hd. lobby_cases msg Hd; try (by constructor).
  - revert Hd. unfold lobby_create. destruct (str_empty (Connection.room c)) eqn:Hroom; cbn [negb];
      [|intros [= <-]; by constructor].
    destruct (first_free _ _ _ _) as [[code k]|] eqn:Hfree; intros [= <-].
    destruct (first_free_code _ _ _ _ _ _ Hfree) as [j Hj].
    constructor; [by apply str_empty_spec|by apply (first_free_fresh _ _ _ _ _ _ Hfree)|].
    rewrite Hj. apply length_code_from.
  - destruct (lobby_join_cases s p c id password) as [(r & ? & ? & ? & ->)|(_ & e & ctx & He & ->)];
      by econstructor.
  - unfold lobby_chat, in_room. destruct (rooms s !! Connection.room c) as [r|] eqn:Hr; [|by constructor].
    apply (effect_relay s p c r); [done|by apply to_all_notice].
  - destruct (str_empty (Connection.room c)) eqn:Hroom; [by constructor|].
    destruct (wf_conns _ Hwf _ _ Hp (not_empty _ Hroom)) as (_ & r & Hr & Hin).
    assert (reply s c (Proto.PeerLeft (Connection.id c)) =
      send (with_rooms (no_delta s) (<[Connection.room c :=
        Room.set_banned_members (Room.banned_members r) r]> (rooms s)))
        [(Connection.id c, Proto.PeerLeft (Connection.id c))]) as ->.
    { unfold reply, with_rooms. cbn. by rewrite same_bans, insert_id. }
    by apply (effect_leave s p c r); auto.
  - apply effect_as_host. intros r Hr _. destruct (bad_room_data key value); [by constructor|].
    destruct (str_empty value); [case_bool_decide; [by constructor|by apply (effect_announce r)]|].
    repeat (case_bool_decide; [by constructor|]). by apply (effect_announce r).
  - unfold lobby_set_member_data, in_room.
    destruct (rooms s !! Connection.room c) as [r|] eqn:Hr; [|by constructor].
    destruct (bad_room_data key value); [by constructor|]. case_bool_decide; [by constructor|].
    destruct (_ && _); [by constructor|]. by apply (effect_announce r).
  - apply effect_remove; [done|]. intros r. exists (Room.banned_members r). rewrite same_bans. auto.
  - apply effect_as_host. intros r Hr _. case_bool_decide; [by constructor|].
    destruct (vector_contains _ _); [by apply (effect_announce r)|by constructor].
  - apply effect_as_host. intros r Hr _. destruct (Bool.eqb _ _); [by constructor|].
    by apply (effect_announce r).
  - apply effect_as_host. intros r Hr _. case_bool_decide; [by constructor|].
    destruct (Bool.eqb _ _); [|by apply (effect_announce r)].
    rewrite <-(send_nil (with_rooms _ _)).
    by apply (effect_update s p c r (Room.set_password password r) []).
  - apply effect_remove; [done|]. intros r. unfold enter_ban, vector_contains. case_bool_decide.
    + exists (Room.banned_members r). rewrite same_bans. auto.
    + eexists. split; [done|]. by right.
  - unfold lobby_signal, in_room. destruct (rooms s !! Connection.room c) as [r|] eqn:Hr; [|constructor].
    case_bool_decide as Hto; [|constructor]. apply (effect_relay s p c r); [done|].
    apply Forall_singleton. split; [apply Hto|done].
Qed.
End Effects.

Section EffectFacts.
Context (s : Server) (p : ptr) (c : Connection.t) (d : delta) (He : effect s p c d).

(** The rooms a message can touch: the sender's, before and after. *)
Definition touched (code : string) : Prop := code = Connection.room c \/ code = room_after d p c.

Lemma leave_lookup d0 q i code code0 :
  code0 <> code -> d_rooms (lobby_leave d0 q i code) !! code0 = d_rooms d0 !! code0.
Proof.
  intros Hne. unfold lobby_leave. destruct (d_rooms d0 !! code) as [r|]; [|done].
  destruct (Room.members (room_without i r)); [|case_bool_decide]; cbn;
    by rewrite ?lookup_delete_ne, ?lookup_insert_ne.
Qed.

Lemma leave_sent d0 q i code r :
  d_rooms d0 !! code = Some r ->
  exists l, d_sent (lobby_leave d0 q i code) = d_sent d0 ++ l /\
    Forall (fun im => im.1 ∈ vector_erase i (Room.members r)) l.
Proof.
  intros Hr. unfold lobby_leave. rewrite Hr. cbn [Room.members room_without].
  change (Room.members (room_without i r)) with (vector_erase i (Room.members r)).
  destruct (vector_erase i (Room.members r)) as [|front others].
  - exists []. by rewrite app_nil_r.
  - case_bool_decide; cbn [d_sent send with_rooms move]; rewrite <-?app_assoc;
      eexists; (split; [reflexivity|]); rewrite ?Forall_app; auto using to_all_members.
Qed.

Lemma effect_rooms code : ~ touched code -> d_rooms d !! code = rooms s !! code.
Proof.
  unfold touched, room_after. intros Hcode.
  destruct He; cbn [d_rooms d_where send with_rooms move draw no_delta] in *; try done;
    rewrite ?lookup_insert_eq in Hcode; cbn [from_option id] in Hcode.
  - rewrite lookup_insert_ne; [done|]. intros <-. auto.
  - rewrite lookup_insert_ne; [done|]. intros <-. auto.
  - rewrite lookup_insert_ne; [done|]. intros <-. auto.
  - rewrite leave_lookup by (intros ->; auto). cbn. rewrite lookup_insert_ne; [done|]. intros <-. auto.
Qed.

Lemma effect_sent j m :
  (j, m) ∈ d_sent d ->
  j = Connection.id c \/
  exists code r, touched code /\ rooms s !! code = Some r /\ j ∈ Room.members r.
Proof.
  unfold touched, room_after. intros Hj.
  destruct He as [|t|e ctx _|r l Hr Hl|r r' l Hr _ _ Hl|code pw r _ Hr _|code k|r bans q i n Hr Hq Hi _ _ _];
    cbn [d_sent d_where reply reject send with_rooms move draw no_delta app] in *.
  - by apply not_elem_of_nil in Hj.
  - apply list_elem_of_singleton in Hj. left. congruence.
  - apply list_elem_of_singleton in Hj. left. congruence.
  - right. rewrite Forall_forall in Hl. destruct (Hl _ Hj) as [Hin _]. exists (Connection.room c), r. auto.
  - right. rewrite Forall_forall in Hl. destruct (Hl _ Hj) as [Hin _]. exists (Connection.room c), r. auto.
  - apply elem_of_app in Hj as [Hj|Hj].
    + right. exists code, r. rewrite lookup_insert_eq. split_and!; auto.
      pose proof (to_all_members (Room.members r) (Proto.PeerJoined (Connection.id c))) as Hall.
      rewrite Forall_forall in Hall. apply (Hall _ Hj).
    + left. pose proof (hydration_own (Connection.id c) code r) as Hall.
      rewrite Forall_forall in Hall. apply (Hall _ Hj).
  - left. set_solver.
  - right. exists (Connection.room c), r. split_and!; [auto|done|].
    edestruct (leave_sent (send (with_rooms (no_delta s)
      (<[Connection.room c := Room.set_banned_members bans r]> (rooms s))) [(i, n)]) q i) as (l & Hl & Hall);
      [apply lookup_insert_eq|].
    rewrite Hl in Hj. apply elem_of_app in Hj as [Hj|Hj].
    + apply list_elem_of_singleton in Hj. cbn in Hj. congruence.
    + rewrite Forall_forall in Hall. apply Hall, elem_of_vector_erase in Hj. apply Hj.
Qed.

Lemma effect_where q v :
  d_where d !! q = Some v ->
  q = p \/ exists r i, rooms s !! Connection.room c = Some r /\ i ∈ Room.members r /\
              connections s !! i = Some q.
Proof.
  destruct He; rewrite ?lobby_leave_where; cbn [d_where send with_rooms move draw no_delta];
    rewrite ?lookup_empty; try done.
  - intros [[<- _]|[_ ?]]%lookup_insert_Some; [by left|]. by rewrite lookup_empty in *.
  - intros [[<- _]|[_ ?]]%lookup_insert_Some; [by left|]. by rewrite lookup_empty in *.
  - intros [[<- _]|[_ ?]]%lookup_insert_Some; [right; eauto|]. by rewrite lookup_empty in *.
Qed.

(** A bar is entered in a room and never taken out of it. *)
Lemma effect_banned code r r' i :
  rooms s !! code = Some r -> d_rooms d !! code = Some r' ->
  i ∈ Room.banned_members r -> i ∈ Room.banned_members r'.
Proof.
  intros Hr Hr' Hi.
  destruct He as [|t|e ctx _|r1 l Hr1 Hl|r1 r2 l Hr1 _ Hban Hl|code1 pw r1 _ Hr1 _|code1 k|r1 bans q i1 n Hr1 _ _ Hbans _ _];
    cbn [d_rooms reply reject send with_rooms move draw no_delta] in Hr'; try by simplify_eq.
  - apply lookup_insert_Some in Hr' as [[<- <-]|[_ ?]]; simplify_eq; [by rewrite Hban|done].
  - apply lookup_insert_Some in Hr' as [[<- <-]|[_ ?]]; simplify_eq; done.
  - apply lookup_insert_Some in Hr' as [[<- <-]|[_ ?]]; simplify_eq; done.
  - destruct (decide (code = Connection.room c)) as [->|Hne].
    2:{ rewrite leave_lookup in Hr' by done. cbn in Hr'. rewrite lookup_insert_ne in Hr' by done.
        by simplify_eq. }
    unfold lobby_leave in Hr'. cbn [d_rooms send with_rooms] in Hr'. rewrite lookup_insert_eq in Hr'.
    simplify_eq. assert (i ∈ bans) by (destruct Hbans as [->|[_ ->]]; set_solver).
    destruct (Room.members _); [|case_bool_decide]; cbn [d_rooms send with_rooms move] in Hr';
      rewrite ?lookup_delete_eq, ?lookup_insert_eq in Hr'; by simplify_eq.
Qed.
End EffectFacts.

(** Claim C24: a message touches no room but the sender's, the one it was in and
    the one it is in now: every other room keeps its contents, and a client
    that is in neither is sent nothing and stays where it is. *)
Theorem message_isolation `{!RoomRng} (fuel : nat) (s s' : Server) (p : ptr) (c : Connection.t)
    (msg : Proto.ServerMessage) :
  wf s -> heap s !! p = Some c -> connections s !! Connection.id c = Some p ->
  HandleMessage fuel p msg s = Done () s' ->
  let mine code := code = where_is s (Connection.id c) \/ code = where_is s' (Connection.id c) in
  (forall code, ~ mine code -> rooms s' !! code = rooms s !! code) /\
  (forall j, client s j <> None -> j <> Connection.id c ->
     (forall code r, mine code -> rooms s !! code = Some r -> j ∉ Room.members r) ->
     queue s' j = queue s j /\ where_is s' j = where_is s j).
Proof.
  intros Hwf Hp Hid Hrun. rewrite (exec_HandleMessage s Hwf p c Hp) in Hrun.
  destruct (lobby_message fuel s p c msg) as [d|] eqn:Hd; [|by destruct (reads_no_bool _ _ _)]. injection Hrun as <-.
  pose proof (effect_lobby_message s p c Hwf Hp Hid fuel msg d Hd) as He.
  assert (where_is s (Connection.id c) = Connection.room c) as ->.
  { unfold where_is, client. rewrite Hid. cbn. by rewrite Hp. }
  rewrite (where_commit s d _ p c) by done. cbn zeta. split.
  - intros code Hcode. by apply (effect_rooms s p c d He).
  - intros j Hj Hne Hout. split.
    + rewrite queue_commit by done. assert (told j (d_sent d) = []) as ->; [|by rewrite app_nil_r].
      apply told_none. intros m Hm.
      destruct (effect_sent s p c d He j m Hm) as [->|(code & r & Hcode & Hr & Hin)]; [done|].
      by apply (Hout code r).
    + destruct (connections s !! j) as [q|] eqn:Hq; [|unfold client in Hj; by rewrite Hq in Hj].
      destruct (wf_table _ Hwf _ _ Hq) as (t & Ht & Hidt).
      rewrite (where_commit s d j q t) by done.
      assert (where_is s j = Connection.room t) as ->.
      { unfold where_is, client. rewrite Hq. cbn. by rewrite Ht. }
      destruct (d_where d !! q) as [v|] eqn:Hv; [|done].
      destruct (effect_where s p c d He q v Hv) as [->|(r & i & Hr & Hi & Hqi)]; [by simplify_eq|].
      destruct (wf_table _ Hwf _ _ Hqi) as (t' & ? & ?). simplify_eq.
      exfalso. by apply (Hout (Connection.room c) r); [left| |].
Qed.

(** The host bans member 2: the clients outside the room notice nothing. *)
Lemma message_isolation_witness :
  exists s', @HandleMessage Demo.rng 0 0%nat (Proto.BanMember 2) Demo.server = Done () s' /\
    queue s' 4 = queue Demo.server 4 /\ where_is s' 4 = where_is Demo.server 4.
Proof.
  eexists. split; [vm_compute; reflexivity|].
  eapply (@message_isolation Demo.rng 0 Demo.server _ 0%nat (Demo.conn 1 "WXYZ") (Proto.BanMember 2));
    [apply wf_check_sound; vm_compute; reflexivity|reflexivity|reflexivity|vm_compute; reflexivity| |..].
  - vm_compute. discriminate.
  - discriminate.
  - intros code r [-> | ->] Hr Hin; vm_compute in Hr; injection Hr as <-;
      apply (bool_decide_pack _) in Hin; vm_compute in Hin; exact Hin.
Defined.

