(* ===== verification/Authority.v ===== *)
(** Authority in a room: what only the host may do, what a departure does to the
    host's place, what a ban does, and whose name a relayed message carries. *)
From S2P Require Import Prelude Wire Protocol Framing RoomCache Server ServerExec Lobby WellFormed.
From S2P Require Import Refine ServerInv Rules.

(** ** Host-only requests *)

Definition host_only (msg : Proto.ServerMessage) : bool :=
  match msg with
  | Proto.SetRoomData _ _ | Proto.KickMember _ | Proto.BanMember _ | Proto.TransferHost _
  | Proto.SetRoomJoinable _ | Proto.SetRoomPassword _ => true
  | _ => false
  end.

Lemma as_host_refused s c :
  (forall r, rooms s !! Connection.room c = Some r -> Room.host r <> Connection.id c) ->
  exists e, (e = Proto.NotInRoom \/ e = Proto.NotHost) /\
    forall k, as_host s c k = reject s c e "".
Proof.
  intros Hno. unfold as_host, in_room. destruct (rooms s !! Connection.room c) as [r|]; [|eauto].
  exists Proto.NotHost. split; [by right|]. intros k. by rewrite bool_decide_true by auto.
Qed.

(** Claim C25: nobody but the host gets a host-only request through: the room
    table and everybody's room stay as they were, the sender is sent one error
    and no other client is sent anything. *)
Theorem host_only_requests_refused `{!RoomRng} (fuel : nat) (s : Server) (p : ptr)
    (c : Connection.t) (msg : Proto.ServerMessage) :
  sender s p c -> host_only msg = true ->
  (forall r, rooms s !! Connection.room c = Some r -> Room.host r <> Connection.id c) ->
  exists s' e, HandleMessage fuel p msg s = Done () s' /\
    (e = Proto.NotInRoom \/ e = Proto.NotHost) /\ rooms s' = rooms s /\
    (forall j, where_is s' j = where_is s j) /\
    (forall j, client s j <> None ->
       queue s' j = queue s j ++
         if decide (j = Connection.id c) then [FrameMessage (Proto.RoomError e "")] else []).
Proof.
  intros Hs Hkind Hno. pose proof Hs as [Hwf Hp Hid].
  destruct (as_host_refused s c Hno) as (e & He & Hrefused).
  assert (lobby_message fuel s p c msg = Some (reject s c e "")) as Hd.
  { assert (hosts s c = false) as Hhosts
      by (unfold hosts; destruct (rooms s !! _); [by apply bool_decide_false, Hno|done]).
    destruct msg; try done; cbn [lobby_message reads_no_bool]; rewrite ?Hhosts; cbn [andb]; f_equal; apply Hrefused. }
  rewrite (exec_HandleMessage s Hwf p c Hp), Hd. do 2 eexists. split; [done|].
  split_and!; [exact He|done|intros j; by apply where_commit_same|].
  intros j Hj. by apply (queue_reply s p c).
Qed.

Lemma host_only_requests_refused_witness :
  exists s' e, @HandleMessage Demo.rng 0 1%nat (Proto.KickMember 1) Demo.server = Done () s' /\
    (e = Proto.NotInRoom \/ e = Proto.NotHost) /\ rooms s' = rooms Demo.server.
Proof.
  destruct (@host_only_requests_refused Demo.rng 0 Demo.server 1%nat (Demo.conn 2 "WXYZ")
    (Proto.KickMember 1)) as (s' & e & Hrun & He & Hrooms & _).
  - split; [apply wf_check_sound; vm_compute; reflexivity|reflexivity..].
  - reflexivity.
  - intros r Hr. vm_compute in Hr. injection Hr as <-. discriminate.
  - exists s', e. exact (conj Hrun (conj He Hrooms)).
Defined.

(** ** Departures *)

(** What is left of the room when [i] leaves: the other members in the order
    they came, the host replaced by the oldest of them if it was [i]. *)
Definition succeeds (i : N) (r r' : Room.t) : Prop :=
  Room.members r' = filter (fun j => j <> i) (Room.members r) /\
  Room.host r' = (if decide (Room.host r = i) then default i (head (Room.members r'))
                  else Room.host r) /\
  Room.id r' = Room.id r /\ Room.data r' = Room.data r /\ Room.open r' = Room.open r /\
  Room.password r' = Room.password r /\
  Room.member_data r' = delete i (Room.member_data r).

Lemma lobby_leave_cases d q i code r :
  d_rooms d !! code = Some r -> NoDup (Room.members r) ->
  let others := vector_erase i (Room.members r) in
  (others = [] /\ lobby_leave d q i code = move (with_rooms d (delete code (d_rooms d))) q "") \/
  (exists r', others <> [] /\ succeeds i r r' /\ Room.banned_members r' = Room.banned_members r /\
     lobby_leave d q i code =
     move (send (with_rooms d (<[code := r']> (d_rooms d)))
       (to_all others (Proto.PeerLeft i)
        ++ if decide (Room.host r = i) then to_all others (Proto.HostChanged (Room.host r')) else []))
       q "").
Proof.
  intros Hr Hnd others. unfold lobby_leave. rewrite Hr.
  change (Room.members (room_without i r)) with others.
  destruct others as [|front l] eqn:Hothers; [left; done|right].
  destruct (decide (Room.host r = i)) as [Hi|Hi].
  - rewrite bool_decide_true by done. exists (Room.set_host front (room_without i r)).
    split_and!; try done.
    + unfold succeeds. rewrite decide_True by done. cbn. fold others.
      unfold vector_erase in *. rewrite Hothers. done.
    + unfold with_rooms, send, move. cbn [d_sent d_rooms d_where d_rng]. by rewrite <-app_assoc.
  - rewrite bool_decide_false by done. exists (room_without i r). split_and!; try done.
    + unfold succeeds. by rewrite decide_False by done.
    + by rewrite app_nil_r.
Qed.

(** What the remaining members are told. *)
Lemma told_farewell (others : list N) i r r' : NoDup others -> forall j,
  told j (to_all others (Proto.PeerLeft i)
    ++ (if decide (Room.host r = i) then to_all others (Proto.HostChanged (Room.host r')) else [])) =
  if decide (j ∈ others) then
    Proto.PeerLeft i :: (if decide (Room.host r = i) then [Proto.HostChanged (Room.host r')] else [])
  else [].
Proof.
  intros Hnd j. rewrite told_app, told_to_all by done.
  destruct (decide (Room.host r = i)); rewrite ?told_to_all by done; by case_decide.
Qed.

(** Claim C26: a member who leaves is told so and is in no room afterwards.  The
    last one closes the room; otherwise the room goes on with the remaining
    members in their order and everything but the leaver's own data, a leaving
    host is succeeded by the member who has been there longest, and each of
    the others is told of the departure and, then, of a new host. *)
Theorem leave_room_succession (s : Server) (p : ptr) (c : Connection.t) (r : Room.t) :
  sender s p c -> rooms s !! Connection.room c = Some r ->
  let i := Connection.id c in
  let code := Connection.room c in
  let others := filter (fun j => j <> i) (Room.members r) in
  exists s', HandleLeaveRoom p s = Done () s' /\ where_is s' i = EmptyString /\
    queue s' i = queue s i ++ [FrameMessage (Proto.PeerLeft i)] /\
    (others = [] -> rooms s' = delete code (rooms s)) /\
    (others <> [] -> exists r', rooms s' = <[code := r']> (rooms s) /\ succeeds i r r' /\
       forall j, j ∈ others -> where_is s' j = code /\
         queue s' j = queue s j ++ (FrameMessage <$>
           Proto.PeerLeft i :: if decide (Room.host r = i) then [Proto.HostChanged (Room.host r')]
                               else [])).
Proof.
  intros Hs Hr i code others. pose proof Hs as [Hwf Hp Hid].
  pose proof (wf_rooms _ Hwf _ _ Hr) as Hok.
  rewrite (exec_HandleLeaveRoom s p c Hp).
  assert (str_empty (Connection.room c) = false) as ->.
  { apply bool_decide_eq_false, (room_code _ _ Hok). }
  eexists. split; [done|]. fold i code.
  set (d0 := reply s c (Proto.PeerLeft i)).
  assert (i ∉ others) as Hi by (subst others; rewrite list_elem_of_filter; tauto).
  assert (NoDup others) as Hnd by (apply NoDup_filter, (room_nodup _ _ Hok)).
  destruct (lobby_leave_cases d0 p i code r Hr (room_nodup _ _ Hok))
    as [[Hnil ->]|(r' & Hne & Hsucc & _ & ->)]; change (vector_erase i (Room.members r)) with others in *.
  - split_and!; [| | done | done].
    + unfold i. rewrite (sender_where_after s p c) by done. unfold room_after. cbn. by rewrite lookup_insert_eq.
    + rewrite queue_commit; [|done|by unfold i; rewrite (sender_client s p c)].
      cbn [d_sent d0 move with_rooms reply send no_delta app]. by rewrite told_one, decide_True by done.
  - pose proof (told_farewell others i r r' Hnd) as Htold.
    split_and!; [| | done |].
    + unfold i. rewrite (sender_where_after s p c) by done. unfold room_after. cbn. by rewrite lookup_insert_eq.
    + rewrite queue_commit; [|done|by unfold i; rewrite (sender_client s p c)].
      cbn [d_sent d0 move with_rooms reply send no_delta app]. rewrite told_cons.
      by rewrite Htold, decide_True, (decide_False (P := i ∈ others)) by done.
    + intros _. exists r'. split_and!; [done|done|]. intros j Hj.
      assert (j ∈ Room.members r /\ j <> i) as [Hjr Hji] by (apply list_elem_of_filter in Hj; tauto).
      destruct (wf_members _ Hwf _ _ _ Hr Hjr) as (q & t & Hq & Ht & Hroom). split.
      * rewrite (where_commit s _ j q t) by done. cbn. rewrite lookup_insert_ne; [by rewrite lookup_empty|].
        intros <-. simplify_eq. destruct (wf_table _ Hwf _ _ Hq) as (? & ? & ?). by simplify_eq.
      * rewrite queue_commit; [|done|by unfold client; rewrite Hq; cbn; rewrite Ht].
        cbn [d_sent d0 move with_rooms reply send no_delta app]. rewrite told_cons.
        by rewrite Htold, decide_False, (decide_True (P := j ∈ others)) by done.
Qed.

(** The host leaves: the other member is the host now. *)
Lemma leave_room_succession_witness :
  exists s' r', HandleLeaveRoom 0%nat Demo.server = Done () s' /\
    rooms s' = <["WXYZ" := r']> (rooms Demo.server) /\ Room.host r' = 2%N.
Proof.
  destruct (leave_room_succession Demo.server 0%nat (Demo.conn 1 "WXYZ") Demo.room)
    as (s' & Hrun & _ & _ & _ & Hothers).
  - split; [apply wf_check_sound; vm_compute; reflexivity|reflexivity..].
  - reflexivity.
  - destruct Hothers as (r' & Hrooms & (Hmem & Hhost & _) & _); [discriminate|].
    exists s', r'. split; [exact Hrun|split; [exact Hrooms|]].
    rewrite Hhost, Hmem. reflexivity.
Defined.

(** ** Bans *)

Lemma ban_run s p c r target q :
  sender s p c -> rooms s !! Connection.room c = Some r -> Room.host r = Connection.id c ->
  connections s !! target = Some q -> target ∈ Room.members r -> target <> Connection.id c ->
  HandleBanMember p target s = Done () (commit s (lobby_leave
    (send (with_rooms (no_delta s) (<[Connection.room c := enter_ban target r]> (rooms s)))
       [(target, Proto.BannedByHost)]) q target (Connection.room c))).
Proof.
  intros [Hwf Hp Hid] Hr Hhost Hq Hin Hne. rewrite (exec_HandleBanMember s p c Hp) by done.
  unfold lobby_remove, as_host, in_room. rewrite Hr, Hq, bool_decide_false by tauto.
  rewrite bool_decide_true by (rewrite Hhost; done). done.
Qed.

(** What a ban writes into the room. *)
Lemma enter_ban_spec target r :
  Room.members (enter_ban target r) = Room.members r /\ Room.host (enter_ban target r) = Room.host r /\
  target ∈ Room.banned_members (enter_ban target r) /\
  forall r', succeeds target (enter_ban target r) r' -> succeeds target r r'.
Proof. unfold enter_ban, vector_contains. case_bool_decide; split_and!; try done. set_solver. Qed.

(** The delta of a ban: the others stay, since the host is one of them. *)
Lemma ban_delta s p c r target q :
  sender s p c -> rooms s !! Connection.room c = Some r -> Room.host r = Connection.id c -> target <> Connection.id c ->
  let others := vector_erase target (Room.members r) in
  exists r', Room.members r' = others /\ Room.host r' = Connection.id c /\ succeeds target r r' /\
    target ∈ Room.banned_members r' /\
    lobby_leave (send (with_rooms (no_delta s) (<[Connection.room c := enter_ban target r]> (rooms s)))
      [(target, Proto.BannedByHost)]) q target (Connection.room c) =
    move (send (with_rooms (no_delta s) (<[Connection.room c := r']> (rooms s)))
      ((target, Proto.BannedByHost) :: to_all others (Proto.PeerLeft target))) q "".
Proof.
  intros [Hwf Hp Hid] Hr Hhost Hne others. pose proof (wf_rooms _ Hwf _ _ Hr) as Hok.
  destruct (enter_ban_spec target r) as (Hmem & Hhost' & Hbanned & Hsame).
  assert (Connection.id c ∈ others) as Hhere.
  { apply elem_of_vector_erase. rewrite <-Hhost. split; [congruence|apply (room_host _ _ Hok)]. }
  set (d := send _ _).
  destruct (lobby_leave_cases d q target (Connection.room c) (enter_ban target r)) as [[Hnil _]|(r' & _ & Hsucc & Hbans & ->)].
  - apply lookup_insert_eq.
  - rewrite Hmem. apply (room_nodup _ _ Hok).
  - rewrite Hmem in Hnil. fold others in Hnil. rewrite Hnil in Hhere. by apply not_elem_of_nil in Hhere.
  - exists r'. rewrite Hmem, Hhost', Hhost, decide_False, app_nil_r by congruence. fold others.
    destruct Hsucc as (Hmem' & Hhost'' & Hrest) eqn:Heq. split_and!; [by rewrite Hmem', Hmem| |by apply Hsame|congruence|].
    + by rewrite Hhost'', Hhost', Hhost, decide_False by congruence.
    + unfold d, send, with_rooms, move. cbn [d_sent d_rooms d_where d_rng no_delta app]. by rewrite insert_insert_eq.
Qed.

(** A host who bans another member removes it from the room and bars
    it: the target is told and is in no room, the room lists it as barred, the
    remaining members keep their order and the host, and each is told. *)
Theorem ban_removes_and_bars (s : Server) (p : ptr) (c : Connection.t) (r : Room.t) (target : N) :
  sender s p c -> rooms s !! Connection.room c = Some r -> Room.host r = Connection.id c ->
  target ∈ Room.members r -> target <> Connection.id c ->
  exists s' r', HandleBanMember p target s = Done () s' /\
    rooms s' = <[Connection.room c := r']> (rooms s) /\ where_is s' target = EmptyString /\
    queue s' target = queue s target ++ [FrameMessage Proto.BannedByHost] /\
    target ∈ Room.banned_members r' /\ target ∉ Room.members r' /\ succeeds target r r' /\
    Room.host r' = Connection.id c /\
    (forall j, j ∈ Room.members r' ->
       queue s' j = queue s j ++ [FrameMessage (Proto.PeerLeft target)]).
Proof.
  intros Hs Hr Hhost Hin Hne. pose proof Hs as [Hwf Hp Hid].
  destruct (wf_members _ Hwf _ _ _ Hr Hin) as (q & t & Hq & Ht & Hroom).
  destruct (ban_delta s p c r target q Hs Hr Hhost Hne) as (r' & Hothers & Hhost' & Hsucc & Hbanned & Heq).
  set (others := vector_erase target (Room.members r)) in *.
  assert (target ∉ others) as Hout by (subst others; rewrite elem_of_vector_erase; tauto).
  assert (NoDup others) as Hnd by (apply NoDup_filter, (room_nodup _ _ (wf_rooms _ Hwf _ _ Hr))).
  eexists _, r'. split; [by apply (ban_run s p c r target q)|]. rewrite Heq, Hothers. split_and!; try done.
  - rewrite (where_commit s _ target q t) by done. cbn. by rewrite lookup_insert_eq.
  - rewrite queue_commit by (done || by apply (member_client s _ r target Hwf Hr)).
    cbn [d_sent move with_rooms send no_delta app]. rewrite told_cons.
    by rewrite told_to_all, decide_True, (decide_False (P := target ∈ others)) by done.
  - intros j Hj. apply elem_of_vector_erase in Hj as Hj'.
    destruct Hj' as [Hjt Hjr]. rewrite queue_commit by (done || by apply (member_client s _ r j Hwf Hr)).
    cbn [d_sent move with_rooms send no_delta app]. rewrite told_cons.
    by rewrite told_to_all, decide_False, (decide_True (P := j ∈ others)) by (done || naive_solver).
Qed.

Lemma ban_removes_and_bars_witness :
  exists s' r', HandleBanMember 0%nat 2 Demo.server = Done () s' /\
    rooms s' = <["WXYZ" := r']> (rooms Demo.server) /\ where_is s' 2 = EmptyString.
Proof.
  destruct (ban_removes_and_bars Demo.server 0%nat (Demo.conn 1 "WXYZ") Demo.room 2)
    as (s' & r' & Hrun & Hrooms & Hwhere & _).
  - split; [apply wf_check_sound; vm_compute; reflexivity|reflexivity..].
  - reflexivity.
  - reflexivity.
  - apply (bool_decide_unpack _). vm_compute. exact I.
  - discriminate.
  - exists s', r'. exact (conj Hrun (conj Hrooms Hwhere)).
Defined.

(** Claim C27: a bar outlives every later message: as long as the room exists,
    whoever it bars stays barred and does not get in. *)
Theorem ban_is_permanent `{!RoomRng} (fuel : nat) (s s' : Server) (p : ptr) (c : Connection.t)
    (msg : Proto.ServerMessage) (code : string) (r r' : Room.t) (i : N) :
  sender s p c -> HandleMessage fuel p msg s = Done () s' ->
  rooms s !! code = Some r -> rooms s' !! code = Some r' -> i ∈ Room.banned_members r ->
  i ∈ Room.banned_members r' /\ i ∉ Room.members r' /\ where_is s' i <> code.
Proof.
  intros Hs Hrun Hr Hr' Hi. destruct (sender_message s p c fuel msg s' Hs Hrun) as (d & Hd & -> & Hwf').
  pose proof Hs as [Hwf Hp Hid].
  pose proof (effect_lobby_message s p c Hwf Hp Hid fuel msg d Hd) as He.
  assert (i ∈ Room.banned_members r') as Hbar by (apply (effect_banned s p c d He code r r' i); done).
  pose proof (wf_rooms _ Hwf' _ _ Hr') as Hok.
  assert (i ∉ Room.members r') as Hout by (intros Hin; by apply (room_banned _ _ Hok i)).
  split_and!; [done|done|]. intros Hwhere. apply Hout.
  pose proof (room_code _ _ Hok) as Hcode. unfold where_is in Hwhere.
  destruct (client (commit s d) i) as [t|] eqn:Ht; [|by subst code].
  unfold client in Ht. destruct (connections (commit s d) !! i) as [q|] eqn:Hq; [|done].
  by apply (proj1 (wf_member (commit s d) i q t code r' Hwf' Hr' Hq Ht)).
Qed.

(** Client 3, barred from the room, asks to join with the right password. *)
Lemma ban_is_permanent_witness :
  exists s' r', @HandleMessage Demo.rng 0 2%nat (Proto.JoinRoom "WXYZ" "pw") Demo.server = Done () s' /\
    rooms s' !! "WXYZ" = Some r' /\ (3%N ∈ Room.banned_members r' /\ 3%N ∉ Room.members r' /\ where_is s' 3 <> "WXYZ").
Proof.
  do 2 eexists. split; [vm_compute; reflexivity|]. split; [vm_compute; reflexivity|].
  eapply (@ban_is_permanent Demo.rng 0 Demo.server _ 2%nat (Demo.conn 3 "") (Proto.JoinRoom "WXYZ" "pw")
    "WXYZ" Demo.room); [|vm_compute; reflexivity|reflexivity|vm_compute; reflexivity|].
  - split; [apply wf_check_sound; vm_compute; reflexivity|reflexivity..].
  - apply (bool_decide_unpack _). vm_compute. exact I.
Defined.

(** ** Errors and relayed messages *)

Lemma leave_notices (c : Connection.t) d0 q i code :
  Forall (fun im => notice (Connection.id c) im.2) (d_sent d0) ->
  Forall (fun im => notice (Connection.id c) im.2) (d_sent (lobby_leave d0 q i code)).
Proof.
  intros Hd0. unfold lobby_leave. destruct (d_rooms d0 !! code) as [r|]; [|done].
  destruct (Room.members (room_without i r)); [done|].
  case_bool_decide; cbn [d_sent send with_rooms move]; rewrite ?Forall_app; split_and?;
    try done; unfold to_all; rewrite Forall_fmap, Forall_forall; done.
Qed.

Lemma to_all_notices i ids m : notice i m -> Forall (fun im => notice i im.2) (to_all ids m).
Proof. intros Hm. unfold to_all. rewrite Forall_fmap, Forall_forall. done. Qed.

Lemma hydration_notices i j code r : Forall (fun im => notice i im.2) (hydration j code r).
Proof.
  assert (forall A (f : A -> N * Proto.ServerMessage) l, (forall x, notice i (f x).2) ->
            Forall (fun im => notice i im.2) (f <$> l)) as Hmap.
  { intros A f l Hf. rewrite Forall_fmap, Forall_forall. auto. }
  unfold hydration. repeat apply Forall_app_2; try (by repeat constructor); try by apply Hmap.
  rewrite Forall_concat, Forall_fmap, Forall_forall. intros mkv _. by apply Hmap.
Qed.

(** What is sent is one answer to the sender, or notices. *)
Lemma effect_answers s p c d :
  effect s p c d ->
  (exists t, d = reply s c (Proto.Heartbeat t)) \/ (exists e ctx, (e < 9)%N /\ d = reject s c e ctx) \/
  Forall (fun im => notice (Connection.id c) im.2) (d_sent d).
Proof.
  destruct 1 as [|t|e ctx Hcode|r l Hr Hl|r r' l Hr _ _ Hl|code pw r _ Hr _|code k|r bans q i n Hr Hq Hi _ _ Hn];
    [by do 2 right|by eauto|right; left; by exists e, ctx| | | | |]; do 2 right;
    cbn [d_sent send with_rooms move draw no_delta app].
  - eapply Forall_impl; [exact Hl|]. by intros im [_ ?].
  - eapply Forall_impl; [exact Hl|]. by intros im [_ ?].
  - apply Forall_app_2; [by apply to_all_notices|apply hydration_notices].
  - by repeat constructor.
  - apply leave_notices. cbn. by repeat constructor.
Qed.

(** Claim C31: a handler that reports an error has done nothing else.  If any
    client is sent an error, it is the sender, this is the only message that
    is sent, no room changed and nobody moved. *)
Theorem errors_change_nothing `{!RoomRng} (fuel : nat) (s s' : Server) (p : ptr) (c : Connection.t)
    (msg : Proto.ServerMessage) :
  sender s p c -> HandleMessage fuel p msg s = Done () s' ->
  exists sent : outgoing,
    (forall j, client s j <> None -> queue s' j = queue s j ++ (FrameMessage <$> told j sent)) /\
    forall j e ctx, (j, Proto.RoomError e ctx) ∈ sent ->
      sent = [(Connection.id c, Proto.RoomError e ctx)] /\ rooms s' = rooms s /\
      forall k, where_is s' k = where_is s k.
Proof.
  intros Hs Hrun. destruct (sender_message s p c fuel msg s' Hs Hrun) as (d & Hd & -> & _).
  pose proof Hs as [Hwf Hp Hid].
  pose proof (effect_lobby_message s p c Hwf Hp Hid fuel msg d Hd) as He.
  exists (d_sent d). split; [intros j Hj; by apply queue_commit|]. intros j e ctx Hin.
  destruct (effect_answers s p c d He) as [[t ->]|[(e' & ctx' & _ & ->)|Hall]].
  - apply list_elem_of_singleton in Hin. done.
  - apply list_elem_of_singleton in Hin. injection Hin as -> -> ->.
    split_and!; [done|done|]. intros k. by apply where_commit_same.
  - rewrite Forall_forall in Hall. by specialize (Hall _ Hin).
Qed.

(** A wrong password: one error, and the room is as before. *)
Lemma errors_change_nothing_witness :
  match @HandleMessage Demo.rng 0 3%nat (Proto.JoinRoom "WXYZ" "guess") Demo.server with
  | Done _ s' => exists sent : outgoing, forall j e ctx,
      (j, Proto.RoomError e ctx) ∈ sent -> rooms s' = rooms Demo.server
  | _ => False
  end.
Proof.
  destruct (@HandleMessage Demo.rng 0 3%nat (Proto.JoinRoom "WXYZ" "guess") Demo.server)
    as [[] s'| |] eqn:Hrun; [|vm_compute in Hrun; discriminate..].
  destruct (@errors_change_nothing Demo.rng 0 Demo.server s' 3%nat (Demo.conn 4 "")
    (Proto.JoinRoom "WXYZ" "guess")) as (sent & _ & Herr).
  - split; [apply wf_check_sound; vm_compute; reflexivity|reflexivity..].
  - exact Hrun.
  - exists sent. intros j e ctx Hin. apply (Herr j e ctx Hin).
Defined.

(** Claim C32: nobody can speak in another's name, and the server never passes a
    request on: every message a handler sends is an answer to the sender or an
    event, and a chat line or a signal carries the id of the client whose
    message is being handled, whatever id that client wrote in it. *)
Theorem relayed_messages_name_the_sender `{!RoomRng} (fuel : nat) (s s' : Server) (p : ptr)
    (c : Connection.t) (msg : Proto.ServerMessage) :
  sender s p c -> HandleMessage fuel p msg s = Done () s' ->
  exists sent : outgoing,
    (forall j, client s j <> None -> queue s' j = queue s j ++ (FrameMessage <$> told j sent)) /\
    forall j m, (j, m) ∈ sent ->
      match m with
      | Proto.RoomChat from _ | Proto.P2PSignal from _ _ => from = Connection.id c
      | Proto.Heartbeat _ | Proto.RoomError _ _ => j = Connection.id c
      | _ => notice (Connection.id c) m
      end.
Proof.
  intros Hs Hrun. destruct (sender_message s p c fuel msg s' Hs Hrun) as (d & Hd & -> & _).
  pose proof Hs as [Hwf Hp Hid].
  pose proof (effect_lobby_message s p c Hwf Hp Hid fuel msg d Hd) as He.
  exists (d_sent d). split; [intros j Hj; by apply queue_commit|]. intros j m Hin.
  destruct (effect_answers s p c d He) as [[t ->]|[(e' & ctx' & _ & ->)|Hall]].
  - apply list_elem_of_singleton in Hin. by injection Hin as -> ->.
  - apply list_elem_of_singleton in Hin. by injection Hin as -> ->.
  - rewrite Forall_forall in Hall. specialize (Hall _ Hin). cbn in Hall. by destruct m.
Qed.

(** Client 2 chats as client 1. *)
Lemma relayed_messages_name_the_sender_witness :
  match @HandleMessage Demo.rng 0 1%nat (Proto.RoomChat 1 "hi") Demo.server with
  | Done _ s' => exists sent : outgoing, forall j from text,
      (j, Proto.RoomChat from text) ∈ sent -> from = 2%N
  | _ => False
  end.
Proof.
  destruct (@HandleMessage Demo.rng 0 1%nat (Proto.RoomChat 1 "hi") Demo.server)
    as [[] s'| |] eqn:Hrun; [|vm_compute in Hrun; discriminate..].
  destruct (@relayed_messages_name_the_sender Demo.rng 0 Demo.server s' 1%nat (Demo.conn 2 "WXYZ")
    (Proto.RoomChat 1 "hi")) as (sent & _ & Hsent).
  - split; [apply wf_check_sound; vm_compute; reflexivity|reflexivity..].
  - exact Hrun.
  - exists sent. intros j from text Hin. apply (Hsent j _ Hin).
Defined.
