(* ===== verification/RoomCodes.v ===== *)
(** Creating a room: the code that is drawn, and when the loop that draws codes
    ends. *)
From S2P Require Import Prelude Wire Protocol Framing RoomCache Server ServerExec Lobby WellFormed.
From S2P Require Import Refine ServerInv Rules.

(** ** Codes *)

Fixpoint chars (s : string) : list Ascii.ascii :=
  match s with
  | EmptyString => []
  | String a s' => a :: chars s'
  end.

(** A string of [n] letters of the alphabet. *)
Definition is_code (n : nat) (s : string) : Prop :=
  String.length s = n /\ Forall (fun a => a ∈ chars alphabet) (chars s).

Section Codes.
Context `{!RoomRng}.

Lemma alphabet_get i : (i < 32)%nat -> alphabet_at i ∈ chars alphabet.
Proof.
  intros Hi. unfold alphabet_at. do 32 (destruct i as [|i]; [apply (bool_decide_unpack _); exact I|]). lia.
Qed.

Lemma code_from_is_code k n : is_code n (code_from k n).
Proof.
  split; [apply length_code_from|]. revert k.
  induction n as [|n IH]; intros k; cbn; [constructor|].
  constructor; [apply alphabet_get, pick_range|apply IH].
Qed.

Lemma attempt_S k n i : attempt k n (S i) = attempt (k + n) n i.
Proof. unfold attempt. f_equal. lia. Qed.

Lemma attempt_0 k n : attempt k n 0 = code_from k n.
Proof. unfold attempt. f_equal. lia. Qed.

(** [first_free] is the search for the first attempt that is free. *)
Lemma first_free_spec R k n fuel :
  match first_free R k n fuel with
  | Some (code, k') =>
      exists i, (i <= fuel)%nat /\ code = attempt k n i /\ k' = (k + S i * n)%nat /\ R !! code = None /\
        forall j, (j < i)%nat -> R !! attempt k n j <> None
  | None => forall i, (i <= fuel)%nat -> R !! attempt k n i <> None
  end.
Proof.
  revert k. induction fuel as [|fuel IH]; intros k; cbn [first_free];
    destruct (R !! code_from k n) eqn:Hcode.
  - intros i Hi. assert (i = 0)%nat as -> by lia. rewrite attempt_0. congruence.
  - exists 0%nat. rewrite attempt_0. split_and!; [lia|done|lia|done|lia].
  - specialize (IH (k + n)%nat). destruct (first_free R (k + n) n fuel) as [[code k']|].
    + destruct IH as (i & Hi & -> & -> & Hfree & Hbefore). exists (S i). rewrite attempt_S.
      split_and!; [lia|done|lia|done|]. intros [|j] Hj; [rewrite attempt_0; congruence|].
      rewrite attempt_S. apply Hbefore. lia.
    + intros [|i] Hi; [rewrite attempt_0; congruence|]. rewrite attempt_S. apply IH. lia.
  - exists 0%nat. rewrite attempt_0. split_and!; [lia|done|lia|done|lia].
Qed.

Lemma first_free_some R k n fuel i :
  (i <= fuel)%nat -> R !! attempt k n i = None -> first_free R k n fuel <> None.
Proof.
  intros Hi Hfree Hnone. pose proof (first_free_spec R k n fuel) as Hspec. rewrite Hnone in Hspec.
  by apply (Hspec i).
Qed.

Lemma first_free_mono R k n fuel fuel' x :
  first_free R k n fuel = Some x -> (fuel <= fuel')%nat -> first_free R k n fuel' = Some x.
Proof.
  revert k fuel'. induction fuel as [|fuel IH]; intros k [|fuel']; cbn [first_free];
    destruct (R !! code_from k n); intros; try done; try lia. apply IH; [done|lia].
Qed.
End Codes.

(** ** Properties *)

(** A client in no room that asks for one gets the first free code of
    the sequence of draws: as long as configured, made of the alphabet's
    letters, and no other room's.  The new room has the client as its only
    member and host, is open, without password, data or bars, and the client
    is told the code and that it is the host; no other room and no other
    client is affected. *)
Theorem create_room_makes_room `{!RoomRng} (fuel i : nat) (s : Server) (p : ptr) (c : Connection.t) :
  sender s p c -> Connection.room c = EmptyString ->
  (i <= fuel)%nat -> rooms s !! attempt (rng s) (code_length s) i = None ->
  (forall j, (j < i)%nat -> rooms s !! attempt (rng s) (code_length s) j <> None) ->
  let code := attempt (rng s) (code_length s) i in
  exists s', HandleCreateRoom fuel p s = Done () s' /\ is_code (code_length s) code /\
    rooms s' = <[code := Room.mk code (Connection.id c) [Connection.id c] ∅ ∅ true "" []]> (rooms s) /\
    where_is s' (Connection.id c) = code /\
    forall j, client s j <> None -> queue s' j = queue s j ++
      if decide (j = Connection.id c)
      then [FrameMessage (Proto.AssignRoomId code); FrameMessage (Proto.HostChanged (Connection.id c))]
      else [].
Proof.
  intros Hs Hroom Hi Hfree Hbefore code. pose proof Hs as [Hwf Hp Hid].
  assert (first_free (rooms s) (rng s) (code_length s) fuel
          = Some (code, (rng s + S i * code_length s)%nat)) as Hfirst.
  { pose proof (first_free_spec (rooms s) (rng s) (code_length s) fuel) as Hspec.
    destruct (first_free _ _ _ _) as [[code' k']|]; [|exfalso; by apply (Hspec i)].
    destruct Hspec as (i' & Hi' & -> & -> & Hfree' & Hbefore').
    destruct (lt_eq_lt_dec i i') as [[Hlt| ->]|Hlt];
      [exfalso; by apply (Hbefore' i)|done|exfalso; by apply (Hbefore i')]. }
  eexists. split.
  { rewrite (exec_HandleCreateRoom s fuel p c Hp). unfold lobby_create.
    rewrite Hroom, Hfirst. reflexivity. }
  split_and!; [apply code_from_is_code|done| |].
  - rewrite (sender_where_after s p c) by done. unfold room_after. cbn. by rewrite lookup_insert_eq.
  - intros j Hj. rewrite queue_commit by done.
    cbn [d_sent send move with_rooms draw no_delta app]. rewrite !told_cons.
    destruct (decide (Connection.id c = j)), (decide (j = Connection.id c)); congruence || done.
Qed.

Lemma create_room_makes_room_witness :
  exists s', @HandleCreateRoom Demo.rng 0 3%nat Demo.server = Done () s' /\
    where_is s' 4 = "ABCD" /\ rooms s' !! "WXYZ" = Some Demo.room.
Proof.
  destruct (@create_room_makes_room Demo.rng 0 0 Demo.server 3%nat (Demo.conn 4 ""))
    as (s' & Hrun & _ & Hrooms & Hwhere & _).
  - split; [apply wf_check_sound; vm_compute; reflexivity|reflexivity..].
  - reflexivity.
  - apply le_n.
  - vm_compute. reflexivity.
  - intros j Hj. exfalso. by apply Nat.nlt_0_r in Hj.
  - exists s'. split; [exact Hrun|]. split; [exact Hwhere|]. rewrite Hrooms. reflexivity.
Defined.

(** Claim C33: the loop that draws codes ends exactly when some draw is free:
    then every large enough fuel gives the same new state, and otherwise no
    number of iterations is enough. *)
Theorem create_room_terminates_iff `{!RoomRng} (s : Server) (p : ptr) (c : Connection.t) :
  sender s p c -> Connection.room c = EmptyString ->
  ((exists i, rooms s !! attempt (rng s) (code_length s) i = None) ->
     exists fuel s', forall fuel', (fuel <= fuel')%nat -> HandleCreateRoom fuel' p s = Done () s') /\
  ((forall i, rooms s !! attempt (rng s) (code_length s) i <> None) ->
     forall fuel, HandleCreateRoom fuel p s = Loops).
Proof.
  intros [Hwf Hp Hid] Hroom. split.
  - intros [i Hi]. destruct (first_free (rooms s) (rng s) (code_length s) i) as [[code k]|] eqn:Hfree.
    2:{ by apply (first_free_some _ _ _ _ i) in Hfree. }
    exists i. eexists. intros fuel' Hle. rewrite (exec_HandleCreateRoom s fuel' p c Hp).
    unfold lobby_create. rewrite Hroom, (first_free_mono _ _ _ _ _ _ Hfree Hle). reflexivity.
  - intros Hall fuel. rewrite (exec_HandleCreateRoom s fuel p c Hp). unfold lobby_create.
    rewrite Hroom. pose proof (first_free_spec (rooms s) (rng s) (code_length s) fuel) as Hspec.
    destruct (first_free _ _ _ _) as [[code k]|]; [|done].
    destruct Hspec as (i & _ & -> & _ & Hfree & _). by apply Hall in Hfree.
Qed.

Lemma create_room_terminates_iff_witness :
  exists fuel s', forall fuel', (fuel <= fuel')%nat ->
    @HandleCreateRoom Demo.rng fuel' 3%nat Demo.server = Done () s'.
Proof.
  apply (@create_room_terminates_iff Demo.rng Demo.server 3%nat (Demo.conn 4 "")).
  - split; [apply wf_check_sound; vm_compute; reflexivity|reflexivity..].
  - reflexivity.
  - exists 0%nat. vm_compute. reflexivity.
Defined.

(** Claim C34: when every code of the configured length is some room's, a request
    for a room is never answered: the loop runs for ever, whatever the random
    draws are, and with it the server's only thread.  One-letter codes are
    exhausted by 32 rooms. *)
Theorem create_room_hangs `{!RoomRng} (fuel : nat) (s : Server) (p : ptr) (c : Connection.t) :
  sender s p c -> Connection.room c = EmptyString ->
  (forall code, is_code (code_length s) code -> rooms s !! code <> None) ->
  HandleMessage fuel p Proto.CreateRoom s = Loops.
Proof.
  intros [Hwf Hp Hid] Hroom Hall. cbn [HandleMessage].
  rewrite (exec_HandleCreateRoom s fuel p c Hp). unfold lobby_create. rewrite Hroom.
  pose proof (first_free_spec (rooms s) (rng s) (code_length s) fuel) as Hspec.
  destruct (first_free _ _ _ _) as [[code k]|]; [|done].
  destruct Hspec as (i & _ & -> & _ & Hfree & _). exfalso.
  apply (Hall _ (code_from_is_code _ _) Hfree).
Qed.

(** Thirty-two rooms with one-letter codes, and a client who wants another. *)
Module Full.
Definition codes : list string := (fun a => String a EmptyString) <$> chars alphabet.
Definition entries : list (nat * string) := combine (seq 0 32) codes.
Definition server : Server := mkServer
  (<[32%nat := Demo.conn 32 ""]> (list_to_map ((fun '(i, code) =>
     (i, Demo.conn (N.of_nat i) code)) <$> entries)))
  33
  (<[32%N := 32%nat]> (list_to_map ((fun '(i, code) => (N.of_nat i, i)) <$> entries)))
  (list_to_map ((fun '(i, code) => (code, Room.fresh code (N.of_nat i))) <$> entries))
  33 (mkServerConfig 5000 1 (Proto.mkIceServers "" 0 [])) 0.
End Full.

Lemma create_room_hangs_witness :
  @HandleMessage Demo.rng 100 32%nat Proto.CreateRoom Full.server = Loops.
Proof.
  apply (@create_room_hangs Demo.rng 100 Full.server 32%nat (Demo.conn 32 "")).
  - split; [apply wf_check_sound; vm_compute; reflexivity|vm_compute; reflexivity..].
  - reflexivity.
  - intros code [Hlen Hall].
    destruct code as [|a [|]]; [discriminate| |discriminate].
    apply Forall_inv in Hall. clear Hlen. revert a Hall.
    apply (proj1 (Forall_forall (fun a => rooms Full.server !! String a EmptyString <> None)
                    (chars alphabet))).
    repeat (constructor; [vm_compute; discriminate|]). constructor.
Defined.
