(* ===== verification/RoomData.v ===== *)
(** What members share: room data, member data, chat - and what they do not,
    the room's password. *)
From S2P Require Import Prelude Wire Protocol Framing RoomCache Server ServerExec Lobby WellFormed.
From S2P Require Import Refine ServerInv Rules.

(** ** Writing a key *)

Definition written (key value : string) (m : gmap string string) (k : string) : option string :=
  if decide (k = key) then (if str_empty value then None else Some value) else m !! k.

Lemma written_delete key m k : delete key m !! k = written key "" m k.
Proof.
  unfold written. case_decide as Hk; [subst k; apply lookup_delete_eq|by apply lookup_delete_ne].
Qed.

Lemma written_insert key value m k :
  str_empty value = false -> <[key := value]> m !! k = written key value m k.
Proof.
  intros Hv. unfold written. rewrite Hv.
  case_decide as Hk; [subst k; apply lookup_insert_eq|by apply lookup_insert_ne].
Qed.

Lemma written_same key value m k :
  (if str_empty value then m !! key = None else m !! key = Some value) -> m !! k = written key value m k.
Proof.
  unfold written. destruct (str_empty value); case_decide as Hk; intros ?; by subst.
Qed.

Section Announce.
Context (s : Server) (p : ptr) (c : Connection.t) (Hs : sender s p c).

(** Everyone in the room is told [msg]. *)
Lemma queue_announce r r' msg j :
  rooms s !! Connection.room c = Some r -> Room.members r' = Room.members r -> client s j <> None ->
  queue (commit s (announce s (Connection.room c) r' msg)) j
  = queue s j ++ if decide (j ∈ Room.members r) then [FrameMessage msg] else [].
Proof.
  intros Hr Hmem Hj. rewrite queue_commit by (done || apply Hs).
  cbn [d_sent announce send with_rooms no_delta app].
  rewrite told_to_all by (rewrite Hmem; apply (room_nodup _ _ (wf_rooms _ (sender_wf _ _ _ Hs) _ _ Hr))).
  rewrite Hmem. by case_decide.
Qed.

Lemma queue_no_delta j : client s j <> None -> queue (commit s (no_delta s)) j = queue s j.
Proof. intros Hj. by rewrite commit_no_delta. Qed.
End Announce.

(** The outcome of a write to a table [m] under a limit: refused, without
    effect, or [m'] with something changed. *)
Inductive write_outcome (limit : nat) (key value : string) (m : gmap string string)
    (refused unchanged : delta) (changed : gmap string string -> delta) : delta -> Prop :=
| write_refused :
    bad_room_data key value = true \/
      str_empty value = false /\ m !! key = None /\ (limit <= size m)%nat ->
    write_outcome limit key value m refused unchanged changed refused
| write_unchanged :
    bad_room_data key value = false ->
    ~ (str_empty value = false /\ m !! key = None /\ (limit <= size m)%nat) ->
    (forall k, m !! k = written key value m k) ->
    write_outcome limit key value m refused unchanged changed unchanged
| write_changed m' d :
    d = changed m' ->
    bad_room_data key value = false ->
    ~ (str_empty value = false /\ m !! key = None /\ (limit <= size m)%nat) ->
    (forall k, m' !! k = written key value m k) -> m' !! key <> m !! key ->
    write_outcome limit key value m refused unchanged changed d.

Lemma written_key key value m : written key value m key = if str_empty value then None else Some value.
Proof. unfold written. by rewrite decide_True. Qed.

Section Writes.
Context (s : Server) (p : ptr) (c : Connection.t) (Hs : sender s p c).
Context (r : Room.t) (Hr : rooms s !! Connection.room c = Some r).

Ltac solve_room := intros (? & ? & ?); congruence || intuition congruence.

Lemma set_room_data_outcome key value :
  Room.host r = Connection.id c ->
  write_outcome Proto.max_room_data_keys key value (Room.data r)
    (reject s c Proto.BadRoomData key) (no_delta s)
    (fun m' => announce s (Connection.room c) (Room.set_data m' r) (Proto.RoomDataChanged key value))
    (lobby_set_room_data s c key value).
Proof.
  intros Hhost. unfold lobby_set_room_data, as_host, in_room. rewrite Hr, bool_decide_false by tauto.
  destruct (bad_room_data key value) eqn:Hbad; [by apply write_refused; left|].
  destruct (str_empty value) eqn:Hv.
  - case_bool_decide as Hnone.
    + apply write_unchanged; [done|solve_room|]. intros k. apply written_same. by rewrite Hv.
    + apply (write_changed _ _ _ _ _ _ _ (delete key (Room.data r)));
        [done|done|solve_room| |by rewrite lookup_delete_eq].
      intros k. apply str_empty_spec in Hv as ->. apply written_delete.
  - case_bool_decide as Hsame.
    + apply write_unchanged; [done|solve_room|]. intros k. apply written_same. by rewrite Hv.
    + case_bool_decide as Hfull; [by apply write_refused; right|].
      apply (write_changed _ _ _ _ _ _ _ (<[key := value]> (Room.data r)));
        [done|done|solve_room| |by rewrite lookup_insert_eq].
      intros k. by apply written_insert.
Qed.

Lemma set_member_data_outcome key value :
  let slots := default ∅ (Room.member_data r !! Connection.id c) in
  write_outcome Proto.max_member_data_keys key value slots
    (reject s c Proto.BadRoomData key) (no_delta s)
    (fun m' => announce s (Connection.room c)
       (Room.set_member_data (if bool_decide (m' = ∅) then delete (Connection.id c) (Room.member_data r)
                              else <[Connection.id c := m']> (Room.member_data r)) r)
       (Proto.MemberDataChanged (Connection.id c) key value))
    (lobby_set_member_data s c key value).
Proof.
  intros slots. unfold lobby_set_member_data, in_room. rewrite Hr. fold slots.
  assert (forall v, slots !! key = Some v -> v <> EmptyString) as Hstored.
  { intros v Hv. subst slots. destruct (Room.member_data r !! Connection.id c) as [m|] eqn:Hm;
      cbn in Hv; [|by rewrite lookup_empty in Hv].
    destruct (room_member_data _ _ (wf_rooms _ (sender_wf _ _ _ Hs) _ _ Hr) _ _ Hm) as (_ & _ & _ & Hall).
    apply (Hall _ _ Hv). }
  destruct (bad_room_data key value) eqn:Hbad; [by apply write_refused; left|].
  destruct (str_empty value) eqn:Hv; cbn [negb andb].
  - apply str_empty_spec in Hv as Hnil. subst value. case_bool_decide as Hsame.
    + apply write_unchanged; [done|solve_room|]. intros k. apply written_same. cbn.
      destruct (slots !! key) as [v|] eqn:Hk; [|done]. exfalso. by apply (Hstored v).
    + unfold set_slot. fold slots. rewrite Hv.
      apply (write_changed _ _ _ _ _ _ _ (delete key slots)); [done|done|solve_room| |].
      * intros k. apply written_delete.
      * rewrite lookup_delete_eq. intros Hk. by rewrite <-Hk in Hsame.
  - case_bool_decide as Hsame.
    + apply write_unchanged; [done| |].
      * intros (_ & Hk & _). rewrite Hk in Hsame. cbn in Hsame. by subst value.
      * intros k. apply written_same. rewrite Hv. destruct (slots !! key) as [v|]; cbn in Hsame;
          subst value; [done|done].
    + case_bool_decide as Hfull; [by apply write_refused; right|].
      unfold set_slot. fold slots. rewrite Hv.
      apply (write_changed _ _ _ _ _ _ _ (<[key := value]> slots)); [done|done|solve_room| |].
      * intros k. by apply written_insert.
      * rewrite lookup_insert_eq. intros Hk. by rewrite <-Hk in Hsame.
Qed.
End Writes.

(** The host's write of a room key.  A key or value outside the limits
    and, when the table is full, a new key are refused with one error, and
    the table is unchanged.  Otherwise reading any key of the table gives the
    written value for that key (none for an empty value, which deletes) and
    the old one for the others, and every member is told of the write, once,
    exactly when it changed something. *)
Theorem set_room_data_writes (s : Server) (p : ptr) (c : Connection.t) (r : Room.t) (key value : string) :
  sender s p c -> rooms s !! Connection.room c = Some r -> Room.host r = Connection.id c ->
  let full := str_empty value = false /\ Room.data r !! key = None
              /\ (Proto.max_room_data_keys <= size (Room.data r))%nat in
  exists s' r', HandleSetRoomData p key value s = Done () s' /\
    rooms s' !! Connection.room c = Some r' /\ Room.members r' = Room.members r /\
    (bad_room_data key value = true \/ full ->
       r' = r /\ forall j, client s j <> None -> queue s' j = queue s j ++
         if decide (j = Connection.id c)
         then [FrameMessage (Proto.RoomError Proto.BadRoomData key)] else []) /\
    (bad_room_data key value = false -> ~ full ->
       (forall k, Room.data r' !! k = written key value (Room.data r) k) /\
       (forall j, client s j <> None -> queue s' j = queue s j ++
          if decide (j ∈ Room.members r /\ Room.data r' !! key <> Room.data r !! key)
          then [FrameMessage (Proto.RoomDataChanged key value)] else [])).
Proof.
  intros Hs Hr Hhost full. pose proof Hs as [Hwf Hp Hid].
  rewrite (exec_HandleSetRoomData s p c Hp).
  destruct (set_room_data_outcome s c r Hr key value Hhost) as [Hbad|Hgood Hroom Hsame|m' d -> Hgood Hroom Hw Hne].
  - exists (commit s (reject s c Proto.BadRoomData key)), r. split_and!; [done|done|done| |].
    + intros _. split; [done|]. intros j Hj. by apply (queue_reply s p c).
    + intros Hgood Hroom. exfalso. destruct Hbad; [congruence|by apply Hroom].
  - exists (commit s (no_delta s)), r. split_and!; [done|done|done| |].
    + intros [?|?]; [congruence|by exfalso; apply Hroom].
    + intros _ _. split; [done|]. intros j Hj. rewrite queue_no_delta by done.
      rewrite decide_False by tauto. by rewrite app_nil_r.
  - exists (commit s (announce s (Connection.room c) (Room.set_data m' r) (Proto.RoomDataChanged key value))),
      (Room.set_data m' r). split_and!; [done|apply lookup_insert_eq|done| |].
    + intros [?|?]; [congruence|by exfalso; apply Hroom].
    + intros _ _. split; [done|]. intros j Hj. rewrite (queue_announce s p c Hs r) by done.
      cbn [Room.data Room.set_data].
      destruct (decide (j ∈ Room.members r)); [rewrite decide_True by done|rewrite decide_False by tauto]; done.
Qed.

Lemma set_room_data_writes_witness :
  exists s' r', HandleSetRoomData 0%nat "map" "nuke" Demo.server = Done () s' /\
    rooms s' !! "WXYZ" = Some r' /\ Room.data r' !! "map" = Some "nuke".
Proof.
  destruct (set_room_data_writes Demo.server 0%nat (Demo.conn 1 "WXYZ") Demo.room "map" "nuke")
    as (s' & r' & Hrun & Hr' & _ & _ & Hw).
  - split; [apply wf_check_sound; vm_compute; reflexivity|reflexivity..].
  - reflexivity.
  - reflexivity.
  - exists s', r'. split; [exact Hrun|]. split; [exact Hr'|].
    destruct Hw as [Hdata _]; [reflexivity|intros (_ & Hnone & _); discriminate|].
    rewrite Hdata. reflexivity.
Defined.

(** A member's write of one of its own keys: the same as for room data
    with the member's limit, and no other member's data changes.  The stored
    table has no entry for a member without keys. *)
Theorem set_member_data_writes (s : Server) (p : ptr) (c : Connection.t) (r : Room.t) (key value : string) :
  sender s p c -> rooms s !! Connection.room c = Some r ->
  let i := Connection.id c in
  let slots r := default ∅ (Room.member_data r !! i) in
  let full := str_empty value = false /\ slots r !! key = None
              /\ (Proto.max_member_data_keys <= size (slots r))%nat in
  exists s' r', HandleSetMemberData p key value s = Done () s' /\
    rooms s' !! Connection.room c = Some r' /\
    (forall j, j <> i -> Room.member_data r' !! j = Room.member_data r !! j) /\
    Room.member_data r' !! i <> Some ∅ /\
    (bad_room_data key value = true \/ full ->
       r' = r /\ forall j, client s j <> None -> queue s' j = queue s j ++
         if decide (j = i) then [FrameMessage (Proto.RoomError Proto.BadRoomData key)] else []) /\
    (bad_room_data key value = false -> ~ full ->
       (forall k, slots r' !! k = written key value (slots r) k) /\
       (forall j, client s j <> None -> queue s' j = queue s j ++
          if decide (j ∈ Room.members r /\ slots r' !! key <> slots r !! key)
          then [FrameMessage (Proto.MemberDataChanged i key value)] else [])).
Proof.
  intros Hs Hr i slots full. pose proof Hs as [Hwf Hp Hid].
  rewrite (exec_HandleSetMemberData s p c Hp) by done.
  assert (Room.member_data r !! i <> Some ∅) as Hnonempty.
  { intros Hi. by destruct (room_member_data _ _ (wf_rooms _ Hwf _ _ Hr) _ _ Hi) as (_ & ? & _). }
  destruct (set_member_data_outcome s p c Hs r Hr key value)
    as [Hbad|Hgood Hroom Hsame|m' d -> Hgood Hroom Hw Hne].
  - exists (commit s (reject s c Proto.BadRoomData key)), r. split_and!; [done|done|done|done| |].
    + intros _. split; [done|]. intros j Hj. by apply (queue_reply s p c).
    + intros Hgood Hroom. exfalso. destruct Hbad; [congruence|by apply Hroom].
  - exists (commit s (no_delta s)), r. split_and!; [done|done|done|done| |].
    + intros [?|?]; [congruence|by exfalso; apply Hroom].
    + intros _ _. split; [done|]. intros j Hj. rewrite queue_no_delta by done.
      rewrite decide_False by tauto. by rewrite app_nil_r.
  - set (r' := Room.set_member_data (if bool_decide (m' = ∅) then delete i (Room.member_data r)
                              else <[i := m']> (Room.member_data r)) r).
    assert (slots r' = m') as Hslots.
    { unfold slots, r'. cbn. case_bool_decide as Hm'; [by rewrite lookup_delete_eq, Hm'|].
      by rewrite lookup_insert_eq. }
    exists (commit s (announce s (Connection.room c) r' (Proto.MemberDataChanged i key value))), r'.
    split_and!; [done|apply lookup_insert_eq| | | |].
    + intros j Hj. unfold r'. cbn. case_bool_decide; [by apply lookup_delete_ne|by apply lookup_insert_ne].
    + unfold r'. cbn. case_bool_decide; [by rewrite lookup_delete_eq|rewrite lookup_insert_eq; congruence].
    + intros [?|?]; [congruence|by exfalso; apply Hroom].
    + rewrite Hslots. intros _ _. split; [done|]. intros j Hj.
      rewrite (queue_announce s p c Hs r) by done.
      destruct (decide (j ∈ Room.members r)); [rewrite decide_True by done|rewrite decide_False by tauto]; done.
Qed.

Lemma set_member_data_writes_witness :
  exists s' r', HandleSetMemberData 1%nat "team" "" Demo.server = Done () s' /\
    rooms s' !! "WXYZ" = Some r' /\ Room.member_data r' !! 2%N <> Some ∅.
Proof.
  destruct (set_member_data_writes Demo.server 1%nat (Demo.conn 2 "WXYZ") Demo.room "team" "")
    as (s' & r' & Hrun & Hr' & _ & Hnone & _).
  - split; [apply wf_check_sound; vm_compute; reflexivity|reflexivity..].
  - reflexivity.
  - exists s', r'. exact (conj Hrun (conj Hr' Hnone)).
Defined.

(** ** Chat and signaling *)

(** A chat line reaches exactly the members of the sender's room, the
    sender included, once each and with the sender's id; nothing else changes.
    From a client in no room it is refused. *)
Theorem room_chat_reaches_members (s : Server) (p : ptr) (c : Connection.t) (text : string) :
  sender s p c ->
  let heard := from_option Room.members [] (rooms s !! Connection.room c) in
  exists s', HandleRoomChat p text s = Done () s' /\ rooms s' = rooms s /\
    (forall j, where_is s' j = where_is s j) /\
    (rooms s !! Connection.room c <> None -> forall j, client s j <> None ->
       queue s' j = queue s j ++
         if decide (j ∈ heard) then [FrameMessage (Proto.RoomChat (Connection.id c) text)] else []) /\
    (rooms s !! Connection.room c = None -> forall j, client s j <> None ->
       queue s' j = queue s j ++
         if decide (j = Connection.id c)
         then [FrameMessage (Proto.RoomError Proto.NotInRoom "")] else []).
Proof.
  intros Hs heard. pose proof Hs as [Hwf Hp Hid]. unfold heard.
  rewrite (exec_HandleRoomChat s p c Hp). eexists. split; [done|].
  unfold lobby_chat, in_room.
  destruct (rooms s !! Connection.room c) as [r|] eqn:Hr; cbn [from_option];
    (split_and!; [done|intros j; by apply where_commit_same| |]); try done.
  - intros _ j Hj. rewrite queue_commit by done. cbn [d_sent send no_delta app].
    rewrite told_to_all by apply (room_nodup _ _ (wf_rooms _ Hwf _ _ Hr)). by case_decide.
  - intros _ j Hj. by apply (queue_reply s p c).
Qed.

Lemma room_chat_reaches_members_witness :
  exists s', HandleRoomChat 0%nat "gg" Demo.server = Done () s' /\
    queue s' 2 = [FrameMessage (Proto.RoomChat 1 "gg")] /\ queue s' 4 = [].
Proof.
  destruct (room_chat_reaches_members Demo.server 0%nat (Demo.conn 1 "WXYZ") "gg")
    as (s' & Hrun & _ & _ & Htold & _).
  - split; [apply wf_check_sound; vm_compute; reflexivity|reflexivity..].
  - exists s'. split; [exact Hrun|]. split; rewrite Htold by discriminate; reflexivity.
Defined.

(** A signal is relayed to its target alone, with the sender's id in
    place of the target's and its kind and payload untouched, and only between
    two different members of one room; any other signal is dropped without an
    answer.  No state changes. *)
Theorem p2p_signal_stays_in_room (s : Server) (p : ptr) (c : Connection.t) (target : N)
    (kind : Proto.P2PSignalKind) (payload : string) :
  sender s p c ->
  exists s', HandleP2PSignal p target kind payload s = Done () s' /\ rooms s' = rooms s /\
    (forall j, where_is s' j = where_is s j) /\
    forall j, client s j <> None -> queue s' j = queue s j ++
      if decide (j = target /\ target <> Connection.id c /\
                 target ∈ from_option Room.members [] (rooms s !! Connection.room c))
      then [FrameMessage (Proto.P2PSignal (Connection.id c) kind payload)] else [].
Proof.
  intros Hs. pose proof Hs as [Hwf Hp Hid].
  rewrite (exec_HandleP2PSignal s p c Hp). eexists. split; [done|].
  unfold lobby_signal, in_room.
  destruct (rooms s !! Connection.room c) as [r|] eqn:Hr; cbn [from_option];
    [case_bool_decide as Hto|]; (split_and!; [done|intros j; by apply where_commit_same|]);
    intros j Hj; rewrite queue_commit by done; cbn [d_sent send no_delta app].
  - rewrite told_one. destruct (decide (target = j)) as [->|Hne].
    + by rewrite decide_True by done.
    + by rewrite decide_False by naive_solver.
  - by rewrite decide_False by tauto.
  - rewrite decide_False; [done|]. intros (_ & _ & Hin). by apply not_elem_of_nil in Hin.
Qed.

Lemma p2p_signal_stays_in_room_witness :
  exists s', HandleP2PSignal 0%nat 2 Proto.Candidate "candidate" Demo.server = Done () s' /\
    queue s' 2 = [FrameMessage (Proto.P2PSignal 1 Proto.Candidate "candidate")] /\ queue s' 4 = [].
Proof.
  destruct (p2p_signal_stays_in_room Demo.server 0%nat (Demo.conn 1 "WXYZ") 2 Proto.Candidate "candidate")
    as (s' & Hrun & _ & _ & Htold).
  - split; [apply wf_check_sound; vm_compute; reflexivity|reflexivity..].
  - exists s'. split; [exact Hrun|]. split; rewrite Htold by discriminate; vm_compute; reflexivity.
Defined.

(** ** The password *)

Section Secrecy.
Context `{!RoomRng} (s1 : Server) (p : ptr) (c : Connection.t).
Context (code : string) (r1 : Room.t) (Hr1 : rooms s1 !! code = Some r1).
Context (password : string) (Hold : str_empty (Room.password r1) = false)
  (Hnew : str_empty password = false).

(** The same server, with another password on the room at [code]. *)
Definition repassworded : Server :=
  set_rooms (<[code := Room.set_password password r1]> (rooms s1)) s1.

(** Two rooms that differ in a password at most, with a password or without. *)
Definition alike (r r' : Room.t) : Prop :=
  exists pw, r' = Room.set_password pw r /\ str_empty pw = str_empty (Room.password r).

Lemma alike_refl r : alike r r.
Proof. exists (Room.password r). split; [by destruct r|done]. Qed.

Definition alike_tables (R R' : gmap string Room.t) : Prop :=
  forall k, match R !! k, R' !! k with
            | Some r, Some r' => alike r r'
            | None, None => True
            | _, _ => False
            end.

Lemma repassworded_alike : alike_tables (rooms s1) (rooms repassworded).
Proof.
  intros k. cbn. destruct (decide (code = k)) as [<-|Hne].
  - rewrite Hr1, lookup_insert_eq. exists password. by rewrite Hold, Hnew.
  - rewrite lookup_insert_ne by done. destruct (rooms s1 !! k); [apply alike_refl|done].
Qed.

Lemma wf_repassworded :
  wf s1 -> (str_size password <= Proto.max_room_password)%N -> wf repassworded.
Proof.
  intros Hwf Hsize.
  assert (wf (commit s1 (with_rooms (no_delta s1) (<[code := Room.set_password password r1]> (rooms s1)))))
    as Hcommit.
  { apply (wf_put s1 Hwf _ code r1 (Room.set_password password r1)); try done.
    apply room_ok_set_password; [apply (wf_rooms _ Hwf _ _ Hr1)|done]. }
  pose proof (f_equal (set_rooms (<[code := Room.set_password password r1]> (rooms s1)))
    (commit_no_delta s1)) as Heq.
  unfold repassworded. rewrite <-Heq. exact Hcommit.
Qed.
End Secrecy.

Section Alike.
Context `{!RoomRng} (s1 s2 : Server) (p : ptr) (c : Connection.t).
Context (Htables : alike_tables (rooms s1) (rooms s2)).
Context (Hconns : connections s2 = connections s1) (Hrng : rng s2 = rng s1)
  (Hlen : code_length s2 = code_length s1).

Lemma alike_in_room k1 k2 o1 o2 :
  d_sent o1 = d_sent o2 ->
  (forall r pw, str_empty pw = str_empty (Room.password r) ->
     d_sent (k1 (Connection.room c) r) = d_sent (k2 (Connection.room c) (Room.set_password pw r))) ->
  d_sent (in_room s1 c k1 o1) = d_sent (in_room s2 c k2 o2).
Proof.
  intros Ho Hk. unfold in_room. pose proof (Htables (Connection.room c)) as Hat.
  destruct (rooms s1 !! Connection.room c), (rooms s2 !! Connection.room c); try done.
  destruct Hat as (pw & -> & Hpw). by apply Hk.
Qed.

Lemma alike_as_host k1 k2 :
  (forall r pw, str_empty pw = str_empty (Room.password r) ->
     d_sent (k1 (Connection.room c) r) = d_sent (k2 (Connection.room c) (Room.set_password pw r))) ->
  d_sent (as_host s1 c k1) = d_sent (as_host s2 c k2).
Proof.
  intros Hk. apply alike_in_room; [done|]. intros r pw Hpw. cbn [Room.host Room.set_password].
  case_bool_decide; [done|]. by apply Hk.
Qed.

Lemma alike_leave d1 d2 q i code :
  d_sent d1 = d_sent d2 -> alike_tables (d_rooms d1) (d_rooms d2) ->
  d_sent (lobby_leave d1 q i code) = d_sent (lobby_leave d2 q i code).
Proof.
  intros Hd Hat. unfold lobby_leave. specialize (Hat code).
  destruct (d_rooms d1 !! code) as [r|], (d_rooms d2 !! code) as [r'|]; try done.
  destruct Hat as (pw & -> & _).
  change (Room.members (room_without i (Room.set_password pw r))) with (Room.members (room_without i r)).
  destruct (Room.members (room_without i r)); [done|]. cbn [Room.host Room.set_password].
  case_bool_decide; cbn [d_sent send with_rooms move]; by rewrite Hd.
Qed.

Lemma alike_insert code r pw :
  str_empty pw = str_empty (Room.password r) ->
  alike_tables (<[code := r]> (rooms s1)) (<[code := Room.set_password pw r]> (rooms s2)).
Proof.
  intros Hpw k. destruct (decide (code = k)) as [<-|Hne].
  - rewrite !lookup_insert_eq. by exists pw.
  - rewrite !lookup_insert_ne by done. apply Htables.
Qed.

Lemma alike_remove target m enter :
  (forall r pw, enter (Room.set_password pw r) = Room.set_password pw (enter r)) ->
  (forall r, Room.password (enter r) = Room.password r) ->
  d_sent (lobby_remove s1 c target m enter) = d_sent (lobby_remove s2 c target m enter).
Proof.
  intros Henter Hpass. apply alike_as_host. intros r pw Hpw. rewrite Hconns.
  destruct (connections s1 !! target) as [q|]; [|done]. cbn [Room.host Room.members Room.set_password].
  case_bool_decide; [|done]. apply alike_leave; [done|]. rewrite Henter.
  apply alike_insert. by rewrite Hpass.
Qed.

Lemma alike_first_free k n fuel : first_free (rooms s1) k n fuel = first_free (rooms s2) k n fuel.
Proof.
  revert k. induction fuel as [|fuel IH]; intros k; cbn [first_free];
    pose proof (Htables (code_from k n)) as Hat;
    destruct (rooms s1 !! code_from k n), (rooms s2 !! code_from k n); done.
Qed.

Lemma alike_reads_no_bool msg : reads_no_bool s1 c msg = reads_no_bool s2 c msg.
Proof.
  destruct msg; try done. cbn. f_equal. unfold hosts. pose proof (Htables (Connection.room c)) as Hat.
  destruct (rooms s1 !! Connection.room c), (rooms s2 !! Connection.room c); try done.
  by destruct Hat as (pw & -> & _).
Qed.

Lemma alike_sent fuel msg :
  (forall code pw, msg = Proto.JoinRoom code pw -> rooms s1 !! code = rooms s2 !! code) ->
  d_sent <$> lobby_message fuel s1 p c msg = d_sent <$> lobby_message fuel s2 p c msg.
Proof.
  intros Hjoin. destruct msg; cbn [lobby_message]; try done;
    try (rewrite alike_reads_no_bool; destruct (reads_no_bool s2 c _); [done|]); try (cbn [fmap option_fmap option_map]; apply (f_equal Some)).
  - unfold lobby_create. destruct (negb _); [done|]. rewrite Hrng, Hlen, alike_first_free.
    by destruct (first_free _ _ _ _) as [[]|].
  - unfold lobby_join. rewrite (Hjoin _ _ eq_refl). by repeat case_match.
  - apply alike_in_room; [done|]. intros r pw _. done.
  - destruct (str_empty _); [done|]. by apply alike_leave.
  - apply alike_as_host. intros r pw _. cbn [Room.data Room.members Room.set_password].
    by repeat case_match.
  - apply alike_in_room; [done|]. intros r pw _. cbn [Room.member_data Room.members Room.set_password].
    by repeat case_match.
  - by apply alike_remove.
  - apply alike_as_host. intros r pw _. cbn [Room.members Room.set_password]. by repeat case_match.
  - apply alike_as_host. intros r pw Hpw. cbn [Room.open Room.password Room.set_password].
    rewrite Hpw. by case_match.
  - apply alike_as_host. intros r pw Hpw. cbn [Room.open Room.password Room.set_password].
    rewrite Hpw. by repeat case_match.
  - apply alike_remove; intros r; unfold enter_ban; cbn [Room.banned_members Room.set_password];
      intros; by case_match.
  - apply alike_in_room; [done|]. intros r pw _. cbn [Room.members Room.set_password]. by case_match.
Qed.
End Alike.

(** Claim C28: a room's password does not leave the server.  Take two servers
    that differ in the password of one room only, which has one in both; then
    whatever a client sends, other than a request to join that very room,
    every client is sent exactly the same bytes by both. *)
Theorem password_is_secret `{!RoomRng} (fuel : nat) (s1 s1' : Server) (p : ptr) (c : Connection.t)
    (code password : string) (r1 : Room.t) (msg : Proto.ServerMessage) :
  sender s1 p c -> rooms s1 !! code = Some r1 -> Room.password r1 <> EmptyString ->
  password <> EmptyString -> (str_size password <= Proto.max_room_password)%N ->
  (forall guess, msg <> Proto.JoinRoom code guess) ->
  HandleMessage fuel p msg s1 = Done () s1' ->
  let s2 := set_rooms (<[code := Room.set_password password r1]> (rooms s1)) s1 in
  exists s2', HandleMessage fuel p msg s2 = Done () s2' /\
    forall j, client s1 j <> None -> queue s2' j = queue s1' j.
Proof.
  intros Hs Hr1 Hold Hnew Hsize Hother Hrun s2. pose proof Hs as [Hwf Hp Hid].
  assert (str_empty (Room.password r1) = false /\ str_empty password = false) as [Hold' Hnew']
    by (split; by apply bool_decide_eq_false).
  pose proof (wf_repassworded s1 code r1 Hr1 password Hwf Hsize) as Hwf2.
  pose proof (repassworded_alike s1 code r1 Hr1 password Hold' Hnew') as Htables.
  destruct (sender_message s1 p c fuel msg s1' Hs Hrun) as (d1 & Hd1 & -> & _).
  assert (d_sent <$> lobby_message fuel s1 p c msg
          = d_sent <$> lobby_message fuel (repassworded s1 code r1 password) p c msg) as Hsent.
  { apply (alike_sent s1 _ p c Htables); try done. intros code' pw ->. cbn.
    rewrite lookup_insert_ne; [done|]. intros <-. by apply (Hother pw). }
  rewrite Hd1 in Hsent.
  destruct (lobby_message fuel (repassworded s1 code r1 password) p c msg) as [d2|] eqn:Hd2; [|done].
  apply (inj Some) in Hsent. exists (commit s2 d2). split.
  - rewrite (exec_HandleMessage s2 Hwf2 p c Hp). unfold s2. unfold repassworded in Hd2. by rewrite Hd2.
  - intros j Hj. rewrite (queue_commit s1 Hwf), (queue_commit s2 Hwf2) by done. by rewrite Hsent.
Qed.

(** With "pw" or with "hunter2", member 2's chat looks the same. *)
Lemma password_is_secret_witness :
  match @HandleMessage Demo.rng 0 1%nat (Proto.RoomChat 0 "hi") Demo.server with
  | Done _ s1' => exists s2', @HandleMessage Demo.rng 0 1%nat (Proto.RoomChat 0 "hi")
      (set_rooms (<["WXYZ" := Room.set_password "hunter2" Demo.room]> (rooms Demo.server)) Demo.server)
      = Done () s2' /\ queue s2' 1 = queue s1' 1
  | _ => False
  end.
Proof.
  destruct (@HandleMessage Demo.rng 0 1%nat (Proto.RoomChat 0 "hi") Demo.server)
    as [[] s1'| |] eqn:Hrun; [|vm_compute in Hrun; discriminate..].
  destruct (@password_is_secret Demo.rng 0 Demo.server s1' 1%nat (Demo.conn 2 "WXYZ") "WXYZ" "hunter2"
    Demo.room (Proto.RoomChat 0 "hi")) as (s2' & Hrun2 & Hq).
  - split; [apply wf_check_sound; vm_compute; reflexivity|reflexivity..].
  - reflexivity.
  - discriminate.
  - discriminate.
  - vm_compute. discriminate.
  - discriminate.
  - exact Hrun.
  - exists s2'. split; [exact Hrun2|]. apply Hq. vm_compute. discriminate.
Defined.
