(* ===== verification/Mirror.v ===== *)
(** The two sides together: what a client caches is its room on the server.

    [image] is what a client should know of its room.  Every message a handler
    sends takes it, through [Client::CacheRoomState], from the image before to
    the image after - for the sender, for everyone in its room and for
    everyone else.  A client that has read all it was sent therefore sees the
    room as the server has it. *)
From S2P Require Import Prelude Wire Protocol Framing RoomCache Server ServerExec Lobby WellFormed.
From S2P Require Import Refine ServerInv Rules Authority.

(** ** The image of a room *)

Definition no_image (i : N) : RoomCache := mkRoomCache i "" 0 true false [] ∅ ∅.

Definition image (i : N) (code : string) (r : Room.t) : RoomCache :=
  mkRoomCache i code (Room.host r) (Room.open r) (negb (str_empty (Room.password r)))
    (i :: vector_erase i (Room.members r)) (Room.data r) (Room.member_data r).

(** What the client of the connection [c] should know. *)
Definition seen_by (s : Server) (c : Connection.t) : RoomCache :=
  match rooms s !! Connection.room c with
  | Some r => image (Connection.id c) (Connection.room c) r
  | None => no_image (Connection.id c)
  end.

(** ** Reading single messages *)

Lemma clear_is_no_image c : clear_room_state c = no_image (_id c).
Proof. done. Qed.

Lemma vector_erase_app i l1 l2 : vector_erase i (l1 ++ l2) = vector_erase i l1 ++ vector_erase i l2.
Proof. apply filter_app. Qed.

Lemma vector_erase_other i j : i <> j -> vector_erase i [j] = [j].
Proof. intros Hne. unfold vector_erase. by rewrite filter_cons_True, filter_nil by congruence. Qed.

Lemma vector_erase_self i : vector_erase i [i] = [].
Proof. unfold vector_erase. by rewrite filter_cons_False, filter_nil by tauto. Qed.

Lemma vector_erase_comm i j l : vector_erase i (vector_erase j l) = vector_erase j (vector_erase i l).
Proof. unfold vector_erase. rewrite !list_filter_filter. apply list_filter_iff. tauto. Qed.

Lemma vector_erase_none i l : i ∉ l -> vector_erase i l = l.
Proof.
  intros Hi. unfold vector_erase. induction l as [|x l IH]; [done|].
  rewrite filter_cons_True by set_solver. rewrite IH by set_solver. done.
Qed.

Lemma image_joined i j code r :
  i <> j ->
  cache_incoming (image i code r) (Proto.PeerJoined j)
  = image i code (Room.set_members (Room.members r ++ [j]) r).
Proof.
  intros Hne. unfold image. cbn. f_equal. by rewrite vector_erase_app, vector_erase_other.
Qed.

Lemma image_left i j code r :
  i <> j ->
  cache_incoming (image i code r) (Proto.PeerLeft j) = image i code (room_without j r).
Proof.
  intros Hne. cbn. rewrite bool_decide_false by congruence. unfold image. cbn. f_equal.
  unfold vector_erase at 1. rewrite filter_cons_True by congruence. f_equal.
  apply (vector_erase_comm j i).
Qed.

Lemma image_host i j code r :
  cache_incoming (image i code r) (Proto.HostChanged j) = image i code (Room.set_host j r).
Proof. done. Qed.

Lemma image_room_data i key value code r :
  cache_incoming (image i code r) (Proto.RoomDataChanged key value)
  = image i code (Room.set_data
      (if str_empty value then delete key (Room.data r) else <[key := value]> (Room.data r)) r).
Proof. done. Qed.

Lemma image_access i (o : bool) code r :
  cache_incoming (image i code r) (Proto.RoomAccessChanged o (negb (str_empty (Room.password r))))
  = image i code (Room.set_open o r).
Proof. unfold cache_incoming, cache_room_state. by rewrite !bool_value_rep. Qed.

Lemma image_password i pw code r :
  cache_incoming (image i code r) (Proto.RoomAccessChanged (Room.open r) (negb (str_empty pw)))
  = image i code (Room.set_password pw r).
Proof. unfold cache_incoming, cache_room_state. by rewrite !bool_value_rep. Qed.

(** The client's table of member data under a write is the server's. *)
Lemma image_member_data i j key value code r :
  (forall slots, Room.member_data r !! j = Some slots -> slots <> ∅) ->
  default EmptyString (default ∅ (Room.member_data r !! j) !! key) <> value ->
  cache_incoming (image i code r) (Proto.MemberDataChanged j key value)
  = image i code (Room.set_member_data (set_slot j key value (Room.member_data r)) r).
Proof.
  intros Hne Hchange. unfold image. cbn. f_equal. destruct (str_empty value) eqn:Hv.
  - apply str_empty_spec in Hv as ->. destruct (Room.member_data r !! j) as [slots|] eqn:Hj.
    + by rewrite (set_slot_delete _ _ _ slots).
    + cbn in Hchange. by rewrite lookup_empty in Hchange.
  - by rewrite set_slot_insert.
Qed.

(** ** The joiner *)

Section Hydration.
Context (i : N).

Definition cache_with_data (d : gmap string string) (c : RoomCache) : RoomCache :=
  mkRoomCache (_id c) (_room c) (_host c) (_room_open c) (_room_passworded c) (_members c) d
    (_member_data c).
Definition cache_with_member_data (m : gmap N (gmap string string)) (c : RoomCache) : RoomCache :=
  mkRoomCache (_id c) (_room c) (_host c) (_room_open c) (_room_passworded c) (_members c) (_data c) m.

Lemma cache_peers c l :
  cache_all c (Proto.PeerJoined <$> l) =
  mkRoomCache (_id c) (_room c) (_host c) (_room_open c) (_room_passworded c) (_members c ++ l)
    (_data c) (_member_data c).
Proof.
  revert c. induction l as [|j l IH]; intros c.
  - destruct c. cbn. by rewrite app_nil_r.
  - rewrite fmap_cons, cache_all_cons, IH. cbn. by rewrite <-app_assoc.
Qed.

Lemma str_nonempty v : v <> EmptyString -> str_empty v = false.
Proof. intros Hv. by apply bool_decide_eq_false. Qed.

Lemma cache_data_items c (l : list (string * string)) :
  Forall (fun kv => kv.2 <> EmptyString) l ->
  cache_all c ((fun kv => Proto.RoomDataChanged kv.1 kv.2) <$> l) =
  cache_with_data (fold_left (fun acc kv => <[kv.1 := kv.2]> acc) l (_data c)) c.
Proof.
  intros Hl. revert c. induction Hl as [|[k v] l Hv Hl IH]; intros c; [by destruct c|].
  rewrite fmap_cons, cache_all_cons, IH. cbn [fst snd fold_left] in *.
  unfold cache_incoming, cache_room_state. by rewrite str_nonempty.
Qed.

Lemma cache_slots c j (l : list (string * string)) :
  Forall (fun kv => kv.2 <> EmptyString) l -> l <> [] ->
  cache_all c ((fun kv => Proto.MemberDataChanged j kv.1 kv.2) <$> l) =
  cache_with_member_data
    (<[j := fold_left (fun acc kv => <[kv.1 := kv.2]> acc) l (default ∅ (_member_data c !! j))]>
       (_member_data c)) c.
Proof.
  intros Hl. revert c. induction Hl as [|[k v] l Hv Hl IH]; intros c Hne; [done|].
  rewrite fmap_cons, cache_all_cons. cbn [fst snd] in *.
  assert (cache_incoming c (Proto.MemberDataChanged j k v)
    = cache_with_member_data (<[j := <[k := v]> (default ∅ (_member_data c !! j))]> (_member_data c)) c) as ->.
  { unfold cache_incoming, cache_room_state, cache_with_member_data.
    by rewrite str_nonempty. }
  destruct l as [|kv l]; [done|]. rewrite IH by done. cbn [cache_with_member_data _member_data].
  unfold cache_with_member_data. cbn. rewrite lookup_insert_eq, insert_insert_eq. done.
Qed.

Lemma items_nonempty (m : gmap string string) : m <> ∅ -> items m <> [].
Proof.
  intros Hm Hnil. apply Hm. apply map_size_empty_inv. rewrite <-length_items, Hnil. done.
Qed.

Lemma cache_member_items c (l : list (N * gmap string string)) :
  NoDup l.*1 -> Forall (fun mkv => mkv.2 <> ∅ /\ map_Forall (fun _ v => v <> EmptyString) mkv.2) l ->
  (forall j, j ∈ l.*1 -> _member_data c !! j = None) ->
  cache_all c (concat ((fun mkv => (fun kv => Proto.MemberDataChanged mkv.1 kv.1 kv.2) <$> items mkv.2) <$> l)) =
  cache_with_member_data (fold_left (fun acc mkv => <[mkv.1 := mkv.2]> acc) l (_member_data c)) c.
Proof.
  intros Hnd Hl. revert c Hnd. induction Hl as [|[j slots] l [Hne Hv] Hl IH]; intros c Hnd Hnew; [by destruct c|].
  cbn [fmap list_fmap fst snd concat] in *. apply NoDup_cons in Hnd as [Hj Hnd].
  rewrite cache_all_app, cache_slots; [|by apply items_Forall|by apply items_nonempty].
  rewrite Hnew by set_solver. cbn [from_option id].
  rewrite fold_insert_items, (right_id_L ∅ (∪)).
  rewrite IH; [done|done|].
  intros j' Hj'. cbn. rewrite lookup_insert_ne by (intros <-; done). apply Hnew. set_solver.
Qed.

Lemma fmap_concat {A B C} (g : B -> C) (f : A -> list B) l :
  g <$> concat (f <$> l) = concat ((fun x => g <$> f x) <$> l).
Proof. induction l as [|x l IH]; [done|]. cbn [fmap list_fmap concat]. by rewrite fmap_app, <-IH. Qed.

(** The hydration of a joiner, replayed from nothing, is the room's image. *)
Lemma cache_hydration code r c0 :
  room_ok code r -> i ∉ Room.members r -> _id c0 = i ->
  cache_all c0 (hydration i code r).*2 = image i code r.
Proof.
  intros Hok Hi Hid. unfold hydration. rewrite !fmap_app, <-!list_fmap_compose. cbn [fmap list_fmap snd].
  rewrite !cache_all_app.
  assert ((concat ((fun mkv => (fun kv => (i, Proto.MemberDataChanged mkv.1 kv.1 kv.2)) <$> items mkv.2)
            <$> items (Room.member_data r))).*2
    = concat ((fun mkv => (fun kv => Proto.MemberDataChanged mkv.1 kv.1 kv.2) <$> items mkv.2)
            <$> items (Room.member_data r))) as ->.
  { rewrite fmap_concat. f_equal. apply list_fmap_ext. intros n [j slots] _. cbn [fst snd].
    by rewrite <-list_fmap_compose. }
  assert (cache_all c0 [Proto.AssignRoomId code] = mkRoomCache i code 0 true false [i] ∅ ∅) as ->
    by (cbn; by rewrite Hid).
  change (snd ∘ (fun m => (i, Proto.PeerJoined m))) with Proto.PeerJoined.
  rewrite cache_peers. cbn [_id _room _host _room_open _room_passworded _members _data _member_data app].
  cbn [cache_all fold_left cache_incoming cache_room_state
       _id _room _host _room_open _room_passworded _members _data _member_data].
  change (snd ∘ (fun kv : string * string => (i, Proto.RoomDataChanged kv.1 kv.2)))
    with (fun kv : string * string => Proto.RoomDataChanged kv.1 kv.2).
  destruct (room_data _ _ Hok) as [_ Hdata].
  rewrite cache_data_items; [|apply items_Forall; intros k v Hk; apply (Hdata k v Hk)].
  rewrite cache_member_items; [|apply items_NoDup| |by intros; apply lookup_empty].
  - unfold cache_with_member_data, cache_with_data, image.
    cbn [_id _room _host _room_open _room_passworded _members _data _member_data].
    rewrite !fold_insert_items, !(right_id_L ∅ (∪)), !bool_value_rep. by rewrite vector_erase_none.
  - apply items_Forall. intros j slots Hj. destruct (room_member_data _ _ Hok _ _ Hj) as (_ & Hne & _ & Hv).
    split; [done|]. intros k v Hk. apply (Hv k v Hk).
Qed.
End Hydration.

(** ** The shapes of deltas *)

Definition neutral (m : Proto.ServerMessage) : Prop := forall c, cache_incoming c m = c.

Lemma cache_neutral c l : Forall neutral l -> cache_all c l = c.
Proof. intros Hl. revert c. induction Hl as [|m l Hm Hl IH]; intros c; [done|]. by rewrite cache_all_cons, Hm. Qed.

Section Shapes.
Context (s : Server) (Hwf : wf s).
Implicit Types (d : delta) (t : Connection.t).

(** Replaying what [d] sends to a client takes its image to the image after. *)
Definition mirrors (d : delta) : Prop :=
  forall q t, connections s !! Connection.id t = Some q -> heap s !! q = Some t ->
    cache_all (seen_by s t) (told (Connection.id t) (d_sent d))
    = seen_by (commit s d) (conn_after s d q t).

Lemma seen_by_commit d q t :
  seen_by (commit s d) (conn_after s d q t) =
  match d_rooms d !! room_after d q t with
  | Some r => image (Connection.id t) (room_after d q t) r
  | None => no_image (Connection.id t)
  end.
Proof. done. Qed.

(** A connection is in the room exactly when it is among the members. *)
Lemma in_room_iff q t code r :
  connections s !! Connection.id t = Some q -> heap s !! q = Some t -> rooms s !! code = Some r ->
  Connection.room t = code <-> Connection.id t ∈ Room.members r.
Proof. intros Hq Ht Hr. by apply (wf_member s (Connection.id t) q). Qed.

Lemma no_room_at_empty : rooms s !! "" = None.
Proof.
  destruct (rooms s !! "") as [r|] eqn:Hr; [|done].
  by destruct (room_code _ _ (wf_rooms _ Hwf _ _ Hr)).
Qed.

Lemma mirrors_quiet d :
  d_rooms d = rooms s -> d_where d = ∅ -> Forall (fun im => neutral im.2) (d_sent d) -> mirrors d.
Proof.
  intros HR HW Hn q t Hq Ht. rewrite seen_by_commit. unfold room_after. rewrite HR, HW, lookup_empty.
  cbn [from_option id]. rewrite cache_neutral; [done|].
  unfold told. rewrite Forall_fmap. rewrite Forall_forall in *. intros im Him.
  apply list_elem_of_filter in Him as [_ Him]. by apply Hn.
Qed.

(** A room changes, its members do not, and each of them hears [l]. *)
Lemma mirrors_update d code r r' l :
  rooms s !! code = Some r -> d_rooms d = <[code := r']> (rooms s) -> d_where d = ∅ ->
  (forall i, told i (d_sent d) = if decide (i ∈ Room.members r) then l else []) ->
  (forall i, cache_all (image i code r) l = image i code r') -> mirrors d.
Proof.
  intros Hr HR HW Htold Hl q t Hq Ht. rewrite seen_by_commit. unfold room_after.
  rewrite HR, HW, lookup_empty, Htold. cbn [from_option id].
  pose proof (in_room_iff q t code r Hq Ht Hr) as Hin. unfold seen_by.
  destruct (decide (code = Connection.room t)) as [->|Hne].
  - rewrite Hr, lookup_insert_eq, decide_True by (by apply Hin). apply Hl.
  - rewrite lookup_insert_ne by done. rewrite decide_False by (intros Hmem; apply Hne; symmetry; by apply Hin).
    done.
Qed.

Lemma mirrors_announce code r r' m :
  rooms s !! code = Some r -> Room.members r' = Room.members r ->
  (forall i, cache_incoming (image i code r) m = image i code r') ->
  mirrors (announce s code r' m).
Proof.
  intros Hr Hmem Hm. apply (mirrors_update _ code r r' [m]); [done..| |done].
  intros i. cbn [d_sent announce send with_rooms no_delta app].
  rewrite Hmem. apply told_to_all, (room_nodup _ _ (wf_rooms _ Hwf _ _ Hr)).
Qed.

Context (p : ptr) (c : Connection.t) (Hp : heap s !! p = Some c).
Context (Hid : connections s !! Connection.id c = Some p).

Lemma same_connection q t : connections s !! Connection.id t = Some q -> heap s !! q = Some t ->
  (q = p /\ t = c) \/ (q <> p /\ Connection.id t <> Connection.id c).
Proof.
  intros Hq Ht. destruct (decide (q = p)) as [->|Hne]; [left; by simplify_eq|].
  right. split; [done|]. intros Heq. rewrite Heq in Hq. by simplify_eq.
Qed.

Lemma mirrors_quiet_reply m : neutral m -> mirrors (reply s c m).
Proof. intros Hm. apply mirrors_quiet; [done|done|]. by apply Forall_singleton. Qed.

Lemma moved_other v (q1 q2 : ptr) : q2 <> q1 -> <[q1 := v]> (∅ : gmap ptr string) !! q2 = None.
Proof. intros Hne. by rewrite lookup_insert_ne, lookup_empty. Qed.

Lemma mirrors_join code r :
  Connection.room c = EmptyString -> rooms s !! code = Some r ->
  mirrors (move (with_rooms
    (send (no_delta s) (to_all (Room.members r) (Proto.PeerJoined (Connection.id c))
       ++ hydration (Connection.id c) code r))
    (<[code := Room.set_members (Room.members r ++ [Connection.id c]) r]> (rooms s))) p code).
Proof.
  intros Hroom Hr q t Hq Ht. pose proof (wf_rooms _ Hwf _ _ Hr) as Hok.
  assert (Connection.id c ∉ Room.members r) as Hnew.
  { intros Hin. apply (in_room_iff p c code r Hid Hp Hr) in Hin. apply (room_code _ _ Hok). congruence. }
  rewrite seen_by_commit. unfold room_after. cbn [d_where d_rooms d_sent move with_rooms send no_delta app].
  rewrite told_app, told_to_all by apply (room_nodup _ _ Hok).
  rewrite (told_own _ _ (hydration_own (Connection.id c) code r)).
  pose proof (in_room_iff q t code r Hq Ht Hr) as Hin. unfold seen_by.
  destruct (same_connection q t Hq Ht) as [[-> ->]|[Hqp Hidt]].
  - rewrite decide_False, decide_True, lookup_insert_eq by done. cbn [from_option id app].
    rewrite lookup_insert_eq, Hroom, no_room_at_empty, (cache_hydration (Connection.id c) code r) by done.
    unfold image. cbn. f_equal. by rewrite vector_erase_app, vector_erase_self, app_nil_r.
  - rewrite (decide_False (P := Connection.id t = Connection.id c)) by done.
    rewrite (moved_other _ p q) by done. cbn [from_option id]. rewrite app_nil_r.
    destruct (decide (code = Connection.room t)) as [->|Hne].
    + rewrite Hr, lookup_insert_eq, decide_True by (by apply Hin). by apply image_joined.
    + rewrite lookup_insert_ne by done.
      by rewrite decide_False by (intros Hmem; apply Hne; symmetry; by apply Hin).
Qed.

Lemma mirrors_create code k :
  Connection.room c = EmptyString -> rooms s !! code = None -> code <> EmptyString ->
  mirrors (send (move (with_rooms (draw (no_delta s) k)
      (<[code := Room.fresh code (Connection.id c)]> (rooms s))) p code)
    [(Connection.id c, Proto.AssignRoomId code); (Connection.id c, Proto.HostChanged (Connection.id c))]).
Proof.
  intros Hroom Hfree Hcode q t Hq Ht. rewrite seen_by_commit. unfold room_after.
  cbn [d_where d_rooms d_sent move with_rooms send draw no_delta app]. rewrite !told_cons. unfold seen_by.
  destruct (same_connection q t Hq Ht) as [[-> ->]|[Hqp Hidt]].
  - rewrite !decide_True, lookup_insert_eq by done. cbn [from_option id app].
    rewrite lookup_insert_eq, Hroom, no_room_at_empty. unfold image. cbn. f_equal.
    by rewrite vector_erase_self.
  - rewrite !decide_False by done. rewrite (moved_other _ p q) by done.
    cbn [from_option id app]. destruct (decide (code = Connection.room t)) as [->|Hne];
      [|by rewrite lookup_insert_ne].
    destruct (wf_conns _ Hwf _ _ Ht Hcode) as (_ & r & Hr & _). congruence.
Qed.

(** What the client that leaves is told. *)
Definition farewell (i : N) (m : Proto.ServerMessage) : Prop :=
  m = Proto.PeerLeft i \/ m = Proto.KickedByHost \/ m = Proto.BannedByHost.

Lemma cache_farewell c0 i m : farewell i m -> _id c0 = i -> cache_incoming c0 m = no_image i.
Proof.
  intros [->|[->| ->]] Hi; cbn [cache_incoming cache_room_state];
    rewrite ?bool_decide_true by done; rewrite clear_is_no_image; by rewrite Hi.
Qed.

Lemma image_succeeds i j code r r' :
  i <> j -> succeeds j r r' ->
  cache_all (image i code r)
    (Proto.PeerLeft j :: if decide (Room.host r = j) then [Proto.HostChanged (Room.host r')] else [])
  = image i code r'.
Proof.
  intros Hne (Hmem & Hhost & _ & Hdata & Hopen & Hpw & Hmd). rewrite cache_all_cons, image_left by done.
  assert (image i code r' = image i code (Room.set_host (Room.host r') (room_without j r))) as ->.
  { unfold image. cbn. unfold vector_erase. by rewrite Hmem, Hdata, Hopen, Hpw, Hmd. }
  destruct (decide (Room.host r = j)); [done|]. rewrite Hhost. by destruct r.
Qed.

Lemma mirrors_leave code r bans q0 i m :
  rooms s !! code = Some r -> connections s !! i = Some q0 -> i ∈ Room.members r -> farewell i m ->
  mirrors (lobby_leave
    (send (with_rooms (no_delta s) (<[code := Room.set_banned_members bans r]> (rooms s))) [(i, m)])
    q0 i code).
Proof.
  intros Hr Hq0 Hi Hm q t Hq Ht. pose proof (wf_rooms _ Hwf _ _ Hr) as Hok.
  destruct (wf_table _ Hwf _ _ Hq0) as (t0 & Ht0 & Hidt0).
  set (d0 := send (with_rooms (no_delta s) (<[code := Room.set_banned_members bans r]> (rooms s))) [(i, m)]).
  set (others := vector_erase i (Room.members r)).
  pose proof (in_room_iff q t code r Hq Ht Hr) as Hin.
  assert (NoDup others) as Hnd by (apply NoDup_filter, (room_nodup _ _ Hok)).
  assert (i ∉ others) as Hout by (subst others; rewrite elem_of_vector_erase; tauto).
  rewrite seen_by_commit. unfold room_after. rewrite lobby_leave_where.
  pose proof (lobby_leave_cases d0 q0 i code (Room.set_banned_members bans r) (lookup_insert_eq _ _ _)
    (room_nodup _ _ Hok)) as Hcases.
  cbn [Room.members Room.host Room.set_banned_members] in Hcases. fold others in Hcases.
  destruct Hcases as [[Hnil ->]|(r' & Hne & Hsucc & _ & ->)];
    cbn [d_rooms d_where d_sent d0 move with_rooms send no_delta app]; rewrite told_cons.
  - (* the last member left *)
    destruct (decide (i = Connection.id t)) as [->|Hit].
    + assert (q0 = q) as -> by congruence. rewrite lookup_insert_eq. cbn [from_option id app].
      rewrite delete_insert_eq, lookup_delete_ne by (apply (room_code _ _ Hok)).
      rewrite no_room_at_empty. unfold told. cbn.
      apply (cache_farewell _ _ m Hm). unfold seen_by. by destruct (rooms s !! Connection.room t).
    + rewrite (moved_other _ q0 q) by congruence. cbn [from_option id app]. rewrite delete_insert_eq.
      assert (Connection.room t <> code) as Hcode.
      { rewrite Hin. intros Hmem. assert (Connection.id t ∈ others) as Hbad
          by (apply elem_of_vector_erase; auto). rewrite Hnil in Hbad. by apply not_elem_of_nil in Hbad. }
      by rewrite lookup_delete_ne by done.
  - assert (forall j, told j (to_all others (Proto.PeerLeft i)
        ++ (if decide (Room.host r = i) then to_all others (Proto.HostChanged (Room.host r')) else [])) =
      if decide (j ∈ others) then
        Proto.PeerLeft i :: (if decide (Room.host r = i) then [Proto.HostChanged (Room.host r')] else [])
      else []) as Htold.
    { intros j. rewrite told_app, told_to_all by done.
      destruct (decide (Room.host r = i)); rewrite ?told_to_all by done; by case_decide. }
    rewrite Htold, insert_insert_eq.
    destruct (decide (i = Connection.id t)) as [->|Hit].
    + assert (q0 = q) as -> by congruence. rewrite decide_False, lookup_insert_eq by done.
      cbn [from_option id app].
      rewrite lookup_insert_ne by (apply (room_code _ _ Hok)). rewrite no_room_at_empty. cbn.
      apply (cache_farewell _ _ m Hm). unfold seen_by. by destruct (rooms s !! Connection.room t).
    + rewrite (moved_other _ q0 q) by congruence. cbn [from_option id app]. unfold seen_by.
      destruct (decide (code = Connection.room t)) as [->|Hcode].
      * rewrite lookup_insert_eq, Hr, decide_True; [|apply elem_of_vector_erase; split; [done|by apply Hin]].
        apply (image_succeeds (Connection.id t) i (Connection.room t) (Room.set_banned_members bans r) r');
          [done|exact Hsucc].
      * rewrite lookup_insert_ne, decide_False; [done| |done]. intros Hmem.
        apply elem_of_vector_erase in Hmem as [_ Hmem]. apply Hin in Hmem. congruence.
Qed.
End Shapes.

(** ** The handlers *)

Section Handlers.
Context (s : Server) (p : ptr) (c : Connection.t) (Hs : sender s p c).

Lemma mirrors_no_delta : mirrors s (no_delta s).
Proof. by apply mirrors_quiet. Qed.

Lemma mirrors_reply m : neutral m -> mirrors s (reply s c m).
Proof. apply mirrors_quiet_reply. Qed.

Lemma mirrors_reject e ctx : mirrors s (reject s c e ctx).
Proof. by apply mirrors_reply. Qed.

Lemma mirrors_as_host k :
  (forall r, rooms s !! Connection.room c = Some r -> mirrors s (k (Connection.room c) r)) ->
  mirrors s (as_host s c k).
Proof.
  intros Hk. unfold as_host, in_room. destruct (rooms s !! Connection.room c) as [r|] eqn:Hr;
    [|apply mirrors_reject]. case_bool_decide; [apply mirrors_reject|by apply Hk].
Qed.

Lemma mirrors_remove target m enter :
  farewell target m ->
  (forall r, exists bans, enter r = Room.set_banned_members bans r) ->
  mirrors s (lobby_remove s c target m enter).
Proof.
  intros Hm Henter. apply mirrors_as_host. intros r Hr.
  destruct (connections s !! target) as [q|] eqn:Hq; [|apply mirrors_reject].
  case_bool_decide as Htarget; [|apply mirrors_reject]. destruct (Henter r) as [bans ->].
  by apply mirrors_leave; [apply Hs|..|apply Htarget|].
Qed.

Lemma mirrors_set_room_data key value : mirrors s (lobby_set_room_data s c key value).
Proof.
  apply mirrors_as_host. intros r Hr. destruct (bad_room_data key value); [apply mirrors_reject|].
  assert (forall r', (forall i, cache_incoming (image i (Connection.room c) r) (Proto.RoomDataChanged key value)
      = image i (Connection.room c) r') -> Room.members r' = Room.members r ->
      mirrors s (announce s (Connection.room c) r' (Proto.RoomDataChanged key value))) as Hann.
  { intros r' Hr' Hmem. apply (mirrors_announce s (sender_wf _ _ _ Hs) _ r); done. }
  destruct (str_empty value) eqn:Hv; [case_bool_decide; [apply mirrors_no_delta|]|].
  - apply Hann; [|done]. intros i. by rewrite image_room_data, Hv.
  - case_bool_decide; [apply mirrors_no_delta|]. case_bool_decide; [apply mirrors_reject|].
    apply Hann; [|done]. intros i. by rewrite image_room_data, Hv.
Qed.

Lemma mirrors_set_member_data key value : mirrors s (lobby_set_member_data s c key value).
Proof.
  unfold lobby_set_member_data, in_room.
  destruct (rooms s !! Connection.room c) as [r|] eqn:Hr; [|apply mirrors_reject].
  destruct (bad_room_data key value); [apply mirrors_reject|].
  case_bool_decide as Hsame; [apply mirrors_no_delta|]. destruct (_ && _); [apply mirrors_reject|].
  pose proof Hs as [Hwf _ _].
  apply (mirrors_announce s Hwf _ r); [done|done|]. intros i. apply image_member_data; [|done].
  intros slots Hslots. by destruct (room_member_data _ _ (wf_rooms _ Hwf _ _ Hr) _ _ Hslots) as (_ & ? & _).
Qed.

Lemma mirrors_set_room_password pw : mirrors s (lobby_set_room_password s c pw).
Proof.
  apply mirrors_as_host. intros r Hr. case_bool_decide; [apply mirrors_reject|].
  pose proof Hs as [Hwf _ _]. destruct (Bool.eqb _ _) eqn:Hflag.
  - apply Bool.eqb_prop in Hflag.
    apply (mirrors_update s Hwf _ (Connection.room c) r (Room.set_password pw r) []);
      [done|done|done|intros i; by case_decide|].
    intros i. unfold image. cbn. by rewrite Hflag.
  - apply (mirrors_announce s Hwf _ r); [done|done|]. intros i. apply image_password.
Qed.

Lemma mirrors_lobby_message `{!RoomRng} fuel msg d :
  lobby_message fuel s p c msg = Some d -> mirrors s d.
Proof.
  pose proof Hs as [Hwf Hp Hid].
  intros Hd. lobby_cases msg Hd;
    auto using mirrors_no_delta, mirrors_reject, mirrors_set_room_data, mirrors_set_member_data,
      mirrors_set_room_password.
  - by apply mirrors_reply.
  - revert Hd. unfold lobby_create. destruct (str_empty (Connection.room c)) eqn:Hroom; cbn [negb];
      [|intros [= <-]; apply mirrors_reject].
    destruct (first_free _ _ _ _) as [[code k]|] eqn:Hfree; intros [= <-].
    apply (mirrors_create s Hwf p c Hp Hid); [by apply str_empty_spec|by eapply first_free_fresh|].
    destruct (first_free_code _ _ _ _ _ _ Hfree) as [j ->]. intros Hnil.
    apply (wf_config _ Hwf). by rewrite <-(length_code_from j (code_length s)), Hnil.
  - destruct (lobby_join_cases s p c id password) as [(r & Hroom & Hr & Hadm & ->)|(_ & e & ctx & _ & ->)];
      [|apply mirrors_reject]. by apply (mirrors_join s Hwf p c Hp Hid).
  - unfold lobby_chat, in_room. destruct (rooms s !! Connection.room c); [|apply mirrors_reject].
    apply mirrors_quiet; [done|done|]. cbn. unfold to_all. by rewrite Forall_fmap, Forall_forall.
  - destruct (str_empty (Connection.room c)) eqn:Hroom; [apply mirrors_reject|].
    destruct (wf_conns _ Hwf _ _ Hp (not_empty _ Hroom)) as (_ & r & Hr & Hin).
    assert (reply s c (Proto.PeerLeft (Connection.id c)) =
      send (with_rooms (no_delta s) (<[Connection.room c :=
        Room.set_banned_members (Room.banned_members r) r]> (rooms s)))
        [(Connection.id c, Proto.PeerLeft (Connection.id c))]) as ->.
    { unfold reply, with_rooms. cbn. by rewrite same_bans, insert_id. }
    apply mirrors_leave; [done..|by left].
  - apply mirrors_remove; [by right; left|]. intros r. exists (Room.banned_members r). by rewrite same_bans.
  - apply mirrors_as_host. intros r Hr. case_bool_decide; [apply mirrors_no_delta|].
    destruct (vector_contains _ _); [|apply mirrors_reject]. by apply (mirrors_announce s Hwf _ r).
  - apply mirrors_as_host. intros r Hr. destruct (Bool.eqb _ _); [apply mirrors_no_delta|].
    apply (mirrors_announce s Hwf _ r); [done|done|]. intros i. apply image_access.
  - apply mirrors_remove; [by right; right|]. intros r. unfold enter_ban.
    destruct (vector_contains _ _); [exists (Room.banned_members r); by rewrite same_bans|by eexists].
  - unfold lobby_signal, in_room. destruct (rooms s !! Connection.room c); [|apply mirrors_no_delta].
    case_bool_decide; [|apply mirrors_no_delta]. apply mirrors_quiet; [done|done|].
    by apply Forall_singleton.
Qed.
End Handlers.

(** Claim C12: the clients' caches follow the rooms.  Whatever message is handled,
    every connected client is sent frames of messages that take its cached
    image of its room, through [Client::CacheRoomState], to the image of the
    room it is in afterwards: its code, host, members, open and password
    flags, room data and member data. *)
Theorem caches_mirror_rooms `{!RoomRng} (fuel : nat) (s s' : Server) (p : ptr) (c : Connection.t)
    (msg : Proto.ServerMessage) :
  sender s p c -> HandleMessage fuel p msg s = Done () s' ->
  forall j t, client s j = Some t -> exists t' msgs,
    client s' j = Some t' /\ Connection.out t' = Connection.out t ++ (FrameMessage <$> msgs) /\
    cache_all (seen_by s t) msgs = seen_by s' t'.
Proof.
  intros Hs Hrun j t Ht. destruct (sender_message s p c fuel msg s' Hs Hrun) as (d & Hd & -> & _).
  pose proof (mirrors_lobby_message s p c Hs fuel msg d Hd) as Hmirror. pose proof Hs as [Hwf _ _].
  unfold client in Ht. destruct (connections s !! j) as [q|] eqn:Hq; [|done]. cbn in Ht.
  destruct (wf_table _ Hwf _ _ Hq) as (t0 & Ht0 & Hj). simplify_eq.
  exists (conn_after s d q t), (told (Connection.id t) (d_sent d)). split_and!.
  - by apply client_commit.
  - cbn. by rewrite (reaching_told s Hwf d (Connection.id t) q).
  - by apply Hmirror.
Qed.

(** Client 4 joins: its cache becomes the room's image, from nothing. *)
Lemma caches_mirror_rooms_witness :
  match @HandleMessage Demo.rng 0 3%nat (Proto.JoinRoom "WXYZ" "pw") Demo.server with
  | Done _ s' => exists t' msgs, client s' 4 = Some t' /\
      Connection.out t' = FrameMessage <$> msgs /\
      cache_all (no_image 4) msgs = image 4 "WXYZ" (Room.set_members [1; 2; 4]%N Demo.room)
  | _ => False
  end.
Proof.
  destruct (@HandleMessage Demo.rng 0 3%nat (Proto.JoinRoom "WXYZ" "pw") Demo.server)
    as [[] s'| |] eqn:Hrun; [|vm_compute in Hrun; discriminate..].
  destruct (@caches_mirror_rooms Demo.rng 0 Demo.server s' 3%nat (Demo.conn 4 "")
    (Proto.JoinRoom "WXYZ" "pw")) with (j := 4%N) (t := Demo.conn 4 "") as (t' & msgs & Ht' & Hout & Hcache).
  - split; [apply wf_check_sound; vm_compute; reflexivity|reflexivity..].
  - exact Hrun.
  - reflexivity.
  - exists t', msgs. split; [exact Ht'|]. split; [exact Hout|].
    change (no_image 4) with (seen_by Demo.server (Demo.conn 4 "")). rewrite Hcache.
    vm_compute in Hrun. injection Hrun as <-. vm_compute in Ht'. injection Ht' as <-. reflexivity.
Defined.
