(* ===== verification/Sendable.v ===== *)
(** Every message the server sends is one its clients can read.

    A reader gives up on a message of more than [max_reassembled_size] bytes,
    and the wire format has room for 32-bit lengths and numbers only.
    [sendable_lobby_message]: if the message that is handled came through
    [ReadLoop], and the server's configuration is not extravagant, every
    message a handler sends is [sendable]. *)
From S2P Require Import Prelude Wire Protocol Framing RoomCache Server ServerExec Lobby WellFormed.
From S2P Require Import Refine ServerInv Rules Authority.
Local Open Scope N_scope.

(** ** Single messages *)

(** The numbers of a message fit their types. *)
Definition numbers_fit (msg : Proto.ServerMessage) : Prop :=
  match msg with
  | Proto.Heartbeat t => fits 8 t
  | Proto.AssignClientId i | Proto.PeerJoined i | Proto.PeerLeft i | Proto.HostChanged i
  | Proto.KickMember i | Proto.TransferHost i | Proto.BanMember i
  | Proto.RoomChat i _ | Proto.MemberDataChanged i _ _ => fits 4 i
  | Proto.RoomError e _ => fits 1 e
  | Proto.P2PSignal i k _ => fits 4 i /\ fits 1 k
  | Proto.IceServersMsg ice => valid Proto.ice_servers_codec ice
  | _ => True
  end.

Lemma sendable_intro msg :
  numbers_fit msg /\ readable msg -> wire_size msg <= max_reassembled_size -> sendable msg.
Proof.
  intros [Hfit Hread] Hsize. split; [|done]. split; [|done].
  assert (forall n, n <= max_reassembled_size -> fits 4 n) as Hshort
    by (intros n Hn; unfold fits, max_reassembled_size, Proto.max_message_size in *; cbn; lia).
  destruct msg; unfold wire_size in Hsize; cbn [payload_size] in Hsize; cbn; try done;
    repeat split; cbn; try apply Hfit; apply Hshort; lia.
Qed.

Lemma acceptable_inv msg : acceptable msg -> numbers_fit msg /\ wire_size msg <= max_reassembled_size.
Proof.
  intros [Hvalid Hsize]. split; [|done]. revert Hvalid. destruct msg; try done; cbn; intros Hv; tauto.
Qed.

(** What [ReadLoop] hands to [HandleMessage]. *)
Lemma deserialize_acceptable body msg :
  sizeN body <= max_reassembled_size -> deserialize body = Ok msg -> acceptable msg.
Proof.
  intros Hbody Hread. unfold deserialize in Hread.
  destruct (dec Proto.message_codec body) as [[msg' rest]|] eqn:Hdec; [|done]. injection Hread as ->.
  apply (dec_canonical (c := Proto.message_codec)) in Hdec as [-> Hvalid]. split; [done|].
  rewrite <-size_serialize. change (enc Proto.message_codec msg) with (serialize msg) in Hbody.
  rewrite sizeN_app in Hbody. lia.
Qed.

(** Decimal numbers of 32 bits are short. *)
Lemma pretty_go_length k x s : x < 2 ^ N.of_nat k -> (String.length (pretty_N_go x s) <= k + String.length s)%nat.
Proof.
  revert x s. induction k as [|k IH]; intros x s Hx.
  - cbn in Hx. assert (x = 0) as -> by lia. by rewrite pretty_N_go_0.
  - destruct (decide (x = 0)) as [->|Hpos]; [rewrite pretty_N_go_0; lia|].
    rewrite pretty_N_go_step by lia. etransitivity; [apply IH|cbn; lia].
    rewrite Nat2N.inj_succ, N.pow_succ_r' in Hx. apply N.Div0.div_lt_upper_bound. lia.
Qed.

Lemma to_string_short n : fits 4 n -> str_size (to_string n) <= 33.
Proof.
  intros Hn. change (to_string n) with (if decide (n = 0) then "0"%string else pretty_N_go n "").
  case_decide; [done|]. unfold str_size.
  pose proof (pretty_go_length 32 n "" ltac:(unfold fits in Hn; exact Hn)). cbn in *. lia.
Qed.

(** ** The handlers *)

(** The longest room code whose messages fit. *)
Definition max_code : N := max_reassembled_size - 6.

(** Ids are 32-bit numbers, codes have the configured length, and that is not
    longer than a message. *)
Record moderate (s : Server) : Prop := {
  mod_ids : forall i p, connections s !! i = Some p -> fits 4 i;
  mod_codes : forall code r, rooms s !! code = Some r -> String.length code = code_length s;
  mod_length : room_code_length (config s) <= max_code;
  mod_ice : sendable (Proto.IceServersMsg (ice (config s)))
}.

Definition all_sendable (l : outgoing) : Prop := Forall (fun im => sendable im.2) l.

Lemma all_sendable_to_all ids m : sendable m -> all_sendable (to_all ids m).
Proof. intros Hm. unfold all_sendable, to_all. by rewrite Forall_fmap, Forall_forall. Qed.

Lemma all_sendable_one i m : sendable m -> all_sendable [(i, m)].
Proof. intros Hm. by apply Forall_singleton. Qed.

(** Answers and events, never a request; an error has one of the nine codes. *)
Definition from_server (m : Proto.ServerMessage) : Prop :=
  match m with
  | Proto.Heartbeat _ | Proto.AssignClientId _ | Proto.IceServersMsg _ => True
  | Proto.RoomError code _ => code < 9
  | Proto.RoomChat _ _ | Proto.P2PSignal _ _ _ => True
  | Proto.AssignRoomId _ | Proto.PeerJoined _ | Proto.PeerLeft _ | Proto.HostChanged _
  | Proto.RoomDataChanged _ _ | Proto.MemberDataChanged _ _ _ | Proto.KickedByHost
  | Proto.BannedByHost | Proto.RoomAccessChanged _ _ => True
  | _ => False
  end.

Definition genuine (m : Proto.ServerMessage) : Prop := sendable m /\ from_server m.
Definition all_genuine (l : outgoing) : Prop := Forall (fun im => genuine im.2) l.

Lemma all_genuine_intro l : all_sendable l -> Forall (fun im => from_server im.2) l -> all_genuine l.
Proof. intros Hs Hf. apply Forall_and. by split. Qed.

Lemma genuine_sendable msgs : Forall genuine msgs -> Forall sendable msgs.
Proof. intros Hall. eapply Forall_impl; [exact Hall|]. by intros m [? _]. Qed.

Lemma notice_from_server i m : notice i m -> from_server m.
Proof. by destruct m. Qed.

Lemma notices_from_server i (l : outgoing) :
  Forall (fun im => notice i im.2) l -> Forall (fun im => from_server im.2) l.
Proof. intros Hall. eapply Forall_impl; [exact Hall|]. intros im. apply notice_from_server. Qed.

Lemma effect_from_server s p c d : effect s p c d -> Forall (fun im => from_server im.2) (d_sent d).
Proof.
  intros [[t ->]|[(e & ctx & He & ->)|Hall]]%effect_answers; [by repeat constructor|by repeat constructor|].
  by apply notices_from_server in Hall.
Qed.

Section Handlers.
Context (s : Server) (p : ptr) (c : Connection.t) (Hs : sender s p c) (Hmod : moderate s).

Lemma own_id : fits 4 (Connection.id c).
Proof. destruct Hs as [_ _ Hid]. by apply (mod_ids _ Hmod _ p). Qed.

Lemma member_id code r i : rooms s !! code = Some r -> i ∈ Room.members r -> fits 4 i.
Proof.
  intros Hr Hi. destruct Hs as [Hwf _ _]. destruct (wf_members _ Hwf _ _ _ Hr Hi) as (q & _ & Hq & _).
  by apply (mod_ids _ Hmod _ q).
Qed.

Lemma code_short code r : rooms s !! code = Some r -> str_size code <= max_code.
Proof.
  intros Hr. unfold str_size. rewrite (mod_codes _ Hmod _ _ Hr). unfold code_length.
  rewrite N2Nat.id. apply (mod_length _ Hmod).
Qed.

Lemma room_short : str_size (Connection.room c) <= max_code.
Proof.
  destruct (decide (Connection.room c = EmptyString)) as [->|Hne]; [done|]. destruct Hs as [Hwf Hp _].
  destruct (wf_conns _ Hwf _ _ Hp Hne) as (_ & r & Hr & _). by apply (code_short _ r).
Qed.

Lemma sendable_error e ctx : fits 1 e -> str_size ctx <= max_code -> sendable (Proto.RoomError e ctx).
Proof.
  intros He Hctx. apply sendable_intro; [done|]. unfold wire_size. cbn [payload_size].
  unfold max_code in Hctx. change max_reassembled_size with 16384 in *. lia.
Qed.

Lemma sendable_id (f : N -> Proto.ServerMessage) i :
  f ∈ [Proto.AssignClientId; Proto.PeerJoined; Proto.PeerLeft; Proto.HostChanged] -> fits 4 i -> sendable (f i).
Proof. intros Hf Hi. repeat (apply elem_of_cons in Hf as [->|Hf]; [by apply sendable_intro|]). by apply not_elem_of_nil in Hf. Qed.

Lemma sendable_room_data key value : bad_room_data key value = false -> sendable (Proto.RoomDataChanged key value).
Proof.
  unfold bad_room_data. intros [[_ Hkey%bool_decide_eq_false]%orb_false_iff Hvalue%bool_decide_eq_false]%orb_false_iff.
  apply sendable_intro; [done|]. unfold wire_size. cbn [payload_size].
  unfold Proto.max_room_data_key, Proto.max_room_data_value in *. change max_reassembled_size with 16384. lia.
Qed.

Lemma sendable_member_data i key value :
  fits 4 i -> bad_room_data key value = false -> sendable (Proto.MemberDataChanged i key value).
Proof.
  intros Hi. unfold bad_room_data. intros [[_ Hkey%bool_decide_eq_false]%orb_false_iff Hvalue%bool_decide_eq_false]%orb_false_iff.
  apply sendable_intro; [done|]. unfold wire_size. cbn [payload_size].
  unfold Proto.max_room_data_key, Proto.max_room_data_value in *. change max_reassembled_size with 16384. lia.
Qed.

Lemma all_sendable_as_host k :
  (forall r, rooms s !! Connection.room c = Some r -> all_sendable (d_sent (k (Connection.room c) r))) ->
  all_sendable (d_sent (as_host s c k)).
Proof.
  intros Hk. unfold as_host, in_room. destruct (rooms s !! Connection.room c) as [r|].
  - case_bool_decide; [by apply all_sendable_one, sendable_error|]. by apply Hk.
  - by apply all_sendable_one, sendable_error.
Qed.

Lemma all_sendable_hydration code r :
  rooms s !! code = Some r -> all_sendable (hydration (Connection.id c) code r).
Proof.
  intros Hr. destruct Hs as [Hwf _ _]. pose proof (wf_rooms _ Hwf _ _ Hr) as Hok. unfold hydration, all_sendable.
  rewrite !Forall_app. split_and!.
  - apply Forall_singleton, sendable_intro; [done|]. pose proof (code_short _ _ Hr) as Hcode.
    unfold wire_size, max_code in *. cbn [payload_size snd]. change max_reassembled_size with 16384 in *. lia.
  - rewrite Forall_fmap, Forall_forall. intros i Hi. apply (sendable_id Proto.PeerJoined); [set_solver|].
    by apply (member_id code r).
  - apply Forall_cons. split; [apply (sendable_id Proto.HostChanged); [set_solver|]|].
    + apply (member_id code r); [done|apply (room_host _ _ Hok)].
    + by apply Forall_singleton, sendable_intro.
  - rewrite Forall_fmap. apply items_Forall. intros k v Hkv. apply sendable_room_data.
    by apply (room_data _ _ Hok).
  - rewrite Forall_concat, Forall_fmap. apply items_Forall. intros i slots Hslots. cbn.
    destruct (room_member_data _ _ Hok i slots Hslots) as (Hi & _ & _ & Hdata).
    rewrite Forall_fmap. apply items_Forall. intros k v Hkv. apply sendable_member_data; [by apply (member_id code r)|].
    by apply Hdata.
Qed.

Lemma all_sendable_leave d q i code r :
  d_rooms d !! code = Some r -> all_sendable (d_sent d) -> fits 4 i ->
  (forall j, j ∈ Room.members r -> fits 4 j) -> all_sendable (d_sent (lobby_leave d q i code)).
Proof.
  intros Hr Hd Hi Hmem. unfold lobby_leave. rewrite Hr.
  change (Room.members (room_without i r)) with (vector_erase i (Room.members r)).
  destruct (vector_erase i (Room.members r)) as [|front others] eqn:Hothers; [done|].
  assert (fits 4 front) as Hfront.
  { apply Hmem. assert (front ∈ vector_erase i (Room.members r)) as Hin by (rewrite Hothers; set_solver).
    by apply elem_of_vector_erase in Hin as [_ ?]. }
  case_bool_decide; cbn [d_sent send with_rooms move]; unfold all_sendable; rewrite !Forall_app; split_and!; try done;
    apply all_sendable_to_all; [apply (sendable_id Proto.PeerLeft)|apply (sendable_id Proto.HostChanged)
      |apply (sendable_id Proto.PeerLeft)]; done || set_solver.
Qed.

Lemma all_sendable_remove target notice enter :
  sendable notice -> fits 4 target -> (forall r, Room.members (enter r) = Room.members r) ->
  all_sendable (d_sent (lobby_remove s c target notice enter)).
Proof.
  intros Hnotice Htarget Henter. apply all_sendable_as_host. intros r Hr.
  assert (all_sendable (d_sent (reject s c Proto.NoSuchMember (to_string target)))) as Hreject.
  { apply all_sendable_one, sendable_error; [done|]. etransitivity; [by apply to_string_short|done]. }
  destruct (connections s !! target); [|done]. case_bool_decide; [|done].
  apply (all_sendable_leave _ _ _ _ (enter r)); [apply lookup_insert_eq|by apply all_sendable_one|done|].
  intros j. rewrite Henter. by apply (member_id (Connection.room c)).
Qed.

Lemma all_sendable_reject e ctx : fits 1 e -> str_size ctx <= max_code -> all_sendable (d_sent (reject s c e ctx)).
Proof. intros He Hctx. by apply all_sendable_one, sendable_error. Qed.

Lemma all_sendable_create `{!RoomRng} fuel d : lobby_create fuel s p c = Some d -> all_sendable (d_sent d).
Proof.
  unfold lobby_create. destruct (str_empty (Connection.room c)); cbn [negb];
    [|intros [= <-]; apply all_sendable_reject; [done|apply room_short]].
  destruct (first_free _ _ _ _) as [[code k]|] eqn:Hfree; intros [= <-].
  destruct (first_free_code _ _ _ _ _ _ Hfree) as [j Hj]. cbn [d_sent send move with_rooms draw no_delta app].
  apply Forall_cons. split; [|apply all_sendable_one, (sendable_id Proto.HostChanged); [set_solver|apply own_id]].
  apply sendable_intro; [done|]. unfold wire_size. cbn [payload_size snd]. unfold str_size.
  rewrite Hj, length_code_from. unfold code_length. rewrite N2Nat.id.
  pose proof (mod_length _ Hmod). unfold max_code in *. change max_reassembled_size with 16384 in *. lia.
Qed.

Lemma all_sendable_join id password :
  str_size id <= max_code -> all_sendable (d_sent (lobby_join s p c id password)).
Proof.
  intros Hcode. unfold lobby_join.
  destruct (str_empty (Connection.room c)); cbn [negb]; [|apply all_sendable_reject; [done|apply room_short]].
  destruct (rooms s !! id) as [r|] eqn:Hr; [|by apply all_sendable_reject].
  repeat (case_match; [by apply all_sendable_reject|]). cbn [d_sent move with_rooms send no_delta app].
  unfold all_sendable. rewrite Forall_app. split; [|by apply all_sendable_hydration].
  apply all_sendable_to_all, (sendable_id Proto.PeerJoined); [set_solver|apply own_id].
Qed.

(** Every message a handler sends in answer to one that came off the wire. *)
Lemma sendable_lobby_message `{!RoomRng} fuel msg d :
  acceptable msg -> lobby_message fuel s p c msg = Some d -> all_sendable (d_sent d).
Proof.
  intros Hmsg Hd. pose proof (acceptable_inv _ Hmsg) as [Hfit Hsize]. unfold wire_size in Hsize.
  pose proof own_id as Hown. pose proof room_short as Hroom. pose proof Hs as [Hwf Hp Hid].
  assert (forall e ctx, fits 1 e -> str_size ctx <= max_code -> all_sendable (d_sent (reject s c e ctx))) as Hreject
    by (intros; by apply all_sendable_one, sendable_error).
  assert (all_sendable (d_sent (no_delta s))) as Hquiet by apply Forall_nil_2.
  assert (forall o pw : bool, sendable (Proto.RoomAccessChanged o pw)) as Haccess by (intros; by apply sendable_intro).
  lobby_cases msg Hd; cbn [payload_size numbers_fit] in *; change max_reassembled_size with 16384 in *; try done.
  - by apply all_sendable_one, sendable_intro.
  - by apply (all_sendable_create fuel).
  - apply all_sendable_join. unfold max_code. change max_reassembled_size with 16384. lia.
  - unfold lobby_chat, in_room. destruct (rooms s !! Connection.room c); [|by apply Hreject].
    apply all_sendable_to_all, sendable_intro; [done|]. unfold wire_size. cbn [payload_size].
    change max_reassembled_size with 16384. lia.
  - destruct (str_empty (Connection.room c)) eqn:Hempty; [by apply Hreject|].
    destruct (wf_conns _ Hwf _ _ Hp (not_empty _ Hempty)) as (_ & r & Hr & _).
    apply (all_sendable_leave _ _ _ _ r); [done| |done|intros j; by apply (member_id (Connection.room c))].
    apply all_sendable_one, (sendable_id Proto.PeerLeft); [set_solver|done].
  - unfold lobby_set_room_data. apply all_sendable_as_host. intros r Hr.
    assert (str_size key <= max_code) as Hkey by (unfold max_code; change max_reassembled_size with 16384; lia).
    destruct (bad_room_data key value) eqn:Hbad; [by apply Hreject|].
    assert (sendable (Proto.RoomDataChanged key value)) as Hdata by (by apply sendable_room_data).
    repeat case_match; try done; try (by apply Hreject); by apply all_sendable_to_all.
  - unfold lobby_set_member_data, in_room. destruct (rooms s !! Connection.room c) as [r|]; [|by apply Hreject].
    assert (str_size key <= max_code) as Hkey by (unfold max_code; change max_reassembled_size with 16384; lia).
    destruct (bad_room_data key value) eqn:Hbad; [by apply Hreject|].
    assert (sendable (Proto.MemberDataChanged (Connection.id c) key value)) as Hdata by (by apply sendable_member_data).
    repeat case_match; try done; try (by apply Hreject); by apply all_sendable_to_all.
  - apply all_sendable_remove; [by apply sendable_intro|done|done].
  - unfold lobby_transfer_host. apply all_sendable_as_host. intros r Hr. repeat case_match; try done.
    + apply all_sendable_to_all, (sendable_id Proto.HostChanged); [set_solver|done].
    + apply Hreject; [done|]. etransitivity; [by apply to_string_short|done].
  - unfold lobby_set_room_joinable. apply all_sendable_as_host. intros r Hr.
    case_match; [done|]. by apply all_sendable_to_all.
  - unfold lobby_set_room_password. apply all_sendable_as_host. intros r Hr.
    case_match; [by apply Hreject|]. cbv zeta. case_match; [done|]. by apply all_sendable_to_all.
  - apply all_sendable_remove; [by apply sendable_intro|done|]. intros r. unfold enter_ban. by case_match.
  - unfold lobby_signal, in_room. destruct (rooms s !! Connection.room c); [|done]. case_match; [|done].
    apply all_sendable_one, sendable_intro; [by repeat split; [|apply Hfit]|]. unfold wire_size. cbn [payload_size].
    change max_reassembled_size with 16384. lia.
Qed.

(** Rooms keep codes of the configured length. *)
Lemma moderate_commit `{!RoomRng} fuel msg d :
  lobby_message fuel s p c msg = Some d -> moderate (commit s d).
Proof.
  intros Hd. pose proof Hs as [Hwf Hp Hid]. destruct Hmod as [Hids Hcodes Hlen Hice].
  pose proof (effect_lobby_message s p c Hwf Hp Hid fuel msg d Hd) as He.
  split; [exact Hids| |exact Hlen|exact Hice]. cbn [rooms commit config]. change (code_length (commit s d)) with (code_length s).
  assert (forall code r (R : gmap string Room.t), rooms s !! code = Some r -> (forall k x, R !! k = Some x -> String.length k = code_length s) ->
    forall (r' : Room.t) k x, <[code := r']> R !! k = Some x -> String.length k = code_length s) as Hinsert.
  { intros code r R Hr HR r' k x [[<- _]|[_ Hx]]%lookup_insert_Some; [by apply (Hcodes code r)|by apply (HR k x)]. }
  destruct He as [|t|e ctx Hcode|r l Hr _|r r' l Hr _ _ _|code pw r _ Hr _|code k _ _ Hlength|r bans q i m Hr _ _ _ _ _];
    cbn [d_rooms send with_rooms move draw no_delta reply reject]; try done.
  - by apply (Hinsert _ r).
  - by apply (Hinsert _ r).
  - intros k0 x [[<- _]|[_ Hx]]%lookup_insert_Some; [done|by apply (Hcodes k0 x)].
  - intros k x Hx. destruct (decide (k = Connection.room c)) as [->|Hne]; [by apply (Hcodes _ r)|].
    rewrite leave_lookup in Hx by done. cbn in Hx. rewrite lookup_insert_ne in Hx by done. by apply (Hcodes k x).
Qed.
(** Every message a handler sends is one that only a server sends. *)
Lemma genuine_lobby_message `{!RoomRng} fuel msg d :
  acceptable msg -> lobby_message fuel s p c msg = Some d -> all_genuine (d_sent d).
Proof.
  intros Hmsg Hd. pose proof Hs as [Hwf Hp Hid]. apply all_genuine_intro; [by apply (sendable_lobby_message fuel msg)|].
  apply (effect_from_server s p c), (effect_lobby_message s p c Hwf Hp Hid fuel msg d Hd).
Qed.
End Handlers.
