(* ===== verification/Client.v ===== *)
(** The client: its server connection ([Client/src/client.cpp]) and its peer-to-peer
    mesh ([Client/src/p2p_mesh.cpp]).

    Two libraries are behind it.  The socket answers [read_some] and [write_some];
    its answers during one [Poll] are arguments of the definitions.  The ICE
    library libjuice is the class [Juice]: its answers are functions of the
    calls made so far, and the client keeps the log of its calls, so that what
    it does with the library's agents can be stated.  [Dangling] is also the
    outcome of reading a byte that is no [bool] into one. *)
From S2P Require Import Prelude Wire Protocol Framing RoomCache.

(** ** The ICE library *)

(** A pointer to an agent; never null here. *)
Definition agent : Type := N.

Inductive juice_state : Type :=
| JUICE_STATE_DISCONNECTED
| JUICE_STATE_CONNECTED
| JUICE_STATE_COMPLETED
| JUICE_STATE_FAILED
| JUICE_STATE_OTHER.

(** [std::string::c_str] read as a C string: up to the first null character. *)
Fixpoint c_str (s : string) : string :=
  match s with
  | EmptyString => EmptyString
  | String a s' => if bool_decide (a = Ascii.zero) then EmptyString else String a (c_str s')
  end.

(** [juice_turn_server_t] and [juice_config_t]; the callbacks and the concurrency
    mode are the same in every call, [user_ptr] is the peer's id. *)
Record juice_turn_server : Type := mkJuiceTurnServer {
  turn_host : string;
  turn_username : string;
  turn_password : string;
  turn_port : N
}.
Record juice_config : Type := mkJuiceConfig {
  stun_server : option (string * N);
  turn_servers : list juice_turn_server
}.

Inductive juice_call : Type :=
| juice_create (config : juice_config) (peer : N) (created : option agent)
| juice_get_local_description (a : agent)
| juice_gather_candidates (a : agent)
| juice_set_remote_description (a : agent) (sdp : string)
| juice_add_remote_candidate (a : agent) (sdp : string)
| juice_set_remote_gathering_done (a : agent)
| juice_send (a : agent) (data : list byte)
| juice_destroy (a : agent).

(** Oldest call first. *)
Abbreviation juice_log := (list juice_call).

(** The agent a call is made on. *)
Definition call_agent (call : juice_call) : option agent :=
  match call with
  | juice_create _ _ _ => None
  | juice_get_local_description a | juice_gather_candidates a | juice_set_remote_description a _
  | juice_add_remote_candidate a _ | juice_set_remote_gathering_done a | juice_send a _
  | juice_destroy a => Some a
  end.

(** The agents created and not yet destroyed. *)
Definition live_step (live : gset agent) (call : juice_call) : gset agent :=
  match call with
  | juice_create _ _ (Some a) => live ∪ {[a]}
  | juice_destroy a => live ∖ {[a]}
  | _ => live
  end.
Definition live_agents (log : juice_log) : gset agent := fold_left live_step log ∅.

(** The library's answers, given the calls before: the agent made, if any; the
    description, if the call succeeds; whether gathering and sending succeed.
    A new agent is none of the live ones; a description fits the buffer of
    [JUICE_MAX_SDP_STRING_LEN] bytes it is asked for with. *)
Class Juice : Type := {
  create_answer : juice_log -> juice_config -> option agent;
  description_answer : juice_log -> agent -> option string;
  gather_answer : juice_log -> agent -> bool;
  send_answer : juice_log -> agent -> list byte -> bool;
  create_fresh : forall log config a, create_answer log config = Some a -> a ∉ live_agents log;
  JUICE_MAX_SDP_STRING_LEN : N;
  description_fits : forall log a sdp, description_answer log a = Some sdp -> (str_size sdp <= JUICE_MAX_SDP_STRING_LEN)%N
}.

(** ** State *)

Inductive JuiceEventKind : Type :=
| State (state : juice_state)
| EvCandidate (payload : list byte)
| EvGatheringDone
| Recv (payload : list byte).

Record JuiceEvent : Type := mkJuiceEvent {
  ev_agent : agent;
  ev_peer : N;
  ev_kind : JuiceEventKind
}.

Module PeerLink.
Record t : Type := mk {
  agent : Client.agent;
  remote_set : bool;
  connected : bool;
  outbox : list (list byte)
}.
Definition set_remote_set (v : bool) (l : t) : t := mk (agent l) v (connected l) (outbox l).
Definition set_connected (v : bool) (l : t) : t := mk (agent l) (remote_set l) v (outbox l).
Definition set_outbox (v : list (list byte)) (l : t) : t := mk (agent l) (remote_set l) (connected l) v.
End PeerLink.

Record Client : Type := mkClient {
  socket_open : bool;
  rx : list byte;
  rx_msg : list byte;
  tx : list byte;
  _ice : Proto.IceServers;
  _inbox : list Proto.ServerMessage;
  _p2p_inbox : list (N * list byte);
  _room_cache : RoomCache;
  links : gmap N PeerLink.t;
  attempts : gmap N N;
  events : list JuiceEvent;
  calls : juice_log
}.
Definition set_socket_open (v : bool) (c : Client) : Client :=
  mkClient v (rx c) (rx_msg c) (tx c) (_ice c) (_inbox c) (_p2p_inbox c) (_room_cache c) (links c) (attempts c) (events c) (calls c).
Definition set_rx (v : list byte) (c : Client) : Client :=
  mkClient (socket_open c) v (rx_msg c) (tx c) (_ice c) (_inbox c) (_p2p_inbox c) (_room_cache c) (links c) (attempts c) (events c) (calls c).
Definition set_rx_msg (v : list byte) (c : Client) : Client :=
  mkClient (socket_open c) (rx c) v (tx c) (_ice c) (_inbox c) (_p2p_inbox c) (_room_cache c) (links c) (attempts c) (events c) (calls c).
Definition set_tx (v : list byte) (c : Client) : Client :=
  mkClient (socket_open c) (rx c) (rx_msg c) v (_ice c) (_inbox c) (_p2p_inbox c) (_room_cache c) (links c) (attempts c) (events c) (calls c).
Definition set_ice (v : Proto.IceServers) (c : Client) : Client :=
  mkClient (socket_open c) (rx c) (rx_msg c) (tx c) v (_inbox c) (_p2p_inbox c) (_room_cache c) (links c) (attempts c) (events c) (calls c).
Definition set_inbox (v : list Proto.ServerMessage) (c : Client) : Client :=
  mkClient (socket_open c) (rx c) (rx_msg c) (tx c) (_ice c) v (_p2p_inbox c) (_room_cache c) (links c) (attempts c) (events c) (calls c).
Definition set_p2p_inbox (v : list (N * list byte)) (c : Client) : Client :=
  mkClient (socket_open c) (rx c) (rx_msg c) (tx c) (_ice c) (_inbox c) v (_room_cache c) (links c) (attempts c) (events c) (calls c).
Definition set_room_cache (v : RoomCache) (c : Client) : Client :=
  mkClient (socket_open c) (rx c) (rx_msg c) (tx c) (_ice c) (_inbox c) (_p2p_inbox c) v (links c) (attempts c) (events c) (calls c).
Definition set_links (v : gmap N PeerLink.t) (c : Client) : Client :=
  mkClient (socket_open c) (rx c) (rx_msg c) (tx c) (_ice c) (_inbox c) (_p2p_inbox c) (_room_cache c) v (attempts c) (events c) (calls c).
Definition set_attempts (v : gmap N N) (c : Client) : Client :=
  mkClient (socket_open c) (rx c) (rx_msg c) (tx c) (_ice c) (_inbox c) (_p2p_inbox c) (_room_cache c) (links c) v (events c) (calls c).
Definition set_events (v : list JuiceEvent) (c : Client) : Client :=
  mkClient (socket_open c) (rx c) (rx_msg c) (tx c) (_ice c) (_inbox c) (_p2p_inbox c) (_room_cache c) (links c) (attempts c) v (calls c).
Definition set_calls (v : juice_log) (c : Client) : Client :=
  mkClient (socket_open c) (rx c) (rx_msg c) (tx c) (_ice c) (_inbox c) (_p2p_inbox c) (_room_cache c) (links c) (attempts c) (events c) v.

(** The member initialisers. *)
Definition client_init : Client := mkClient false [] [] [] (Proto.mkIceServers "" 0 []) [] []
  cache_init ∅ ∅ [] [].

Definition my_id (c : Client) : N := _id (_room_cache c).

(** ** Operations *)

(** The callbacks [OnJuiceState] to [OnJuiceRecv], on the library's threads: each
    queues one event, under the mesh's lock. *)
Definition PushJuiceEvent (ev : JuiceEvent) (c : Client) : Client := set_events (events c ++ [ev]) c.
Definition OnJuiceState (a : agent) (state : juice_state) (peer : N) : Client -> Client :=
  PushJuiceEvent (mkJuiceEvent a peer (State state)).
Definition OnJuiceCandidate (a : agent) (sdp : string) (peer : N) : Client -> Client :=
  PushJuiceEvent (mkJuiceEvent a peer (EvCandidate (str_bytes (c_str sdp)))).
Definition OnJuiceGatheringDone (a : agent) (peer : N) : Client -> Client :=
  PushJuiceEvent (mkJuiceEvent a peer EvGatheringDone).
Definition OnJuiceRecv (a : agent) (data : list byte) (peer : N) : Client -> Client :=
  PushJuiceEvent (mkJuiceEvent a peer (Recv data)).

Definition max_connection_attempts : N := 3.

Definition call_juice (call : juice_call) : M Client unit :=
  modify (fun c => set_calls (calls c ++ [call]) c).

(** Following a [PeerLink*], and assigning through one. *)
Definition get_link (id : N) : M Client PeerLink.t := fun c =>
  match links c !! id with
  | Some l => Done l c
  | None => Dangling
  end.
Definition update_link (id : N) (f : PeerLink.t -> PeerLink.t) : M Client unit :=
  modify (fun c => set_links (alter f id (links c)) c).

Definition SendServer (msg : Proto.ServerMessage) : M Client bool :=
  modify (fun c => set_tx (tx c ++ FrameMessage msg) c) ;;
  ret true.

(** A null pointer is [false]. *)
Definition FindLink (id : N) : M Client bool :=
  ls ← gets links;
  ret (bool_decide (is_Some (ls !! id))).

Definition DestroyLink (id : N) : M Client unit :=
  ls ← gets links;
  match ls !! id with
  | None => ret tt
  | Some link =>
      call_juice (juice_destroy (PeerLink.agent link)) ;;
      modify (fun c => set_links (delete id (links c)) c)
  end.

Definition DestroyAllLinks : M Client unit :=
  ls ← gets links;
  for_each (items ls) (fun '(id, link) => call_juice (juice_destroy (PeerLink.agent link))) ;;
  modify (set_links ∅) ;;
  modify (set_attempts ∅).

(** [~Client]. *)
Definition Client_destructor : M Client unit := DestroyAllLinks.

Definition FlushLink (id : N) : M Client unit :=
  link ← get_link id;
  for_each (PeerLink.outbox link) (fun data => call_juice (juice_send (PeerLink.agent link) data)) ;;
  update_link id (PeerLink.set_outbox []).

(** The configuration [CreateLink] fills in. *)
Definition link_config (ice : Proto.IceServers) : juice_config :=
  mkJuiceConfig
    (if str_empty (Proto.stun_host ice) then None else Some (c_str (Proto.stun_host ice), Proto.stun_port ice))
    ((fun relay => mkJuiceTurnServer (c_str (Proto.turn_host relay)) (c_str (Proto.turn_username relay))
        (c_str (Proto.turn_password relay)) (Proto.turn_port relay)) <$> Proto.turn ice).

Section Mesh.
Context `{!Juice}.

Definition CreateLink (id : N) : M Client bool :=
  tries ← gets (fun c => default 0%N (attempts c !! id));
  modify (fun c => set_attempts (<[id := tries]> (attempts c)) c) ;; (* operator[] *)
  if bool_decide (max_connection_attempts <= tries)%N then ret false
  else
    config ← gets (fun c => link_config (_ice c));
    log ← gets calls;
    let created := create_answer log config in
    call_juice (juice_create config id created) ;;
    match created with
    | None => ret false
    | Some a =>
        modify (fun c => set_attempts (<[id := (tries + 1)%N]> (attempts c)) c) ;;
        modify (fun c => set_links (match links c !! id with
                                    | Some _ => links c (* emplace *)
                                    | None => <[id := PeerLink.mk a false false []]> (links c)
                                    end) c) ;;
        ret true
    end.

Definition ShareLink (id : N) : M Client bool :=
  link ← get_link id;
  log ← gets calls;
  call_juice (juice_get_local_description (PeerLink.agent link)) ;;
  match description_answer log (PeerLink.agent link) with
  | None => ret false
  | Some sdp =>
      SendServer (Proto.P2PSignal id Proto.Description (c_str sdp)) ;;
      link ← get_link id;
      log ← gets calls;
      call_juice (juice_gather_candidates (PeerLink.agent link)) ;;
      ret (gather_answer log (PeerLink.agent link))
  end.

Definition SendP2P (id : N) (msg : list byte) : M Client bool :=
  if bool_decide (msg = []) || bool_decide (Proto.max_p2p_message_size < sizeN msg)%N then ret false
  else
    cache ← gets _room_cache;
    if bool_decide (id = _id cache) || negb (bool_decide (id ∈ _members cache)) then ret false
    else
      found ← FindLink id;
      ready ← (if (found : bool) then ret true
                else
                  created ← CreateLink id;
                  if negb created then ret false
                  else
                    shared ← ShareLink id;
                    if negb shared then DestroyLink id ;; ret false
                    else ret true : M Client bool);
      if negb ready then ret false
      else
        link ← get_link id;
        if negb (PeerLink.connected link) then
          update_link id (fun l => PeerLink.set_outbox (PeerLink.outbox l ++ [msg]) l) ;;
          ret true
        else
          log ← gets calls;
          call_juice (juice_send (PeerLink.agent link) msg) ;;
          ret (send_answer log (PeerLink.agent link) msg).

Definition NextP2P : M Client (option (N * list byte)) :=
  inbox ← gets _p2p_inbox;
  match inbox with
  | [] => ret None
  | x :: rest => modify (set_p2p_inbox rest) ;; ret (Some x)
  end.

Definition PeerConnectedP2P (id : N) (c : Client) : bool :=
  match links c !! id with
  | Some link => PeerLink.connected link
  | None => false
  end.

Definition HandleP2PDescription (link : bool) (id : N) (payload : string) : M Client unit :=
  link ← (if link then
             l ← get_link id;
             if PeerLink.remote_set l then DestroyLink id ;; ret false else ret true
           else ret false : M Client bool);
  let answering := negb link in
  ready ← (if answering then
              modify (fun c => set_attempts (delete id (attempts c)) c) ;;
              CreateLink id
            else ret true : M Client bool);
  if negb ready then ret tt
  else
    l ← get_link id;
    (if negb (PeerLink.remote_set l) then
       call_juice (juice_set_remote_description (PeerLink.agent l) (c_str payload)) ;;
       update_link id (PeerLink.set_remote_set true)
     else ret tt) ;;
    if answering then ShareLink id ;; ret tt else ret tt.

Definition HandleP2PSignal (id : N) (kind : Proto.P2PSignalKind) (payload : string) : M Client unit :=
  link ← FindLink id;
  if bool_decide (kind = Proto.Description) then HandleP2PDescription link id payload
  else if bool_decide (kind = Proto.Candidate) then
    if (link : bool) then
      l ← get_link id;
      call_juice (juice_add_remote_candidate (PeerLink.agent l) (c_str payload))
    else ret tt
  else if bool_decide (kind = Proto.GatheringDone) then
    if (link : bool) then
      l ← get_link id;
      call_juice (juice_set_remote_gathering_done (PeerLink.agent l))
    else ret tt
  else ret tt.

Definition HandleLinkState (id : N) (state : juice_state) : M Client unit :=
  match state with
  | JUICE_STATE_CONNECTED | JUICE_STATE_COMPLETED =>
      get_link id ;;
      update_link id (PeerLink.set_connected true) ;;
      modify (fun c => set_attempts (delete id (attempts c)) c) ;;
      FlushLink id
  | JUICE_STATE_DISCONNECTED =>
      get_link id ;;
      update_link id (PeerLink.set_connected false)
  | JUICE_STATE_FAILED => DestroyLink id
  | JUICE_STATE_OTHER => ret tt
  end.

Definition HandleJuiceEvent (ev : JuiceEvent) : M Client unit :=
  ls ← gets links;
  match ls !! ev_peer ev with
  | None => ret tt
  | Some link =>
      if bool_decide (PeerLink.agent link <> ev_agent ev) then ret tt
      else
        match ev_kind ev with
        | State state => HandleLinkState (ev_peer ev) state
        | EvCandidate payload =>
            SendServer (Proto.P2PSignal (ev_peer ev) Proto.Candidate (str_of_bytes payload)) ;; ret tt
        | EvGatheringDone =>
            SendServer (Proto.P2PSignal (ev_peer ev) Proto.GatheringDone "") ;; ret tt
        | Recv payload =>
            modify (fun c => set_p2p_inbox (_p2p_inbox c ++ [(ev_peer ev, payload)]) c)
        end
  end.

Definition PollPeers : M Client unit :=
  batch ← gets events;
  modify (set_events []) ;;
  for_each batch HandleJuiceEvent.

(** *** The server connection *)

Definition ClearRoomState : M Client unit :=
  DestroyAllLinks ;;
  modify (fun c => set_room_cache (clear_room_state (_room_cache c)) c).

Definition CacheRoomState (msg : Proto.ServerMessage) : M Client unit :=
  match msg with
  | Proto.PeerLeft id =>
      me ← gets my_id;
      if bool_decide (id = me) then ClearRoomState
      else
        modify (fun c => set_room_cache (cache_room_state msg (_room_cache c)) c) ;;
        DestroyLink id ;;
        modify (fun c => set_attempts (delete id (attempts c)) c)
  | Proto.KickedByHost | Proto.BannedByHost => ClearRoomState
  | Proto.RoomAccessChanged opened passworded =>
      load_bool opened ;;
      load_bool passworded ;;
      modify (fun c => set_room_cache (cache_room_state msg (_room_cache c)) c)
  | _ => modify (fun c => set_room_cache (cache_room_state msg (_room_cache c)) c)
  end.

Definition DisconnectServer : M Client bool :=
  modify (set_socket_open false) ;;
  ClearRoomState ;;
  ret false.

(** What [CarveServer] does with one complete message. *)
Definition Incoming (msg : Proto.ServerMessage) : M Client unit :=
  match msg with
  | Proto.AssignClientId _ =>
      modify (fun c => set_room_cache (cache_incoming (_room_cache c) msg) c)
  | Proto.IceServersMsg ice => modify (set_ice ice)
  | Proto.P2PSignal id kind payload => HandleP2PSignal id kind payload
  | _ =>
      CacheRoomState msg ;;
      modify (fun c => set_inbox (_inbox c ++ [msg]) c)
  end.

(** The loop of [CarveServer] over the bytes that remain; [Some] of the bytes
    left over, or [None] after [DisconnectServer].  Every iteration consumes a
    header, so that the number of bytes is enough fuel. *)
Fixpoint carve_loop (fuel : nat) (remaining : list byte) : M Client (option (list byte)) :=
  if bool_decide (sizeN remaining < frame_header_size)%N then ret (Some remaining)
  else
    match fuel with
    | O => loops
    | S fuel' =>
        match DecodeFrameHeader (take (N.to_nat frame_header_size) remaining) with
        | None => DisconnectServer ;; ret None
        | Some (len, more) =>
            if bool_decide (sizeN remaining < frame_header_size + len)%N then ret (Some remaining)
            else
              partial ← gets rx_msg;
              match AppendFragment partial
                      (take (N.to_nat len) (drop (N.to_nat frame_header_size) remaining)) with
              | None => DisconnectServer ;; ret None
              | Some body =>
                  modify (set_rx_msg body) ;;
                  let remaining' := drop (N.to_nat (frame_header_size + len)) remaining in
                  if (more : bool) then carve_loop fuel' remaining'
                  else
                    match deserialize body with
                    | Err _ =>
                        modify (set_rx_msg []) ;;
                        DisconnectServer ;; ret None
                    | Ok msg =>
                        modify (set_rx_msg []) ;;
                        Incoming msg ;;
                        carve_loop fuel' remaining'
                    end
              end
        end
    end.

Definition CarveServer : M Client bool :=
  received ← gets rx;
  left ← carve_loop (length received) received;
  match left with
  | None => ret false
  | Some remaining => modify (set_rx remaining) ;; ret true
  end.

(** The answers of the socket: the chunks [read_some] returns until it reports
    an error, and whether that is a lost connection; what each [write_some]
    takes, or the error. *)
Inductive write_answer : Type :=
| Sent (n : nat)
| WriteBlocked
| WriteFailed.

Definition DrainServer (chunks : list (list byte)) (lost : bool) : M Client bool :=
  for_each chunks (fun chunk => modify (fun c => set_rx (rx c ++ chunk) c)) ;;
  if lost then DisconnectServer else ret true.

Fixpoint FlushServer (answers : list write_answer) : M Client bool :=
  pending ← gets tx;
  if bool_decide (pending = []) then ret true
  else
    match answers with
    | [] | WriteBlocked :: _ => ret true
    | WriteFailed :: _ => DisconnectServer
    | Sent n :: rest =>
        modify (fun c => set_tx (drop n (tx c)) c) ;;
        FlushServer rest
    end.

Definition Poll (chunks : list (list byte)) (lost : bool) (answers : list write_answer) : M Client bool :=
  opened ← gets socket_open;
  if negb opened then ret false
  else
    drained ← DrainServer chunks lost;
    if negb drained then ret false
    else
      carved ← CarveServer;
      if negb carved then ret false
      else
        PollPeers ;;
        FlushServer answers.

(** What resolving the host, connecting and making the socket non-blocking come
    to.  [asio::connect] closes the socket before every endpoint it tries and
    leaves it open or not when none accepts. *)
Inductive connect_answer : Type :=
| Unresolved
| Refused (still_open : bool)
| Connected (nonblocking : bool).

Definition Connect (answer : connect_answer) : M Client bool :=
  match answer with
  | Unresolved => ret false
  | Refused still_open => modify (set_socket_open still_open) ;; ret false
  | Connected nonblocking => modify (set_socket_open true) ;; ret nonblocking
  end.

Definition Next : M Client (option Proto.ServerMessage) :=
  inbox ← gets _inbox;
  match inbox with
  | [] => ret None
  | msg :: rest => modify (set_inbox rest) ;; ret (Some msg)
  end.
End Mesh.

(** *** Requests and accessors *)

Definition Client_CreateRoom : M Client bool := SendServer Proto.CreateRoom.
Definition Client_JoinRoom (id password : string) : M Client bool := SendServer (Proto.JoinRoom id password).
Definition Client_LeaveRoom : M Client bool := SendServer Proto.LeaveRoom.
Definition Client_KickMember (id : N) : M Client bool := SendServer (Proto.KickMember id).
Definition Client_BanMember (id : N) : M Client bool := SendServer (Proto.BanMember id).
Definition Client_TransferHost (id : N) : M Client bool := SendServer (Proto.TransferHost id).
Definition Client_SetRoomJoinable (opened : bool) : M Client bool := SendServer (Proto.SetRoomJoinable opened).
Definition Client_SetRoomPassword (password : string) : M Client bool :=
  SendServer (Proto.SetRoomPassword password).
Definition Client_SendChat (text : string) : M Client bool := SendServer (Proto.RoomChat 0 text).
Definition Client_SetRoomData (key value : string) : M Client bool := SendServer (Proto.SetRoomData key value).
Definition Client_DeleteRoomData (key : string) : M Client bool := SendServer (Proto.SetRoomData key "").
Definition Client_SetMemberData (key value : string) : M Client bool :=
  SendServer (Proto.SetMemberData key value).
Definition Client_DeleteMemberData (key : string) : M Client bool := SendServer (Proto.SetMemberData key "").

Definition Id (c : Client) : N := my_id c.
Definition RoomId (c : Client) : string := _room (_room_cache c).
Definition HostId (c : Client) : N := _host (_room_cache c).
Definition IsHost (c : Client) : bool := negb (bool_decide (my_id c = 0%N)) && bool_decide (my_id c = HostId c).
Definition RoomJoinable (c : Client) : bool := _room_open (_room_cache c).
Definition RoomPassworded (c : Client) : bool := _room_passworded (_room_cache c).
Definition Members (c : Client) : list N := _members (_room_cache c).
Definition RoomData (c : Client) : gmap string string := _data (_room_cache c).
Definition RoomData_at (key : string) (c : Client) : option string := _data (_room_cache c) !! key.
Definition MemberData (id : N) (c : Client) : option (gmap string string) :=
  _member_data (_room_cache c) !! id.
Definition MemberData_at (id : N) (key : string) (c : Client) : option string :=
  match MemberData id c with
  | None => None
  | Some data => data !! key
  end.
