(* ===== verification/ClientMesh.v ===== *)
(** The peer-to-peer mesh: how the client uses the ICE library.

    [replay] runs through a log of calls with the state the library's rules are
    about - which agents exist and which of them have their remote description
    - and fails on a call that breaks a rule: a call on an agent that does not
    exist (any more), a second remote description.  [mesh_ok] ties the state it
    ends in to the client's links; every operation keeps it. *)
From S2P Require Import Prelude Wire Protocol Framing RoomCache Client.

(** ** The rules of the library *)

Definition replay_step (st : option (gmap agent bool)) (call : juice_call) : option (gmap agent bool) :=
  st ← st;
  match call with
  | juice_create _ _ None => Some st
  | juice_create _ _ (Some a) =>
      match st !! a with None => Some (<[a := false]> st) | Some _ => None end
  | juice_set_remote_description a _ =>
      match st !! a with Some false => Some (<[a := true]> st) | _ => None end
  | juice_destroy a =>
      match st !! a with Some _ => Some (delete a st) | None => None end
  | juice_get_local_description a | juice_gather_candidates a | juice_add_remote_candidate a _
  | juice_set_remote_gathering_done a | juice_send a _ =>
      match st !! a with Some _ => Some st | None => None end
  end.

Definition replay (log : juice_log) : option (gmap agent bool) := fold_left replay_step log (Some ∅).
Arguments replay : simpl never.

Lemma replay_app log call : replay (log ++ [call]) = replay_step (replay log) call.
Proof. unfold replay. by rewrite fold_left_app. Qed.

Lemma replay_live_step st st' live call :
  replay_step (Some st) call = Some st' -> live = dom st -> live_step live call = dom st'.
Proof.
  intros Hstep ->. destruct call as [config peer [a|]| | | | | | |]; cbn in Hstep;
    repeat case_match; simplify_eq/=; rewrite ?dom_insert_L, ?dom_delete_L; try set_solver;
    symmetry; apply subseteq_union_1_L, singleton_subseteq_l, elem_of_dom; eauto.
Qed.

Lemma replay_live log st : replay log = Some st -> live_agents log = dom st.
Proof.
  revert st. induction log as [|call log IH] using rev_ind; intros st; [intros [= <-]; set_solver|].
  rewrite replay_app. unfold live_agents. rewrite fold_left_app. cbn [fold_left].
  destruct (replay log) as [st0|] eqn:Hlog; [|done]. intros Hstep.
  apply (replay_live_step st0 st _ call Hstep). by apply IH.
Qed.

(** ** The invariant *)

(** The agents [st] are exactly the links' agents, one each. *)
Record linked (st : gmap agent bool) (ls : gmap N PeerLink.t) : Prop := {
  linked_link : forall id l, ls !! id = Some l -> st !! PeerLink.agent l = Some (PeerLink.remote_set l);
  linked_agent : forall a b, st !! a = Some b -> exists id l, ls !! id = Some l /\ PeerLink.agent l = a;
  linked_inj : forall id1 id2 l1 l2, ls !! id1 = Some l1 -> ls !! id2 = Some l2 ->
    PeerLink.agent l1 = PeerLink.agent l2 -> id1 = id2
}.

Definition budget_ok (tries : gmap N N) : Prop :=
  map_Forall (fun _ n => (n <= max_connection_attempts)%N) tries.

Definition mesh_ok (c : Client) : Prop :=
  budget_ok (attempts c) /\ exists st, replay (calls c) = Some st /\ linked st (links c).

Lemma linked_empty : linked ∅ ∅.
Proof. split; intros *; rewrite lookup_empty; done. Qed.

Lemma linked_delete st ls id l :
  linked st ls -> ls !! id = Some l -> linked (delete (PeerLink.agent l) st) (delete id ls).
Proof.
  intros [Hlink Hagent Hinj] Hl. split.
  - intros id' l' [Hne Hl']%lookup_delete_Some. rewrite lookup_delete_ne; [by apply (Hlink id')|].
    intros Heq. apply Hne. by apply (Hinj id id' l l').
  - intros a b [Hne Hb]%lookup_delete_Some. destruct (Hagent a b Hb) as (id' & l' & Hl' & <-).
    exists id', l'. rewrite lookup_delete_ne; [done|]. intros <-. simplify_eq.
  - intros id1 id2 l1 l2 [_ H1]%lookup_delete_Some [_ H2]%lookup_delete_Some. by apply Hinj.
Qed.

Lemma linked_insert st ls id a :
  linked st ls -> ls !! id = None -> st !! a = None ->
  linked (<[a := false]> st) (<[id := PeerLink.mk a false false []]> ls).
Proof.
  intros [Hlink Hagent Hinj] Hid Ha.
  assert (forall id' l', ls !! id' = Some l' -> PeerLink.agent l' <> a) as Hfresh.
  { intros id' l' Hl' <-. rewrite (Hlink id' l' Hl') in Ha. done. }
  split.
  - intros id' l' [[<- <-]|[Hne Hl']]%lookup_insert_Some; [apply lookup_insert_eq|].
    rewrite lookup_insert_ne by (apply not_eq_sym; by apply (Hfresh id')). by apply (Hlink id').
  - intros a' b [[<- <-]|[Hne Hb]]%lookup_insert_Some.
    + eexists id, _. by rewrite lookup_insert_eq.
    + destruct (Hagent a' b Hb) as (id' & l' & Hl' & <-). exists id', l'.
      rewrite lookup_insert_ne; [done|]. congruence.
  - intros id1 id2 l1 l2 [[<- <-]|[_ H1]]%lookup_insert_Some [[<- <-]|[_ H2]]%lookup_insert_Some Heq;
      cbn in *; [done| | |by apply (Hinj id1 id2 l1 l2)].
    + by destruct (Hfresh id2 l2 H2).
    + by destruct (Hfresh id1 l1 H1).
Qed.

(** Changing a link's other fields; setting its remote description. *)
Lemma linked_alter st ls id f b :
  linked st ls ->
  (forall l, ls !! id = Some l -> PeerLink.agent (f l) = PeerLink.agent l /\ PeerLink.remote_set (f l) = b) ->
  forall l, ls !! id = Some l -> linked (<[PeerLink.agent l := b]> st) (alter f id ls).
Proof.
  intros [Hlink Hagent Hinj] Hf l Hl.
  assert (forall id' l', alter f id ls !! id' = Some l' ->
    exists l0, ls !! id' = Some l0 /\ PeerLink.agent l' = PeerLink.agent l0 /\
      PeerLink.remote_set l' = (if decide (id' = id) then b else PeerLink.remote_set l0)) as Halter.
  { intros id' l' Hl'. destruct (decide (id' = id)) as [->|Hne].
    - rewrite lookup_alter_eq, Hl in Hl'. injection Hl' as <-. exists l. by destruct (Hf l Hl) as [-> ->].
    - rewrite lookup_alter_ne in Hl' by done. eauto. }
  split.
  - intros id' l' Hl'. destruct (Halter id' l' Hl') as (l0 & Hl0 & -> & ->). case_decide as Hid.
    + subst id'. simplify_eq. by rewrite lookup_insert_eq.
    + rewrite lookup_insert_ne; [by apply (Hlink id')|]. intros Heq. apply Hid. by apply (Hinj id' id l0 l).
  - intros a b' Hb. assert (exists b0, st !! a = Some b0) as [b0 Hb0].
    { apply lookup_insert_Some in Hb as [[<- _]|[_ Hb]]; [|eauto]. eexists. by apply (Hlink id). }
    destruct (Hagent a b0 Hb0) as (id' & l' & Hl' & <-).
    destruct (decide (id' = id)) as [->|Hne].
    + exists id, (f l'). rewrite lookup_alter_eq, Hl'. simplify_eq. by destruct (Hf l Hl) as [-> _].
    + exists id', l'. by rewrite lookup_alter_ne.
  - intros id1 id2 l1 l2 H1 H2 Heq. destruct (Halter id1 l1 H1) as (k1 & Hk1 & E1 & _).
    destruct (Halter id2 l2 H2) as (k2 & Hk2 & E2 & _). apply (Hinj id1 id2 k1 k2); congruence.
Qed.

(** ** Calls *)

(** A call that only needs its agent to exist. *)
Definition plain_call (a : agent) (call : juice_call) : Prop :=
  call_agent call = Some a /\
  match call with
  | juice_set_remote_description _ _ | juice_destroy _ => False
  | _ => True
  end.

Lemma plain_call_step st a b call :
  plain_call a call -> st !! a = Some b -> replay_step (Some st) call = Some st.
Proof. intros [Hagent Hplain] Ha. destruct call; try done; cbn in *; simplify_eq; by rewrite Ha. Qed.

Definition log_calls (l : juice_log) (c : Client) : Client := set_calls (calls c ++ l) c.

Lemma log_calls_nil c : log_calls [] c = c.
Proof. destruct c. unfold log_calls, set_calls. cbn. by rewrite app_nil_r. Qed.

Lemma log_calls_app l1 l2 c : log_calls l2 (log_calls l1 c) = log_calls (l1 ++ l2) c.
Proof. unfold log_calls, set_calls. cbn. by rewrite app_assoc. Qed.

Lemma mesh_ok_plain c id l call :
  mesh_ok c -> links c !! id = Some l -> plain_call (PeerLink.agent l) call ->
  mesh_ok (log_calls [call] c).
Proof.
  intros (Hb & st & Hreplay & Hlinked) Hl Hcall. split; [done|]. exists st. split; [|done].
  cbn. rewrite replay_app, Hreplay.
  by apply (plain_call_step st _ _ call Hcall (linked_link _ _ Hlinked id l Hl)).
Qed.

Lemma mesh_ok_plains c id l log :
  mesh_ok c -> links c !! id = Some l -> Forall (plain_call (PeerLink.agent l)) log ->
  mesh_ok (log_calls log c).
Proof.
  intros Hc Hl Hlog. revert c Hc Hl. induction Hlog as [|call log Hcall Hlog IH]; intros c Hc Hl.
  - by rewrite log_calls_nil.
  - change (call :: log) with ([call] ++ log). rewrite <-log_calls_app.
    apply IH; [by apply (mesh_ok_plain c id l)|done].
Qed.

(** [mesh_ok] is about the mesh's fields only. *)
Lemma mesh_ok_ext c c' :
  links c' = links c -> attempts c' = attempts c -> calls c' = calls c -> mesh_ok c -> mesh_ok c'.
Proof. unfold mesh_ok. by intros -> -> ->. Qed.

Lemma mesh_ok_alter c id f :
  (forall l, PeerLink.agent (f l) = PeerLink.agent l /\ PeerLink.remote_set (f l) = PeerLink.remote_set l) ->
  mesh_ok c -> mesh_ok (set_links (alter f id (links c)) c).
Proof.
  intros Hf (Hb & st & Hreplay & Hlinked). split; [done|]. exists st. split; [done|]. cbn.
  destruct (links c !! id) as [l|] eqn:Hl.
  - pose proof (linked_alter st (links c) id f (PeerLink.remote_set l) Hlinked) as Halter.
    rewrite <-(insert_id st (PeerLink.agent l) (PeerLink.remote_set l))
      by (by apply (linked_link _ _ Hlinked id)).
    apply Halter; [|done]. intros l' Hl'. simplify_eq. apply Hf.
  - replace (alter f id (links c)) with (links c); [done|]. apply map_eq. intros k.
    destruct (decide (id = k)) as [<-|Hne]; [by rewrite lookup_alter_eq, Hl|by rewrite lookup_alter_ne].
Qed.

Lemma mesh_ok_attempts c tries :
  budget_ok tries -> mesh_ok c -> mesh_ok (set_attempts tries c).
Proof. intros Hb [_ Hst]. by split. Qed.

Lemma mesh_ok_forget c id : mesh_ok c -> mesh_ok (set_attempts (delete id (attempts c)) c).
Proof. intros Hc. apply mesh_ok_attempts; [|done]. by apply map_Forall_delete, Hc. Qed.

(** What the mesh operations have nothing to do with. *)
Definition view (c : Client) : RoomCache * list byte * list byte * list Proto.ServerMessage * bool :=
  (_room_cache c, rx c, rx_msg c, _inbox c, socket_open c).

Lemma view_inv c c' :
  view c' = view c ->
  _room_cache c' = _room_cache c /\ rx c' = rx c /\ rx_msg c' = rx_msg c /\ _inbox c' = _inbox c /\
  socket_open c' = socket_open c.
Proof. by intros [=]. Qed.

(** ** The operations *)

Ltac step :=
  lazymatch goal with
  | |- twp (_ ≫= _) _ _ => apply twp_bind
  | |- twp (gets _) _ _ => apply twp_gets
  | |- twp (modify _) _ _ => apply twp_modify
  | |- twp (ret _) _ _ => apply twp_ret
  end; cbn beta iota.
Ltac steps := repeat step.

Lemma twp_get_link id l (Q : PeerLink.t -> Client -> Prop) c :
  links c !! id = Some l -> Q l c -> twp (get_link id) Q c.
Proof. intros Hl HQ. unfold twp, get_link. by rewrite Hl. Qed.

Lemma twp_FindLink id (Q : bool -> Client -> Prop) c :
  Q (bool_decide (is_Some (links c !! id))) c -> twp (FindLink id) Q c.
Proof. intros HQ. unfold FindLink. by steps. Qed.

(** What [DestroyLink] leaves. *)
Definition unlinked (id : N) (c c' : Client) : Prop :=
  mesh_ok c' /\ links c' = delete id (links c) /\ attempts c' = attempts c /\
  view c' = view c /\ tx c' = tx c.

Lemma twp_DestroyLink id c : mesh_ok c -> twp (DestroyLink id) (fun _ => unlinked id c) c.
Proof.
  intros Hc. unfold DestroyLink. steps. destruct (links c !! id) as [l|] eqn:Hl.
  - unfold call_juice. steps. destruct Hc as (Hb & st & Hreplay & Hlinked).
    split_and!; try done. split; [done|]. exists (delete (PeerLink.agent l) st). split.
    + cbn. rewrite replay_app, Hreplay. cbn. by rewrite (linked_link _ _ Hlinked id l Hl).
    + by apply linked_delete.
  - steps. split_and!; try done. by rewrite delete_id.
Qed.

Lemma destroy_all_run (l : list (N * PeerLink.t)) c :
  for_each l (fun '(id, link) => call_juice (juice_destroy (PeerLink.agent link))) c
  = Done tt (log_calls ((fun idl => juice_destroy (PeerLink.agent idl.2)) <$> l) c).
Proof.
  revert c. induction l as [|[id l0] l IH]; intros c; [by rewrite log_calls_nil|].
  cbn [for_each]. rewrite (bind_done _ _ _ tt (log_calls [juice_destroy (PeerLink.agent l0)] c)) by done.
  rewrite IH, log_calls_app. done.
Qed.

(** Destroying the agents of a whole table. *)
Lemma replay_destroy_all log st (ls : gmap N PeerLink.t) :
  replay log = Some st -> linked st ls ->
  replay (log ++ ((fun idl => juice_destroy (PeerLink.agent idl.2)) <$> items ls)) = Some ∅.
Proof.
  intros Hreplay Hlinked.
  assert (forall l ls st log, items ls ≡ₚ l -> replay log = Some st -> linked st ls ->
    forall l', l' ≡ₚ l -> replay (log ++ ((fun idl => juice_destroy (PeerLink.agent idl.2)) <$> l')) = Some ∅)
    as Hgen.
  { clear. intros l ls st log Hl Hreplay Hlinked l' Hl'. rewrite <-Hl in Hl'. clear l Hl.
    revert ls st log Hreplay Hlinked Hl'. induction l' as [|[id l0] l' IH]; intros ls st log Hreplay Hlinked Hl'.
    - rewrite app_nil_r, Hreplay. f_equal. apply map_eq. intros a. rewrite lookup_empty.
      destruct (st !! a) as [b|] eqn:Ha; [|done].
      destruct (linked_agent _ _ Hlinked a b Ha) as (id & l0 & Hl0 & _).
      apply elem_of_items in Hl0. rewrite <-Hl' in Hl0. by apply not_elem_of_nil in Hl0.
    - assert (ls !! id = Some l0) as Hid by (apply elem_of_items; rewrite <-Hl'; set_solver).
      cbn [fmap list_fmap snd]. rewrite cons_middle, app_assoc.
      apply (IH (delete id ls) (delete (PeerLink.agent l0) st)).
      + rewrite replay_app, Hreplay. cbn. by rewrite (linked_link _ _ Hlinked id l0 Hid).
      + by apply linked_delete.
      + rewrite items_perm in *. apply (Permutation_cons_inv (a := (id, l0))).
        rewrite Hl'. symmetry. by apply map_to_list_delete. }
  by apply (Hgen (items ls) ls st log).
Qed.

(** No link, no agent, a fresh budget. *)
Definition mesh_empty (c : Client) : Prop :=
  links c = ∅ /\ attempts c = ∅ /\ replay (calls c) = Some ∅.

Lemma mesh_empty_ok c : mesh_empty c -> mesh_ok c.
Proof.
  intros (Hl & Ha & Hr). split; [rewrite Ha; apply map_Forall_empty|].
  exists ∅. rewrite Hl. split; [done|apply linked_empty].
Qed.

Lemma twp_DestroyAllLinks c :
  mesh_ok c -> twp DestroyAllLinks (fun _ c' => mesh_empty c' /\ view c' = view c) c.
Proof.
  intros (Hb & st & Hreplay & Hlinked). unfold DestroyAllLinks. steps.
  eapply twp_intro; [apply destroy_all_run|]. steps. unfold mesh_empty. split_and!; [done|done| |done].
  cbn. by apply (replay_destroy_all _ st).
Qed.

Lemma twp_ClearRoomState c :
  mesh_ok c -> twp ClearRoomState
    (fun _ c' => mesh_empty c' /\
      view c' = view (set_room_cache (clear_room_state (_room_cache c)) c)) c.
Proof.
  intros Hc. unfold ClearRoomState. steps. eapply twp_mono; [by apply twp_DestroyAllLinks|].
  intros [] c' [Hempty Hview]. steps. split; [done|].
  apply view_inv in Hview as (-> & ? & ? & ? & ?). unfold view. cbn. congruence.
Qed.

Lemma twp_DisconnectServer c :
  mesh_ok c -> twp DisconnectServer
    (fun b c' => b = false /\ mesh_empty c' /\ view c' =
       view (set_room_cache (clear_room_state (_room_cache c)) (set_socket_open false c))) c.
Proof.
  intros Hc. unfold DisconnectServer. steps.
  eapply twp_mono; [apply twp_ClearRoomState; by apply (mesh_ok_ext c)|].
  intros [] c' [Hempty Hcache]. by steps.
Qed.

Section Mesh.
Context `{!Juice}.

(** What dialing leaves: the same cache, and a link that is new if there is one. *)
Lemma twp_CreateLink id c :
  mesh_ok c -> links c !! id = None ->
  twp (CreateLink id) (fun created c' =>
    mesh_ok c' /\ view c' = view c /\
    if created then exists a, links c' = <[id := PeerLink.mk a false false []]> (links c)
    else links c' = links c) c.
Proof.
  intros Hc Hid. unfold CreateLink. steps. set (tries := default 0%N (attempts c !! id)).
  assert (tries <= max_connection_attempts)%N as Htries.
  { subst tries. destruct (attempts c !! id) as [n|] eqn:Hn; [|cbn; lia]. by apply (proj1 Hc id). }
  assert (budget_ok (<[id := tries]> (attempts c))) as Hbudget by (by apply map_Forall_insert_2, Hc).
  case_bool_decide as Hspent; steps; [by split_and!; [apply mesh_ok_attempts| |]|].
  unfold call_juice. steps. cbn [_ice set_attempts calls].
  set (config := link_config (_ice c)).
  destruct Hc as (Hb & st & Hreplay & Hlinked).
  destruct (create_answer (calls c) config) as [a|] eqn:Hcreate; steps.
  - pose proof (create_fresh _ _ _ Hcreate) as Hfresh. rewrite (replay_live _ st) in Hfresh by done.
    apply not_elem_of_dom in Hfresh. cbn [links set_links set_attempts set_calls attempts calls]. rewrite Hid.
    split_and!; [|done|by exists a]. split.
    + apply map_Forall_insert_2; [lia|done].
    + exists (<[a := false]> st). split; [|by apply linked_insert].
      cbn. rewrite replay_app, Hreplay. cbn. by rewrite Hfresh.
  - split_and!; [|done|done]. split; [done|]. exists st. split; [|done].
    cbn. by rewrite replay_app, Hreplay.
Qed.

Lemma twp_ShareLink id l c :
  mesh_ok c -> links c !! id = Some l ->
  twp (ShareLink id) (fun _ c' =>
    mesh_ok c' /\ links c' = links c /\ view c' = view c) c.
Proof.
  intros Hc Hl. unfold ShareLink. steps. apply (twp_get_link id l); [done|]. steps.
  unfold call_juice. steps.
  assert (mesh_ok (log_calls [juice_get_local_description (PeerLink.agent l)] c)) as Hc1
    by (by apply (mesh_ok_plain c id l)).
  destruct (description_answer (calls c) (PeerLink.agent l)) as [sdp|]; steps; [|by split_and!].
  unfold SendServer. steps. apply (twp_get_link id l); [done|]. steps. split_and!; [|done|done].
  apply (mesh_ok_ext (log_calls [juice_gather_candidates (PeerLink.agent l)]
    (log_calls [juice_get_local_description (PeerLink.agent l)] c))); try done.
  by apply (mesh_ok_plain _ id l).
Qed.

(** Operations that leave the room cache alone and the mesh in order. *)
Definition keeps_mesh (c c' : Client) : Prop := mesh_ok c' /\ view c' = view c.

Lemma twp_SendP2P id msg c : mesh_ok c -> twp (SendP2P id msg) (fun _ => keeps_mesh c) c.
Proof.
  intros Hc. unfold SendP2P. destruct (_ || _); steps; [done|]. destruct (_ || _); steps; [done|].
  apply twp_FindLink. apply twp_bind.
  apply (twp_mono _ (fun ready c' => keeps_mesh c c' /\ (ready = true -> exists l, links c' !! id = Some l))).
  - destruct (links c !! id) as [l|] eqn:Hl; [rewrite bool_decide_true by done|rewrite bool_decide_false by (by intros [])];
      steps; [by (split; [by split|by eauto])|].
    eapply twp_mono; [by apply twp_CreateLink|]. intros [|] c' (Hc' & Hcache & Hlinks); cbn [negb]; steps;
      [|done].
    destruct Hlinks as [a Hlinks].
    eapply twp_mono; [apply (twp_ShareLink id (PeerLink.mk a false false [])); [done|]|].
    { rewrite Hlinks. apply lookup_insert_eq. }
    intros [|] c'' (Hc'' & Hlinks'' & Hcache''); cbn [negb]; steps.
    + split; [split; [done|congruence]|]. intros _. rewrite Hlinks'', Hlinks, lookup_insert_eq. eauto.
    + eapply twp_mono; [by apply twp_DestroyLink|]. intros [] c3 (Hc3 & _ & _ & Hcache3 & _). steps.
      split; [split; [done|congruence]|done].
  - intros [|] c' [Hkeep Hl]; cbn [negb]; steps; [|done]. destruct (Hl eq_refl) as [l Hl'].
    apply (twp_get_link id l); [done|]. destruct (PeerLink.connected l); cbn [negb]; steps.
    + unfold call_juice. steps. split; [by apply (mesh_ok_plain c' id l); [apply Hkeep|..]|apply Hkeep].
    + unfold update_link. steps. split; [|apply Hkeep]. by apply mesh_ok_alter; [|apply Hkeep].
Qed.

Lemma twp_HandleP2PDescription id payload c :
  mesh_ok c ->
  twp (HandleP2PDescription (bool_decide (is_Some (links c !! id))) id payload) (fun _ => keeps_mesh c) c.
Proof.
  intros Hc. unfold HandleP2PDescription. steps.
  apply (twp_mono _ (fun (link : bool) c' => keeps_mesh c c' /\
    if link then exists l, links c' !! id = Some l /\ PeerLink.remote_set l = false
    else links c' !! id = None)).
  { destruct (links c !! id) as [l|] eqn:Hl; [rewrite bool_decide_true by done|rewrite bool_decide_false by (by intros [])];
      steps; [|done].
    apply (twp_get_link id l); [done|]. destruct (PeerLink.remote_set l) eqn:Hset; steps; [|by (split; [by split|by eauto])].
    eapply twp_mono; [by apply twp_DestroyLink|]. intros [] c' (Hc' & Hlinks & _ & Hcache & _). steps.
    split; [done|]. rewrite Hlinks. apply lookup_delete_eq. }
  intros link c1 [Hkeep Hlink]. steps.
  apply (twp_mono _ (fun ready c' => keeps_mesh c c' /\
    (ready = true -> exists l, links c' !! id = Some l /\ PeerLink.remote_set l = false))).
  { destruct link; cbn [negb]; steps; [done|]. pose proof (mesh_ok_forget c1 id (proj1 Hkeep)) as Hc1.
    eapply twp_mono; [by apply twp_CreateLink|]. intros [|] c' (Hc' & Hcache & Hlinks).
    - destruct Hlinks as [a Hlinks]. split; [split; [done|rewrite Hcache; apply Hkeep]|].
      intros _. rewrite Hlinks. eexists. rewrite lookup_insert_eq. done.
    - split; [split; [done|rewrite Hcache; apply Hkeep]|done]. }
  intros [|] c2 [[Hc2 Hcache2] Hl]; cbn [negb]; steps; [|done]. destruct (Hl eq_refl) as (l & Hl2 & Hset).
  apply (twp_get_link id l); [done|]. rewrite Hset. cbn [negb]. unfold call_juice, update_link. steps.
  set (c3 := set_links _ _).
  assert (mesh_ok c3 /\ view c3 = view c /\ exists l', links c3 !! id = Some l') as (Hc3 & Hcache3 & l' & Hl').
  { split_and!; [|done|eexists; cbn; by rewrite lookup_alter_eq, Hl2].
    destruct Hc2 as (Hb & st & Hreplay & Hlinked). split; [done|].
    exists (<[PeerLink.agent l := true]> st). split.
    - cbn. rewrite replay_app, Hreplay. cbn. by rewrite (linked_link _ _ Hlinked id l Hl2), Hset.
    - cbn. by apply (linked_alter _ _ _ _ true Hlinked). }
  destruct link; cbn [negb]; steps; [done|].
  eapply twp_mono; [by apply (twp_ShareLink id l')|]. intros _ c4 (Hc4 & _ & Hcache4). steps.
  split; [done|congruence].
Qed.

Lemma twp_HandleP2PSignal id kind payload c :
  mesh_ok c -> twp (HandleP2PSignal id kind payload) (fun _ => keeps_mesh c) c.
Proof.
  intros Hc. unfold HandleP2PSignal. steps. apply twp_FindLink.
  case_bool_decide; [by apply twp_HandleP2PDescription|].
  destruct (links c !! id) as [l|] eqn:Hl; 
    [rewrite (bool_decide_true (is_Some (Some l))) by done
    |rewrite (bool_decide_false (is_Some None)) by (by intros [])];
    repeat (case_bool_decide; steps; try done);
    (apply (twp_get_link id l); [done|]); unfold call_juice; steps; split; try done;
    by apply (mesh_ok_plain c id l).
Qed.

Lemma twp_FlushLink id l c :
  mesh_ok c -> links c !! id = Some l ->
  twp (FlushLink id) (fun _ c' => keeps_mesh c c' /\ tx c' = tx c /\
    calls c' = calls c ++ (juice_send (PeerLink.agent l) <$> PeerLink.outbox l) /\
    links c' = alter (PeerLink.set_outbox []) id (links c)) c.
Proof.
  intros Hc Hl. unfold FlushLink. steps. apply (twp_get_link id l); [done|]. steps.
  assert (forall q c, for_each q (fun data => call_juice (juice_send (PeerLink.agent l) data)) c
    = Done tt (log_calls (juice_send (PeerLink.agent l) <$> q) c)) as Hrun.
  { clear. intros q. induction q as [|data q IH]; intros c; [by rewrite log_calls_nil|].
    cbn [for_each].
    rewrite (bind_done _ _ _ tt (log_calls [juice_send (PeerLink.agent l) data] c)) by done.
    rewrite IH, log_calls_app. done. }
  eapply twp_intro; [apply Hrun|]. unfold update_link. steps. split_and!; try done. split; [|done].
  apply (mesh_ok_alter (log_calls _ c)); [done|]. apply (mesh_ok_plains c id l); [done|done|].
  rewrite Forall_fmap, Forall_forall. by intros data _.
Qed.

Lemma twp_HandleJuiceEvent ev c : mesh_ok c -> twp (HandleJuiceEvent ev) (fun _ => keeps_mesh c) c.
Proof.
  intros Hc. unfold HandleJuiceEvent. steps. destruct (links c !! ev_peer ev) as [l|] eqn:Hl; [|by steps].
  case_bool_decide; [by steps|]. destruct (ev_kind ev) as [[]| | |]; cbn [HandleLinkState]; unfold SendServer.
  - steps. apply (twp_get_link _ l); [done|]. unfold update_link. steps. split; [by apply mesh_ok_alter|done].
  - steps. apply (twp_get_link _ l); [done|]. unfold update_link. steps.
    set (c1 := set_attempts _ _).
    eapply twp_mono; [apply (twp_FlushLink _ (PeerLink.set_connected true l))|].
    + apply mesh_ok_forget. by apply mesh_ok_alter.
    + cbn. by rewrite lookup_alter_eq, Hl.
    + intros [] c' [[Hc' Hcache] _]. by split.
  - steps. apply (twp_get_link _ l); [done|]. unfold update_link. steps.
    eapply twp_mono; [apply (twp_FlushLink _ (PeerLink.set_connected true l))|].
    + apply mesh_ok_forget. by apply mesh_ok_alter.
    + cbn. by rewrite lookup_alter_eq, Hl.
    + intros [] c' [[Hc' Hcache] _]. by split.
  - eapply twp_mono; [by apply twp_DestroyLink|]. intros [] c' (? & _ & _ & ? & _). by split.
  - by steps.
  - steps. split; [by apply (mesh_ok_ext c)|done].
  - steps. split; [by apply (mesh_ok_ext c)|done].
  - steps. split; [by apply (mesh_ok_ext c)|done].
Qed.

Lemma twp_PollPeers c : mesh_ok c -> twp PollPeers (fun _ => keeps_mesh c) c.
Proof.
  intros Hc. unfold PollPeers. steps.
  eapply twp_mono; [apply (twp_for_each _ _ (keeps_mesh c))|].
  - intros ev c' _ [Hc' Hcache]. eapply twp_mono; [by apply twp_HandleJuiceEvent|].
    intros [] c'' [? ?]. split; [done|congruence].
  - split; [by apply (mesh_ok_ext c)|done].
  - done.
Qed.

Lemma load_bool_value {S} rep (s : S) : has_value rep -> load_bool rep s = Done (bool_value rep) s.
Proof. unfold load_bool, bool_value. by intros [b ->]. Qed.

Lemma load_bool_dangling {S} rep (s : S) : ~ has_value rep -> load_bool rep s = Dangling.
Proof. unfold load_bool. by intros ->%eq_None_not_Some. Qed.

Lemma twp_CacheRoomState msg c :
  mesh_ok c -> cacheable msg -> twp (CacheRoomState msg)
    (fun _ c' => mesh_ok c' /\ view c' = view (set_room_cache (cache_room_state msg (_room_cache c)) c)) c.
Proof.
  intros Hc Hmsg. destruct msg; cbn [CacheRoomState];
    try (apply twp_modify; split; [by apply (mesh_ok_ext c)|done]).
  - steps. unfold my_id. cbn [cache_room_state]. case_bool_decide.
    + eapply twp_mono; [by apply twp_ClearRoomState|]. intros [] c' [Hempty Hcache].
      split; [by apply mesh_empty_ok|done].
    + steps. eapply twp_mono; [apply twp_DestroyLink; by apply (mesh_ok_ext c)|].
      intros [] c' (Hc' & _ & _ & Hcache & _). steps. split; [by apply mesh_ok_forget|].
      by rewrite bool_decide_false in Hcache.
  - eapply twp_mono; [by apply twp_ClearRoomState|]. intros [] c' [Hempty Hcache].
    split; [by apply mesh_empty_ok|done].
  - destruct Hmsg as [Hopened Hpassworded]. unfold twp.
    rewrite (bind_done _ _ _ _ _ (load_bool_value _ _ Hopened)), (bind_done _ _ _ _ _ (load_bool_value _ _ Hpassworded)).
    split; [by apply (mesh_ok_ext c)|done].
  - eapply twp_mono; [by apply twp_ClearRoomState|]. intros [] c' [Hempty Hcache].
    split; [by apply mesh_empty_ok|done].
Qed.

(** The message whose [bool]s it cannot read. *)
Lemma CacheRoomState_dangling msg c : ~ cacheable msg -> CacheRoomState msg c = Dangling.
Proof.
  destruct msg; cbn [cacheable]; try done. intros Hno. cbn [CacheRoomState]. unfold mbind, M_bind, bind.
  destruct (decide (has_value opened)) as [Ho|Ho]; [|by rewrite load_bool_dangling].
  rewrite load_bool_value, load_bool_dangling by tauto. done.
Qed.

(** A C string is read as far as itself. *)
Lemma c_str_c_str s : c_str (c_str s) = c_str s.
Proof. induction s as [|a s IH]; [done|]. cbn. case_bool_decide; [done|]. cbn. by rewrite bool_decide_false, IH. Qed.

(** What [Next] hands out: everything but the transport's own messages. *)
Definition surfaced (msg : Proto.ServerMessage) : bool :=
  match msg with
  | Proto.AssignClientId _ | Proto.IceServersMsg _ | Proto.P2PSignal _ _ _ => false
  | _ => true
  end.

(** The client after a message, as far as [view] shows it. *)
Definition received (msg : Proto.ServerMessage) (c : Client) : Client :=
  set_inbox (if surfaced msg then _inbox c ++ [msg] else _inbox c)
    (set_room_cache (cache_incoming (_room_cache c) msg) c).

(** A complete message: the mesh stays in order and the cache is the fold of
    [RoomCache]. *)
Lemma twp_Incoming msg c :
  mesh_ok c -> cacheable msg ->
  twp (Incoming msg) (fun _ c' => mesh_ok c' /\ view c' = view (received msg c)) c.
Proof.
  intros Hc Hmsg.
  assert (twp (CacheRoomState msg ;; modify (fun c => set_inbox (_inbox c ++ [msg]) c))
    (fun _ c' => mesh_ok c' /\ view c' = view (set_inbox (_inbox c ++ [msg])
       (set_room_cache (cache_room_state msg (_room_cache c)) c))) c) as Hcache.
  { steps. eapply twp_mono; [by apply twp_CacheRoomState|]. intros [] c' [Hc' Hview]. steps.
    split; [by apply (mesh_ok_ext c')|].
    apply view_inv in Hview as (E1 & E2 & E3 & E4 & E5). unfold view. cbn in *. congruence. }
  destruct msg; cbn [Incoming] in *; try exact Hcache;
    try (apply twp_modify; split; [by apply (mesh_ok_ext c)|done]).
  eapply twp_mono; [by apply twp_HandleP2PSignal|]. intros [] c' [Hc' Hview]. split; [done|].
  rewrite Hview. by destruct c as [? ? ? ? ? ? ? []].
Qed.

Lemma Incoming_dangling msg c : ~ cacheable msg -> Incoming msg c = Dangling.
Proof.
  intros Hno. transitivity ((CacheRoomState msg ;; modify (fun c => set_inbox (_inbox c ++ [msg]) c)) c).
  - by destruct msg; cbn [cacheable] in Hno.
  - unfold mbind, M_bind, bind. by rewrite CacheRoomState_dangling.
Qed.
End Mesh.
