(* ===== verification/ClientConn.v ===== *)
(** The client's connection: [Client::Poll] on any input, and on input that a
    server framed.

    [uwp] is the specification of code that reads untrusted bytes: it finishes,
    in a state that satisfies the postcondition, unless the condition [U] holds
    under which it is undefined. *)
From S2P Require Import Prelude Wire Protocol Framing Stream RoomCache Client ClientMesh.
Local Open Scope N_scope.

Definition uwp {A} (m : M Client A) (U : Prop) (Q : A -> Client -> Prop) (c : Client) : Prop :=
  match m c with
  | Done a c' => ~ U /\ Q a c'
  | Dangling => U
  | Loops => False
  end.

Section Uwp.
Context {A B : Type}.

Lemma uwp_twp (m : M Client A) (U : Prop) (Q : A -> Client -> Prop) c : ~ U -> twp m Q c -> uwp m U Q c.
Proof. unfold uwp, twp. by destruct (m c). Qed.

Lemma uwp_bind_twp (m : M Client A) (k : A -> M Client B) (U : Prop) (Q : B -> Client -> Prop) c :
  twp m (fun a c' => uwp (k a) U Q c') c -> uwp (m ≫= k) U Q c.
Proof. unfold uwp, twp, mbind, M_bind, bind. by destruct (m c). Qed.

Lemma uwp_bind (m : M Client A) (k : A -> M Client B) (U : Prop) (Q : B -> Client -> Prop) c :
  uwp m U (fun a c' => twp (k a) Q c') c -> uwp (m ≫= k) U Q c.
Proof. unfold uwp, twp, mbind, M_bind, bind. destruct (m c) as [a c'| |]; [|done..]. by destruct (k a c') as [| |]; intros []. Qed.

Lemma uwp_mono (m : M Client A) (U U' : Prop) (P Q : A -> Client -> Prop) c :
  uwp m U P c -> (U <-> U') -> (forall a c', P a c' -> Q a c') -> uwp m U' Q c.
Proof. unfold uwp. destruct (m c); intuition eauto. Qed.
End Uwp.

Section Conn.
Context `{!Juice}.

(** ** [CarveServer] *)

(** A disconnected client: in no room, with no link and no agent. *)
Definition disconnected (c : Client) : Prop :=
  socket_open c = false /\ mesh_empty c /\ blank (_room_cache c).

Lemma twp_DisconnectServer_closed c :
  mesh_ok c -> twp DisconnectServer (fun ok c' => ok = false /\ disconnected c' /\
    rx c' = rx c /\ rx_msg c' = rx_msg c /\ _inbox c' = _inbox c) c.
Proof.
  intros Hc. eapply twp_mono; [by apply twp_DisconnectServer|]. intros ok c' (-> & Hempty & Hview).
  apply view_inv in Hview as (Ecache & Erx & Emsg & Einbox & Eopen). cbn in *.
  split_and!; try done. split_and!; [done..|]. unfold blank. by rewrite Ecache.
Qed.

(** A read that ends in disconnection. *)
Lemma uwp_disconnect {A} (a : A) (U : Prop) (Q : A -> Client -> Prop) c :
  mesh_ok c -> ~ U -> (forall c', disconnected c' -> rx c' = rx c -> Q a c') ->
  uwp (DisconnectServer ;; ret a) U Q c.
Proof.
  intros Hc HU HQ. apply uwp_twp; [done|]. steps.
  eapply twp_mono; [by apply twp_DisconnectServer_closed|]. intros _ c' (_ & Hclosed & Hrx & _). steps. by apply HQ.
Qed.

Definition undefined_body (fuel : nat) (partial bytes : list byte) : Prop :=
  Exists (fun body => ~ cacheable_body body) (bodies fuel partial bytes).

(** [CarveServer] on any bytes: it ends; either some bytes are left over and
    the connection goes on, or the client is disconnected; and it is undefined
    exactly on a [RoomAccessChanged] whose two bytes are not both 0 or 1. *)
Definition carved (c : Client) (o : option (list byte)) (c' : Client) : Prop :=
  rx c' = rx c /\
  match o with
  | None => disconnected c'
  | Some kept => mesh_ok c' /\ socket_open c' = socket_open c /\ incomplete kept
  end.

Lemma uwp_carve_loop fuel remaining c :
  (length remaining <= fuel)%nat -> mesh_ok c ->
  uwp (carve_loop fuel remaining) (undefined_body fuel (rx_msg c) remaining) (carved c) c.
Proof.
  revert remaining c. induction fuel as [|fuel IH]; intros remaining c Hfuel Hc;
    cbn [carve_loop]; unfold undefined_body; cbn [bodies]; case_bool_decide as Hshort;
    try (apply uwp_twp; [by intros ?%Exists_nil|]; steps; split; [done|]; split_and!; [done..|by left]).
  { unfold sizeN, frame_header_size in Hshort. lia. }
  destruct (DecodeFrameHeader _) as [[len more]|] eqn:Hdecode.
  2:{ apply uwp_disconnect; [done|by intros ?%Exists_nil|done]. }
  case_bool_decide as Hmissing.
  { apply uwp_twp; [by intros ?%Exists_nil|]. steps. split; [done|]. split_and!; [done..|]. right. eauto. }
  apply uwp_bind_twp. steps. destruct (AppendFragment _ _) as [body|].
  2:{ apply uwp_disconnect; [done|by intros ?%Exists_nil|done]. }
  apply uwp_bind_twp. steps. set (rest := drop _ remaining).
  assert (length rest <= fuel)%nat as Hless.
  { unfold rest. rewrite length_drop. unfold sizeN, frame_header_size in *. lia. }
  destruct more.
  { by apply (IH rest (set_rx_msg body c)); [|apply (mesh_ok_ext c)]. }
  destruct (deserialize body) as [msg|e] eqn:Hread.
  - assert (cacheable_body body <-> cacheable msg) as Hbody by by apply cacheable_body_ok.
    apply uwp_bind_twp. steps. destruct (decide (cacheable msg)) as [Hmsg|Hmsg].
    2:{ unfold uwp, mbind, M_bind, bind. rewrite Incoming_dangling by done. left. by rewrite Hbody. }
    apply uwp_bind_twp. eapply twp_mono; [by apply twp_Incoming; [apply (mesh_ok_ext c)|]|].
    intros [] c1 [Hc1 Hview]. apply view_inv in Hview as (_ & Erx & Emsg & _ & Eopen). cbn in *.
    eapply uwp_mono; [by apply IH| |].
    + unfold undefined_body. rewrite Emsg, Exists_cons, Hbody. naive_solver.
    + intros o c2 [Hrx Ho]. split; [congruence|]. destruct o; [|done]. by rewrite <-Eopen.
  - apply uwp_bind_twp. steps. apply uwp_disconnect; [by apply (mesh_ok_ext c)| |done].
    rewrite Exists_cons. intros [Hno|?%Exists_nil]; [by eapply Hno, cacheable_body_err|done].
Qed.

(** ** Messages in pieces *)

(** [c'] is [c] after reading [msgs], up to the bytes in its buffers. *)
Definition has_read (msgs : list Proto.ServerMessage) (c c' : Client) : Prop :=
  _room_cache c' = cache_all (_room_cache c) msgs /\
  _inbox c' = _inbox c ++ filter (fun msg => surfaced msg = true) msgs /\
  socket_open c' = socket_open c.

Lemma has_read_nil c c' : view c' = view c -> has_read [] c c'.
Proof.
  intros (Ecache & _ & _ & Einbox & Eopen)%view_inv. split_and!; [done| |done].
  by rewrite filter_nil, app_nil_r.
Qed.

Lemma has_read_cons m ms c c1 c2 :
  _room_cache c1 = _room_cache (received m c) -> _inbox c1 = _inbox (received m c) ->
  socket_open c1 = socket_open c -> has_read ms c1 c2 -> has_read (m :: ms) c c2.
Proof.
  intros Hcache Hinbox Hopen (Ecache & Einbox & Eopen). split_and!.
  - by rewrite Ecache, Hcache.
  - rewrite Einbox, Hinbox, filter_cons. cbn [received _inbox set_inbox].
    destruct (surfaced m); case_decide; [by rewrite <-app_assoc|done..].
  - congruence.
Qed.

Lemma has_read_app ms1 ms2 c c1 c2 : has_read ms1 c c1 -> has_read ms2 c1 c2 -> has_read (ms1 ++ ms2) c c2.
Proof.
  intros (E1 & E2 & E3) (E4 & E5 & E6). split_and!.
  - by rewrite cache_all_app, <-E1.
  - by rewrite filter_app, app_assoc, <-E2.
  - congruence.
Qed.

(** A complete frame: its fragment is appended, and a message it completes is
    handled. *)
Lemma carve_frame fuel (frag : list byte) (more : bool) rest c body msg :
  sizeN frag <= Proto.max_message_size -> AppendFragment (rx_msg c) frag = Some body ->
  (more = false -> deserialize body = Ok msg) ->
  carve_loop (S fuel) (frame_header (sizeN frag) more ++ frag ++ rest) c =
    if more then carve_loop fuel rest (set_rx_msg body c)
    else (Incoming msg ;; carve_loop fuel rest) (set_rx_msg [] c).
Proof.
  intros Hfrag Happend Hbody. cbn [carve_loop].
  rewrite bool_decide_false, take_header, decode_header, drop_header
    by (rewrite ?sizeN_app, ?sizeN_frame_header; (done || lia)).
  rewrite bool_decide_false by (rewrite !sizeN_app, sizeN_frame_header; lia).
  rewrite bind_gets, take_sizeN_app, Happend, bind_modify.
  replace (drop _ _) with rest.
  2:{ rewrite app_assoc. replace (frame_header_size + sizeN frag) with (sizeN (frame_header (sizeN frag) more ++ frag))
        by (rewrite sizeN_app, sizeN_frame_header; done). by rewrite drop_sizeN_app. }
  destruct more; [done|]. rewrite Hbody by done. rewrite bind_modify. by destruct c.
Qed.

(** One framed message, in as many frames as it takes. *)
Lemma carve_message fuel partial bytes msg c c' :
  (length bytes <= fuel)%nat -> sendable msg -> rx_msg c = partial -> pending partial bytes [msg] ->
  Incoming msg (set_rx_msg [] c) = Done tt c' -> carve_loop fuel bytes c = Done (Some []) c'.
Proof.
  revert partial bytes c. induction fuel as [|fuel IH]; intros partial bytes c Hfuel Hm Hpartial Hp Hin;
    destruct (pending_next _ _ _ _ Hm Hp) as (frag & more & rest & -> & Hfrag & Happend & Hmore);
    rewrite !length_app, length_frame_header in Hfuel; [lia|].
  subst partial. rewrite (carve_frame _ _ _ _ _ _ msg Hfrag Happend).
  2:{ intros ->. destruct Hmore as [-> _]. by rewrite deserialize_serialize by apply Hm. }
  destruct more.
  - apply (IH (rx_msg c ++ frag) rest); [lia|done|done|done|by destruct c].
  - destruct Hmore as [_ [_ ->]%pending_nil]. rewrite (bind_done _ _ _ tt c' Hin). by destruct fuel.
Qed.

(** Part of a framed stream, [have], with [later] still to come. *)
Lemma twp_carve_loop fuel have later msgs c :
  (length have <= fuel)%nat -> mesh_ok c -> Forall sendable msgs ->
  pending (rx_msg c) (have ++ later) msgs ->
  twp (carve_loop fuel have) (fun o c' => exists done todo kept,
    o = Some kept /\ msgs = done ++ todo /\ has_read done c c' /\
    mesh_ok c' /\ pending (rx_msg c') (kept ++ later) todo /\ incomplete kept) c.
Proof.
  assert (forall fuel have c msgs, incomplete have -> mesh_ok c -> pending (rx_msg c) (have ++ later) msgs ->
    carve_loop fuel have c = Done (Some have) c -> twp (carve_loop fuel have) (fun o c' => exists done todo kept,
    o = Some kept /\ msgs = done ++ todo /\ has_read done c c' /\
    mesh_ok c' /\ pending (rx_msg c') (kept ++ later) todo /\ incomplete kept) c) as Hstop.
  { clear. intros fuel have c msgs Hhave Hc Hp Hrun. eapply twp_intro; [exact Hrun|].
    exists [], msgs, have. split_and!; try done. by apply has_read_nil. }
  revert have msgs c. induction fuel as [|fuel IH]; intros have msgs c Hfuel Hc Hmsgs Hp;
    (destruct (decide (sizeN have < frame_header_size)) as [Hshort|Hshort];
      [apply Hstop; [by left|done|done|cbn [carve_loop]; by rewrite bool_decide_true]|]).
  { unfold sizeN, frame_header_size in Hshort. lia. }
  destruct msgs as [|m ms].
  { apply pending_nil in Hp as [_ [-> ->]%app_nil]. done. }
  apply Forall_cons in Hmsgs as [Hm Hms].
  destruct (pending_next _ _ _ _ Hm Hp) as (frag & more & rest & Heq & Hfrag & Happend & Hmore).
  apply app_prefix in Heq as (have' & -> & Heq); [|rewrite sizeN_frame_header; lia].
  destruct (decide (sizeN have' < sizeN frag)) as [Hmissing|Hmissing].
  { apply Hstop; [|done|done|].
    - right. exists (sizeN frag), more.
      rewrite take_header, decode_header, sizeN_app, sizeN_frame_header by done. split; [done|lia].
    - cbn [carve_loop]. rewrite bool_decide_false, take_header, decode_header by done.
      by rewrite bool_decide_true by (rewrite sizeN_app, sizeN_frame_header; lia). }
  apply app_prefix in Heq as (have'' & -> & <-); [|lia].
  assert (length have'' <= fuel)%nat as Hless.
  { rewrite !length_app, length_frame_header in Hfuel. lia. }
  unfold twp. rewrite (carve_frame _ _ _ _ _ _ m Hfrag Happend).
  2:{ intros ->. destruct Hmore as [-> _]. by rewrite deserialize_serialize by apply Hm. }
  destruct more.
  { eapply twp_mono; [apply (IH have'' (m :: ms) (set_rx_msg (rx_msg c ++ frag) c)); [done| | |done]|].
    - by apply (mesh_ok_ext c).
    - by constructor.
    - intros o c' (dn & todo & kept & Ho). by exists dn, todo, kept. }
  destruct Hmore as [_ Hrest]. apply twp_bind.
  eapply twp_mono; [by apply twp_Incoming; [apply (mesh_ok_ext c)|apply readable_cacheable, Hm]|].
  intros [] c1 [Hc1 Hview]. apply view_inv in Hview as (Ecache & _ & Emsg & Einbox & Eopen). cbn in Emsg, Eopen.
  eapply twp_mono; [apply (IH have'' ms c1); try done; by rewrite Emsg|].
  intros o c' (dn & todo & kept & -> & -> & Hread & Hok). exists (m :: dn), todo, kept.
  split_and!; [done|done| |apply Hok..]. by apply (has_read_cons m dn c c1).
Qed.

(** ** [FlushServer] and [Poll] *)

Lemma twp_FlushServer answers c :
  mesh_ok c -> twp (FlushServer answers) (fun ok c' =>
    rx c' = rx c /\ rx_msg c' = rx_msg c /\
    if ok then mesh_ok c' /\ view c' = view c /\ exists n, tx c' = drop n (tx c)
    else disconnected c' /\ WriteFailed ∈ answers) c.
Proof.
  revert c. induction answers as [|a answers IH]; intros c Hc; cbn [FlushServer]; steps;
    case_bool_decide; steps; try (by split_and!; [done..|by exists 0%nat]).
  destruct a as [n| |].
  - steps. eapply twp_mono; [apply (IH (set_tx (drop n (tx c)) c)); by apply (mesh_ok_ext c)|].
    intros ok c' (-> & -> & Hok). split_and!; [done..|]. destruct ok; [|set_solver].
    destruct Hok as (? & ? & k & Hk). split_and!; [done..|]. exists (n + k)%nat. by rewrite Hk, <-drop_drop.
  - steps. split_and!; [done..|by exists 0%nat].
  - eapply twp_mono; [by apply twp_DisconnectServer_closed|]. intros ok c' (-> & Hclosed & -> & -> & _).
    split_and!; [done..|]. set_solver.
Qed.

Lemma drain_run chunks c :
  for_each chunks (fun chunk => modify (fun c => set_rx (rx c ++ chunk) c)) c
  = Done tt (set_rx (rx c ++ concat chunks) c).
Proof.
  revert c. induction chunks as [|chunk chunks IH]; intros c; cbn [for_each concat].
  - rewrite app_nil_r. by destruct c.
  - rewrite bind_modify, IH. cbn [rx set_rx]. by rewrite <-app_assoc.
Qed.

Lemma twp_DrainServer chunks lost c :
  mesh_ok c -> twp (DrainServer chunks lost) (fun ok c' =>
    if ok then lost = false /\ c' = set_rx (rx c ++ concat chunks) c else lost = true /\ disconnected c') c.
Proof.
  intros Hc. unfold DrainServer. apply twp_bind. eapply twp_intro; [apply drain_run|]. destruct lost; [|by steps].
  eapply twp_mono; [apply twp_DisconnectServer_closed; by apply (mesh_ok_ext c)|]. by intros ok c' (-> & ? & _).
Qed.

(** After [Poll]: connected, with the mesh in order, or disconnected. *)
Definition polled (ok : bool) (c : Client) : Prop :=
  if ok then mesh_ok c /\ socket_open c = true /\ incomplete (rx c) else disconnected c.

Lemma uwp_CarveServer c :
  mesh_ok c -> uwp CarveServer (undefined_body (length (rx c)) (rx_msg c) (rx c))
    (fun ok c' => if ok then mesh_ok c' /\ socket_open c' = socket_open c /\ incomplete (rx c')
                  else disconnected c') c.
Proof.
  intros Hc. unfold CarveServer. apply uwp_bind_twp. steps. apply uwp_bind.
  eapply uwp_mono; [by apply uwp_carve_loop|done|]. intros [kept|] c' [Hrx Ho]; steps; [|done].
  destruct Ho as (Hc' & Hopen & Hkept). split_and!; [by apply (mesh_ok_ext c')|done|done].
Qed.

Lemma uwp_Poll chunks lost answers c :
  mesh_ok c -> socket_open c = true ->
  uwp (Poll chunks lost answers)
    (lost = false /\ undefined_body (length (rx c ++ concat chunks)) (rx_msg c) (rx c ++ concat chunks))
    polled c.
Proof.
  intros Hc Hopen. unfold Poll. apply uwp_bind_twp. steps. rewrite Hopen. cbn [negb].
  apply uwp_bind_twp. eapply twp_mono; [by apply twp_DrainServer|].
  intros [|] c1; cbn [negb]; [intros [-> ->]|intros [-> Hclosed]; by apply uwp_twp; [intros []|steps]].
  apply uwp_bind. eapply uwp_mono; [apply uwp_CarveServer; by apply (mesh_ok_ext c)|naive_solver|].
  intros [|] c2; cbn [negb]; [|by intros; steps]. intros (Hc2 & Hopen2 & Hkept). steps.
  eapply twp_mono; [by apply twp_PollPeers|]. intros [] c3 [Hc3 Hview3].
  eapply twp_mono; [by apply twp_FlushServer|]. intros [|] c4; [|tauto].
  intros (Hrx & _ & Hc4 & Hview4 & _). apply view_inv in Hview3 as (_ & Erx & _ & _ & E3).
  apply view_inv in Hview4 as (_ & _ & _ & _ & E4). cbn in *.
  split_and!; [done|congruence|]. by rewrite Hrx, Erx.
Qed.

(** ** Every reachable client *)

(** What can happen to a client: its operations, and a callback of the ICE
    library, which only queues. *)
Inductive client_step : Client -> Client -> Prop :=
| step_connect answer c b c' : Connect answer c = Done b c' -> client_step c c'
| step_poll chunks lost answers c b c' : Poll chunks lost answers c = Done b c' -> client_step c c'
| step_next c o c' : Next c = Done o c' -> client_step c c'
| step_next_p2p c o c' : NextP2P c = Done o c' -> client_step c c'
| step_request msg c b c' : SendServer msg c = Done b c' -> client_step c c'
| step_send_p2p id data c b c' : SendP2P id data c = Done b c' -> client_step c c'
| step_callback ev c : client_step c (PushJuiceEvent ev c).

Definition client_reachable : Client -> Prop := rtc client_step client_init.

Lemma uwp_done {A} (m : M Client A) U Q c a c' : uwp m U Q c -> m c = Done a c' -> Q a c'.
Proof. unfold uwp. intros Hm Hrun. rewrite Hrun in Hm. by apply Hm. Qed.

Lemma mesh_ok_init : mesh_ok client_init.
Proof. by apply mesh_empty_ok. Qed.

Lemma polled_mesh_ok ok c : polled ok c -> mesh_ok c.
Proof. destruct ok; [by intros []|]. intros (_ & Hempty & _). by apply mesh_empty_ok. Qed.

Lemma client_step_mesh_ok c c' : client_step c c' -> mesh_ok c -> mesh_ok c'.
Proof.
  intros Hstep Hc. destruct Hstep as [[|b'|b'] c b c' Hrun|chunks lost answers c b c' Hrun|c o c' Hrun|c o c' Hrun
    |msg c b c' Hrun|id data c b c' Hrun|ev c]; try (by injection Hrun as <- <-; apply (mesh_ok_ext c)).
  - destruct (socket_open c) eqn:Hopen.
    + apply (polled_mesh_ok b). by apply (uwp_done _ _ _ c b c' (uwp_Poll chunks lost answers c Hc Hopen)).
    + unfold Poll in Hrun. rewrite bind_gets, Hopen in Hrun. by injection Hrun as <- <-.
  - unfold Next in Hrun. rewrite bind_gets in Hrun. destruct (_inbox c); injection Hrun as <- <-;
      [done|by apply (mesh_ok_ext c)].
  - unfold NextP2P in Hrun. rewrite bind_gets in Hrun. destruct (_p2p_inbox c); injection Hrun as <- <-;
      [done|by apply (mesh_ok_ext c)].
  - destruct (twp_done _ _ _ (twp_SendP2P id data c Hc)) as (b0 & c0 & Hrun0 & Hc0 & _).
    rewrite Hrun in Hrun0. by injection Hrun0 as _ ->.
  - by apply (mesh_ok_ext c).
Qed.

Lemma reachable_mesh_ok c : client_reachable c -> mesh_ok c.
Proof.
  unfold client_reachable. generalize mesh_ok_init. generalize client_init.
  induction 2 as [|c1 c2 c3 Hstep _ IH]; [done|]. by apply IH, (client_step_mesh_ok c1).
Qed.

Lemma reachable_step c c' : client_reachable c -> client_step c c' -> client_reachable c'.
Proof. intros Hc Hstep. by apply (rtc_r _ c). Qed.

(** ** A stream read over many polls *)

(** The application's loop: polls until one fails. *)
Fixpoint poll_all (polls : list (list (list byte) * list write_answer)) : M Client bool :=
  match polls with
  | [] => ret true
  | (chunks, answers) :: rest =>
      ok ← Poll chunks false answers;
      if (ok : bool) then poll_all rest else ret false
  end.

(** A poll that reads part of a framed stream. *)
Lemma twp_Poll chunks answers later msgs c :
  mesh_ok c -> socket_open c = true -> Forall sendable msgs -> WriteFailed ∉ answers ->
  pending (rx_msg c) (rx c ++ concat chunks ++ later) msgs ->
  twp (Poll chunks false answers) (fun ok c' => ok = true /\ exists done todo,
    msgs = done ++ todo /\ has_read done c c' /\ mesh_ok c' /\
    pending (rx_msg c') (rx c' ++ later) todo /\ incomplete (rx c')) c.
Proof.
  intros Hc Hopen Hmsgs Hwrites Hp. unfold Poll. steps. rewrite Hopen. cbn [negb]. apply twp_bind.
  eapply twp_mono; [by apply twp_DrainServer|]. intros [|] c1; [intros [_ ->]|by intros [? _]]. cbn [negb].
  unfold CarveServer. steps. cbn [rx set_rx]. eapply twp_mono.
  { apply (twp_carve_loop _ _ later msgs); [done|by apply (mesh_ok_ext c)|done|]. by rewrite <-app_assoc. }
  intros o c2 (dn & todo & kept & -> & -> & Hread & Hc2 & Hp2 & Hkept). steps. cbn [negb]. steps.
  eapply twp_mono; [apply twp_PollPeers; by apply (mesh_ok_ext c2)|]. intros [] c3 [Hc3 Hview3].
  eapply twp_mono; [by apply twp_FlushServer|].
  intros [|] c4; [|by intros (_ & _ & _ & ?)]. intros (Hrx4 & Hmsg4 & Hc4 & Hview4 & _).
  pose proof Hview3 as (_ & Erx & Emsg & _ & _)%view_inv. cbn in Erx, Emsg.
  split; [done|]. exists dn, todo. rewrite Hrx4, Hmsg4, Erx, Emsg. split_and!; try done.
  rewrite <-(app_nil_r dn). apply (has_read_app _ _ c (set_rx kept c2)); [exact Hread|].
  apply has_read_nil. congruence.
Qed.

(** ** A refused frame *)

(** Complete frames, and then bytes that the reader does not get past. *)
Lemma twp_carve_frames fuel partial bytes tail msgs c (Q : option (list byte) -> Client -> Prop) :
  (length (bytes ++ tail) <= fuel)%nat -> mesh_ok c -> Forall sendable msgs ->
  rx_msg c = partial -> pending partial bytes msgs ->
  (forall fuel c', (length tail <= fuel)%nat -> mesh_ok c' -> has_read msgs c c' -> rx c' = rx c -> rx_msg c' = [] ->
    twp (carve_loop fuel tail) Q c') ->
  twp (carve_loop fuel (bytes ++ tail)) Q c.
Proof.
  revert partial bytes msgs c. induction fuel as [|fuel IH]; intros partial bytes msgs c Hfuel Hc Hmsgs Hpartial Hp HQ;
    (destruct msgs as [|m ms]; [apply pending_nil in Hp as [-> ->]; apply HQ; try done; by apply has_read_nil|]);
    apply Forall_cons in Hmsgs as [Hm Hms];
    destruct (pending_next _ _ _ _ Hm Hp) as (frag & more & rest & -> & Hfrag & Happend & Hmore);
    rewrite !length_app, length_frame_header in Hfuel; [lia|].
  assert (length (rest ++ tail) <= fuel)%nat as Hless by (rewrite length_app; lia).
  rewrite <-!app_assoc. unfold twp. subst partial.
  rewrite (carve_frame _ _ _ _ _ _ m Hfrag Happend).
  2:{ intros ->. destruct Hmore as [-> _]. by rewrite deserialize_serialize by apply Hm. }
  destruct more.
  { apply (IH (rx_msg c ++ frag) rest (m :: ms) (set_rx_msg (rx_msg c ++ frag) c)); try done;
      try (by apply (mesh_ok_ext c)); by constructor. }
  destruct Hmore as [_ Hrest]. apply twp_bind.
  eapply twp_mono; [by apply twp_Incoming; [apply (mesh_ok_ext c)|apply readable_cacheable, Hm]|].
  intros [] c1 [Hc1 Hview]. apply view_inv in Hview as (Ecache & Erx & Emsg & Einbox & Eopen). cbn in Erx, Emsg, Eopen.
  apply (IH [] rest ms); try done. intros fuel' c' Hfuel' Hc' Hread Hrx Hmsg. apply HQ; try done; [|congruence].
  by apply (has_read_cons m ms c c1).
Qed.

(** The receive buffer holds [msgs] and then a header that is refused. *)
Definition poisoned (msgs : list Proto.ServerMessage) (c : Client) : Prop :=
  rx_msg c = [] /\ exists tail, rx c = frame_all msgs ++ tail /\
    frame_header_size <= sizeN tail /\ DecodeFrameHeader (take (N.to_nat frame_header_size) tail) = None.

Lemma twp_CarveServer_poisoned msgs c :
  mesh_ok c -> Forall sendable msgs -> poisoned msgs c ->
  twp CarveServer (fun ok c' => ok = false /\ disconnected c' /\ rx c' = rx c /\ rx_msg c' = [] /\
    _inbox c' = _inbox c ++ filter (fun msg => surfaced msg = true) msgs) c.
Proof.
  intros Hc Hmsgs (Hmsg & tail & Hrx & Hsize & Hdecode). unfold CarveServer. steps. rewrite Hrx at 2.
  apply (twp_carve_frames _ [] _ _ msgs); try done; [by rewrite Hrx|apply pending_all|].
  intros [|fuel] c' Hfuel Hc' (_ & Hinbox & _) Hrx' Hmsg'; cbn [carve_loop]; rewrite bool_decide_false by lia;
    [unfold sizeN, frame_header_size in Hsize; lia|].
  rewrite Hdecode. steps. eapply twp_mono; [by apply twp_DisconnectServer_closed|].
  intros ok c2 (_ & ? & ? & ? & ?). steps. split_and!; congruence.
Qed.

(** All of a framed stream, in any pieces. *)
Lemma poll_all_reads (c : Client) (msgs : list Proto.ServerMessage)
    (polls : list (list (list byte) * list write_answer)) :
  mesh_ok c -> socket_open c = true -> rx c = [] -> rx_msg c = [] -> Forall sendable msgs ->
  concat ((fun poll => concat poll.1) <$> polls) = frame_all msgs -> Forall (fun answers => WriteFailed ∉ answers) polls.*2 ->
  exists c', poll_all polls c = Done true c' /\
    _room_cache c' = cache_all (_room_cache c) msgs /\
    _inbox c' = _inbox c ++ filter (fun msg => surfaced msg = true) msgs /\
    rx c' = [] /\ rx_msg c' = [] /\ socket_open c' = true.
Proof.
  intros Hreach Hopen Hrx Hmsg Hmsgs Hbytes Hwrites.
  assert (pending (rx_msg c) (rx c ++ concat ((fun poll => concat poll.1) <$> polls)) msgs) as Hp
    by (rewrite Hrx, Hmsg, Hbytes; apply pending_all).
  assert (incomplete (rx c)) as Hin by (rewrite Hrx; by left). clear Hrx Hmsg Hbytes.
  enough (exists c', poll_all polls c = Done true c' /\ has_read msgs c c' /\ rx c' = [] /\ rx_msg c' = [])
    as (c' & ? & (? & ? & Hopen') & ? & ?) by (exists c'; split_and!; congruence).
  revert c msgs Hreach Hopen Hmsgs Hp Hin.
  induction polls as [|[chunks answers] polls IH]; intros c msgs Hc Hopen Hmsgs Hp Hin; cbn [fmap list_fmap fst concat] in Hp.
  - rewrite app_nil_r in Hp. destruct (pending_incomplete _ _ _ Hmsgs Hp Hin) as (-> & ? & ?).
    exists c. split_and!; try done. by apply has_read_nil.
  - apply Forall_cons in Hwrites as [Hw Hwrites].
    destruct (twp_done _ _ _ (twp_Poll chunks answers _ msgs c Hc Hopen Hmsgs Hw Hp))
      as (ok & c1 & Hrun & -> & dn & todo & -> & Hread & Hc1 & Hp1 & Hin1).
    apply Forall_app in Hmsgs as [_ Htodo].
    destruct (IH Hwrites c1 todo) as (c' & Hrun' & Hread' & Hrx & Hmsg); try done.
    { destruct Hread as (_ & _ & ->). done. }
    exists c'. split_and!; try done; [|by apply (has_read_app _ _ c c1)].
    cbn [poll_all]. by rewrite (bind_done _ _ _ true c1).
Qed.
End Conn.

(** ** A concrete client *)

Module DemoClient.
Lemma sdp_fits (sdp : string) : Some "sdp"%string = Some sdp -> str_size sdp <= 4096.
Proof. intros [= <-]. by vm_compute. Qed.

(** A library that always makes an agent, the first unused one. *)
Definition juice : Juice := Build_Juice (fun log _ => Some (fresh (live_agents log)))
  (fun _ _ => Some "sdp"%string) (fun _ _ => true) (fun _ _ _ => true)
  (fun log config a Ha => eq_ind _ (fun a => a ∉ live_agents log) (is_fresh (live_agents log)) _
     (f_equal (default 0%N) Ha)) 4096 (fun _ _ => sdp_fits).

(** Connected. *)
Definition client : Client := set_socket_open true client_init.

Lemma reachable : @client_reachable juice client.
Proof. apply rtc_once. by apply (step_connect (Connected true) _ true). Qed.

Definition msgs : list Proto.ServerMessage :=
  [Proto.AssignClientId 4; Proto.AssignRoomId "WXYZ"; Proto.PeerJoined 7; Proto.RoomChat 7 "hello"].
End DemoClient.

(** ** Properties *)

(** Claim C22: polling always comes to an end.  On a closed socket it returns false
    and changes nothing.  Otherwise, whatever bytes arrive and however they are
    cut, it returns true with the socket still open and less than one frame
    left over, or it returns false and the client is disconnected: in no room,
    with no peer link and no agent of the ICE library.  The one exception is
    undefined behaviour, and it happens exactly when a complete message among
    those bytes is a [RoomAccessChanged] of at least two bytes, the first two of
    which are not both 0 or 1: [CacheRoomState] reads them as [bool]s.  A
    [RoomAccessChanged] of one byte is out of range and disconnects, and a byte
    that is no [bool] in a [SetRoomJoinable], which a client does not read, is
    harmless. *)
Theorem poll_outcome `{!Juice} (c : Client) (chunks : list (list byte)) (lost : bool) (answers : list write_answer) :
  client_reachable c ->
  let input := rx c ++ concat chunks in
  match Poll chunks lost answers c with
  | Done ok c' =>
      if negb (socket_open c) then ok = false /\ c' = c
      else (lost = true \/ defined_input (rx_msg c) input) /\ polled ok c'
  | Dangling => socket_open c = true /\ lost = false /\ ~ defined_input (rx_msg c) input
  | Loops => False
  end.
Proof.
  intros Hreach input. apply reachable_mesh_ok in Hreach.
  assert (forall partial bytes, undefined_body (length bytes) partial bytes <-> ~ defined_input partial bytes) as Hiff.
  { intros partial bytes. unfold undefined_body, defined_input. split.
    - intros Hex Hall. apply Exists_exists in Hex as (body & Hin & Hbody).
      rewrite Forall_forall in Hall. by apply Hbody, Hall.
    - intros Hn. apply not_Forall_Exists in Hn; [|apply _].
      done. }
  destruct (socket_open c) eqn:Hopen.
  - pose proof (uwp_Poll chunks lost answers c Hreach Hopen) as Hpoll. unfold uwp in Hpoll.
    destruct (Poll chunks lost answers c) as [ok c'| |]; [|by rewrite Hiff in Hpoll|done]. rewrite Hiff in Hpoll.
    destruct Hpoll as [Hdefined Hok]. split; [|done]. destruct lost; [by left|right].
    destruct (decide (defined_input (rx_msg c) input)) as [|Hn]; [done|]. by destruct Hdefined.
  - unfold Poll. by rewrite bind_gets, Hopen.
Qed.

Lemma poll_outcome_witness :
  let input := frame_header 1025 false in
  match @Poll DemoClient.juice [input] false [] DemoClient.client with
  | Done ok c' => ok = false /\ disconnected c'
  | _ => False
  end.
Proof.
  pose proof (@poll_outcome DemoClient.juice DemoClient.client [frame_header 1025 false] false []
    (DemoClient.reachable)) as H.
  cbv zeta in *. destruct (@Poll DemoClient.juice _ _ _ _) as [ok c'| |] eqn:Hrun; [|vm_compute in Hrun; discriminate..].
  cbn [socket_open DemoClient.client set_socket_open negb] in H. destruct H as [_ H].
  replace ok with false in *; [by split|]. vm_compute in Hrun. by injection Hrun.
Defined.

(** Claim C20: however the server's byte stream is cut into reads, the client takes
    out of it exactly the messages that were framed into it, in order.  Once
    all bytes have arrived, its room cache is the fold of [CacheRoomState] over
    the messages, [Next] will hand out those it is meant to surface and no
    others, and no byte is left over. *)
Theorem client_reads_the_stream `{!Juice} (c : Client) (msgs : list Proto.ServerMessage)
    (polls : list (list (list byte) * list write_answer)) :
  client_reachable c -> socket_open c = true -> rx c = [] -> rx_msg c = [] -> Forall sendable msgs ->
  concat ((fun poll => concat poll.1) <$> polls) = frame_all msgs -> Forall (fun answers => WriteFailed ∉ answers) polls.*2 ->
  exists c', poll_all polls c = Done true c' /\
    _room_cache c' = cache_all (_room_cache c) msgs /\
    _inbox c' = _inbox c ++ filter (fun msg => surfaced msg = true) msgs /\
    rx c' = [] /\ rx_msg c' = [] /\ socket_open c' = true.
Proof. intros Hreach%reachable_mesh_ok. by apply poll_all_reads. Qed.

(** Four messages, in reads of seven bytes. *)
Fixpoint cut (fuel : nat) (bytes : list byte) : list (list byte) :=
  match fuel with
  | O => []
  | S fuel' => take 7 bytes :: cut fuel' (drop 7 bytes)
  end.

Lemma client_reads_the_stream_witness :
  exists c', @poll_all DemoClient.juice ((fun chunk => ([chunk], [])) <$> cut 8 (frame_all DemoClient.msgs)) DemoClient.client
      = Done true c' /\
    _room_cache c' = mkRoomCache 4 "WXYZ" 0 true false [4; 7] ∅ ∅ /\
    _inbox c' = [Proto.AssignRoomId "WXYZ"; Proto.PeerJoined 7; Proto.RoomChat 7 "hello"].
Proof.
  destruct (@client_reads_the_stream DemoClient.juice DemoClient.client DemoClient.msgs
    ((fun chunk => ([chunk], [])) <$> cut 8 (frame_all DemoClient.msgs))) as (c' & Hrun & Hcache & Hinbox & _).
  - exact DemoClient.reachable.
  - reflexivity.
  - reflexivity.
  - reflexivity.
  - repeat constructor; vm_compute; discriminate.
  - vm_compute. reflexivity.
  - repeat constructor; apply not_elem_of_nil.
  - exists c'. split; [exact Hrun|]. split; [rewrite Hcache; reflexivity|rewrite Hinbox; reflexivity].
Defined.

(** Claim C38: a connection that ends in a refused frame leaves what it received in
    the client's buffer, and [Connect] does not clear it.  Every poll of the
    next connection, whatever the server sends, hands out the messages of the
    old connection that were in front of the refused frame once more, closes
    the new connection and leaves the buffer as it was for the one after. *)
Theorem refused_frame_outlives_connection `{!Juice} (c : Client) (msgs : list Proto.ServerMessage)
    (chunks : list (list byte)) (answers : list write_answer) :
  client_reachable c -> Forall sendable msgs -> poisoned msgs c ->
  exists c', (Connect (Connected true) ;; Poll chunks false answers) c = Done false c' /\
    disconnected c' /\ _inbox c' = _inbox c ++ filter (fun msg => surfaced msg = true) msgs /\
    poisoned msgs c'.
Proof.
  intros Hc Hmsgs (Hmsg & tail & Hrx & Hsize & Hdecode). apply reachable_mesh_ok in Hc.
  set (c1 := set_rx (rx c ++ concat chunks) (set_socket_open true c)).
  assert (poisoned msgs c1) as Hp1.
  { split; [done|]. exists (tail ++ concat chunks). cbn. rewrite Hrx, <-app_assoc, sizeN_app, take_app_le.
    - split_and!; [done|lia|done].
    - unfold sizeN, frame_header_size in *. lia. }
  assert (mesh_ok c1) as Hc1 by (by apply (mesh_ok_ext c)).
  destruct (twp_done _ _ _ (twp_CarveServer_poisoned msgs c1 Hc1 Hmsgs Hp1)) as (ok & c' & Hrun & -> & Hok).
  destruct Hok as (Hclosed & Hrx' & Hmsg' & Hinbox). exists c'. split_and!; [|done|done|].
  - unfold Connect. rewrite (bind_done _ _ _ true (set_socket_open true c)) by done.
    unfold Poll. rewrite bind_gets. cbn [socket_open set_socket_open negb].
    rewrite (bind_done _ _ _ true c1).
    + cbn [negb]. by rewrite (bind_done _ _ _ false c').
    + unfold DrainServer. by rewrite (bind_done _ _ _ tt c1) by apply drain_run.
  - destruct Hp1 as (_ & tail1 & Hrx1 & Htail1). split; [done|]. exists tail1. by rewrite Hrx'.
Qed.

(** A chat line and a refused header, over two connections. *)
Lemma refused_frame_outlives_connection_witness :
  let line := Proto.RoomChat 7 "hello" in
  exists c c', @Poll DemoClient.juice [frame_all [line] ++ frame_header 1025 false] false [] DemoClient.client
      = Done false c /\ _inbox c = [line] /\
    (Connect (Connected true) ;; @Poll DemoClient.juice [frame_all [Proto.Heartbeat 1]] false []) c
      = Done false c' /\ _inbox c' = [line; line].
Proof.
  intros line.
  destruct (@Poll DemoClient.juice [frame_all [line] ++ frame_header 1025 false] false [] DemoClient.client)
    as [ok c| |] eqn:Hrun; [|vm_compute in Hrun; discriminate..].
  assert (@client_reachable DemoClient.juice c) as Hc.
  { apply (reachable_step DemoClient.client); [exact DemoClient.reachable|]. exact (step_poll _ _ _ _ _ _ Hrun). }
  vm_compute in Hrun. injection Hrun as <- Hstate.
  destruct (@refused_frame_outlives_connection DemoClient.juice c [line] [frame_all [Proto.Heartbeat 1]] [])
    as (c' & Hrun' & _ & Hinbox & _).
  - exact Hc.
  - repeat constructor; vm_compute; discriminate.
  - subst c. split; [reflexivity|]. exists (frame_header 1025 false). split_and!; vm_compute; (reflexivity || discriminate).
  - exists c, c'. split_and!; [by subst c|by subst c|exact Hrun'|]. rewrite Hinbox. by subst c.
Defined.
