(* ===== verification/MeshRules.v ===== *)
(** The rules of the peer-to-peer mesh, as properties of the client: how it uses
    the ICE library, what a send does, what an event can change, and what is
    left of the mesh when the client or a peer leaves the room. *)
From S2P Require Import Prelude Wire Protocol Framing Stream RoomCache Client ClientMesh ClientConn.
Local Open Scope N_scope.
#[local] Opaque FrameMessage.

#[export] Instance juice_state_eq_dec : EqDecision juice_state.
Proof. solve_decision. Defined.

(** ** Lemmas *)

(** [links] after changing one of them. *)
Lemma alter_insert_link (ls : gmap N PeerLink.t) id l f :
  ls !! id = Some l -> alter f id ls = <[id := f l]> ls.
Proof.
  intros Hl. apply map_eq. intros k. destruct (decide (id = k)) as [<-|Hne].
  - by rewrite lookup_alter_eq, lookup_insert_eq, Hl.
  - by rewrite lookup_alter_ne, lookup_insert_ne.
Qed.

(** What [SendP2P] refuses outright. *)
Definition bad_send (id : N) (data : list byte) (c : Client) : Prop :=
  data = [] \/ Proto.max_p2p_message_size < sizeN data \/ id = my_id c \/ id ∉ _members (_room_cache c).
#[export] Instance bad_send_dec id data c : Decision (bad_send id data c).
Proof. unfold bad_send. apply _. Defined.

Section Rules.
Context `{!Juice}.

Lemma SendP2P_refused id data c : bad_send id data c -> SendP2P id data c = Done false c.
Proof.
  intros Hbad. unfold SendP2P. destruct (_ || _) eqn:Hsize; [done|]. rewrite bind_gets.
  apply orb_false_elim in Hsize as [Hnil%bool_decide_eq_false Hlen%bool_decide_eq_false].
  assert (bool_decide (id = _id (_room_cache c)) || negb (bool_decide (id ∈ _members (_room_cache c))) = true) as ->;
    [|done].
  apply orb_true_iff. rewrite negb_true_iff, bool_decide_eq_true, bool_decide_eq_false.
  unfold bad_send, my_id in Hbad. tauto.
Qed.

(** The two tests of a send that is not refused. *)
Lemma good_send_tests id data c :
  ~ bad_send id data c ->
  bool_decide (data = []) || bool_decide (Proto.max_p2p_message_size < sizeN data) = false /\
  bool_decide (id = _id (_room_cache c)) || negb (bool_decide (id ∈ _members (_room_cache c))) = false.
Proof.
  unfold bad_send, my_id. intros Hgood.
  split; apply orb_false_intro; rewrite ?negb_false_iff, ?bool_decide_eq_false, ?bool_decide_eq_true; try tauto.
  destruct (decide (id ∈ _members (_room_cache c))); tauto.
Qed.

(** Past the checks. *)
Lemma SendP2P_accepted id data c l :
  ~ bad_send id data c -> links c !! id = Some l ->
  SendP2P id data c =
    if PeerLink.connected l
    then Done (send_answer (calls c) (PeerLink.agent l) data) (log_calls [juice_send (PeerLink.agent l) data] c)
    else Done true (set_links (<[id := PeerLink.set_outbox (PeerLink.outbox l ++ [data]) l]> (links c)) c).
Proof.
  intros [Hsize Hmember]%good_send_tests Hl. unfold SendP2P. rewrite Hsize, bind_gets, Hmember.
  rewrite (bind_done _ _ _ true c). 2:{ unfold FindLink. by rewrite bind_gets, bool_decide_true by (by rewrite Hl). }
  rewrite (bind_done _ _ _ true c) by done. cbn [negb].
  rewrite (bind_done _ _ _ l c). 2:{ unfold get_link. by rewrite Hl. }
  destruct (PeerLink.connected l); cbn [negb]; [done|].
  unfold update_link. rewrite bind_modify. by rewrite (alter_insert_link _ _ l).
Qed.

(** Sending a run of datagrams over a link that is not up. *)
Lemma queue_run id (datas : list (list byte)) c l :
  links c !! id = Some l -> PeerLink.connected l = false -> (forall data, data ∈ datas -> ~ bad_send id data c) ->
  for_each datas (fun data => SendP2P id data ;; ret tt) c
  = Done tt (set_links (<[id := PeerLink.set_outbox (PeerLink.outbox l ++ datas) l]> (links c)) c).
Proof.
  revert c l. induction datas as [|data datas IH]; intros c l Hl Hdown Hgood; cbn [for_each].
  - rewrite app_nil_r. replace (<[_:=_]> _) with (links c); [by destruct c|].
    symmetry. apply insert_id. rewrite Hl. by destruct l.
  - rewrite (bind_done _ _ _ tt
      (set_links (<[id := PeerLink.set_outbox (PeerLink.outbox l ++ [data]) l]> (links c)) c)).
    + erewrite IH; [|cbn; apply lookup_insert_eq|done|].
      * unfold set_links. cbn. by rewrite insert_insert_eq, <-app_assoc.
      * intros data' Hdata'. apply (Hgood data'). set_solver.
    + rewrite (bind_done _ _ _ true
        (set_links (<[id := PeerLink.set_outbox (PeerLink.outbox l ++ [data]) l]> (links c)) c)); [done|].
      rewrite (SendP2P_accepted _ _ _ l), Hdown; [done| |done]. apply Hgood. set_solver.
Qed.

(** A link comes up: what was queued goes out, in order. *)
Lemma FlushLink_run id l c :
  links c !! id = Some l ->
  FlushLink id c = Done tt (set_links (<[id := PeerLink.set_outbox [] l]> (links c))
                     (log_calls (juice_send (PeerLink.agent l) <$> PeerLink.outbox l) c)).
Proof.
  intros Hl. unfold FlushLink. rewrite (bind_done _ _ _ l c) by (unfold get_link; by rewrite Hl).
  assert (forall q c, for_each q (fun data => call_juice (juice_send (PeerLink.agent l) data)) c
    = Done tt (log_calls (juice_send (PeerLink.agent l) <$> q) c)) as Hrun.
  { clear. intros q. induction q as [|data q IH]; intros c; [by rewrite log_calls_nil|]. cbn [for_each].
    rewrite (bind_done _ _ _ tt (log_calls [juice_send (PeerLink.agent l) data] c)) by done.
    rewrite IH, log_calls_app. done. }
  rewrite (bind_done _ _ _ _ _ (Hrun _ _)). unfold update_link, modify. by rewrite (alter_insert_link _ _ l).
Qed.

Definition link_up (l : PeerLink.t) : PeerLink.t := PeerLink.mk (PeerLink.agent l) (PeerLink.remote_set l) true [].

Lemma HandleLinkState_up id l c (state : juice_state) :
  state = JUICE_STATE_CONNECTED \/ state = JUICE_STATE_COMPLETED -> links c !! id = Some l ->
  HandleLinkState id state c = Done tt
    (set_links (<[id := link_up l]> (links c)) (set_attempts (delete id (attempts c))
      (log_calls (juice_send (PeerLink.agent l) <$> PeerLink.outbox l) c))).
Proof.
  intros Hstate Hl.
  assert (HandleLinkState id state = HandleLinkState id JUICE_STATE_CONNECTED) as ->
    by (by destruct Hstate as [-> | ->]).
  cbn [HandleLinkState].
  rewrite (bind_done _ _ _ l c) by (unfold get_link; by rewrite Hl).
  unfold update_link. rewrite !bind_modify.
  rewrite (FlushLink_run id (PeerLink.set_connected true l)).
  - cbn. by rewrite (alter_insert_link _ _ l), insert_insert_eq by done.
  - cbn. by rewrite (alter_insert_link _ _ l), lookup_insert_eq by done.
Qed.

(** Dispatching an event. *)
Lemma HandleJuiceEvent_stray ev c :
  (forall l, links c !! ev_peer ev = Some l -> PeerLink.agent l <> ev_agent ev) ->
  HandleJuiceEvent ev c = Done tt c.
Proof.
  intros Hstray. unfold HandleJuiceEvent. rewrite bind_gets.
  destruct (links c !! ev_peer ev) as [l|]; [|done]. by rewrite bool_decide_true by (by apply Hstray).
Qed.

Lemma HandleJuiceEvent_own ev c l :
  links c !! ev_peer ev = Some l -> PeerLink.agent l = ev_agent ev ->
  HandleJuiceEvent ev c =
    match ev_kind ev with
    | State state => HandleLinkState (ev_peer ev) state c
    | EvCandidate payload =>
        Done tt (set_tx (tx c ++ FrameMessage (Proto.P2PSignal (ev_peer ev) Proto.Candidate (str_of_bytes payload))) c)
    | EvGatheringDone =>
        Done tt (set_tx (tx c ++ FrameMessage (Proto.P2PSignal (ev_peer ev) Proto.GatheringDone "")) c)
    | Recv payload => Done tt (set_p2p_inbox (_p2p_inbox c ++ [(ev_peer ev, payload)]) c)
    end.
Proof.
  intros Hl Hagent. unfold HandleJuiceEvent. rewrite bind_gets, Hl.
  rewrite bool_decide_false by (intros Hne; by apply Hne). by destruct (ev_kind ev).
Qed.

Lemma DestroyLink_run id l c :
  links c !! id = Some l ->
  DestroyLink id c = Done tt (set_links (delete id (links c)) (log_calls [juice_destroy (PeerLink.agent l)] c)).
Proof. intros Hl. unfold DestroyLink. by rewrite bind_gets, Hl. Qed.

(** An event changes its own peer's link, and keeps that link's agent. *)
Lemma HandleJuiceEvent_links ev l c c' :
  links c !! ev_peer ev = Some l -> PeerLink.agent l = ev_agent ev -> HandleJuiceEvent ev c = Done tt c' ->
  exists o, links c' = partial_alter (fun _ => o) (ev_peer ev) (links c) /\
    (PeerLink.agent <$> o = Some (PeerLink.agent l) \/ o = None).
Proof.
  intros Hl Hagent. rewrite (HandleJuiceEvent_own _ _ l) by done. set (id := ev_peer ev) in *.
  assert (exists o, links c = partial_alter (fun _ => o) id (links c) /\
    (PeerLink.agent <$> o = Some (PeerLink.agent l) \/ o = None)) as Hsame.
  { exists (Some l). split; [|by left]. symmetry. apply partial_alter_id. by rewrite Hl. }
  assert (get_link id c = Done l c) as Hget by (unfold get_link; by rewrite Hl).
  destruct (ev_kind ev) as [state| | |]; try (by intros [= <-]).
  destruct (decide (state = JUICE_STATE_CONNECTED \/ state = JUICE_STATE_COMPLETED)) as [Hup|Hnot].
  { rewrite (HandleLinkState_up id l) by done. intros [= <-]. exists (Some (link_up l)). split; [done|by left]. }
  destruct state; cbn [HandleLinkState]; try (exfalso; tauto).
  - rewrite (bind_done _ _ _ _ _ Hget). intros [= <-]. cbn. rewrite (alter_insert_link _ _ l) by done.
    exists (Some (PeerLink.set_connected false l)). split; [done|by left].
  - rewrite (DestroyLink_run id l) by done. intros [= <-]. exists None. split; [done|by right].
  - by intros [= <-].
Qed.

(** The agent of a link that is gone. *)
Lemma agent_gone c c' id l :
  mesh_ok c -> mesh_ok c' -> links c' = delete id (links c) -> links c !! id = Some l ->
  PeerLink.agent l ∉ live_agents (calls c').
Proof.
  intros (_ & st & _ & Hlinked) (_ & st' & Hreplay' & Hlinked') Hlinks Hl. rewrite (replay_live _ st') by done.
  intros [b Hb]%elem_of_dom. destruct (linked_agent _ _ Hlinked' _ _ Hb) as (id' & l' & Hl' & Hagent).
  rewrite Hlinks in Hl'. apply lookup_delete_Some in Hl' as [Hne Hl']. apply Hne.
  by apply (linked_inj _ _ Hlinked id id' l l').
Qed.

(** Dialling: [CreateLink] past its budget check. *)
Lemma CreateLink_spent id c :
  max_connection_attempts <= default 0 (attempts c !! id) ->
  CreateLink id c = Done false (set_attempts (<[id := default 0 (attempts c !! id)]> (attempts c)) c).
Proof.
  intros Hspent. unfold CreateLink. rewrite bind_gets, bind_modify, bool_decide_true by done. done.
Qed.

Lemma CreateLink_run id c :
  default 0 (attempts c !! id) < max_connection_attempts -> links c !! id = None ->
  let n := default 0 (attempts c !! id) in
  let created := create_answer (calls c) (link_config (_ice c)) in
  let c1 := log_calls [juice_create (link_config (_ice c)) id created] c in
  CreateLink id c =
    match created with
    | None => Done false (set_attempts (<[id := n]> (attempts c)) c1)
    | Some a => Done true (set_links (<[id := PeerLink.mk a false false []]> (links c))
                            (set_attempts (<[id := n + 1]> (attempts c)) c1))
    end.
Proof.
  intros Hbudget Hid n created c1. unfold CreateLink.
  rewrite bind_gets, bind_modify, bool_decide_false by lia. rewrite !bind_gets. cbn [_ice set_attempts calls].
  fold created. unfold call_juice. rewrite bind_modify. destruct created as [a|]; [|done].
  rewrite !bind_modify. cbn [attempts set_attempts set_calls]. rewrite insert_insert_eq.
  cbn [links set_links set_attempts set_calls]. by rewrite Hid.
Qed.

Lemma ShareLink_run id l c :
  links c !! id = Some l ->
  let a := PeerLink.agent l in
  let c1 := log_calls [juice_get_local_description a] c in
  ShareLink id c =
    match description_answer (calls c) a with
    | None => Done false c1
    | Some sdp =>
        Done (gather_answer (calls c1) a)
          (log_calls [juice_gather_candidates a]
            (set_tx (tx c ++ FrameMessage (Proto.P2PSignal id Proto.Description (c_str sdp))) c1))
    end.
Proof.
  intros Hl a c1. unfold ShareLink. rewrite (bind_done _ _ _ l c) by (unfold get_link; by rewrite Hl).
  rewrite bind_gets. unfold call_juice. rewrite bind_modify. fold a.
  destruct (description_answer (calls c) a) as [sdp|]; [|done].
  set (c2 := set_tx (tx c ++ FrameMessage (Proto.P2PSignal id Proto.Description (c_str sdp))) c1).
  rewrite (bind_done _ _ _ true c2) by reflexivity.
  rewrite (bind_done _ _ _ l c2); [reflexivity|]. unfold get_link. cbn [links set_tx c2 c1 log_calls set_calls]. by rewrite Hl.
Qed.

(** The first send to a peer: what is left when the dial works, and when not. *)
Definition dialled (id : N) (data : list byte) (c : Client) (ok : bool) (c' : Client) : Prop :=
  let created := create_answer (calls c) (link_config (_ice c)) in
  let n := default 0 (attempts c !! id) in
  view c' = view c /\ attempts c' !! id = Some (match created with Some _ => n + 1 | None => n end) /\
  if ok then exists a sdp, created = Some a /\
      links c' = <[id := PeerLink.mk a false false [data]]> (links c) /\
      tx c' = tx c ++ FrameMessage (Proto.P2PSignal id Proto.Description (c_str sdp))
  else links c' = links c.

Lemma SendP2P_dials id data c :
  ~ bad_send id data c -> links c !! id = None -> default 0 (attempts c !! id) < max_connection_attempts ->
  twp (SendP2P id data) (dialled id data c) c.
Proof.
  intros [Hsize Hmember]%good_send_tests Hid Hbudget. unfold SendP2P. rewrite Hsize. steps. rewrite Hmember.
  steps. apply twp_FindLink. rewrite Hid, bool_decide_false by (by intros []). steps.
  unfold dialled. set (n := default 0 (attempts c !! id)) in *.
  pose proof (CreateLink_run id c Hbudget Hid) as Hcreate. cbv zeta in Hcreate.
  destruct (create_answer (calls c) (link_config (_ice c))) as [a|].
  2:{ eapply twp_intro; [exact Hcreate|]. steps. cbn [negb]. steps. cbn. by rewrite lookup_insert_eq. }
  eapply twp_intro; [exact Hcreate|]. cbn [negb]. steps. set (c1 := set_links _ _).
  assert (links c1 !! id = Some (PeerLink.mk a false false [])) as Hl1 by (cbn; apply lookup_insert_eq).
  assert (delete id (links c1) = links c) as Hundo by (cbn; by rewrite delete_insert_id).
  pose proof (ShareLink_run id _ c1 Hl1) as Hshare. cbv zeta in Hshare. cbn [PeerLink.agent] in Hshare.
  destruct (description_answer (calls c1) a) as [sdp|].
  2:{ eapply twp_intro; [exact Hshare|]. steps. cbn [negb]. steps.
      eapply twp_intro; [by eapply DestroyLink_run|]. steps. cbn [negb]. steps. cbn. by rewrite lookup_insert_eq. }
  eapply twp_intro; [exact Hshare|]. destruct (gather_answer _ a); cbn [negb]; steps.
  2:{ eapply twp_intro; [by eapply DestroyLink_run|]. steps. cbn [negb]. steps. cbn. by rewrite lookup_insert_eq. }
  cbn [negb]. steps. eapply twp_get_link; [exact Hl1|]. cbn [PeerLink.connected negb]. steps. unfold update_link. steps.
  cbn. rewrite lookup_insert_eq. split_and!; [done|done|]. exists a, sdp. split_and!; [done| |done].
  rewrite (alter_insert_link _ _ (PeerLink.mk a false false [])) by apply lookup_insert_eq.
  by rewrite insert_insert_eq.
Qed.

(** The link a description applies to as it is: one without a description yet. *)
Definition waiting_link (id : N) (c : Client) : option PeerLink.t :=
  match links c !! id with
  | Some l => if PeerLink.remote_set l then None else Some l
  | None => None
  end.

(** Before an inbound dial is answered: the old link is gone, and the budget new. *)
Definition hung_up (id : N) (c : Client) : Client :=
  set_attempts (delete id (attempts c))
    match links c !! id with
    | Some l => set_links (delete id (links c)) (log_calls [juice_destroy (PeerLink.agent l)] c)
    | None => c
    end.

(** After answering with the new agent [a]. *)
Definition answered (id : N) (payload : string) (a : agent) (c c' : Client) : Prop :=
  let c0 := hung_up id c in
  let opening := calls c0 ++ [juice_create (link_config (_ice c)) id (Some a);
    juice_set_remote_description a (c_str payload)] in
  links c' = <[id := PeerLink.mk a true false []]> (links c) /\
  attempts c' = <[id := 1]> (attempts c) /\
  match description_answer opening a with
  | None => tx c' = tx c /\ calls c' = opening ++ [juice_get_local_description a]
  | Some sdp =>
      tx c' = tx c ++ FrameMessage (Proto.P2PSignal id Proto.Description (c_str sdp)) /\
      calls c' = opening ++ [juice_get_local_description a; juice_gather_candidates a]
  end.

Lemma hung_up_links id c : links (hung_up id c) = delete id (links c).
Proof.
  unfold hung_up. destruct (links c !! id) as [l|] eqn:Hl; cbn; [done|]. symmetry. by apply delete_id.
Qed.

Lemma hung_up_same id c :
  _ice (hung_up id c) = _ice c /\ tx (hung_up id c) = tx c /\ view (hung_up id c) = view c /\
  events (hung_up id c) = events c /\
  attempts (hung_up id c) = delete id (attempts c).
Proof. unfold hung_up. by destruct (links c !! id). Qed.

Lemma description_waiting id payload c l :
  waiting_link id c = Some l ->
  HandleP2PSignal id Proto.Description payload c = Done tt
    (set_links (<[id := PeerLink.set_remote_set true l]> (links c))
      (log_calls [juice_set_remote_description (PeerLink.agent l) (c_str payload)] c)).
Proof.
  unfold waiting_link. destruct (links c !! id) as [l0|] eqn:Hl; [|done].
  destruct (PeerLink.remote_set l0) eqn:Hset; [done|]. intros [= <-].
  assert (get_link id c = Done l0 c) as Hget by (unfold get_link; by rewrite Hl).
  unfold HandleP2PSignal. rewrite (bind_done _ _ _ true c).
  2:{ unfold FindLink. by rewrite bind_gets, Hl, bool_decide_true by done. }
  rewrite bool_decide_true by done. unfold HandleP2PDescription.
  rewrite (bind_done _ _ _ true c) by (rewrite (bind_done _ _ _ _ _ Hget); by rewrite Hset). cbn [negb].
  rewrite (bind_done _ _ _ true c) by done. cbn [negb]. rewrite (bind_done _ _ _ _ _ Hget), Hset. cbn [negb].
  unfold call_juice, update_link. erewrite (bind_done _ _ _ tt); [reflexivity|].
  rewrite bind_modify. unfold modify. cbn. by rewrite (alter_insert_link _ _ l0).
Qed.

(** The answer itself, from the state in which there is no link. *)
Lemma description_answers id payload c :
  waiting_link id c = None ->
  twp (HandleP2PSignal id Proto.Description payload) (fun _ c' => view c' = view c /\ events c' = events c /\
    match create_answer (calls (hung_up id c)) (link_config (_ice c)) with
    | None => links c' = delete id (links c) /\ tx c' = tx c
    | Some a => answered id payload a c c'
    end) c.
Proof.
  intros Hwaiting. unfold HandleP2PSignal. steps. apply twp_FindLink. rewrite bool_decide_true by done.
  unfold HandleP2PDescription. steps.
  assert (twp (if bool_decide (is_Some (links c !! id)) then
       l ← get_link id; if PeerLink.remote_set l then DestroyLink id ;; ret false else ret true
     else ret false) (fun link c1 => link = false /\
       set_attempts (delete id (attempts c1)) c1 = hung_up id c) c) as Hhang.
  { unfold waiting_link, hung_up in *. destruct (links c !! id) as [l|] eqn:Hl.
    - rewrite bool_decide_true by done. steps. eapply twp_get_link; [exact Hl|].
      destruct (PeerLink.remote_set l); [|done]. steps.
      eapply twp_intro; [by apply DestroyLink_run|]. by steps.
    - rewrite bool_decide_false by (by intros []). by steps. }
  eapply twp_mono; [exact Hhang|]. clear Hhang. intros link c1 [-> Hc1]. cbn [negb]. steps. rewrite Hc1.
  destruct (hung_up_same id c) as (Hice & Htx & Hview & Hevents & Htries). pose proof (hung_up_links id c) as Hlinks.
  unfold answered. set (c0 := hung_up id c) in *. clearbody c0. cbv zeta. rewrite <-Htx, <-Hview, <-Hevents.
  assert (default 0 (attempts c0 !! id) = 0) as Hzero by (by rewrite Htries, lookup_delete_eq).
  assert (links c0 !! id = None) as Hnone by (by rewrite Hlinks, lookup_delete_eq).
  pose proof (CreateLink_run id c0 ltac:(by rewrite Hzero) Hnone) as Hcreate. cbv zeta in Hcreate.
  rewrite Hice, Hzero in Hcreate.
  destruct (create_answer (calls c0) (link_config (_ice c))) as [a|].
  2:{ eapply twp_intro; [exact Hcreate|]. cbn [negb]. by steps. }
  eapply twp_intro; [exact Hcreate|]. cbn [negb]. steps. set (c2 := set_links _ _).
  assert (links c2 !! id = Some (PeerLink.mk a false false [])) as Hl2 by (cbn; apply lookup_insert_eq).
  eapply twp_get_link; [exact Hl2|]. cbn [PeerLink.remote_set PeerLink.agent negb]. unfold call_juice, update_link. steps.
  set (c3 := set_links _ _).
  assert (links c3 = <[id := PeerLink.mk a true false []]> (links c)) as Hlinks3.
  { cbn [links set_links set_calls c3]. rewrite (alter_insert_link _ _ _ _ Hl2). cbn.
    by rewrite insert_insert_eq, Hlinks, insert_delete_eq. }
  assert (links c3 !! id = Some (PeerLink.mk a true false [])) as Hl3 by (rewrite Hlinks3; apply lookup_insert_eq).
  assert (calls c3 = calls c0 ++ [juice_create (link_config (_ice c)) id (Some a);
    juice_set_remote_description a (c_str payload)]) as Hcalls3 by (cbn; by rewrite <-app_assoc).
  assert (attempts c3 = <[id := 1]> (attempts c)) as Htries3 by (cbn; by rewrite Htries, insert_delete_eq).
  pose proof (ShareLink_run id _ c3 Hl3) as Hshare. cbv zeta in Hshare. cbn [PeerLink.agent] in Hshare.
  assert (tx c3 = tx c0 /\ view c3 = view c0 /\ events c3 = events c0) as (Htx3 & Hview3 & Hevents3) by done.
  rewrite Hcalls3, Htx3 in Hshare. clearbody c3 c2.
  destruct (description_answer _ a) as [sdp|]; (eapply twp_intro; [exact Hshare|]); steps;
    (split; [exact Hview3|]; split; [exact Hevents3|]); cbn; rewrite Hcalls3, Hlinks3, Htries3, <-?app_assoc; done.
Qed.
End Rules.

(** ** Properties *)

(** Claim C21: a client uses the ICE library by its rules, whatever the server, the
    peers and the application do.  In every reachable state the calls made so
    far were each on an agent that was created and not yet destroyed, and none
    gave an agent a second remote description; the agents that exist are
    exactly those of the client's links, one each; no peer's budget of attempts
    is exceeded; and destroying the client destroys every agent. *)
Theorem juice_used_by_its_rules `{!Juice} (c : Client) :
  client_reachable c ->
  (exists st, replay (calls c) = Some st /\ linked st (links c) /\ live_agents (calls c) = dom st)
  /\ (forall id n, attempts c !! id = Some n -> n <= max_connection_attempts)
  /\ exists c', DestroyAllLinks c = Done tt c' /\ links c' = ∅ /\ live_agents (calls c') = ∅.
Proof.
  intros Hc%reachable_mesh_ok. pose proof Hc as (Hbudget & st & Hreplay & Hlinked). split_and!.
  - exists st. split_and!; [done..|by apply replay_live].
  - intros id n Hn. by apply (Hbudget id).
  - destruct (twp_done _ _ _ (twp_DestroyAllLinks c Hc)) as ([] & c' & Hrun & (Hl & _ & Hr) & _).
    exists c'. split_and!; [done..|]. by rewrite (replay_live _ ∅), dom_empty_L.
Qed.

(** Client 4 in a room with client 7, and what was sent to it; then the same
    after a poll in which the link came up. *)
Module DemoMesh.
Definition msgs : list Proto.ServerMessage :=
  [Proto.AssignClientId 4; Proto.AssignRoomId "WXYZ"; Proto.PeerJoined 7].
Definition run {A} (m : M Client A) (c : Client) : Client :=
  match m c with Done _ c' => c' | _ => c end.

Definition joined : Client := run (@Poll DemoClient.juice [frame_all msgs] false []) DemoClient.client.
Definition queued : Client := run (@SendP2P DemoClient.juice 7 [x01]) joined.
Definition up : Client :=
  run (@Poll DemoClient.juice [] false []) (OnJuiceState 0 JUICE_STATE_CONNECTED 7 queued).

Lemma run_reachable {A} (m : M Client A) c :
  (forall a c', m c = Done a c' -> @client_step DemoClient.juice c c') ->
  @client_reachable DemoClient.juice c -> @client_reachable DemoClient.juice (run m c).
Proof.
  intros Hm Hc. unfold run. destruct (m c) as [a c'| |] eqn:Hrun; [|done..].
  apply (reachable_step c); [done|by apply (Hm a)].
Qed.

Lemma joined_reachable : @client_reachable DemoClient.juice joined.
Proof. apply run_reachable; [intros ok c'; by apply step_poll|exact DemoClient.reachable]. Qed.
Lemma queued_reachable : @client_reachable DemoClient.juice queued.
Proof. apply run_reachable; [intros ok c'; by apply step_send_p2p|exact joined_reachable]. Qed.
Lemma up_reachable : @client_reachable DemoClient.juice up.
Proof.
  apply run_reachable; [intros ok c'; by apply step_poll|].
  apply (reachable_step queued); [exact queued_reachable|]. apply step_callback.
Qed.
End DemoMesh.

Lemma juice_used_by_its_rules_witness :
  calls DemoMesh.up = [juice_create (mkJuiceConfig None []) 7 (Some 0); juice_get_local_description 0;
    juice_gather_candidates 0; juice_send 0 [x01]] /\
  exists st, replay (calls DemoMesh.up) = Some st /\ live_agents (calls DemoMesh.up) = dom st.
Proof.
  split; [vm_compute; reflexivity|].
  destruct (@juice_used_by_its_rules DemoClient.juice DemoMesh.up DemoMesh.up_reachable)
    as ((st & Hreplay & _ & Hlive) & _).
  exists st. split; [exact Hreplay|exact Hlive].
Defined.

(** Claim C29: what [SendP2P] does, case by case.  An empty or over-long datagram,
    one to oneself and one to a client that is no member of the room are
    refused without any effect; a datagram over a link that is up is handed to
    its agent at once, and over one that is not it is queued behind the others;
    the first datagram to a peer dials, unless the peer's budget is spent: the
    attempt counts when an agent was made, and either the link is left with
    the datagram queued and the description on its way to the peer, or no link
    is left. *)
Theorem send_p2p_outcome `{!Juice} (id : N) (data : list byte) (c : Client) :
  (bad_send id data c -> SendP2P id data c = Done false c) /\
  (~ bad_send id data c ->
    match links c !! id with
    | Some l =>
        SendP2P id data c =
          if PeerLink.connected l
          then Done (send_answer (calls c) (PeerLink.agent l) data)
                 (log_calls [juice_send (PeerLink.agent l) data] c)
          else Done true
                 (set_links (<[id := PeerLink.set_outbox (PeerLink.outbox l ++ [data]) l]> (links c)) c)
    | None =>
        if bool_decide (max_connection_attempts <= default 0 (attempts c !! id))
        then exists c', SendP2P id data c = Done false c' /\
               links c' = links c /\ calls c' = calls c /\ tx c' = tx c /\ view c' = view c
        else exists ok c', SendP2P id data c = Done ok c' /\ dialled id data c ok c'
    end).
Proof.
  split; [apply SendP2P_refused|]. intros Hgood. destruct (links c !! id) as [l|] eqn:Hl.
  - by apply SendP2P_accepted.
  - case_bool_decide as Hbudget; [|apply twp_done, SendP2P_dials; (done || lia)].
    exists (set_attempts (<[id := default 0 (attempts c !! id)]> (attempts c)) c). split_and!; try done.
    apply good_send_tests in Hgood as [Hsize Hmember]. unfold SendP2P. rewrite Hsize, bind_gets, Hmember.
    rewrite (bind_done _ _ _ false c). 2:{ unfold FindLink. by rewrite bind_gets, Hl, bool_decide_false by (by intros []). }
    erewrite (bind_done _ _ _ false); [reflexivity|]. erewrite (bind_done _ _ _ false); [reflexivity|].
    by apply CreateLink_spent.
Qed.

(** The first datagram from client 4 to client 7. *)
Lemma send_p2p_outcome_witness :
  ~ bad_send 7 [x01] DemoMesh.joined /\
  exists ok c', @SendP2P DemoClient.juice 7 [x01] DemoMesh.joined = Done ok c' /\
    @dialled DemoClient.juice 7 [x01] DemoMesh.joined ok c' /\ ok = true.
Proof.
  assert (~ bad_send 7 [x01] DemoMesh.joined) as Hgood.
  { apply (bool_decide_unpack _). vm_compute. exact I. }
  split; [exact Hgood|].
  destruct (@send_p2p_outcome DemoClient.juice 7 [x01] DemoMesh.joined) as [_ H]. specialize (H Hgood).
  change (links DemoMesh.joined) with (∅ : gmap N PeerLink.t) in H.
  change (attempts DemoMesh.joined) with (∅ : gmap N N) in H. rewrite !lookup_empty in H. cbn [default] in H.
  rewrite bool_decide_false in H by (unfold max_connection_attempts; lia). destruct H as (ok & c' & Hrun & Hdialled).
  exists ok, c'. split_and!; [exact Hrun|exact Hdialled|]. vm_compute in Hrun. by injection Hrun.
Defined.

(** Datagrams are neither lost, repeated nor reordered by a link that is
    not up yet.  Every datagram accepted while the link is down waits; when the
    agent of that link reports a connection, all of them, those queued before
    first, are handed to the agent once each and in the order of the sends,
    the queue is empty, and the peer's budget of attempts is new. *)
Theorem queued_datagrams_are_flushed `{!Juice} (id : N) (datas : list (list byte)) (state : juice_state)
    (l : PeerLink.t) (c : Client) :
  links c !! id = Some l -> PeerLink.connected l = false ->
  (forall data, data ∈ datas -> ~ bad_send id data c) ->
  state = JUICE_STATE_CONNECTED \/ state = JUICE_STATE_COMPLETED ->
  exists c', (for_each datas (fun data => SendP2P id data ;; ret tt) ;;
              HandleJuiceEvent (mkJuiceEvent (PeerLink.agent l) id (State state))) c = Done tt c' /\
    calls c' = calls c ++ (juice_send (PeerLink.agent l) <$> PeerLink.outbox l ++ datas) /\
    links c' !! id = Some (PeerLink.mk (PeerLink.agent l) (PeerLink.remote_set l) true []) /\
    attempts c' !! id = None.
Proof.
  intros Hl Hdown Hgood Hstate. set (l1 := PeerLink.set_outbox (PeerLink.outbox l ++ datas) l).
  set (c1 := set_links (<[id := l1]> (links c)) c).
  assert (links c1 !! id = Some l1) as Hl1 by (cbn; apply lookup_insert_eq).
  rewrite (bind_done _ _ _ tt c1) by (by apply queue_run).
  rewrite (HandleJuiceEvent_own _ c1 l1) by done. cbn [ev_kind ev_peer].
  rewrite (HandleLinkState_up id l1) by done.
  eexists. split; [done|]. cbn. split_and!; [done|apply lookup_insert_eq|apply lookup_delete_eq].
Qed.

(** Two more datagrams behind the one that waits; then the link comes up. *)
Lemma queued_datagrams_are_flushed_witness :
  exists c', (for_each [[x02]; [x03]] (fun data => @SendP2P DemoClient.juice 7 data ;; ret tt) ;;
      HandleJuiceEvent (mkJuiceEvent 0 7 (State JUICE_STATE_CONNECTED))) DemoMesh.queued = Done tt c' /\
    calls c' = calls DemoMesh.queued ++ [juice_send 0 [x01]; juice_send 0 [x02]; juice_send 0 [x03]].
Proof.
  destruct (@queued_datagrams_are_flushed DemoClient.juice 7 [[x02]; [x03]] JUICE_STATE_CONNECTED
    (PeerLink.mk 0 false false [[x01]]) DemoMesh.queued) as (c' & Hrun & Hcalls & _).
  - reflexivity.
  - reflexivity.
  - intros data Hdata. apply list_elem_of_In in Hdata.
    destruct Hdata as [<-|[<-|[]]]; apply (bool_decide_unpack _); vm_compute; exact I.
  - left. reflexivity.
  - exists c'. split; [exact Hrun|exact Hcalls].
Defined.

(** An event of the ICE library reaches one peer's link and nothing else.
    If the peer has no link, or a link whose agent is not the one that queued
    the event, the event is dropped without any effect; otherwise it changes
    no other link, no room state and no message queue, it ends, and it is
    never undefined. *)
Theorem juice_event_isolation `{!Juice} (ev : JuiceEvent) (c : Client) :
  client_reachable c ->
  exists c', HandleJuiceEvent ev c = Done tt c' /\ view c' = view c /\
    (forall id, id <> ev_peer ev -> links c' !! id = links c !! id) /\
    (PeerLink.agent <$> links c !! ev_peer ev <> Some (ev_agent ev) -> c' = c) /\
    (PeerLink.agent <$> links c' !! ev_peer ev = PeerLink.agent <$> links c !! ev_peer ev \/
     links c' !! ev_peer ev = None).
Proof.
  intros Hc%reachable_mesh_ok.
  destruct (twp_done _ _ _ (twp_HandleJuiceEvent ev c Hc)) as ([] & c' & Hrun & _ & Hview).
  exists c'. split; [done|]. split; [done|].
  destruct (decide (PeerLink.agent <$> links c !! ev_peer ev = Some (ev_agent ev))) as [Hown|Hstray].
  - apply fmap_Some in Hown as (l & Hl & Hagent).
    destruct (HandleJuiceEvent_links ev l c c' Hl (eq_sym Hagent) Hrun) as (o & -> & Ho). split_and!.
    + intros id Hne. by apply lookup_partial_alter_ne.
    + rewrite Hl. cbn. congruence.
    + rewrite lookup_partial_alter_eq, Hl. cbn. tauto.
  - rewrite HandleJuiceEvent_stray in Hrun by (intros l Hl Heq; apply Hstray; by rewrite Hl, <-Heq).
    injection Hrun as <-. by split_and!; [| |left].
Qed.

(** An event for a peer without a link. *)
Lemma juice_event_isolation_witness :
  exists c', HandleJuiceEvent (mkJuiceEvent 0 8 (Recv [x01])) DemoMesh.up = Done tt c' /\
    c' = DemoMesh.up.
Proof.
  destruct (@juice_event_isolation DemoClient.juice (mkJuiceEvent 0 8 (Recv [x01])) DemoMesh.up
    DemoMesh.up_reachable) as (c' & Hrun & _ & _ & Hstray & _).
  exists c'. split; [exact Hrun|]. apply Hstray. vm_compute. discriminate.
Defined.

(** Claim C37: a rebuilt link can take an event that was queued for the link it
    replaced.  The code tells stale events by the agent's address, and the ICE
    library may make the new agent at the address of the one just destroyed.
    When a peer redials while the client's link to it is up and the old agent's
    last event is a report of a connection, the new link, whose agent has
    reported nothing yet, is marked as connected by the next poll. *)
Theorem rebuilt_link_takes_stale_event `{!Juice} (id : N) (payload : string) (state : juice_state)
    (l : PeerLink.t) (c : Client) :
  client_reachable c ->
  links c !! id = Some l -> PeerLink.remote_set l = true ->
  events c = [mkJuiceEvent (PeerLink.agent l) id (State state)] ->
  state = JUICE_STATE_CONNECTED \/ state = JUICE_STATE_COMPLETED ->
  create_answer (calls c ++ [juice_destroy (PeerLink.agent l)]) (link_config (_ice c)) = Some (PeerLink.agent l) ->
  exists c1 c2,
    HandleP2PSignal id Proto.Description payload c = Done tt c1 /\
    links c1 !! id = Some (PeerLink.mk (PeerLink.agent l) true false []) /\
    PollPeers c1 = Done tt c2 /\ PeerConnectedP2P id c2 = true.
Proof.
  intros _ Hl Hset Hevents Hstate Hreuse.
  assert (waiting_link id c = None) as Hwaiting by (unfold waiting_link; by rewrite Hl, Hset).
  destruct (twp_done _ _ _ (description_answers id payload c Hwaiting)) as ([] & c1 & Hrun & _ & Hevents1 & Hanswer).
  assert (calls (hung_up id c) = calls c ++ [juice_destroy (PeerLink.agent l)]) as Hcalls
    by (unfold hung_up; by rewrite Hl).
  rewrite Hcalls, Hreuse in Hanswer. destruct Hanswer as (Hlinks & _).
  set (l1 := PeerLink.mk (PeerLink.agent l) true false []) in *.
  assert (links c1 !! id = Some l1) as Hl1 by (rewrite Hlinks; apply lookup_insert_eq).
  eexists c1, _. split; [done|]. split; [done|]. split.
  - unfold PollPeers. rewrite bind_gets, bind_modify, Hevents1, Hevents. cbn [for_each].
    erewrite (bind_done (HandleJuiceEvent _)); [reflexivity|].
    rewrite (HandleJuiceEvent_own _ _ l1) by done. cbn [ev_kind ev_peer].
    by apply (HandleLinkState_up id l1).
  - unfold PeerConnectedP2P. cbn. by rewrite lookup_insert_eq.
Qed.

(** The library makes its agents at the lowest free address.  The link to client
    7 has its description; its agent reports a connection, and before the next
    poll client 7 redials. *)
Lemma rebuilt_link_takes_stale_event_witness :
  let described := DemoMesh.run (@Poll DemoClient.juice [FrameMessage (Proto.P2PSignal 7 Proto.Description "sdp")]
    false []) DemoMesh.queued in
  let c := OnJuiceState 0 JUICE_STATE_CONNECTED 7 described in
  exists c1 c2, @HandleP2PSignal DemoClient.juice 7 Proto.Description "sdp2" c = Done tt c1 /\
    links c1 !! 7 = Some (PeerLink.mk 0 true false []) /\
    PollPeers c1 = Done tt c2 /\ PeerConnectedP2P 7 c2 = true.
Proof.
  intros described c.
  apply (@rebuilt_link_takes_stale_event DemoClient.juice 7 "sdp2" JUICE_STATE_CONNECTED
    (PeerLink.mk 0 true false [[x01]]) c).
  - apply (reachable_step described); [|apply step_callback].
    apply DemoMesh.run_reachable; [intros ok c'; apply step_poll|exact DemoMesh.queued_reachable].
  - vm_compute. reflexivity.
  - reflexivity.
  - vm_compute. reflexivity.
  - left. reflexivity.
  - vm_compute. reflexivity.
Defined.

(** How a description from a peer is taken.  A link that has none yet
    takes it, and nothing is sent.  Otherwise the peer is dialling: an old link
    of the client is torn down, the budget starts anew, one agent is made, it
    gets the description before anything else and then its own is sent to the
    peer, once; if no agent can be made, no link is left. *)
Theorem description_outcome `{!Juice} (id : N) (payload : string) (c : Client) :
  exists c', HandleP2PSignal id Proto.Description payload c = Done tt c' /\ view c' = view c /\
    match waiting_link id c with
    | Some l =>
        c' = set_links (<[id := PeerLink.set_remote_set true l]> (links c))
               (log_calls [juice_set_remote_description (PeerLink.agent l) (c_str payload)] c)
    | None =>
        match create_answer (calls (hung_up id c)) (link_config (_ice c)) with
        | None => links c' = delete id (links c) /\ tx c' = tx c
        | Some a => answered id payload a c c'
        end
    end.
Proof.
  destruct (waiting_link id c) as [l|] eqn:Hwaiting.
  - eexists. split; [by apply (description_waiting id payload c l)|done].
  - destruct (twp_done _ _ _ (description_answers id payload c Hwaiting)) as ([] & c' & ? & ? & _ & ?). by exists c'.
Qed.

(** Leaving a room ends the mesh.  When the server tells the client that it
    left its room, was kicked or was banned, every link is gone with its agent
    and its budget, and the cached room is empty; when another member leaves,
    its link, agent and budget are gone and everyone else's are untouched. *)
Theorem departure_ends_links `{!Juice} (msg : Proto.ServerMessage) (c : Client) :
  client_reachable c -> cacheable msg ->
  exists c', Incoming msg c = Done tt c' /\
    (msg = Proto.PeerLeft (my_id c) \/ msg = Proto.KickedByHost \/ msg = Proto.BannedByHost ->
      mesh_empty c' /\ _room_cache c' = clear_room_state (_room_cache c)) /\
    (forall id, msg = Proto.PeerLeft id -> id <> my_id c ->
      links c' = delete id (links c) /\ attempts c' = delete id (attempts c) /\
      (forall l, links c !! id = Some l -> PeerLink.agent l ∉ live_agents (calls c'))).
Proof.
  intros Hc%reachable_mesh_ok Hcacheable.
  destruct (twp_done _ _ _ (twp_Incoming msg c Hc Hcacheable)) as ([] & c' & Hrun & Hc' & Hview). exists c'. split; [done|].
  apply view_inv in Hview as (Hcache & _). split.
  - assert (twp ClearRoomState (fun _ c' => mesh_empty c') c) as Hclear.
    { eapply twp_mono; [by apply twp_ClearRoomState|]. by intros [] c1 [? _]. }
    intros Hmsg. assert (CacheRoomState msg c = ClearRoomState c) as Hdispatch.
    { destruct Hmsg as [->|[->| ->]]; [|done..]. cbn [CacheRoomState]. by rewrite bind_gets, bool_decide_true. }
    assert (Incoming msg c = (ClearRoomState ;; modify (fun c => set_inbox (_inbox c ++ [msg]) c)) c) as Hin.
    { assert (Incoming msg c = (CacheRoomState msg ;; modify (fun c => set_inbox (_inbox c ++ [msg]) c)) c) as ->
        by (by destruct Hmsg as [->|[->| ->]]).
      unfold mbind, M_bind, bind. by rewrite Hdispatch. }
    split.
    + destruct (twp_done _ _ _ Hclear) as ([] & c1 & Hrun1 & Hempty).
      rewrite Hin, (bind_done _ _ _ _ _ Hrun1) in Hrun. by injection Hrun as <-.
    + rewrite Hcache. destruct Hmsg as [->|[->| ->]]; cbn; by rewrite ?bool_decide_true.
  - intros id -> Hne.
    assert (twp (CacheRoomState (Proto.PeerLeft id)) (fun _ c1 =>
      links c1 = delete id (links c) /\ attempts c1 = delete id (attempts c)) c) as Hcached.
    { cbn [CacheRoomState]. steps. rewrite bool_decide_false by done. steps.
      eapply twp_mono; [apply twp_DestroyLink; by apply (mesh_ok_ext c)|].
      intros [] c1 (_ & Hlinks & Htries & _). steps. cbn. by rewrite Hlinks, Htries. }
    destruct (twp_done _ _ _ Hcached) as ([] & c1 & Hrun1 & Hlinks & Htries).
    cbn [Incoming] in Hrun. rewrite (bind_done _ _ _ _ _ Hrun1) in Hrun. injection Hrun as <-.
    split_and!; [done..|]. intros l Hl. by apply (agent_gone c _ id l).
Qed.

(** Client 7 leaves; then the server confirms the client's own leave. *)
Lemma departure_ends_links_witness :
  exists c', @Incoming DemoClient.juice (Proto.PeerLeft 7) DemoMesh.up = Done tt c' /\ links c' = ∅ /\
    0 ∉ live_agents (calls c') /\
  exists c'', @Incoming DemoClient.juice (Proto.PeerLeft 4) DemoMesh.up = Done tt c'' /\ mesh_empty c''.
Proof.
  destruct (@departure_ends_links DemoClient.juice (Proto.PeerLeft 7) DemoMesh.up DemoMesh.up_reachable I)
    as (c' & Hrun & _ & Hleft). destruct (Hleft 7) as (Hlinks & _ & Hgone); [reflexivity|vm_compute; discriminate|].
  destruct (@departure_ends_links DemoClient.juice (Proto.PeerLeft 4) DemoMesh.up DemoMesh.up_reachable I)
    as (c'' & Hrun' & Hself & _). destruct Hself as [Hempty _]; [left; reflexivity|].
  exists c'. split; [exact Hrun|]. split; [rewrite Hlinks; reflexivity|]. split.
  - apply (Hgone (PeerLink.mk 0 false true [])). reflexivity.
  - exists c''. split; [exact Hrun'|exact Hempty].
Defined.
