(* ===== verification/Session.v ===== *)
(** The server's coroutines: [AcceptLoop], [Session], [ReadLoop] and [WriteLoop]
    ([Server/src/weyvelength_server.cpp]).

    All of them run on the one thread of the io context, so that the code
    between two suspension points is a step nothing interleaves with.  A
    coroutine that is suspended is a value, the point it is suspended at with
    its local variables; [sys_step] is the choice of the io context which
    suspended operation completes next, together with what the network does.
    [co_spawn] runs the new coroutine at once, up to its first suspension, or
    after the caller: [Session] is a step of its own after [AcceptLoop]'s, and
    [WriteLoop] starts inside [Session], where it finds an empty queue. *)
From S2P Require Import Prelude Wire Protocol Framing Stream RoomCache Server.
Local Open Scope N_scope.

(** ** Start-up *)

(** The calls [Init] makes on the acceptor; whether each sets its [error_code]
    is the environment's answer. *)
Inductive acceptor_call : Type :=
| AcceptorOpen
| AcceptorReuseAddress
| AcceptorBind (port : N)
| AcceptorListen.

(** The default member initialisers. *)
Definition server_new : Server :=
  mkServer ∅ 0%nat ∅ ∅ 1 (mkServerConfig 0 0 (Proto.mkIceServers "" 0 [])) 0%nat.

Definition set_config (cfg : ServerConfig) (s : Server) : Server :=
  mkServer (heap s) (heap_next s) (connections s) (rooms s) (next_id s) cfg (rng s).

Definition Init (ec : acceptor_call -> bool) (cfg : ServerConfig) (s : Server) : bool * Server :=
  let s := set_config cfg s in
  let s := if bool_decide (room_code_length (config s) = 0)
           then set_config (mkServerConfig (port (config s)) 8 (ice (config s))) s
           else s in
  if ec AcceptorOpen then (false, s)
  else if ec AcceptorReuseAddress then (false, s)
  else if ec (AcceptorBind (port cfg)) then (false, s)
  else if ec AcceptorListen then (false, s)
  else (true, s).

(** ** Suspended coroutines *)

(** [ReadLoop]: the two [async_read]s. *)
Inductive read_point : Type :=
| AwaitHeader
| AwaitBody (len : N) (more : bool).

(** [Session], with the variable [body] of the [ReadLoop] it awaits. *)
Inductive session_point : Type :=
| Spawned
| Reading (body : list byte) (at_point : read_point)
| Ended.

(** [WriteLoop]: suspended in [async_wait] - the timer's wait is pending while
    [Connection.wake] is true, and its handler is queued once it is false - or
    in [async_write] with the frame it moved out of the queue. *)
Inductive writer_point : Type :=
| NotSpawned
| Waiting
| Writing (frame : list byte)
| Finished.
#[export] Instance writer_point_eq_dec : EqDecision writer_point.
Proof. solve_decision. Defined.

Module Task.
Record t : Type := mk {
  session : session_point;
  writer : writer_point
}.
End Task.

Record Sys : Type := mkSys {
  server : Server;
  tasks : gmap ptr Task.t;
  accepting : bool
}.

(** ** The code between suspension points *)

Definition set_sk_in (v : list byte) (k : Socket) : Socket := mkSocket (sk_open k) v (sk_out k).
Definition set_sk_out (v : list byte) (k : Socket) : Socket := mkSocket (sk_open k) (sk_in k) v.
Definition close_socket (k : Socket) : Socket := mkSocket false (sk_in k) (sk_out k).

Definition update_socket (conn : ptr) (f : Socket -> Socket) (s : Server) : Server :=
  update_conn conn (fun c => Connection.set_socket (f (Connection.socket c)) c) s.

(** The body of [AcceptLoop]'s loop, once a socket was accepted. *)
Definition accept_connection (s : Server) : Server :=
  let id := next_id s in
  let conn := Connection.mk id "" (mkSocket true [] []) [] false false in
  mkServer (<[heap_next s := conn]> (heap s)) (S (heap_next s)) (emplace id (heap_next s) (connections s))
    (rooms s) ((next_id s + 1) mod 2 ^ 32) (config s) (rng s).

(** [WriteLoop] from the test of its loop to the next suspension. *)
Definition write_loop (conn : ptr) : M Server writer_point :=
  c ← get_conn conn;
  if Connection.closing c then ret Finished
  else
    match Connection.out c with
    | [] =>
        modify (update_conn conn (Connection.set_wake true)) ;;
        ret Waiting
    | frame :: rest =>
        modify (update_conn conn (Connection.set_out rest)) ;;
        ret (Writing frame)
    end.

(** [Session] up to [ReadLoop]'s first suspension. *)
Definition session_start (conn : ptr) : M Server writer_point :=
  w ← write_loop conn;
  c ← get_conn conn;
  SendTo (Connection.id c) (Proto.AssignClientId (Connection.id c)) ;;
  cfg ← gets config;
  SendTo (Connection.id c) (Proto.IceServersMsg (ice cfg)) ;;
  ret w.

(** [Session] after [ReadLoop] returned or threw. *)
Definition session_end (conn : ptr) : M Server unit :=
  modify (update_conn conn (Connection.set_closing true)) ;;
  modify (update_conn conn (Connection.set_wake false)) ;;
  modify (update_socket conn close_socket) ;;
  Server.LeaveRoom conn ;;
  c ← get_conn conn;
  modify (fun s => set_connections (delete (Connection.id c) (connections s)) s) ;;
  spdlog_info (Connection.id c).

(** What [ReadLoop] does next: wait for more bytes, handle a message and go on,
    or return. *)
Inductive read_action : Type :=
| Await (body : list byte) (at_point : read_point)
| Handle (msg : Proto.ServerMessage)
| Return.

(** After the header was read. *)
Definition on_header (body header : list byte) : read_action :=
  match DecodeFrameHeader header with
  | None => Return
  | Some (len, more) =>
      let base := sizeN body in
      if bool_decide (max_reassembled_size < base + len) then Return
      else Await body (AwaitBody len more)
  end.

(** After the fragment was read behind [body]. *)
Definition on_body (body payload : list byte) (more : bool) : read_action :=
  let body' := body ++ payload in
  if more then Await body' AwaitHeader
  else
    match deserialize body' with
    | Err _ => Return
    | Ok msg => Handle msg
    end.

Section Coroutines.
Context `{!RoomRng}.

(** The bytes the pending [async_read] needs. *)
Definition needed (at_point : read_point) : N :=
  match at_point with
  | AwaitHeader => frame_header_size
  | AwaitBody len _ => len
  end.

Definition on_read (body bytes : list byte) (at_point : read_point) : read_action :=
  match at_point with
  | AwaitHeader => on_header body bytes
  | AwaitBody len more => on_body body bytes more
  end.

(** [ReadLoop] from a completed read to the next one or to the end of the
    session. *)
Definition read_loop (fuel : nat) (conn : ptr) (body : list byte) (at_point : read_point) :
    M Server session_point :=
  c ← get_conn conn;
  let received := sk_in (Connection.socket c) in
  modify (update_socket conn (set_sk_in (drop (N.to_nat (needed at_point)) received))) ;;
  match on_read body (take (N.to_nat (needed at_point)) received) at_point with
  | Await body' at_point' => ret (Reading body' at_point')
  | Handle msg => HandleMessage fuel conn msg ;; ret (Reading [] AwaitHeader)
  | Return => session_end conn ;; ret Ended
  end.

(** ** The system *)

Definition with_task (conn : ptr) (t : Task.t) (s : Server) (y : Sys) : Sys :=
  mkSys s (<[conn := t]> (tasks y)) (accepting y).

(** [AcceptLoop] is spawned and waits for the first socket. *)
Definition Run (s : Server) : Sys := mkSys s ∅ true.

(** The completion of an operation some coroutine of a session waits for. *)
Inductive io_work : Sys -> Sys -> Prop :=
| step_session y conn w s' :
    tasks y !! conn = Some (Task.mk Spawned NotSpawned) ->
    session_start conn (server y) = Done w s' ->
    io_work y (with_task conn (Task.mk (Reading [] AwaitHeader) w) s' y)
| step_read y conn c body at_point w fuel p' s' :
    tasks y !! conn = Some (Task.mk (Reading body at_point) w) ->
    heap (server y) !! conn = Some c ->
    needed at_point <= sizeN (sk_in (Connection.socket c)) ->
    read_loop fuel conn body at_point (server y) = Done p' s' ->
    io_work y (with_task conn (Task.mk p' w) s' y)
| step_woken y conn c p w' s' :
    tasks y !! conn = Some (Task.mk p Waiting) ->
    heap (server y) !! conn = Some c -> Connection.wake c = false ->
    write_loop conn (server y) = Done w' s' ->
    io_work y (with_task conn (Task.mk p w') s' y)
| step_written y conn c p frame w' s' :
    tasks y !! conn = Some (Task.mk p (Writing frame)) ->
    heap (server y) !! conn = Some c -> sk_open (Connection.socket c) = true ->
    write_loop conn (update_socket conn (fun k => set_sk_out (sk_out k ++ frame) k) (server y)) = Done w' s' ->
    io_work y (with_task conn (Task.mk p w') s' y).

(** An operation ends with an error. *)
Inductive io_failure : Sys -> Sys -> Prop :=
| step_read_failed y conn body at_point w s' : (* end of file, reset *)
    tasks y !! conn = Some (Task.mk (Reading body at_point) w) ->
    session_end conn (server y) = Done tt s' ->
    io_failure y (with_task conn (Task.mk Ended w) s' y)
| step_write_failed y conn p frame sent :
    tasks y !! conn = Some (Task.mk p (Writing frame)) ->
    io_failure y (with_task conn (Task.mk p Finished)
      (update_socket conn (fun k => set_sk_out (sk_out k ++ take sent frame) k) (server y)) y).

Inductive io_step (y y' : Sys) : Prop :=
| io_works : io_work y y' -> io_step y y'
| io_fails : io_failure y y' -> io_step y y'.

(** Bytes arrive at a socket. *)
Definition arrive (conn : ptr) (bytes : list byte) (y : Sys) : Sys :=
  mkSys (update_socket conn (fun k => set_sk_in (sk_in k ++ bytes) k) (server y)) (tasks y) (accepting y).

(** [AcceptLoop] takes a socket and spawns its session. *)
Definition accept (y : Sys) : Sys :=
  mkSys (accept_connection (server y)) (<[heap_next (server y) := Task.mk Spawned NotSpawned]> (tasks y)) true.

(** The exception of a failed accept leaves [AcceptLoop]. *)
Definition accept_failed (y : Sys) : Sys := mkSys (server y) (tasks y) false.

Inductive sys_step : Sys -> Sys -> Prop :=
| step_arrive y conn bytes : sys_step y (arrive conn bytes y)
| step_accept y : accepting y = true -> sys_step y (accept y)
| step_accept_failed y : sys_step y (accept_failed y)
| step_io y y' : io_step y y' -> sys_step y y'.

(** A server whose [Init] succeeded, running. *)
Definition sys_init (cfg : ServerConfig) : Sys := Run (Init (fun _ => false) cfg server_new).2.

(** [Run] drives the io context until [Stop], which any thread may call: the
    handler that runs ends, and no other is started. *)
Record Process : Type := mkProcess {
  state : Sys;
  stopped : bool
}.

Definition Stop (r : Process) : Process := mkProcess (state r) true.

Inductive process_step : Process -> Process -> Prop :=
| process_runs r y' : stopped r = false -> sys_step (state r) y' -> process_step r (mkProcess y' false)
| process_stop r : process_step r (Stop r).
End Coroutines.

(** [main] of the server program: its exit code if [Init] fails, the running
    server otherwise. *)
Definition main_config : ServerConfig :=
  mkServerConfig 5555 0 (Proto.mkIceServers "stun.l.google.com" 19302 []).

Definition main (ec : acceptor_call -> bool) : Z + Sys :=
  let '(ok, s) := Init ec main_config server_new in
  if ok then inr (Run s) else inl 1%Z.
