(* ===== verification/SessionInv.v ===== *)
(** What holds in every reachable state of the server's coroutines.

    [conn_ok] is about one connection: where its session is, what its writer
    waits for, and - the point of it all - that the bytes its client has been
    or will be sent are the frames of messages that build the image of the
    client's room.  [sys_ok] is all of them together with [wf]. *)
From S2P Require Import Prelude Wire Protocol Framing Stream RoomCache Server ServerExec Lobby WellFormed.
From S2P Require Import Refine ServerInv Rules Authority Mirror Sendable Session.
Local Open Scope N_scope.
#[local] Opaque FrameMessage.

(** ** The invariant *)

(** The bytes handed to the socket, the frame being written, the frames queued. *)
Definition pipeline (c : Connection.t) (w : writer_point) : list byte :=
  sk_out (Connection.socket c) ++ (match w with Writing frame => frame | _ => [] end) ++ concat (Connection.out c).

Definition reader_ok (body : list byte) (at_point : read_point) : Prop :=
  match at_point with
  | AwaitHeader => sizeN body <= max_reassembled_size
  | AwaitBody len _ => len <= Proto.max_message_size /\ sizeN body + len <= max_reassembled_size
  end.

(** The client that has read everything sees its room. *)
Definition up_to_date (s : Server) (c : Connection.t) (w : writer_point) : Prop :=
  exists msgs, pipeline c w = frame_all msgs /\ Forall genuine msgs /\
    forall start, blank start -> cache_all start msgs = seen_by s c.

Definition session_ok (s : Server) (p : ptr) (c : Connection.t) (t : Task.t) : Prop :=
  match Task.session t with
  | Spawned =>
      connections s !! Connection.id c = Some p /\ Task.writer t = NotSpawned /\
      Connection.room c = EmptyString /\ Connection.out c = [] /\ Connection.closing c = false /\
      sk_open (Connection.socket c) = true /\ sk_out (Connection.socket c) = []
  | Reading body at_point =>
      connections s !! Connection.id c = Some p /\ Task.writer t <> NotSpawned /\
      Connection.closing c = false /\ sk_open (Connection.socket c) = true /\
      reader_ok body at_point /\ (Task.writer t <> Finished -> up_to_date s c (Task.writer t))
  | Ended =>
      connections s !! Connection.id c = None /\ Task.writer t <> NotSpawned /\
      Connection.room c = EmptyString /\ Connection.closing c = true /\
      sk_open (Connection.socket c) = false
  end.

(** No lost wake-up: a writer whose wait is pending has nothing to do. *)
Definition wake_ok (c : Connection.t) (t : Task.t) : Prop :=
  Connection.wake c = true ->
  Task.writer t = Waiting /\ Connection.out c = [] /\ Connection.closing c = false.

Definition conn_ok (s : Server) (p : ptr) (c : Connection.t) (t : Task.t) : Prop :=
  session_ok s p c t /\ wake_ok c t.

(** Ids are the pointers, counted from one, as long as the counter has not
    wrapped around. *)
Record sys_ok (y : Sys) : Prop := {
  ok_wf : wf (server y);
  ok_moderate : moderate (server y);
  ok_next : next_id (server y) = N.of_nat (heap_next (server y)) + 1;
  ok_ids : forall (p : ptr) c, heap (server y) !! p = Some c ->
    Connection.id c = N.of_nat p + 1 /\ (p < heap_next (server y))%nat;
  ok_tasks : forall p : ptr, is_Some (heap (server y) !! p) <-> is_Some (tasks y !! p);
  ok_conns : forall (p : ptr) c t, heap (server y) !! p = Some c -> tasks y !! p = Some t -> conn_ok (server y) p c t
}.

(** ** Facts about single connections *)

Lemma seen_by_ext s s' c c' :
  rooms s' = rooms s -> Connection.id c' = Connection.id c -> Connection.room c' = Connection.room c ->
  seen_by s' c' = seen_by s c.
Proof. unfold seen_by. by intros -> -> ->. Qed.

Lemma conn_ok_ext s s' p c t :
  connections s' !! Connection.id c = connections s !! Connection.id c -> rooms s' = rooms s ->
  conn_ok s p c t -> conn_ok s' p c t.
Proof.
  intros Hconns Hrooms [Hsession Hwake]. split; [|done]. unfold session_ok, up_to_date in *.
  rewrite Hconns. destruct (Task.session t); [done| |done].
  destruct Hsession as (? & ? & ? & ? & ? & Hview). split_and!; try done.
  intros Hw. destruct (Hview Hw) as (msgs & ? & ? & Hmsgs). exists msgs. split_and!; [done..|].
  intros start Hstart. rewrite Hmsgs by done. symmetry. by apply seen_by_ext.
Qed.

(** The invariants do not look at the heap's sockets, queues and flags. *)
Lemma wf_update_conn s p f :
  (forall c, heap s !! p = Some c -> Connection.id (f c) = Connection.id c /\ Connection.room (f c) = Connection.room c) ->
  wf s -> wf (update_conn p f s).
Proof.
  intros Hf Hwf.
  assert (forall q c, heap s !! q = Some c -> exists c', heap (update_conn p f s) !! q = Some c' /\
    Connection.id c' = Connection.id c /\ Connection.room c' = Connection.room c) as Hto.
  { intros q c Hq. unfold update_conn. cbn. destruct (decide (q = p)) as [->|Hne].
    - rewrite lookup_alter_eq, Hq. cbn. eexists. split; [done|]. by apply Hf.
    - rewrite lookup_alter_ne by done. eauto. }
  assert (forall q c', heap (update_conn p f s) !! q = Some c' -> exists c, heap s !! q = Some c /\
    Connection.id c' = Connection.id c /\ Connection.room c' = Connection.room c) as Hfrom.
  { intros q c'. unfold update_conn. cbn. rewrite lookup_alter. case_decide as Hq; [subst q|eauto].
    destruct (heap s !! p) as [c|] eqn:Hc; [|done]. intros [= <-]. exists c. split; [done|]. by apply Hf. }
  split; [| | | |apply (wf_config _ Hwf)].
  - intros i q Hi. destruct (wf_table _ Hwf _ _ Hi) as (c & Hc & Hid).
    destruct (Hto q c Hc) as (c' & ? & Hid' & _). exists c'. split; [done|congruence].
  - apply (wf_rooms _ Hwf).
  - intros code r i Hr Hi. destruct (wf_members _ Hwf _ _ _ Hr Hi) as (q & c & ? & Hc & Hroom).
    destruct (Hto q c Hc) as (c' & ? & _ & Hroom'). exists q, c'. split_and!; [done..|congruence].
  - intros q c' Hc' Hroom. destruct (Hfrom q c' Hc') as (c & Hc & Hid & Hroom').
    rewrite Hid, Hroom' in *. by apply (wf_conns _ Hwf).
Qed.

(** A client that is in no room can be taken out of the table. *)
Lemma wf_disconnect s p c :
  wf s -> heap s !! p = Some c -> connections s !! Connection.id c = Some p -> Connection.room c = EmptyString ->
  wf (set_connections (delete (Connection.id c) (connections s)) s).
Proof.
  intros Hwf Hp Hid Hroom. split; cbn.
  - intros i q [_ Hq]%lookup_delete_Some. by apply (wf_table _ Hwf).
  - apply (wf_rooms _ Hwf).
  - intros code r i Hr Hi. destruct (wf_members _ Hwf _ _ _ Hr Hi) as (q & d & Hq & Hd & Hcode).
    exists q, d. rewrite lookup_delete_ne; [done|]. intros <-. simplify_eq.
    by apply (room_code _ _ (wf_rooms _ Hwf _ _ Hr)).
  - intros q d Hd Hne. destruct (wf_conns _ Hwf _ _ Hd Hne) as [Hq Hr]. split; [|done].
    rewrite lookup_delete_ne; [done|]. intros Heq. rewrite <-Heq in Hq. simplify_eq.
  - apply (wf_config _ Hwf).
Qed.

Lemma conn_after_quiet s d q c :
  d_where d !! q = None -> reaching (connections s) q (d_sent d) = [] -> conn_after s d q c = c.
Proof.
  intros HW HR. unfold conn_after. rewrite HW, HR. destruct c. cbn. by rewrite app_nil_r, andb_true_r.
Qed.

Lemma reaching_unregistered s d q c :
  wf s -> heap s !! q = Some c -> connections s !! Connection.id c = None ->
  reaching (connections s) q (d_sent d) = [].
Proof.
  intros Hwf Hq Hid. unfold reaching.
  destruct (filter _ _) as [|[j m] l] eqn:Hl; [done|]. exfalso.
  assert ((j, m) ∈ filter (fun im : N * Proto.ServerMessage => connections s !! im.1 = Some q) (d_sent d)) as Hin
    by (rewrite Hl; set_solver).
  apply list_elem_of_filter in Hin as [Hj _]. cbn in Hj.
  destruct (wf_table _ Hwf _ _ Hj) as (c' & Hc' & Hidc). simplify_eq.
Qed.

Lemma concat_frames msgs : concat (FrameMessage <$> msgs) = frame_all msgs.
Proof. done. Qed.

Lemma pipeline_after s d q c w :
  pipeline (conn_after s d q c) w = pipeline c w ++ frame_all (reaching (connections s) q (d_sent d)).
Proof. unfold pipeline. cbn. by rewrite concat_app, concat_frames, <-!app_assoc. Qed.

(** Which connections a delta may reach: those whose session reads. *)
Definition reaches_readers (y : Sys) (s : Server) (d : delta) : Prop :=
  (forall q v, d_where d !! q = Some v -> forall t, tasks y !! q = Some t ->
    exists body at_point, Task.session t = Reading body at_point) /\
  (forall j m q, (j, m) ∈ d_sent d -> connections s !! j = Some q -> forall t, tasks y !! q = Some t ->
    exists body at_point, Task.session t = Reading body at_point).

Lemma told_genuine i l : all_genuine l -> Forall genuine (told i l).
Proof.
  intros Hl. unfold told. rewrite Forall_fmap. unfold all_genuine in Hl. rewrite Forall_forall in *.
  intros im Him. apply list_elem_of_filter in Him as [_ Him]. by apply Hl.
Qed.

Lemma conn_ok_commit y s d q c t :
  wf s -> all_genuine (d_sent d) -> heap s !! q = Some c -> tasks y !! q = Some t -> conn_ok s q c t -> reaches_readers y s d ->
  (connections s !! Connection.id c = Some q ->
    cache_all (seen_by s c) (told (Connection.id c) (d_sent d)) = seen_by (commit s d) (conn_after s d q c)) ->
  conn_ok (commit s d) q (conn_after s d q c) t.
Proof.
  intros Hwf Hall Hq Ht [Hsession Hwake] [Hwhere Hsent] Hmirror.
  assert ((exists body at_point, Task.session t = Reading body at_point) \/ conn_after s d q c = c) as Hcases.
  { destruct (Task.session t) as [|body at_point|] eqn:Hpoint; [|left; eauto|]; right; apply conn_after_quiet.
    - destruct (d_where d !! q) as [v|] eqn:Hv; [|done]. destruct (Hwhere q v Hv t Ht) as (? & ? & ?). congruence.
    - unfold reaching. destruct (filter _ _) as [|[j m] l] eqn:Hl; [done|].
      assert ((j, m) ∈ filter (fun im : N * Proto.ServerMessage => connections s !! im.1 = Some q) (d_sent d)) as Hin
        by (rewrite Hl; set_solver).
      apply list_elem_of_filter in Hin as [Hj Hin]. destruct (Hsent j m q Hin Hj t Ht) as (? & ? & ?). congruence.
    - destruct (d_where d !! q) as [v|] eqn:Hv; [|done]. destruct (Hwhere q v Hv t Ht) as (? & ? & ?). congruence.
    - unfold session_ok in Hsession. rewrite Hpoint in Hsession. apply (reaching_unregistered s d q c); [done|done|apply Hsession]. }
  split.
  - destruct Hcases as [(body & at_point & Hpoint)|Hsame].
    + unfold session_ok in *. rewrite Hpoint in *. cbn [commit connections conn_after Connection.id Connection.closing Connection.socket].
      destruct Hsession as (Hid & Hw & ? & ? & ? & Hview). split_and!; try done.
      intros Hfin. destruct (Hview Hfin) as (msgs & Hpipe & Hmsgs & Hcache).
      exists (msgs ++ told (Connection.id c) (d_sent d)). split_and!.
      * by rewrite pipeline_after, Hpipe, frame_all_app, (reaching_told s Hwf d (Connection.id c)).
      * apply Forall_app. split; [done|by apply told_genuine].
      * intros start Hstart. rewrite cache_all_app, Hcache by done. by apply Hmirror.
    + rewrite Hsame. unfold session_ok in *. destruct (Task.session t) as [|body at_point|] eqn:Hpoint; try done.
      destruct Hsession as (Hid & Hw & ? & ? & ? & Hview). split_and!; try done.
      intros Hfin. destruct (Hview Hfin) as (msgs & Hpipe & Hmsgs & Hcache).
      exists (msgs ++ told (Connection.id c) (d_sent d)). split_and!.
      * rewrite <-Hsame, pipeline_after, Hpipe, frame_all_app, (reaching_told s Hwf d (Connection.id c)) by done. done.
      * apply Forall_app. split; [done|by apply told_genuine].
      * intros start Hstart. rewrite cache_all_app, Hcache, Hmirror by done. by rewrite Hsame.
  - unfold wake_ok in *. cbn. intros [Hpending Hframes]%andb_true_iff. apply bool_decide_eq_true in Hframes.
    rewrite Hframes, app_nil_r. by apply Hwake.
Qed.

(** ** Single steps *)

(** The same connections, by pointer and by id. *)
Definition same_shape (s s' : Server) : Prop :=
  heap_next s' = heap_next s /\ next_id s' = next_id s /\
  forall q : ptr, Connection.id <$> (heap s' !! q) = Connection.id <$> (heap s !! q).

Lemma same_shape_trans s1 s2 s3 : same_shape s1 s2 -> same_shape s2 s3 -> same_shape s1 s3.
Proof. intros (E1 & E2 & E3) (F1 & F2 & F3). split_and!; try congruence. Qed.

Lemma same_shape_update s p f :
  (forall c, heap s !! p = Some c -> Connection.id (f c) = Connection.id c) -> same_shape s (update_conn p f s).
Proof.
  intros Hf. split_and!; [done..|]. intros q. unfold update_conn. cbn. rewrite lookup_alter.
  case_decide as Hq; [subst q|done]. destruct (heap s !! p) as [c|] eqn:Hc; [|done]. cbn. by rewrite Hf.
Qed.

Lemma same_shape_commit s d : same_shape s (commit s d).
Proof. split_and!; [done..|]. intros q. rewrite heap_commit. by destruct (heap s !! q). Qed.

Lemma sys_ok_step y p t t' s' :
  sys_ok y -> tasks y !! p = Some t -> same_shape (server y) s' -> wf s' -> moderate s' ->
  (forall c', heap s' !! p = Some c' -> conn_ok s' p c' t') ->
  (forall q c' t0, q <> p -> heap s' !! q = Some c' -> tasks y !! q = Some t0 -> conn_ok s' q c' t0) ->
  sys_ok (with_task p t' s' y).
Proof.
  intros Hy Ht (Hnext & Hid & Hshape) Hwf Hmod Hp Hothers. split; cbn [server with_task].
  - done.
  - done.
  - rewrite Hid, Hnext. apply (ok_next _ Hy).
  - intros q c' Hc'. specialize (Hshape q). rewrite Hc' in Hshape. cbn in Hshape. symmetry in Hshape.
    apply fmap_Some in Hshape as (c & Hc & ->). rewrite Hnext. by apply (ok_ids _ Hy).
  - intros q. cbn. rewrite <-(fmap_is_Some Connection.id), Hshape, fmap_is_Some, (ok_tasks _ Hy).
    destruct (decide (q = p)) as [->|Hne]; [rewrite lookup_insert_eq, Ht|rewrite lookup_insert_ne by done; done].
    split; eauto.
  - intros q c' t0 Hc'. cbn. intros [[<- <-]|[Hne Ht0]]%lookup_insert_Some; [by apply Hp|]. by apply (Hothers q).
Qed.

(** A step on one connection's own fields. *)
Lemma sys_ok_update y p c t t' f :
  sys_ok y -> heap (server y) !! p = Some c -> tasks y !! p = Some t ->
  Connection.id (f c) = Connection.id c -> Connection.room (f c) = Connection.room c ->
  conn_ok (update_conn p f (server y)) p (f c) t' ->
  sys_ok (with_task p t' (update_conn p f (server y)) y).
Proof.
  intros Hy Hc Ht Hid Hroom Hok. apply (sys_ok_step y p t); try done.
  - apply same_shape_update. intros c0 Hc0. by simplify_eq.
  - apply wf_update_conn; [|apply (ok_wf _ Hy)]. intros c0 Hc0. by simplify_eq.
  - by destruct (ok_moderate _ Hy).
  - intros c'. unfold update_conn at 1. cbn. rewrite lookup_alter_eq, Hc. by intros [= <-].
  - intros q c' t0 Hne. unfold update_conn at 1. cbn. rewrite lookup_alter_ne by done. intros Hq Ht0.
    apply (conn_ok_ext (server y)); [done..|]. by apply (ok_conns _ Hy).
Qed.

(** The connection of a task, and its registration. *)
Lemma ok_task y p t :
  sys_ok y -> tasks y !! p = Some t -> exists c, heap (server y) !! p = Some c /\ conn_ok (server y) p c t.
Proof.
  intros Hy Ht. destruct (proj2 (ok_tasks _ Hy p) (mk_is_Some _ _ Ht)) as [c Hc].
  exists c. split; [done|]. by apply (ok_conns _ Hy).
Qed.

(** A connection in a room has a session that reads. *)
Lemma ok_in_room y p c t :
  sys_ok y -> heap (server y) !! p = Some c -> tasks y !! p = Some t -> Connection.room c <> EmptyString ->
  exists body at_point, Task.session t = Reading body at_point.
Proof.
  intros Hy Hc Ht Hroom. destruct (ok_conns _ Hy _ _ _ Hc Ht) as [Hsession _]. unfold session_ok in Hsession.
  destruct (Task.session t); [tauto|eauto|tauto].
Qed.

(** ** What a delta reaches *)

Section Reach.
Context (y : Sys) (Hy : sys_ok y) (s : Server) (Hwf : wf s).
Context (Hheap : forall q c, heap s !! q = Some c -> exists c0, heap (server y) !! q = Some c0 /\ Connection.room c0 = Connection.room c).

Lemma member_reads code r i q t :
  rooms s !! code = Some r -> i ∈ Room.members r -> connections s !! i = Some q -> tasks y !! q = Some t ->
  exists body at_point, Task.session t = Reading body at_point.
Proof.
  intros Hr Hi Hq Ht. destruct (wf_members _ Hwf _ _ _ Hr Hi) as (q' & c & Hq' & Hc & Hcode). simplify_eq.
  destruct (Hheap q c Hc) as (c0 & Hc0 & Hroom). apply (ok_in_room y q c0 t Hy Hc0 Ht).
  rewrite Hroom. apply (room_code _ _ (wf_rooms _ Hwf _ _ Hr)).
Qed.

Lemma effect_reaches p c d body at_point w :
  tasks y !! p = Some (Task.mk (Reading body at_point) w) ->
  connections s !! Connection.id c = Some p -> effect s p c d -> reaches_readers y s d.
Proof.
  intros Hp Hid He. split.
  - intros q v Hv t Ht. destruct (effect_where s p c d He q v Hv) as [->|(r & i & Hr & Hi & Hq)].
    + simplify_eq. eauto.
    + by apply (member_reads (Connection.room c) r i q).
  - intros j m q Hj Hq t Ht. destruct (effect_sent s p c d He j m Hj) as [->|(code & r & _ & Hr & Hi)].
    + simplify_eq. eauto.
    + by apply (member_reads code r j q).
Qed.
End Reach.

(** ** The steps *)

(** A connection's fields other than its id and room do not matter to [seen_by]. *)
Lemma up_to_date_same s s' c c' w w' :
  rooms s' = rooms s -> Connection.id c' = Connection.id c -> Connection.room c' = Connection.room c ->
  pipeline c' w' = pipeline c w -> up_to_date s c w -> up_to_date s' c' w'.
Proof.
  intros Hrooms Hid Hroom Hpipe (msgs & Hmsgs & Hsend & Hcache). exists msgs. split_and!; [congruence|done|].
  intros start Hstart. rewrite Hcache by done. symmetry. by apply seen_by_ext.
Qed.

Lemma lookup_update_conn s p f c : heap s !! p = Some c -> heap (update_conn p f s) !! p = Some (f c).
Proof. intros Hc. unfold update_conn. cbn. by rewrite lookup_alter_eq, Hc. Qed.

Lemma lookup_update_conn_ne s p q f : q <> p -> heap (update_conn p f s) !! q = heap s !! q.
Proof. intros Hne. unfold update_conn. cbn. by rewrite lookup_alter_ne. Qed.

Lemma update_update p f g s : update_conn p g (update_conn p f s) = update_conn p (fun c => g (f c)) s.
Proof.
  unfold update_conn, set_heap. cbn. f_equal. apply map_eq. intros q. destruct (decide (q = p)) as [->|Hne].
  - rewrite !lookup_alter_eq. by destruct (heap s !! p).
  - by rewrite !lookup_alter_ne.
Qed.

Lemma task_with_same p t s y : tasks y !! p = Some t -> with_task p t s y = mkSys s (tasks y) (accepting y).
Proof. intros Ht. unfold with_task. by rewrite insert_id. Qed.

Lemma step_arrive_ok y p bytes :
  sys_ok y -> sys_ok (arrive p bytes y).
Proof.
  intros Hy. unfold arrive. destruct (tasks y !! p) as [t|] eqn:Ht.
  - destruct (ok_task y p t Hy Ht) as (c & Hc & Hsession & Hwake). rewrite <-(task_with_same p t) by done.
    apply (sys_ok_update y p c t); [done..|]. split; [|exact Hwake].
    unfold session_ok in *. cbn. destruct (Task.session t); [done| |done].
    destruct Hsession as (? & ? & ? & ? & ? & Hview). split_and!; [done..|].
    intros Hw. by apply (up_to_date_same _ _ c _ _ _ eq_refl eq_refl eq_refl eq_refl), Hview.
  - assert (update_socket p (fun k => set_sk_in (sk_in k ++ bytes) k) (server y) = server y) as ->; [|by destruct y].
    assert (heap (server y) !! p = None) as Hp.
    { destruct (heap (server y) !! p) as [c|] eqn:Hc; [|done].
      destruct (proj1 (ok_tasks _ Hy p) (mk_is_Some _ _ Hc)). congruence. }
    unfold update_socket, update_conn, set_heap. destruct (server y); cbn in *. f_equal.
    apply map_eq. intros q. rewrite lookup_alter. case_decide as Hq; [subst q|done]. by rewrite Hp.
Qed.

(** [WriteLoop]. *)
Lemma write_loop_run p c s :
  heap s !! p = Some c ->
  write_loop p s =
    if Connection.closing c then Done Finished s
    else match Connection.out c with
         | [] => Done Waiting (update_conn p (Connection.set_wake true) s)
         | frame :: rest => Done (Writing frame) (update_conn p (Connection.set_out rest) s)
         end.
Proof.
  intros Hc. unfold write_loop, get_conn, mbind, M_bind, bind. rewrite Hc.
  destruct (Connection.closing c); [done|]. by destruct (Connection.out c).
Qed.

Lemma update_conn_id s p c : heap s !! p = Some c -> update_conn p (fun c => c) s = s.
Proof.
  intros Hc. unfold update_conn, set_heap. destruct s; cbn in *. f_equal. apply map_eq. intros q.
  rewrite lookup_alter. case_decide; [subst q|done]. by rewrite Hc.
Qed.

(** The writer of a session goes on, having sent [sent] of what it was writing. *)
Lemma writer_step_ok y p c pt w w' g s' :
  sys_ok y -> heap (server y) !! p = Some c -> tasks y !! p = Some (Task.mk pt w) -> w <> NotSpawned ->
  Connection.wake c = false ->
  Connection.id (g c) = Connection.id c -> Connection.room (g c) = Connection.room c ->
  Connection.closing (g c) = Connection.closing c -> Connection.wake (g c) = Connection.wake c ->
  Connection.out (g c) = Connection.out c ->
  sk_open (Connection.socket (g c)) = sk_open (Connection.socket c) ->
  sk_out (Connection.socket (g c)) = sk_out (Connection.socket c) ++ (match w with Writing frame => frame | _ => [] end) ->
  w <> Finished ->
  write_loop p (update_conn p g (server y)) = Done w' s' ->
  sys_ok (with_task p (Task.mk pt w') s' y).
Proof.
  intros Hy Hc Ht Hw Hwake Hid Hroom Hclosing Hwk Hout Hopen Hsent Hfin Hrun.
  rewrite (write_loop_run p (g c)) in Hrun by (by apply lookup_update_conn).
  destruct (ok_conns _ Hy _ _ _ Hc Ht) as [Hsession _]. unfold session_ok in Hsession. cbn in Hsession.
  assert (forall h w'', Connection.id (h (g c)) = Connection.id c -> Connection.room (h (g c)) = Connection.room c ->
    Connection.closing (h (g c)) = Connection.closing c -> Connection.socket (h (g c)) = Connection.socket (g c) ->
    w'' <> NotSpawned -> pipeline (h (g c)) w'' = pipeline c w \/ Connection.closing c = true ->
    wake_ok (h (g c)) (Task.mk pt w'') ->
    sys_ok (with_task p (Task.mk pt w'') (update_conn p (fun c => h (g c)) (server y)) y)) as Hgo.
  { intros h w'' Hid' Hroom' Hclosing' Hsocket' Hw'' Hpipe Hwake'. apply (sys_ok_update y p c (Task.mk pt w)); try done.
    split; [|done]. unfold session_ok. cbn. rewrite Hid', Hroom', Hclosing', Hsocket', Hopen. destruct pt.
    - by destruct Hsession as (_ & -> & _).
    - destruct Hsession as (? & _ & ? & ? & ? & Hview). split_and!; try done. intros _.
      destruct Hpipe as [Hpipe|]; [|congruence]. by apply (up_to_date_same (server y) _ c _ w _), Hview.
    - destruct Hsession as (? & _ & ? & ? & ?). by split_and!. }
  rewrite Hclosing, Hout in Hrun. destruct (Connection.closing c) eqn:Hclosed.
  - injection Hrun as <- <-. apply (Hgo (fun c => c)); try done; [by right|].
    unfold wake_ok. rewrite Hwk. congruence.
  - destruct (Connection.out c) as [|frame rest] eqn:Hqueue; injection Hrun as <- <-; rewrite update_update.
    + apply (Hgo (Connection.set_wake true)); try done. left.
      unfold pipeline. cbn. rewrite Hsent, Hout, Hqueue. cbn. by rewrite !app_nil_r.
    + apply (Hgo (Connection.set_out rest)); try done; [left|].
      * unfold pipeline. cbn. rewrite Hsent, Hqueue. cbn. by rewrite <-app_assoc.
      * unfold wake_ok. cbn. rewrite Hwk. congruence.
Qed.

Lemma step_write_failed_ok y p pt frame sent :
  sys_ok y -> tasks y !! p = Some (Task.mk pt (Writing frame)) ->
  sys_ok (with_task p (Task.mk pt Finished)
    (update_socket p (fun k => set_sk_out (sk_out k ++ take sent frame) k) (server y)) y).
Proof.
  intros Hy Ht. destruct (ok_task y p _ Hy Ht) as (c & Hc & Hsession & Hwake).
  apply (sys_ok_update y p c (Task.mk pt (Writing frame))); try done. split.
  - unfold session_ok in *. cbn in *. destruct pt; [by destruct Hsession as (_ & ? & _)| |].
    + destruct Hsession as (? & _ & ? & ? & ? & _). by split_and!.
    + destruct Hsession as (? & _ & ? & ? & ?). by split_and!.
  - intros Hpending. by destruct (Hwake Hpending).
Qed.

(** [Session]'s first messages. *)
Definition greeting (s : Server) (i : N) : outgoing :=
  [(i, Proto.AssignClientId i); (i, Proto.IceServersMsg (ice (config s)))].

Lemma session_start_run p c s :
  heap s !! p = Some c -> Connection.closing c = false -> Connection.out c = [] ->
  let s1 := update_conn p (Connection.set_wake true) s in
  session_start p s = Done Waiting (commit s1 (send (no_delta s1) (greeting s (Connection.id c)))).
Proof.
  intros Hc Hclosing Hout s1. unfold session_start.
  rewrite (bind_done _ _ _ Waiting s1) by (by rewrite (write_loop_run p c), Hclosing, Hout).
  assert (heap s1 !! p = Some (Connection.set_wake true c)) as Hc1 by (by apply lookup_update_conn).
  rewrite (bind_done _ _ _ (Connection.set_wake true c) s1) by (unfold get_conn; by rewrite Hc1).
  cbn [Connection.id Connection.set_wake]. rewrite <-(commit_no_delta s1) at 1.
  rewrite (bind_done _ _ _ _ _ (exec_SendTo _ _ _ _)), bind_gets.
  cbn [config commit]. by rewrite (bind_done _ _ _ _ _ (exec_SendTo _ _ _ _)), send_send.
Qed.

Lemma step_session_ok y p w s' :
  sys_ok y -> tasks y !! p = Some (Task.mk Spawned NotSpawned) -> session_start p (server y) = Done w s' ->
  sys_ok (with_task p (Task.mk (Reading [] AwaitHeader) w) s' y).
Proof.
  intros Hy Ht Hrun. destruct (ok_task y p _ Hy Ht) as (c & Hc & (Hid & _ & Hroom & Hout & Hclosing & Hopen & Hsk) & _).
  pose proof (session_start_run p c (server y) Hc Hclosing Hout) as Hstart. cbv zeta in Hstart.
  rewrite Hrun in Hstart. injection Hstart as -> ->. clear Hrun.
  set (s1 := update_conn p (Connection.set_wake true) (server y)).
  set (d := send (no_delta s1) (greeting (server y) (Connection.id c))).
  assert (wf s1) as Hwf1 by (apply wf_update_conn; [done|apply (ok_wf _ Hy)]).
  assert (heap s1 !! p = Some (Connection.set_wake true c)) as Hc1 by (by apply lookup_update_conn).
  assert (forall i, told i (d_sent d) = if decide (Connection.id c = i) then
    [Proto.AssignClientId (Connection.id c); Proto.IceServersMsg (ice (config (server y)))] else []) as Htold.
  { intros i. unfold d, greeting. cbn [d_sent send no_delta app]. rewrite !told_cons. by case_decide. }
  apply (sys_ok_step y p (Task.mk Spawned NotSpawned)); try done.
  - eapply same_shape_trans; [by apply (same_shape_update _ p (Connection.set_wake true))|apply same_shape_commit].
  - by apply wf_same.
  - by destruct (ok_moderate _ Hy).
  - intros c'. rewrite heap_commit, Hc1. intros [= <-]. split.
    + split_and!; try done. intros _.
      exists [Proto.AssignClientId (Connection.id c); Proto.IceServersMsg (ice (config (server y)))]. split_and!.
      * rewrite pipeline_after. unfold pipeline. cbn [Connection.set_wake Connection.socket Connection.out].
        rewrite Hsk, Hout. cbn [app concat]. change (connections s1) with (connections (server y)).
        rewrite (reaching_told (server y) (ok_wf _ Hy) d (Connection.id c)) by done.
        by rewrite Htold, decide_True.
      * apply Forall_cons. split; [split; [|done]|apply Forall_singleton; split; [apply (mod_ice _ (ok_moderate _ Hy))|done]].
        apply sendable_intro; [|done]. split; [|done]. by apply (mod_ids _ (ok_moderate _ Hy) _ p).
      * intros start ->. unfold seen_by. cbn. rewrite Hroom. rewrite lookup_empty. cbn.
        by rewrite (no_room_at_empty _ (ok_wf _ Hy)).
    + unfold wake_ok. cbn [conn_after Connection.wake Connection.set_wake andb]. intros Hnone%bool_decide_eq_true. exfalso.
      change (connections s1) with (connections (server y)) in Hnone.
      rewrite (reaching_told (server y) (ok_wf _ Hy) d (Connection.id c)), Htold, decide_True in Hnone by done. done.
  - intros q c' t0 Hne. rewrite heap_commit. assert (heap s1 !! q = heap (server y) !! q) as -> by (by apply lookup_update_conn_ne).
    intros Hq Ht0. apply fmap_Some in Hq as (cq & Hq & ->).
    assert (conn_after s1 d q cq = cq) as ->.
    { apply conn_after_quiet; [done|]. change (connections s1) with (connections (server y)).
      change (d_sent d) with ([(Connection.id c, Proto.AssignClientId (Connection.id c))] ++
        [(Connection.id c, Proto.IceServersMsg (ice (config (server y))))]).
      by rewrite reaching_app, !reaching_one, !decide_False by congruence. }
    apply (conn_ok_ext (server y)); [done..|]. by apply (ok_conns _ Hy).
Qed.

(** *** A message is handled *)

Section Reading.
Context (y : Sys) (Hy : sys_ok y) (p : ptr) (c : Connection.t) (body : list byte) (at_point : read_point).
Context (w : writer_point) (Hc : heap (server y) !! p = Some c).
Context (Ht : tasks y !! p = Some (Task.mk (Reading body at_point) w)).

(** What reading does to the connection first. *)
Context (f : Connection.t -> Connection.t).
Context (Hid : Connection.id (f c) = Connection.id c) (Hroom : Connection.room (f c) = Connection.room c).
Let s1 := update_conn p f (server y).

Lemma reading_wf : wf s1.
Proof. apply wf_update_conn; [|apply (ok_wf _ Hy)]. intros c0 Hc0. by simplify_eq. Qed.

Lemma reading_heap : heap s1 !! p = Some (f c).
Proof. by apply lookup_update_conn. Qed.

Lemma reading_rooms q c1 : heap s1 !! q = Some c1 ->
  exists c0, heap (server y) !! q = Some c0 /\ Connection.room c0 = Connection.room c1.
Proof.
  destruct (decide (q = p)) as [->|Hne].
  - rewrite reading_heap. intros [= <-]. eauto.
  - unfold s1. rewrite lookup_update_conn_ne by done. eauto.
Qed.

Lemma reading_registered : connections (server y) !! Connection.id c = Some p.
Proof. destruct (ok_conns _ Hy _ _ _ Hc Ht) as [Hsession _]. apply Hsession. Qed.

Lemma reading_sender : sender s1 p (f c).
Proof. split; [apply reading_wf|apply reading_heap|]. rewrite Hid. apply reading_registered. Qed.

(** The others after a delta. *)
Lemma reading_moderate : moderate s1.
Proof. by destruct (ok_moderate _ Hy). Qed.

Lemma others_ok d q c' t0 :
  q <> p -> all_genuine (d_sent d) -> reaches_readers y s1 d ->
  (forall c0, heap s1 !! q = Some c0 -> connections s1 !! Connection.id c0 = Some q ->
    cache_all (seen_by s1 c0) (told (Connection.id c0) (d_sent d)) = seen_by (commit s1 d) (conn_after s1 d q c0)) ->
  heap (commit s1 d) !! q = Some c' -> tasks y !! q = Some t0 -> conn_ok (commit s1 d) q c' t0.
Proof.
  intros Hne Hall Hreach Hmirror. rewrite heap_commit. intros Hq Ht0. apply fmap_Some in Hq as (c0 & Hc0 & ->).
  apply (conn_ok_commit y); try done; [apply reading_wf| |by apply Hmirror].
  apply (conn_ok_ext (server y)); [done..|]. apply (ok_conns _ Hy); [|done].
  unfold s1 in Hc0. by rewrite lookup_update_conn_ne in Hc0.
Qed.

(** A read only changes the bytes received. *)
Context (Hclosing : Connection.closing (f c) = Connection.closing c) (Hwake : Connection.wake (f c) = Connection.wake c).
Context (Hout : Connection.out (f c) = Connection.out c).
Context (Hopen : sk_open (Connection.socket (f c)) = sk_open (Connection.socket c)).
Context (Hsk : sk_out (Connection.socket (f c)) = sk_out (Connection.socket c)).

Lemma reading_conn_ok body' at_point' :
  reader_ok body' at_point' -> conn_ok s1 p (f c) (Task.mk (Reading body' at_point') w).
Proof.
  intros Hreader. destruct (ok_conns _ Hy _ _ _ Hc Ht) as [Hsession Hwoken]. split.
  - unfold session_ok in *. cbn in *. rewrite Hid, Hclosing, Hopen.
    destruct Hsession as (? & ? & ? & ? & _ & Hview). split_and!; try done.
    intros Hw. apply (up_to_date_same (server y) _ c _ w w); try done; [|by apply Hview].
    unfold pipeline. by rewrite Hsk, Hout.
  - unfold wake_ok in *. rewrite Hclosing, Hwake, Hout. apply Hwoken.
Qed.

Lemma conn_ok_reading s q c0 body' at_point' body1 at_point1 :
  reader_ok body1 at_point1 ->
  conn_ok s q c0 (Task.mk (Reading body' at_point') w) -> conn_ok s q c0 (Task.mk (Reading body1 at_point1) w).
Proof.
  intros Hreader [Hsession Hwoken]. split; [|exact Hwoken]. unfold session_ok in *. cbn in *.
  destruct Hsession as (? & ? & ? & ? & _ & ?). by split_and!.
Qed.

Lemma step_await_ok body' at_point' :
  reader_ok body' at_point' -> sys_ok (with_task p (Task.mk (Reading body' at_point') w) s1 y).
Proof.
  intros Hreader. apply (sys_ok_update y p c (Task.mk (Reading body at_point) w)); try done.
  by apply reading_conn_ok.
Qed.

Lemma step_handle_ok `{!RoomRng} fuel msg s' :
  acceptable msg -> HandleMessage fuel p msg s1 = Done tt s' ->
  sys_ok (with_task p (Task.mk (Reading [] AwaitHeader) w) s' y).
Proof.
  intros Hmsg Hrun. pose proof reading_sender as Hs. pose proof Hs as [Hwf1 Hp1 Hid1].
  destruct (sender_message _ _ _ _ _ _ Hs Hrun) as (d & Hd & -> & Hwf').
  pose proof (effect_lobby_message s1 p (f c) Hwf1 Hp1 Hid1 fuel msg d Hd) as He.
  pose proof (effect_reaches y Hy s1 Hwf1 reading_rooms p (f c) d body at_point w Ht Hid1 He) as Hreach.
  pose proof (mirrors_lobby_message s1 p (f c) Hs fuel msg d Hd) as Hmirror.
  pose proof (genuine_lobby_message s1 p (f c) Hs reading_moderate fuel msg d Hmsg Hd) as Hall.
  apply (sys_ok_step y p (Task.mk (Reading body at_point) w)); try done.
  - eapply same_shape_trans; [apply (same_shape_update _ p f)|apply same_shape_commit]. intros c0 Hc0. by simplify_eq.
  - by apply (moderate_commit s1 p (f c) Hs reading_moderate fuel msg).
  - intros c'. rewrite heap_commit, Hp1. intros [= <-].
    assert (reader_ok [] AwaitHeader) as Hstart by (vm_compute; discriminate).
    destruct (ok_conns _ Hy _ _ _ Hc Ht) as [(_ & _ & _ & _ & Hreader & _) _].
    apply (conn_ok_reading _ _ _ body at_point); [done|].
    apply (conn_ok_commit y); try done; [by apply reading_conn_ok|]. intros _. by apply Hmirror.
  - intros q c' t0 Hne. apply others_ok; [done..|]. intros c0 Hc0 Hid0. by apply Hmirror.
Qed.
End Reading.

(** *** A session ends *)

Definition shut (c : Connection.t) : Connection.t :=
  Connection.set_socket (close_socket (Connection.socket c)) (Connection.set_wake false (Connection.set_closing true c)).

(** The delta of [LeaveRoom] at the end of a session. *)
Definition departure (s : Server) (p : ptr) (c : Connection.t) : delta :=
  if str_empty (Connection.room c) then no_delta s
  else lobby_leave (no_delta s) p (Connection.id c) (Connection.room c).

Lemma session_end_run p c s :
  heap s !! p = Some c ->
  let s1 := update_conn p shut s in
  session_end p s = Done tt
    (set_connections (delete (Connection.id c) (connections s)) (commit s1 (departure s1 p c))).
Proof.
  intros Hc s1. unfold session_end, update_socket. rewrite !bind_modify, !update_update. fold s1.
  change (update_conn p _ s) with s1.
  assert (heap s1 !! p = Some (shut c)) as Hc1 by (by apply lookup_update_conn).
  assert (LeaveRoom p s1 = Done tt (commit s1 (departure s1 p c))) as Hleave.
  { unfold departure. destruct (str_empty (Connection.room c)) eqn:Hroom.
    - rewrite commit_no_delta. unfold LeaveRoom, get_conn, mbind, M_bind, bind. rewrite Hc1. cbn. by rewrite Hroom.
    - rewrite <-(commit_no_delta s1) at 1. rewrite (exec_LeaveRoom s1 (no_delta s1) p (shut c)); [|done|].
      + cbn. by rewrite lookup_empty.
      + cbn. by rewrite lookup_empty. }
  rewrite (bind_done _ _ _ _ _ Hleave).
  rewrite (bind_done _ _ _ (conn_after s1 (departure s1 p c) p (shut c)) (commit s1 (departure s1 p c))).
  - done.
  - unfold get_conn. by rewrite heap_commit, Hc1.
Qed.

Lemma lobby_leave_send s l q i code :
  let d1 := lobby_leave (send (no_delta s) l) q i code in
  let d2 := lobby_leave (no_delta s) q i code in
  d_sent d1 = l ++ d_sent d2 /\ d_rooms d1 = d_rooms d2 /\ d_where d1 = d_where d2.
Proof.
  cbn zeta. unfold lobby_leave. cbn [d_rooms send no_delta].
  destruct (rooms s !! code) as [r|]; [|by rewrite app_nil_r].
  destruct (Room.members (room_without i r)); [by rewrite app_nil_r|].
  case_bool_decide; cbn [d_sent d_rooms d_where send with_rooms move no_delta]; by rewrite <-?app_assoc.
Qed.

Section Departure.
Context (s : Server) (p : ptr) (c : Connection.t) (Hs : sender s p c).

Lemma departure_room : Connection.room c <> EmptyString ->
  exists r, rooms s !! Connection.room c = Some r /\ Connection.id c ∈ Room.members r.
Proof. intros Hroom. destruct Hs as [Hwf Hp _]. by destruct (wf_conns _ Hwf _ _ Hp Hroom) as [_ ?]. Qed.

Lemma departure_wf : wf (commit s (departure s p c)).
Proof.
  destruct Hs as [Hwf Hp Hid]. unfold departure. destruct (str_empty (Connection.room c)) eqn:Hroom; [by apply wf_same|].
  destruct (departure_room (not_empty _ Hroom)) as (r & Hr & _).
  apply (wf_lobby_leave s Hwf _ p c r (Room.banned_members r)); try done; [|by left].
  rewrite same_bans. cbn. by rewrite insert_id.
Qed.

Lemma departure_genuine : moderate s -> all_genuine (d_sent (departure s p c)).
Proof.
  intros Hmod. apply all_genuine_intro.
  2:{ apply (notices_from_server (Connection.id c)). unfold departure. case_match; [by apply Forall_nil_2|].
      apply leave_notices. by apply Forall_nil_2. }
  unfold departure. destruct (str_empty (Connection.room c)) eqn:Hroom; [apply Forall_nil_2|].
  destruct (departure_room (not_empty _ Hroom)) as (r & Hr & _).
  apply (all_sendable_leave s p c Hs Hmod _ _ _ _ r); [done|apply Forall_nil_2|by apply (own_id s p c)|].
  intros j. by apply (member_id s p c Hs Hmod (Connection.room c)).
Qed.

Lemma departure_moderate : moderate s -> moderate (commit s (departure s p c)).
Proof.
  intros [Hids Hcodes Hlen Hice]. split; [exact Hids| |exact Hlen|exact Hice].
  change (code_length (commit s (departure s p c))) with (code_length s).
  cbn [rooms commit]. unfold departure. destruct (str_empty (Connection.room c)) eqn:Hroom; [exact Hcodes|].
  destruct (departure_room (not_empty _ Hroom)) as (r & Hr & _). intros k x Hx.
  destruct (decide (k = Connection.room c)) as [->|Hne]; [by apply (Hcodes _ r)|].
  rewrite leave_lookup in Hx by done. by apply (Hcodes k x).
Qed.

Lemma departure_where q v : d_where (departure s p c) !! q = Some v -> q = p.
Proof.
  unfold departure. destruct (str_empty (Connection.room c)); [by cbn; rewrite lookup_empty|].
  rewrite lobby_leave_where. cbn. intros [[<- _]|[_ Hv]]%lookup_insert_Some; [done|]. by rewrite lookup_empty in Hv.
Qed.

Lemma departure_after : room_after (departure s p c) p c = EmptyString.
Proof.
  unfold departure, room_after. destruct (str_empty (Connection.room c)) eqn:Hroom.
  - cbn. rewrite lookup_empty. by apply str_empty_spec.
  - rewrite lobby_leave_where. cbn. by rewrite lookup_insert_eq.
Qed.

Lemma departure_sent j m :
  (j, m) ∈ d_sent (departure s p c) -> exists r, rooms s !! Connection.room c = Some r /\ j ∈ Room.members r.
Proof.
  unfold departure. destruct (str_empty (Connection.room c)) eqn:Hroom; intros Hj; [by apply not_elem_of_nil in Hj|].
  destruct (departure_room (not_empty _ Hroom)) as (r & Hr & _). exists r. split; [done|].
  destruct (leave_sent (no_delta s) p (Connection.id c) (Connection.room c) r Hr) as (l & Hl & Hall).
  rewrite Hl in Hj. rewrite Forall_forall in Hall. apply Hall, elem_of_vector_erase in Hj. apply Hj.
Qed.

(** The others hear what their image of the room needs. *)
Lemma departure_mirrors q t :
  q <> p -> connections s !! Connection.id t = Some q -> heap s !! q = Some t ->
  cache_all (seen_by s t) (told (Connection.id t) (d_sent (departure s p c)))
  = seen_by (commit s (departure s p c)) (conn_after s (departure s p c) q t).
Proof.
  intros Hne Hq Ht. destruct Hs as [Hwf Hp Hid]. unfold departure.
  destruct (str_empty (Connection.room c)) eqn:Hroom.
  { by apply (mirrors_no_delta s). }
  destruct (departure_room (not_empty _ Hroom)) as (r & Hr & Hin).
  pose proof (mirrors_leave s Hwf (Connection.room c) r (Room.banned_members r) p (Connection.id c)
    (Proto.PeerLeft (Connection.id c)) Hr Hid Hin ltac:(by left) q t Hq Ht) as Hmirror.
  rewrite same_bans, insert_id in Hmirror by done. change (with_rooms (no_delta s) (rooms s)) with (no_delta s) in Hmirror.
  destruct (lobby_leave_send s [(Connection.id c, Proto.PeerLeft (Connection.id c))] p (Connection.id c) (Connection.room c))
    as (Hsent & Hrooms & Hwhere).
  assert (Connection.id c <> Connection.id t) as Hids by congruence.
  rewrite Hsent, told_app, told_one, decide_False in Hmirror by done. cbn [app] in Hmirror. rewrite Hmirror.
  rewrite !seen_by_commit. unfold room_after. by rewrite Hrooms, Hwhere.
Qed.
End Departure.

Section Ending.
Context (y : Sys) (Hy : sys_ok y) (p : ptr) (c : Connection.t) (body : list byte) (at_point : read_point).
Context (w : writer_point) (Hc : heap (server y) !! p = Some c).
Context (Ht : tasks y !! p = Some (Task.mk (Reading body at_point) w)).
Context (f : Connection.t -> Connection.t).
Context (Hid : Connection.id (f c) = Connection.id c) (Hroom : Connection.room (f c) = Connection.room c).

Lemma step_end_ok s' :
  session_end p (update_conn p f (server y)) = Done tt s' -> sys_ok (with_task p (Task.mk Ended w) s' y).
Proof.
  intros Hrun. set (g := fun c => shut (f c)). set (s1 := update_conn p g (server y)).
  rewrite (session_end_run p (f c)) in Hrun by (by apply lookup_update_conn).
  rewrite update_update in Hrun. fold g in Hrun. fold s1 in Hrun. rewrite Hid in Hrun.
  assert (departure s1 p (f c) = departure s1 p (g c)) as Hdep by done. rewrite Hdep in Hrun. clear Hdep.
  pose proof (reading_sender y Hy p c body at_point w Hc Ht g Hid Hroom) as Hs. fold s1 in Hs.
  pose proof Hs as [Hwf1 Hp1 Hid1].
  pose proof (reading_moderate y Hy p g : moderate s1) as Hmod.
  pose proof (departure_genuine s1 p (g c) Hs Hmod) as Hall. set (d := departure s1 p (g c)) in *.
  assert (reaches_readers y s1 d) as Hreach.
  { split.
    - intros q v Hv t Htq. apply departure_where in Hv as ->. simplify_eq. eauto.
    - intros j m q Hj Hq t Htq. destruct (departure_sent s1 p (g c) Hs j m Hj) as (r & Hr & Hin).
      apply (member_reads y Hy s1 Hwf1 (reading_rooms y p c Hc g Hroom) (Connection.room (g c)) r j q); done. }
  assert (heap (commit s1 d) !! p = Some (conn_after s1 d p (g c))) as Hp' by (by rewrite heap_commit, Hp1).
  assert (Connection.room (conn_after s1 d p (g c)) = EmptyString) as Hroom' by apply (departure_after s1 p (g c)).
  injection Hrun as <-. change (connections (server y)) with (connections (commit s1 d)) at 1.
  apply (sys_ok_step y p (Task.mk (Reading body at_point) w)); try done.
  - eapply same_shape_trans; [apply (same_shape_update _ p g)|apply same_shape_commit]. intros c0 Hc0. by simplify_eq.
  - rewrite <-Hid. apply (wf_disconnect _ p (conn_after s1 d p (g c))); try done. by apply departure_wf.
  - destruct (departure_moderate s1 p (g c) Hs Hmod) as [Hids Hcodes Hlen Hice]. split; try done. cbn.
    intros i q [_ Hq]%lookup_delete_Some. by apply (Hids i q).
  - intros c'. cbn [heap set_connections]. rewrite Hp'. intros [= <-].
    destruct (ok_conns _ Hy _ _ _ Hc Ht) as [(_ & Hw & _) _]. split; [|by intros ?].
    split_and!; try done. cbn. rewrite Hid. apply lookup_delete_eq.
  - intros q c' t0 Hne Hq Ht0. cbn [heap set_connections] in Hq.
    apply (conn_ok_ext (commit s1 d)); [|done|].
    + cbn [connections set_connections]. rewrite lookup_delete_ne; [done|]. intros Heq.
      assert (heap s1 !! q = Some c' \/ exists c0, heap s1 !! q = Some c0 /\ Connection.id c0 = Connection.id c') as Hq1.
      { rewrite heap_commit in Hq. apply fmap_Some in Hq as (c0 & Hc0 & ->). right. by exists c0. }
      assert (exists c0, heap (server y) !! q = Some c0 /\ Connection.id c0 = Connection.id c') as (c0 & Hc0 & Hid0).
      { unfold s1 in Hq1. rewrite lookup_update_conn_ne in Hq1 by done. destruct Hq1 as [?|?]; eauto. }
      destruct (ok_ids _ Hy _ _ Hc) as [E1 _]. destruct (ok_ids _ Hy _ _ Hc0) as [E2 _].
      apply Hne. rewrite Hid0, <-Heq, E1 in E2. lia.
    + apply (others_ok y Hy p c Hc g Hid Hroom d q c' t0); try done. intros c0 Hc0 Hid0.
      by apply (departure_mirrors s1 p (g c) Hs).
Qed.
End Ending.

(** *** Accepting *)

Lemma step_accept_ok y :
  sys_ok y -> next_id (server y) + 1 < 2 ^ 32 -> sys_ok (accept y).
Proof.
  unfold accept. intros Hy Hbound. destruct Hy as [Hwf Hmod Hnext Hids Htasks Hconns]. destruct y as [s ts acc].
  cbn [server tasks accepting] in *. set (p := heap_next s).
  assert (forall i q, connections s !! i = Some q -> i <> next_id s) as Hused.
  { intros i q Hq. destruct (wf_table _ Hwf _ _ Hq) as (c & Hc & <-). destruct (Hids _ _ Hc) as [-> ?].
    lia. }
  assert (heap s !! p = None) as Hp.
  { destruct (heap s !! p) as [c|] eqn:Hc; [|done]. destruct (Hids _ _ Hc) as [_ ?]. unfold p in *. lia. }
  assert (connections s !! next_id s = None) as Hfree.
  { destruct (connections s !! next_id s) as [q|] eqn:Hq; [|done]. by destruct (Hused _ _ Hq). }
  set (conn := Connection.mk (next_id s) "" (mkSocket true [] []) [] false false).
  assert (accept_connection s = mkServer (<[p := conn]> (heap s)) (S p) (<[next_id s := p]> (connections s))
    (rooms s) (next_id s + 1) (config s) (rng s)) as Haccept.
  { unfold accept_connection. rewrite N.mod_small by done. unfold emplace. by rewrite Hfree. }
  assert (forall q c, heap s !! q = Some c -> q <> p /\ Connection.id c <> next_id s) as Hother.
  { intros q c Hq. split; [congruence|]. destruct (Hids _ _ Hq) as [-> ?]. lia. }
  split; cbn [server tasks]; rewrite Haccept; cbn [heap heap_next connections rooms next_id].
  - split; cbn.
    + intros i q [[<- <-]|[Hne Hq]]%lookup_insert_Some; [exists conn; by rewrite lookup_insert_eq|].
      destruct (wf_table _ Hwf _ _ Hq) as (c & Hc & Hic). exists c. rewrite lookup_insert_ne; [done|].
      apply not_eq_sym. by apply (Hother q c).
    + apply (wf_rooms _ Hwf).
    + intros code r i Hr Hi. destruct (wf_members _ Hwf _ _ _ Hr Hi) as (q & c & Hq & Hc & Hcode).
      exists q, c. rewrite !lookup_insert_ne; [done|apply not_eq_sym; by apply (Hother q c)|apply not_eq_sym; by apply (Hused i q)].
    + intros q c [[<- <-]|[Hne Hq]]%lookup_insert_Some Hroom; [done|].
      destruct (wf_conns _ Hwf _ _ Hq Hroom) as [Hid Hr]. split; [|done].
      rewrite lookup_insert_ne; [done|]. apply not_eq_sym. by apply (Hother q c).
    + apply (wf_config _ Hwf).
  - destruct Hmod as [Hfit Hcodes Hlen Hice]. split; [|exact Hcodes|exact Hlen|exact Hice]. cbn.
    intros i q [[<- _]|[_ Hq]]%lookup_insert_Some; [|by apply (Hfit i q)].
    unfold fits. change (256 ^ N.of_nat 4) with (2 ^ 32). lia.
  - lia.
  - intros q c [[<- <-]|[Hne Hq]]%lookup_insert_Some; [split; [done|lia]|].
    destruct (Hids _ _ Hq) as [? ?]. split; [done|]. unfold p. lia.
  - intros q. destruct (decide (q = p)) as [->|Hne].
    + rewrite !lookup_insert_eq. split; eauto.
    + rewrite !lookup_insert_ne by done. apply Htasks.
  - intros q c t Hq. intros [[<- <-]|[Hne Ht]]%lookup_insert_Some.
    + rewrite lookup_insert_eq in Hq. injection Hq as <-. split; [|done].
      unfold session_ok. cbn. by rewrite lookup_insert_eq.
    + rewrite lookup_insert_ne in Hq by done. apply (conn_ok_ext s); [|done|by apply Hconns].
      cbn. apply lookup_insert_ne, not_eq_sym. by apply (Hother q c).
Qed.

(** *** Reading *)

Lemma on_read_ok body bytes at_point body' at_point' :
  reader_ok body at_point -> sizeN bytes = needed at_point ->
  on_read body bytes at_point = Await body' at_point' -> reader_ok body' at_point'.
Proof.
  intros Hreader Hsize. destruct at_point as [|len more]; cbn [on_read].
  - unfold on_header. destruct (DecodeFrameHeader bytes) as [[len more]|] eqn:Hdecode; [|done].
    case_bool_decide as Hbig; [done|]. intros [= <- <-]. split; [|lia].
    revert Hdecode. unfold DecodeFrameHeader. destruct (dec _ _) as [[raw rest]|]; [|done].
    case_bool_decide; [|done]. by intros [= <- _].
  - unfold on_body. destruct more; [|by destruct (deserialize _)]. intros [= <- <-].
    destruct Hreader as [_ Hreader]. cbn in *. rewrite sizeN_app. lia.
Qed.

Lemma on_read_acceptable body bytes at_point msg :
  reader_ok body at_point -> sizeN bytes = needed at_point ->
  on_read body bytes at_point = Handle msg -> acceptable msg.
Proof.
  intros Hreader Hsize. destruct at_point as [|len more]; cbn [on_read].
  - unfold on_header. destruct (DecodeFrameHeader bytes) as [[len more]|]; [|done]. by case_bool_decide.
  - unfold on_body. destruct more; [done|]. destruct (deserialize _) as [msg'|] eqn:Hread; [|done].
    intros [= <-]. apply (deserialize_acceptable (body ++ bytes)); [|done].
    destruct Hreader as [_ Hreader]. cbn in *. rewrite sizeN_app. lia.
Qed.

Lemma step_read_ok `{!RoomRng} y p c body at_point w fuel pt' s' :
  sys_ok y -> tasks y !! p = Some (Task.mk (Reading body at_point) w) -> heap (server y) !! p = Some c ->
  needed at_point <= sizeN (sk_in (Connection.socket c)) ->
  read_loop fuel p body at_point (server y) = Done pt' s' ->
  sys_ok (with_task p (Task.mk pt' w) s' y).
Proof.
  intros Hy Ht Hc Hneeded Hrun.
  destruct (ok_conns _ Hy _ _ _ Hc Ht) as [(_ & _ & _ & _ & Hreader & _) _].
  unfold read_loop in Hrun. rewrite (bind_done _ _ _ c (server y)) in Hrun by (unfold get_conn; by rewrite Hc).
  rewrite bind_modify in Hrun. unfold update_socket in Hrun.
  set (f := fun c0 : Connection.t => _) in Hrun. set (bytes := take _ _) in Hrun.
  assert (sizeN bytes = needed at_point) as Hbytes by (by apply sizeN_take).
  destruct (on_read body bytes at_point) as [body' at_point'|msg|] eqn:Hread.
  - injection Hrun as <- <-. apply (step_await_ok y Hy p c body at_point w Hc Ht f); try done.
    by apply (on_read_ok body bytes at_point).
  - apply bind_done_inv in Hrun as ([] & s1 & Hrun1 & Hret). injection Hret as <- <-.
    eapply (step_handle_ok y Hy p c body at_point w Hc Ht f); try done.
    by apply (on_read_acceptable body bytes at_point).
  - apply bind_done_inv in Hrun as ([] & s1 & Hrun1 & Hret). injection Hret as <- <-.
    by apply (step_end_ok y Hy p c body at_point w Hc Ht f).
Qed.

(** ** Every reachable state *)

(** The counter of ids has not come round: fewer than 2^32 - 1 connections were
    accepted so far. *)
Definition ids_left (y : Sys) : Prop := N.of_nat (heap_next (server y)) + 1 < 2 ^ 32.

Lemma io_step_ok `{!RoomRng} y y' : sys_ok y -> io_step y y' -> sys_ok y'.
Proof.
  intros Hy Hstep.
  destruct Hstep as [Hstep|Hstep];
    [destruct Hstep as [y p w s' Ht Hrun|y p c body at_point w fuel pt' s' Ht Hc Hneeded Hrun
      |y p c pt w' s' Ht Hc Hwake Hrun|y p c pt frame w' s' Ht Hc Hopen Hrun]
    |destruct Hstep as [y p body at_point w s' Ht Hrun|y p pt frame sent Ht]].
  - by apply step_session_ok.
  - by apply (step_read_ok y p c body at_point w fuel).
  - apply (writer_step_ok y p c pt Waiting w' (fun c => c) s'); try done; [by rewrite app_nil_r|].
    by rewrite (update_conn_id _ _ c).
  - destruct (ok_conns _ Hy _ _ _ Hc Ht) as [_ Hwake].
    eapply (writer_step_ok y p c pt (Writing frame) w' _ s'); [done..| | | | | | | | |done|exact Hrun]; try done.
    destruct (Connection.wake c) eqn:Hpending; [|done]. by destruct (Hwake Hpending).
  - destruct (ok_task y p _ Hy Ht) as (c & Hc & _).
    apply (step_end_ok y Hy p c body at_point w Hc Ht (fun c => c)); [done..|]. by rewrite (update_conn_id _ _ c).
  - by apply step_write_failed_ok.
Qed.

Lemma accept_failed_ok y : sys_ok y -> sys_ok (accept_failed y).
Proof. intros []. by split. Qed.

Lemma accept_ok y : sys_ok y -> ids_left (accept y) -> sys_ok (accept y).
Proof.
  intros Hy Hleft. apply step_accept_ok; [done|]. unfold ids_left in Hleft. cbn in Hleft. rewrite (ok_next _ Hy). lia.
Qed.

Lemma sys_step_ok `{!RoomRng} y y' : sys_ok y -> sys_step y y' -> ids_left y' -> sys_ok y'.
Proof.
  intros Hy Hstep Hleft. destruct Hstep as [y p bytes|y _|y|y y' Hstep].
  - by apply step_arrive_ok.
  - by apply accept_ok.
  - by apply accept_failed_ok.
  - by apply (io_step_ok y).
Qed.

Definition reachable `{!RoomRng} (cfg : ServerConfig) (y : Sys) : Prop :=
  rtc (fun y1 y2 => sys_step y1 y2 /\ ids_left y2) (sys_init cfg) y.

(** What the configuration has to satisfy: room codes and the ICE servers fit
    in a message. *)
Record config_ok (cfg : ServerConfig) : Prop := {
  cfg_codes : room_code_length cfg <= max_code;
  cfg_ice : sendable (Proto.IceServersMsg (ice cfg))
}.

(** [Init] replaces a length of 0, so that codes are never empty. *)
Lemma init_config ec cfg s : let s' := (Init ec cfg s).2 in
  ice (config s') = ice cfg /\ 0 < room_code_length (config s') <= N.max 8 (room_code_length cfg).
Proof.
  unfold Init. cbn [set_config config room_code_length ice].
  case_bool_decide; repeat case_match; cbn; split; try done; lia.
Qed.

Lemma sys_init_ok cfg : config_ok cfg -> sys_ok (sys_init cfg).
Proof.
  intros [Hcodes Hice]. pose proof (init_config (fun _ => false) cfg server_new) as [Hsame Hlen].
  assert (forall ec, exists cfg', Init ec cfg server_new = ((Init ec cfg server_new).1, set_config cfg' server_new)) as Hnew.
  { intros ec. unfold Init. cbn [set_config config]. case_bool_decide; repeat case_match; by eexists. }
  unfold sys_init. destruct (Hnew (fun _ => false)) as [cfg' Heq]. rewrite Heq in *. cbn [snd set_config config] in *. clear Heq Hnew.
  split; cbn; try done.
  - split; cbn; try (intros *; rewrite lookup_empty; done); [apply map_Forall_empty|]. unfold code_length. cbn. lia.
  - split; cbn; try (intros *; rewrite lookup_empty; done); [|by rewrite Hsame].
    change max_code with 16378 in *. lia.
  - intros p. rewrite !lookup_empty. split; intros [? ?]; done.
Qed.

Lemma reachable_ok `{!RoomRng} cfg y : config_ok cfg -> reachable cfg y -> sys_ok y.
Proof.
  intros Hcfg. unfold reachable. generalize (sys_init_ok cfg Hcfg). generalize (sys_init cfg).
  induction 2 as [|y1 y2 y3 [Hstep Hleft] _ IH]; [done|]. by apply IH, (sys_step_ok y1).
Qed.

(** [AcceptLoop] has no handler: the exception of one failed [async_accept] ends
    the detached coroutine, and no client is accepted from then on. *)
Lemma accept_failure_is_final `{!RoomRng} y y' :
  rtc sys_step y y' -> accepting y = false -> accepting y' = false /\ dom (tasks y') = dom (tasks y).
Proof.
  induction 1 as [y|y1 y2 y3 Hstep _ IH]; [done|]. intros Hoff.
  enough (accepting y2 = false /\ dom (tasks y2) = dom (tasks y1)) as [Hoff' Hdom].
  { destruct (IH Hoff') as [? ?]. split; [done|congruence]. }
  destruct Hstep as [| | |y1 y2 Hstep]; cbn in *; try congruence; try done.
  destruct Hstep as [Hstep|Hstep]; destruct Hstep; cbn in *; (split; [done|]);
    rewrite dom_insert_L; match goal with Ht : tasks _ !! _ = Some _ |- _ => apply elem_of_dom_2 in Ht end; set_solver.
Qed.

(** Stopping is final, and what a process does until then is a run of its
    coroutines. *)
Lemma process_runs_sys `{!RoomRng} r r' : rtc process_step r r' ->
  rtc sys_step (state r) (state r') /\ (stopped r = true -> r' = r).
Proof.
  induction 1 as [r|r1 r2 r3 Hstep _ [IHrun IHstop]]; [by split; [apply rtc_refl|]|].
  destruct Hstep as [r1 y' Hrunning Hstep|r1]; cbn [state stopped Stop] in *.
  - split; [by apply (rtc_l _ _ y')|congruence].
  - split; [done|]. intros Hstopped. rewrite IHstop by done. unfold Stop. by rewrite <-Hstopped; destruct r1.
Qed.
