(* ===== verification/Scheduler.v ===== *)
(** Running the server: a scheduler picks the next step, and each step is
    executed.  [run_io] and [run_sys] are sound for the step relations, so that
    a computed run shows its last state to be reachable.  [DemoSys] is such a
    run; the examples of the files on the sessions use it. *)
From S2P Require Import Prelude Wire Protocol Framing RoomCache Server ServerExec WellFormed Sendable Session SessionInv.
Local Open Scope N_scope.

(** The step of one session: its start, a completed or failed read, a wake-up or
    completed write, a failed write. *)
Inductive io_action : Type :=
| Start (p : ptr)
| Read (p : ptr) (fuel : nat)
| ReadFails (p : ptr)
| Write (p : ptr)
| WriteFails (p : ptr) (sent : nat).

Inductive sys_action : Type :=
| Io (a : io_action)
| Accept
| Arrive (p : ptr) (bytes : list byte).

Section Scheduler.
Context `{!RoomRng}.

Definition run_write (p : ptr) (c : Connection.t) (t : Task.t) (y : Sys) : option Sys :=
  let finish s :=
    match write_loop p s with
    | Done w' s' => Some (with_task p (Task.mk (Task.session t) w') s' y)
    | _ => None
    end in
  match Task.writer t with
  | Waiting => if Connection.wake c then None else finish (server y)
  | Writing frame =>
      if sk_open (Connection.socket c)
      then finish (update_socket p (fun k => set_sk_out (sk_out k ++ frame) k) (server y))
      else None
  | _ => None
  end.

Definition run_read (p : ptr) (fuel : nat) (c : Connection.t) (t : Task.t) (y : Sys) : option Sys :=
  match Task.session t with
  | Reading body at_point =>
      if bool_decide (needed at_point <= sizeN (sk_in (Connection.socket c)))
      then match read_loop fuel p body at_point (server y) with
           | Done pt' s' => Some (with_task p (Task.mk pt' (Task.writer t)) s' y)
           | _ => None
           end
      else None
  | _ => None
  end.

Definition run_io (a : io_action) (y : Sys) : option Sys :=
  match a with
  | Start p =>
      t ← tasks y !! p;
      match t, session_start p (server y) with
      | Task.mk Spawned NotSpawned, Done w s' => Some (with_task p (Task.mk (Reading [] AwaitHeader) w) s' y)
      | _, _ => None
      end
  | Read p fuel => t ← tasks y !! p; c ← heap (server y) !! p; run_read p fuel c t y
  | ReadFails p =>
      t ← tasks y !! p;
      match Task.session t, session_end p (server y) with
      | Reading _ _, Done _ s' => Some (with_task p (Task.mk Ended (Task.writer t)) s' y)
      | _, _ => None
      end
  | Write p => t ← tasks y !! p; c ← heap (server y) !! p; run_write p c t y
  | WriteFails p sent =>
      t ← tasks y !! p;
      match Task.writer t with
      | Writing frame => Some (with_task p (Task.mk (Task.session t) Finished)
          (update_socket p (fun k => set_sk_out (sk_out k ++ take sent frame) k) (server y)) y)
      | _ => None
      end
  end.

Definition run_sys (a : sys_action) (y : Sys) : option Sys :=
  match a with
  | Io a => run_io a y
  | Accept => if accepting y then Some (accept y) else None
  | Arrive p bytes => Some (arrive p bytes y)
  end.

(** A whole run; [ok] holds of every state behind a step. *)
Fixpoint run_all {A B} (step : A -> B -> option B) (ok : B -> bool) (l : list A) (y : B) : option B :=
  match l with
  | [] => Some y
  | a :: l => y' ← step a y; if ok y' then run_all step ok l y' else None
  end.

Lemma run_io_sound a y y' : run_io a y = Some y' -> io_step y y'.
Proof.
  destruct a as [p|p fuel|p|p|p sent]; cbn [run_io]; unfold mbind, option_bind;
    destruct (tasks y !! p) as [[pt w]|] eqn:Ht; try done.
  - destruct pt, w; try done. destruct (session_start p (server y)) as [w s'| |] eqn:Hrun; try done.
    intros [= <-]. by apply io_works, step_session.
  - destruct (heap (server y) !! p) as [c|] eqn:Hc; [|done]. unfold run_read. cbn [Task.session Task.writer].
    destruct pt as [|body at_point|]; [done| |done]. case_bool_decide as Hneeded; [|done].
    destruct (read_loop _ _ _ _ _) as [pt' s'| |] eqn:Hrun; [|done..]. intros [= <-]. by apply io_works, (step_read y p c body at_point w fuel).
  - cbn [Task.session Task.writer]. destruct pt as [|body at_point|]; [done| |done].
    destruct (session_end p (server y)) as [[] s'| |] eqn:Hrun; [|done..]. intros [= <-]. by apply io_fails, (step_read_failed y p body at_point w).
  - destruct (heap (server y) !! p) as [c|] eqn:Hc; [|done]. unfold run_write. cbn [Task.session Task.writer].
    destruct w as [| |frame|]; [done| | |done].
    + destruct (Connection.wake c) eqn:Hwake; [done|]. destruct (write_loop p _) as [w' s'| |] eqn:Hrun; [|done..].
      intros [= <-]. by apply io_works, (step_woken y p c pt).
    + destruct (sk_open _) eqn:Hopen; [|done]. destruct (write_loop p _) as [w' s'| |] eqn:Hrun; [|done..].
      intros [= <-]. by apply io_works, (step_written y p c pt frame).
  - cbn [Task.session Task.writer]. destruct w; try done. intros [= <-]. by apply io_fails, step_write_failed.
Qed.

Lemma run_sys_sound a y y' : run_sys a y = Some y' -> sys_step y y'.
Proof.
  destruct a as [a| |p bytes]; cbn [run_sys].
  - intros Hrun. by apply step_io, (run_io_sound a).
  - destruct (accepting y) eqn:Haccepting; [|done]. intros [= <-]. by apply step_accept.
  - intros [= <-]. apply step_arrive.
Qed.

(** A run whose steps are steps of [R] and whose states pass the check. *)
Lemma run_all_sound {A B} (step : A -> B -> option B) (ok : B -> bool) (R : B -> B -> Prop) (P : B -> Prop) l y y' :
  (forall a y y', step a y = Some y' -> R y y') -> (forall y, ok y = true -> P y) ->
  P y -> run_all step ok l y = Some y' -> rtc (fun y1 y2 => R y1 y2 /\ P y1 /\ P y2) y y'.
Proof.
  intros Hstep Hok. revert y. induction l as [|a l IH]; intros y Hy; cbn [run_all]; [intros [= <-]; apply rtc_refl|].
  unfold mbind, option_bind. destruct (step a y) as [y1|] eqn:Ha; [|done]. destruct (ok y1) eqn:Hok1; [|done].
  intros Hrun. apply (rtc_l _ _ y1); [|by apply IH, Hrun; apply Hok]. by split_and!; [apply (Hstep a)| |apply Hok].
Qed.

Definition ids_left_b (y : Sys) : bool := bool_decide (N.of_nat (heap_next (server y)) + 1 < 2 ^ 32).

Lemma run_sys_reachable cfg l y : run_all run_sys ids_left_b l (sys_init cfg) = Some y -> reachable cfg y.
Proof.
  intros Hrun. unfold reachable. eapply (rtc_subrel _ _ _ _); [|eapply (run_all_sound _ _ sys_step ids_left); [apply run_sys_sound| | |exact Hrun]].
  - by intros y1 y2 (? & _ & ?).
  - intros y1 Hy1. by apply bool_decide_eq_true in Hy1.
  - unfold ids_left, sys_init, Init. cbn [Run server]. by case_bool_decide.
Qed.
End Scheduler.

(** ** Concrete runs *)

Module DemoSys.
#[local] Existing Instance Demo.rng.

Lemma config_fits : config_ok Demo.config.
Proof.
  split; [apply (bool_decide_unpack _); vm_compute; exact I|].
  apply sendable_intro; [split; [|exact I]|apply (bool_decide_unpack _); vm_compute; exact I].
  split; [split; apply (bool_decide_unpack _); vm_compute; exact I|].
  split; [apply (bool_decide_unpack _); vm_compute; exact I|apply Forall_nil_2].
Qed.

(** A client connects, is greeted, and asks for a room; both halves of its frame
    have been read.  Its writer has not run yet. *)
Definition to_room : list sys_action :=
  [Accept; Io (Start 0%nat); Arrive 0%nat (FrameMessage Proto.CreateRoom); Io (Read 0%nat 0%nat); Io (Read 0%nat 0%nat)].
Definition created : Sys := default (sys_init Demo.config) (run_all run_sys ids_left_b to_room (sys_init Demo.config)).
(** The client's connection. *)
Definition conn : Connection.t := default (Demo.conn 0 "") (heap (server created) !! 0%nat).

Lemma created_reachable : reachable Demo.config created.
Proof. apply (run_sys_reachable Demo.config to_room). vm_compute. reflexivity. Qed.

(** A second client joins the room. *)
Definition code : string := Connection.room conn.
Definition to_join : list sys_action :=
  to_room ++ [Accept; Io (Start 1%nat); Arrive 1%nat (FrameMessage (Proto.JoinRoom code "")); Io (Read 1%nat 0%nat); Io (Read 1%nat 0%nat)].
Definition joined : Sys := default created (run_all run_sys ids_left_b to_join (sys_init Demo.config)).

Lemma two_joined_reachable : reachable Demo.config joined.
Proof. apply (run_sys_reachable Demo.config to_join). vm_compute. reflexivity. Qed.

(** Both say something, while the frames of one of them are being written. *)
Definition to_talk : list sys_action :=
  [Arrive 1%nat (FrameMessage (Proto.RoomChat 0 "hello")); Io (Write 0%nat); Arrive 0%nat (FrameMessage (Proto.RoomChat 0 "hi"));
   Io (Read 1%nat 0%nat); Io (Read 0%nat 0%nat); Io (Write 0%nat); Io (Read 0%nat 0%nat); Io (Write 0%nat); Io (Read 1%nat 0%nat); Io (Write 0%nat)].
Definition talked : Sys := default joined (run_all run_sys ids_left_b to_talk joined).
End DemoSys.
