(* ===== verification/Turns.v ===== *)
(** One turn of the io context, as what it does to each connection.

    A step of a coroutine changes fields of its own connection and then applies
    a delta: nothing, the greeting, what a handler does with a message, or the
    departure of the client.  [turn] says so, and [conn_moves] is what that
    means for any single connection: what its reader consumed, what went to its
    socket, which messages were queued behind. *)
From S2P Require Import Prelude Wire Protocol Framing Stream RoomCache Server ServerExec Lobby WellFormed.
From S2P Require Import Refine ServerInv Rules Authority Mirror Sendable Session SessionInv.
Local Open Scope N_scope.
#[local] Opaque FrameMessage.

Definition conn_at (y : Sys) (p : ptr) (c : Connection.t) (t : Task.t) : Prop :=
  heap (server y) !! p = Some c /\ tasks y !! p = Some t.

Lemma conn_at_unique y p c t c' t' : conn_at y p c t -> conn_at y p c' t' -> c' = c /\ t' = t.
Proof. intros [] []. split; congruence. Qed.

(** A session that goes on, with a writer that has not failed. *)
Definition live (t : Task.t) : Prop :=
  Task.writer t <> Finished /\ exists body at_point, Task.session t = Reading body at_point.

(** What [ReadLoop] did with the bytes received. *)
Inductive reads : session_point -> list byte -> session_point -> list byte -> Prop :=
| reads_nothing pt bytes : reads pt bytes pt bytes
| reads_first bytes : reads Spawned bytes (Reading [] AwaitHeader) bytes
| reads_part body at_point body' at_point' bytes :
    needed at_point <= sizeN bytes ->
    on_read body (take (N.to_nat (needed at_point)) bytes) at_point = Await body' at_point' ->
    reads (Reading body at_point) bytes (Reading body' at_point') (drop (N.to_nat (needed at_point)) bytes)
| reads_message body at_point m bytes :
    needed at_point <= sizeN bytes ->
    on_read body (take (N.to_nat (needed at_point)) bytes) at_point = Handle m ->
    reads (Reading body at_point) bytes (Reading [] AwaitHeader) (drop (N.to_nat (needed at_point)) bytes)
| reads_no_more body at_point bytes bytes' : reads (Reading body at_point) bytes Ended bytes'.

(** The frame [WriteLoop] has in hand. *)
Definition in_hand (w : writer_point) : list byte := match w with Writing frame => frame | _ => [] end.

(** What [WriteLoop] did: everything is still on its way, or it has given up in
    the middle of a frame. *)
Definition writes (c : Connection.t) (w : writer_point) (c' : Connection.t) (w' : writer_point) : Prop :=
  (exists sent, sk_out (Connection.socket c') = sk_out (Connection.socket c) ++ sent) /\
  if decide (w' = Finished)
  then sk_out (Connection.socket c') `prefix_of` sk_out (Connection.socket c) ++ in_hand w
  else pipeline c' w' = pipeline c w /\ w <> Finished.

(** The deltas of the steps. *)
Inductive session_act `{!RoomRng} (s : Server) (p : ptr) (c : Connection.t) : delta -> Prop :=
| act_quiet : session_act s p c (no_delta s)
| act_greet : connections s !! Connection.id c = Some p ->
    session_act s p c (send (no_delta s) (greeting s (Connection.id c)))
| act_handle fuel msg d :
    sender s p c -> acceptable msg -> lobby_message fuel s p c msg = Some d -> session_act s p c d
| act_depart : sender s p c -> session_act s p c (departure s p c).

Record turn `{!RoomRng} (y y' : Sys) (p : ptr) (c : Connection.t) (t t' : Task.t)
    (f : Connection.t -> Connection.t) (d : delta) : Prop := {
  turn_at : conn_at y p c t;
  turn_id : Connection.id (f c) = Connection.id c;
  turn_room : Connection.room (f c) = Connection.room c;
  turn_act : session_act (update_conn p f (server y)) p (f c) d;
  turn_heap : heap (server y') = heap (commit (update_conn p f (server y)) d);
  turn_rooms : rooms (server y') = d_rooms d;
  turn_tasks : tasks y' = <[p := t']> (tasks y);
  turn_next : heap_next (server y') = heap_next (server y);
  turn_reads : reads (Task.session t) (sk_in (Connection.socket c)) (Task.session t') (sk_in (Connection.socket (f c)));
  turn_writes : writes c (Task.writer t) (f c) (Task.writer t')
}.

Section Turns.
Context `{!RoomRng}.

Lemma writes_same c w c' :
  sk_out (Connection.socket c') = sk_out (Connection.socket c) -> Connection.out c' = Connection.out c -> writes c w c' w.
Proof.
  intros Hsk Hout. split; [exists []; by rewrite app_nil_r|]. case_decide as Hw.
  - rewrite Hsk. by apply prefix_app_r.
  - split; [|done]. unfold pipeline. by rewrite Hsk, Hout.
Qed.

(** A step that applies no delta. *)
Lemma quiet_turn y p c t t' f :
  conn_at y p c t -> Connection.id (f c) = Connection.id c -> Connection.room (f c) = Connection.room c ->
  reads (Task.session t) (sk_in (Connection.socket c)) (Task.session t') (sk_in (Connection.socket (f c))) ->
  writes c (Task.writer t) (f c) (Task.writer t') ->
  turn y (with_task p t' (update_conn p f (server y)) y) p c t t' f (no_delta (update_conn p f (server y))).
Proof. intros. split; try done; [constructor|]. by rewrite commit_no_delta. Qed.

(** [WriteLoop], after the frame in hand was written. *)
Lemma writer_turn y p c pt w w' g s' :
  conn_at y p c (Task.mk pt w) -> w <> Finished ->
  Connection.id (g c) = Connection.id c -> Connection.room (g c) = Connection.room c ->
  Connection.closing (g c) = Connection.closing c -> Connection.out (g c) = Connection.out c ->
  sk_in (Connection.socket (g c)) = sk_in (Connection.socket c) ->
  sk_out (Connection.socket (g c)) = sk_out (Connection.socket c) ++ in_hand w ->
  write_loop p (update_conn p g (server y)) = Done w' s' ->
  exists f d, turn y (with_task p (Task.mk pt w') s' y) p c (Task.mk pt w) (Task.mk pt w') f d.
Proof.
  intros Hat Hw Hid Hroom Hclosing Hout Hin Hsk Hrun. pose proof Hat as [Hc _].
  rewrite (write_loop_run p (g c)) in Hrun by (by apply lookup_update_conn).
  assert (forall h w'', Connection.id (h (g c)) = Connection.id c -> Connection.room (h (g c)) = Connection.room c ->
    Connection.socket (h (g c)) = Connection.socket (g c) ->
    w'' = Finished \/ in_hand w'' ++ concat (Connection.out (h (g c))) = concat (Connection.out c) /\ w'' <> Finished ->
    exists f d, turn y (with_task p (Task.mk pt w'') (update_conn p (fun c => h (g c)) (server y)) y) p c
      (Task.mk pt w) (Task.mk pt w'') f d) as Hgo.
  { intros h w'' Hid' Hroom' Hsocket Hrest. eexists (fun c => h (g c)), _. apply quiet_turn; try done; cbn [Task.session Task.writer].
    - rewrite Hsocket, Hin. constructor.
    - unfold writes. rewrite Hsocket, Hsk. split; [by eexists|]. destruct Hrest as [->|[Hrest Hw'']]; [by rewrite decide_True|].
      rewrite decide_False by done. split; [|done]. unfold pipeline. rewrite Hsocket, Hsk, <-app_assoc. do 2 f_equal. exact Hrest. }
  rewrite Hclosing, Hout in Hrun. destruct (Connection.closing c).
  - injection Hrun as <- <-. apply (Hgo (fun c => c)); try done. by left.
  - destruct (Connection.out c) as [|frame rest] eqn:Hqueue; injection Hrun as <- <-; rewrite update_update.
    + apply (Hgo (Connection.set_wake true)); try done. right. split; [|done]. cbn. by rewrite Hout.
    + apply (Hgo (Connection.set_out rest)); try done. by right.
Qed.
(** [Session], from its start to the first read. *)
Lemma start_turn y p c w s' :
  sys_ok y -> conn_at y p c (Task.mk Spawned NotSpawned) -> session_start p (server y) = Done w s' ->
  exists f d, turn y (with_task p (Task.mk (Reading [] AwaitHeader) w) s' y) p c (Task.mk Spawned NotSpawned)
    (Task.mk (Reading [] AwaitHeader) w) f d.
Proof.
  intros Hy Hat Hrun. pose proof Hat as [Hc Ht].
  destruct (ok_conns _ Hy _ _ _ Hc Ht) as [(Hid & _ & _ & Hout & Hclosing & _) _].
  pose proof (session_start_run p c (server y) Hc Hclosing Hout) as Hstart. cbv zeta in Hstart.
  rewrite Hrun in Hstart. injection Hstart as -> ->. eexists (Connection.set_wake true), _.
  split; try done; [|constructor|].
  { by apply (act_greet (update_conn p (Connection.set_wake true) (server y)) p (Connection.set_wake true c)). }
  split; [exists []; by rewrite app_nil_r|]. by rewrite decide_False.
Qed.

(** The end of a session. *)
Lemma end_turn y p c body at_point w f s' :
  sys_ok y -> conn_at y p c (Task.mk (Reading body at_point) w) ->
  Connection.id (f c) = Connection.id c -> Connection.room (f c) = Connection.room c ->
  sk_out (Connection.socket (f c)) = sk_out (Connection.socket c) -> Connection.out (f c) = Connection.out c ->
  session_end p (update_conn p f (server y)) = Done tt s' ->
  exists f d, turn y (with_task p (Task.mk Ended w) s' y) p c (Task.mk (Reading body at_point) w) (Task.mk Ended w) f d.
Proof.
  intros Hy Hat Hid Hroom Hsk Hout Hrun. pose proof Hat as [Hc Ht].
  pose proof (reading_sender y Hy p c body at_point w Hc Ht (fun c => shut (f c)) Hid Hroom) as Hs.
  rewrite (session_end_run p (f c)) in Hrun by (by apply lookup_update_conn). rewrite update_update in Hrun.
  injection Hrun as <-. eexists (fun c => shut (f c)), _. split; try done; [|constructor|].
  { exact (act_depart (update_conn p (fun c => shut (f c)) (server y)) p (shut (f c)) Hs). }
  by apply writes_same.
Qed.

(** [count] of the bytes received by [c0] are read. *)
Definition consume (count : N) (c0 c : Connection.t) : Connection.t :=
  Connection.set_socket (set_sk_in (drop (N.to_nat count) (sk_in (Connection.socket c0))) (Connection.socket c)) c.

(** [ReadLoop] reads the last fragment of a message. *)
Lemma handle_turn y p c body at_point w fuel msg d :
  sys_ok y -> conn_at y p c (Task.mk (Reading body at_point) w) ->
  needed at_point <= sizeN (sk_in (Connection.socket c)) ->
  on_read body (take (N.to_nat (needed at_point)) (sk_in (Connection.socket c))) at_point = Handle msg ->
  let f := consume (needed at_point) c in
  let s1 := update_conn p f (server y) in
  lobby_message fuel s1 p (f c) msg = Some d ->
  turn y (with_task p (Task.mk (Reading [] AwaitHeader) w) (commit s1 d) y) p c (Task.mk (Reading body at_point) w)
    (Task.mk (Reading [] AwaitHeader) w) f d.
Proof.
  intros Hy Hat Hneeded Hread f s1 Hd. pose proof Hat as [Hc Ht].
  destruct (ok_conns _ Hy _ _ _ Hc Ht) as [(_ & _ & _ & _ & Hreader & _) _].
  split; try done.
  - apply (act_handle _ _ _ fuel msg); [by apply (reading_sender y Hy p c body at_point w)| |done].
    apply (on_read_acceptable body (take (N.to_nat (needed at_point)) (sk_in (Connection.socket c))) at_point); try done.
    by apply sizeN_take.
  - by apply (reads_message body at_point msg).
  - by apply writes_same.
Qed.

(** [ReadLoop], from one read to the next. *)
Lemma read_turn y p c body at_point w fuel pt' s' :
  sys_ok y -> conn_at y p c (Task.mk (Reading body at_point) w) ->
  needed at_point <= sizeN (sk_in (Connection.socket c)) ->
  read_loop fuel p body at_point (server y) = Done pt' s' ->
  exists f d, turn y (with_task p (Task.mk pt' w) s' y) p c (Task.mk (Reading body at_point) w) (Task.mk pt' w) f d.
Proof.
  intros Hy Hat Hneeded Hrun. pose proof Hat as [Hc Ht].
  destruct (ok_conns _ Hy _ _ _ Hc Ht) as [(_ & _ & _ & _ & Hreader & _) _].
  unfold read_loop in Hrun. rewrite (bind_done _ _ _ c (server y)) in Hrun by (unfold get_conn; by rewrite Hc).
  rewrite bind_modify in Hrun. unfold update_socket in Hrun.
  change (fun c0 : Connection.t => _) with (consume (needed at_point) c) in Hrun.
  set (f := consume (needed at_point) c) in Hrun. set (bytes := take _ _) in Hrun.
  assert (sizeN bytes = needed at_point) as Hbytes by (by apply sizeN_take).
  destruct (on_read body bytes at_point) as [body' at_point'|msg|] eqn:Hread.
  - injection Hrun as <- <-. eexists f, _. apply quiet_turn; try done; [by apply reads_part|by apply writes_same].
  - apply bind_done_inv in Hrun as ([] & s1 & Hrun & Hret). injection Hret as <- <-.
    pose proof (reading_sender y Hy p c body at_point w Hc Ht f eq_refl eq_refl) as Hs.
    destruct (sender_message _ _ _ _ _ _ Hs Hrun) as (d & Hd & -> & _).
    exists f, d. by apply (handle_turn y p c body at_point w fuel msg).
  - apply bind_done_inv in Hrun as ([] & s1 & Hrun & Hret). injection Hret as <- <-.
    by apply (end_turn y p c body at_point w f).
Qed.

Lemma io_step_turn y y' : sys_ok y -> io_step y y' -> exists p c t t' f d, turn y y' p c t t' f d.
Proof.
  intros Hy Hstep.
  destruct Hstep as [Hstep|Hstep];
    [destruct Hstep as [y p w s' Ht Hrun|y p c body at_point w fuel pt' s' Ht Hc Hneeded Hrun
      |y p c pt w' s' Ht Hc Hwake Hrun|y p c pt frame w' s' Ht Hc Hopen Hrun]
    |destruct Hstep as [y p body at_point w s' Ht Hrun|y p pt frame sent Ht]];
    exists p; destruct (ok_task y p _ Hy Ht) as (c0 & Hc0 & _); exists c0; do 2 eexists; try simplify_eq.
  - by apply start_turn.
  - by apply (read_turn y p c body at_point w fuel).
  - apply (writer_turn y p c pt Waiting w' (fun c => c)); try done; [by rewrite app_nil_r|]. by rewrite (update_conn_id _ _ c).
  - eapply (writer_turn y p c pt (Writing frame) w'); [split; [exact Hc|exact Ht]|..|exact Hrun]; done.
  - apply (end_turn y p c0 body at_point w (fun c => c)); try done. by rewrite (update_conn_id _ _ c0).
  - eexists _, _. unfold update_socket. apply quiet_turn; try done; [constructor|].
    split; [by exists (take sent frame)|]. rewrite decide_True by done. cbn. apply prefix_app, prefix_take.
Qed.

(** ** Any connection, over a turn *)

Record conn_moves (c : Connection.t) (t : Task.t) (c' : Connection.t) (t' : Task.t)
    (new : list Proto.ServerMessage) : Prop := {
  moves_id : Connection.id c' = Connection.id c;
  moves_reads : reads (Task.session t) (sk_in (Connection.socket c)) (Task.session t') (sk_in (Connection.socket c'));
  moves_sent : exists sent, sk_out (Connection.socket c') = sk_out (Connection.socket c) ++ sent;
  moves_writes :
    if decide (Task.writer t' = Finished)
    then sk_out (Connection.socket c') `prefix_of` sk_out (Connection.socket c) ++ in_hand (Task.writer t)
    else pipeline c' (Task.writer t') = pipeline c (Task.writer t) ++ frame_all new /\ Task.writer t <> Finished
}.

Lemma turn_moves y y' p c t t' f d q cq tq :
  turn y y' p c t t' f d -> conn_at y q cq tq ->
  exists cq' tq', conn_at y' q cq' tq' /\
    cq' = conn_after (update_conn p f (server y)) d q (if decide (q = p) then f cq else cq) /\
    conn_moves cq tq cq' tq' (reaching (connections (server y)) q (d_sent d)).
Proof.
  intros [[Hc Ht] Hid Hroom _ Hheap _ Htasks _ Hreads Hwrites] [Hcq Htq].
  set (s1 := update_conn p f (server y)) in *. unfold conn_at. rewrite Hheap, Htasks, heap_commit.
  destruct (decide (q = p)) as [->|Hne].
  - rewrite Hc in Hcq. injection Hcq as <-. rewrite Ht in Htq. injection Htq as <-.
    rewrite (lookup_update_conn _ p f c Hc : heap s1 !! p = _), lookup_insert_eq by done.
    eexists _, t'. split; [done|]. split; [done|].
    destruct Hwrites as [Hsent Hwrites]. split; [done|done|done|]. case_decide; [done|].
    destruct Hwrites as [Hpipe Hw]. split; [|done]. by rewrite pipeline_after, Hpipe.
  - rewrite (lookup_update_conn_ne _ p q f Hne : heap s1 !! q = _), Hcq, lookup_insert_ne by done.
    eexists _, tq. split; [done|]. split; [done|]. split; [done|apply reads_nothing| |].
    + exists []. by rewrite app_nil_r.
    + case_decide as Hw; [apply prefix_app_r; by cbn|]. split; [|done]. by rewrite pipeline_after.
Qed.

Lemma turn_genuine y y' p c t t' f d : sys_ok y -> turn y y' p c t t' f d -> all_genuine (d_sent d).
Proof.
  intros Hy [[Hc Ht] Hid Hroom Hact _ _ _ _ _ _]. set (s1 := update_conn p f (server y)) in *.
  pose proof (reading_moderate y Hy p f : moderate s1) as Hmod.
  destruct Hact as [|Hown|fuel msg d Hs Hmsg Hd|Hs].
  - apply Forall_nil_2.
  - apply Forall_cons. split; [split; [|done]|apply Forall_singleton; split; [apply (mod_ice _ Hmod)|done]].
    apply sendable_intro; [|done]. split; [|done]. by apply (mod_ids _ Hmod _ p).
  - by apply (genuine_lobby_message s1 p (f c) Hs Hmod fuel msg).
  - by apply departure_genuine.
Qed.

(** No connection appears or goes. *)
Lemma turn_back y y' p c t t' f d q cq' tq' :
  turn y y' p c t t' f d -> conn_at y' q cq' tq' -> exists cq tq, conn_at y q cq tq.
Proof.
  intros [[Hc Ht] _ _ _ Hheap _ Htasks _ _ _] [Hcq Htq]. rewrite Hheap, heap_commit in Hcq. rewrite Htasks in Htq.
  destruct (decide (q = p)) as [->|Hne]; [by exists c, t|].
  rewrite lookup_update_conn_ne in Hcq by done. rewrite lookup_insert_ne in Htq by done.
  apply fmap_Some in Hcq as (cq & Hcq & _). by exists cq, tq'.
Qed.
End Turns.
