(* ===== verification/ClientSends.v ===== *)
(** What a client writes: whatever it is told and whatever arrives, the bytes
    its operations put behind [tx] are frames of messages the server's reader
    accepts - the requests of the application, if they are short enough, and
    the signals of the mesh.

    [Poll] is split where it writes to the socket: [Poll_split]. *)
From S2P Require Import Prelude Wire Protocol Framing Stream RoomCache Server Sendable.
From S2P Require Import Client ClientMesh ClientConn.
Local Open Scope N_scope.
#[local] Opaque FrameMessage.

(** The buffer [ShareLink] gives [juice_get_local_description] is of 4096 bytes,
    as libjuice documents. *)
Class ShortSdp `{!Juice} : Prop := sdp_buffer_size : JUICE_MAX_SDP_STRING_LEN <= 4096.

Lemma delete_some (ls : gmap N PeerLink.t) id i : is_Some (delete id ls !! i) -> is_Some (ls !! i).
Proof. intros [l [_ Hl]%lookup_delete_Some]. eauto. Qed.

Lemma alter_some (ls : gmap N PeerLink.t) f id i : is_Some (alter f id ls !! i) -> is_Some (ls !! i).
Proof. rewrite lookup_alter. case_decide; [|done]. subst. by rewrite fmap_is_Some. Qed.

Lemma empty_some (ls : gmap N PeerLink.t) (i : N) : is_Some ((∅ : gmap N PeerLink.t) !! i) -> is_Some (ls !! i).
Proof. rewrite lookup_empty. by intros []. Qed.
#[local] Hint Resolve delete_some alter_some empty_some : core.

Ltac wstep :=
  lazymatch goal with
  | |- wlp (_ ≫= _) _ _ => apply wlp_bind
  | |- wlp (gets _) _ _ => apply wlp_gets
  | |- wlp (modify _) _ _ => apply wlp_modify
  | |- wlp (ret _) _ _ => apply wlp_ret
  end; cbn beta iota.
Ltac wsteps := repeat wstep.

Section Sends.
Context {J : Juice}.

(** Candidates are lines of a description. *)
Definition short_event (ev : JuiceEvent) : Prop :=
  match ev_kind ev with EvCandidate payload => sizeN payload <= JUICE_MAX_SDP_STRING_LEN | _ => True end.

(** Ids are of 32 bits, candidates short. *)
Record tidy (k : Client) : Prop := {
  tidy_id : fits 4 (_id (_room_cache k));
  tidy_members : Forall (fits 4) (_members (_room_cache k));
  tidy_links : forall id, is_Some (links k !! id) -> fits 4 id;
  tidy_events : Forall short_event (events k)
}.

(** [k'] is [k] after sending some messages. *)
Definition sends (k k' : Client) : Prop :=
  tidy k' /\ exists msgs, tx k' = tx k ++ frame_all msgs /\ Forall sendable msgs.

Lemma sends_refl k : tidy k -> sends k k.
Proof. intros Hk. split; [done|]. exists []. by rewrite app_nil_r. Qed.

Lemma sends_trans k1 k2 k3 : sends k1 k2 -> sends k2 k3 -> sends k1 k3.
Proof.
  intros [_ (l1 & E1 & H1)] [Hk (l2 & E2 & H2)]. split; [done|]. exists (l1 ++ l2).
  rewrite frame_all_app, app_assoc, <-E1. split; [done|]. by apply Forall_app.
Qed.

(** A step that writes nothing. *)
Lemma sends_quiet k k1 k2 : sends k k1 -> tx k2 = tx k1 -> tidy k2 -> sends k k2.
Proof. intros [_ (l & E & H)] Htx Hk. split; [done|]. exists l. by rewrite Htx. Qed.

Lemma tidy_ext k k' :
  _room_cache k' = _room_cache k -> (forall id, is_Some (links k' !! id) -> is_Some (links k !! id)) ->
  events k' = events k -> tidy k -> tidy k'.
Proof. intros Ecache Hlinks Eevents []. split; rewrite ?Ecache, ?Eevents; naive_solver. Qed.

Lemma sends_ext k k1 k2 :
  sends k k1 -> tx k2 = tx k1 -> _room_cache k2 = _room_cache k1 ->
  (forall id, is_Some (links k2 !! id) -> is_Some (links k1 !! id)) -> events k2 = events k1 -> sends k k2.
Proof. intros Hk Htx Hcache Hlinks Hevents. apply (sends_quiet k k1); [done..|]. eapply tidy_ext, Hk; done. Qed.

Lemma sends_message k k1 m : sends k k1 -> sendable m -> sends k (set_tx (tx k1 ++ FrameMessage m) k1).
Proof.
  intros Hk Hm. apply (sends_trans _ k1); [done|]. destruct Hk as [Hk _]. split; [by apply (tidy_ext k1)|].
  exists [m]. split; [|by apply Forall_singleton]. cbn [tx set_tx]. f_equal. unfold frame_all. cbn [fmap list_fmap concat].
  by rewrite app_nil_r.
Qed.

(** ** The mesh *)

(** [m] writes only what it may. *)
Definition sending {A} (m : M Client A) (k : Client) : Prop := wlp m (fun _ => sends k) k.

Lemma wlp_sends {A} (m : M Client A) k k1 : sending m k1 -> sends k k1 -> wlp m (fun _ => sends k) k1.
Proof. intros Hm Hk. eapply wlp_mono; [exact Hm|]. intros a k2 Hk2. by apply (sends_trans k k1 k2). Qed.

Lemma wlp_get_link id k (Q : PeerLink.t -> Client -> Prop) :
  (forall l, links k !! id = Some l -> Q l k) -> wlp (get_link id) Q k.
Proof. intros HQ. unfold wlp, get_link. destruct (links k !! id) as [l|] eqn:Hl; [by apply HQ|done]. Qed.

Lemma sending_SendServer m k : tidy k -> sendable m -> sending (SendServer m) k.
Proof. intros Hk Hm. unfold sending, SendServer. wsteps. apply sends_message; [by apply sends_refl|done]. Qed.

Lemma sending_DestroyLink id k : tidy k -> sending (DestroyLink id) k.
Proof.
  intros Hk. unfold sending, DestroyLink. wsteps. apply sends_refl in Hk.
  destruct (links k !! id); unfold call_juice; wsteps; [|done]. apply (sends_ext _ k); cbn; eauto.
Qed.

Lemma sending_DestroyAllLinks k : tidy k -> sending DestroyAllLinks k.
Proof.
  intros Hk. unfold sending, DestroyAllLinks. wsteps.
  eapply wlp_mono; [apply (wlp_for_each _ _ (sends k))|].
  - intros [id l] k1 _ Hk1. unfold call_juice. wsteps. by apply (sends_ext _ k1).
  - by apply sends_refl.
  - intros ? k1 Hk1. wsteps. apply (sends_ext _ k1); cbn; eauto.
Qed.

Lemma sending_ClearRoomState k : tidy k -> sending ClearRoomState k.
Proof.
  intros Hk. unfold sending, ClearRoomState. wsteps. eapply wlp_mono; [by apply sending_DestroyAllLinks|].
  intros ? k1 Hk1. wsteps. apply (sends_quiet _ k1); [done|done|]. destruct Hk1 as [[] _]. by split; try apply Forall_nil_2.
Qed.

Lemma sending_DisconnectServer k : tidy k -> sending DisconnectServer k.
Proof.
  intros Hk. unfold sending, DisconnectServer. wsteps. eapply wlp_mono.
  - apply (wlp_sends _ k); [apply sending_ClearRoomState|apply (sends_ext _ k)]; try done; [by apply (tidy_ext k)|by apply sends_refl].
  - intros b k1 Hk1. wsteps. exact Hk1.
Qed.

End Sends.

Section Mesh.
Context `{!Juice, !ShortSdp}.

Lemma sending_CreateLink id k : fits 4 id -> tidy k -> sending (CreateLink id) k.
Proof.
  intros Hid Hk. unfold sending, CreateLink. wsteps. apply sends_refl in Hk. case_bool_decide; wsteps; [by apply (sends_ext _ k)|].
  unfold call_juice. wsteps. destruct (create_answer _ _) as [a|]; wsteps; [|by apply (sends_ext _ k)].
  apply (sends_quiet _ k); [done|done|]. destruct Hk as [[Hme Hmembers Hlinks Hevents] _]. split; try done.
  cbn. intros i. destruct (links k !! id) eqn:Hl; [apply Hlinks|].
  intros [l [[<- _]|[_ Hl']]%lookup_insert_Some]; [done|]. by apply Hlinks; exists l.
Qed.

Lemma c_str_short s : str_size (c_str s) <= str_size s.
Proof. unfold str_size. induction s as [|a s IH]; [done|]. cbn. case_bool_decide; cbn; lia. Qed.

Lemma sendable_signal id kind payload :
  fits 4 id -> fits 1 kind -> str_size payload <= JUICE_MAX_SDP_STRING_LEN -> sendable (Proto.P2PSignal id kind payload).
Proof.
  intros Hid Hkind Hsize. pose proof sdp_buffer_size as Hbuf. apply sendable_intro; [by split|]. unfold wire_size. cbn [payload_size].
  change max_reassembled_size with 16384. lia.
Qed.

Lemma sending_ShareLink id k : fits 4 id -> tidy k -> sending (ShareLink id) k.
Proof.
  intros Hid Hk. unfold sending, ShareLink. wsteps. apply wlp_get_link. intros l Hl. wsteps. unfold call_juice at 1. wsteps.
  destruct (description_answer _ _) as [sdp|] eqn:Hsdp; wsteps; [|apply (sends_ext _ k); try done; by apply sends_refl].
  eapply wlp_mono.
  - apply sending_SendServer; [by apply (tidy_ext k)|]. apply sendable_signal; [done|done|].
    etransitivity; [apply c_str_short|by apply (description_fits (calls k) (PeerLink.agent l))].
  - intros ? k1 Hk1. wstep. apply wlp_get_link. intros l' Hl'. wsteps. unfold call_juice. wsteps.
    apply (sends_ext _ k1); [exact Hk1|done..].
Qed.

Lemma tidy_member k id : tidy k -> id ∈ _members (_room_cache k) -> fits 4 id.
Proof. intros [_ Hmembers _ _] Hid. rewrite Forall_forall in Hmembers. by apply Hmembers. Qed.

Lemma sending_SendP2P id data k : tidy k -> sending (SendP2P id data) k.
Proof.
  intros Hk. pose proof (sends_refl k Hk) as Hkk. unfold sending, SendP2P. destruct (_ || _); [by wsteps|]. wsteps.
  destruct (bool_decide (id = _)); cbn [orb]; [by wsteps|]. case_bool_decide as Hid; cbn [negb]; [|by wsteps].
  apply tidy_member in Hid; [|done]. unfold FindLink. wsteps.
  assert (forall k1, sends k k1 -> wlp (link ← get_link id;
    if negb (PeerLink.connected link)
    then update_link id (fun l => PeerLink.set_outbox (PeerLink.outbox l ++ [data]) l) ;; ret true
    else log ← gets calls; call_juice (juice_send (PeerLink.agent link) data) ;;
         ret (send_answer log (PeerLink.agent link) data)) (fun _ => sends k) k1) as Hlast.
  { intros k1 Hk1. wstep. apply wlp_get_link. intros l Hl. unfold update_link, call_juice.
    destruct (PeerLink.connected l); cbn [negb]; wsteps; apply (sends_ext _ k1); cbn; eauto. }
  case_bool_decide; wsteps; cbn [negb]; [by apply Hlast|].
  eapply wlp_mono; [by apply sending_CreateLink|]. intros [] k1 Hk1; cbn [negb]; wsteps; [|done].
  eapply wlp_mono; [apply (wlp_sends _ k k1); [apply sending_ShareLink; [done|apply Hk1]|done]|].
  intros [] k2 Hk2; cbn [negb]; wsteps; cbn [negb]; [by apply Hlast|].
  eapply wlp_mono; [apply (wlp_sends _ k k2); [apply sending_DestroyLink, Hk2|done]|]. intros ? k3 Hk3. by wsteps.
Qed.

Lemma sending_HandleP2PDescription found id payload k :
  fits 4 id -> tidy k -> sending (Client.HandleP2PDescription found id payload) k.
Proof.
  intros Hid Hk. unfold sending, Client.HandleP2PDescription. wstep.
  assert (wlp (if found then l ← get_link id; if PeerLink.remote_set l then DestroyLink id ;; ret false else ret true
    else ret false : M Client bool) (fun _ => sends k) k) as Hfound.
  { pose proof (sends_refl k Hk) as Hkk. destruct found; [|by wsteps]. wstep. apply wlp_get_link. intros l _.
    destruct (PeerLink.remote_set l); wsteps; [|done].
    eapply wlp_mono; [by apply sending_DestroyLink|]. intros ? k1 Hk1. by wsteps. }
  eapply wlp_mono; [exact Hfound|]. clear Hfound. intros link k1 Hk1. cbn beta zeta. wstep.
  assert (wlp (if negb link then modify (fun c => set_attempts (delete id (attempts c)) c) ;; CreateLink id
    else ret true : M Client bool) (fun _ => sends k) k1) as Hready.
  { destruct link; cbn [negb]; wsteps; [done|]. apply wlp_sends; [apply sending_CreateLink; [done|]|by apply (sends_ext _ k1)].
    apply (tidy_ext k1); try done. apply Hk1. }
  eapply wlp_mono; [exact Hready|]. clear Hready. intros ready k2 Hk2. cbn beta. destruct ready; cbn [negb]; wsteps; [|done].
  apply wlp_get_link. intros l Hl. wstep.
  assert (wlp (if negb (PeerLink.remote_set l)
    then call_juice (juice_set_remote_description (PeerLink.agent l) (c_str payload)) ;;
         update_link id (PeerLink.set_remote_set true)
    else ret tt) (fun _ => sends k) k2) as Hset.
  { unfold call_juice, update_link. destruct (PeerLink.remote_set l); cbn [negb]; wsteps; [done|].
    apply (sends_ext _ k2); cbn; eauto. }
  eapply wlp_mono; [exact Hset|]. clear Hset. intros ? k3 Hk3. destruct link; cbn [negb]; wsteps; [done|].
  eapply wlp_mono; [apply (wlp_sends _ k k3); [apply sending_ShareLink; [done|apply Hk3]|done]|]. intros ? k4 Hk4. by wsteps.
Qed.

Lemma sending_HandleP2PSignal id kind payload k :
  fits 4 id -> tidy k -> sending (Client.HandleP2PSignal id kind payload) k.
Proof.
  intros Hid Hk. pose proof (sends_refl k Hk) as Hkk. unfold sending, Client.HandleP2PSignal, FindLink. wsteps.
  case_bool_decide; [by apply sending_HandleP2PDescription|].
  repeat (case_bool_decide; [case_bool_decide; wsteps; [|done]; apply wlp_get_link; intros l _; unfold call_juice; wsteps;
    by apply (sends_ext _ k)|]). by wsteps.
Qed.
Lemma sending_HandleLinkState id state k : tidy k -> sending (HandleLinkState id state) k.
Proof.
  intros Hk. pose proof (sends_refl k Hk) as Hkk. unfold sending, HandleLinkState.
  assert (wlp (get_link id ;; update_link id (PeerLink.set_connected true) ;;
    modify (fun c => set_attempts (delete id (attempts c)) c) ;; FlushLink id) (fun _ => sends k) k) as Hup.
  { wstep. apply wlp_get_link. intros l _. unfold update_link, FlushLink. wsteps. apply wlp_get_link. intros l' _. wsteps.
    eapply wlp_mono; [apply (wlp_for_each _ _ (sends k))|].
    - intros data k1 _ Hk1. unfold call_juice. wsteps. by apply (sends_ext _ k1).
    - apply (sends_ext _ k); cbn; eauto.
    - intros ? k1 Hk1. wsteps. apply (sends_ext _ k1); cbn; eauto. }
  destruct state; try done.
  - wstep. apply wlp_get_link. intros l _. unfold update_link. wsteps. apply (sends_ext _ k); cbn; eauto.
  - by apply sending_DestroyLink.
Qed.

Lemma sending_HandleJuiceEvent ev k : short_event ev -> tidy k -> sending (HandleJuiceEvent ev) k.
Proof.
  intros Hev Hk. pose proof (sends_refl k Hk) as Hkk. unfold sending, HandleJuiceEvent. wsteps.
  destruct (links k !! ev_peer ev) as [l|] eqn:Hl; [|by wsteps]. case_bool_decide; [by wsteps|].
  assert (fits 4 (ev_peer ev)) as Hid by (apply (tidy_links _ Hk); by rewrite Hl).
  unfold short_event in Hev. destruct (ev_kind ev) as [state|payload| |payload]; [by apply sending_HandleLinkState| | |].
  - wstep. eapply wlp_mono; [apply sending_SendServer; [done|apply sendable_signal; [done|done|]]|].
    + by rewrite str_size_of_bytes.
    + intros ? k1 Hk1. by wsteps.
  - wstep. eapply wlp_mono; [apply sending_SendServer; [done|apply sendable_signal; [done..|apply N.le_0_l]]|]. intros ? k1 Hk1. by wsteps.
  - wsteps. by apply (sends_ext _ k).
Qed.

Lemma sending_PollPeers k : tidy k -> sending PollPeers k.
Proof.
  intros Hk. unfold sending, PollPeers. wsteps. apply wlp_for_each.
  - intros ev k1 Hev Hk1. apply wlp_sends; [|done]. apply sending_HandleJuiceEvent; [|apply Hk1].
    pose proof (tidy_events _ Hk) as Hevents. rewrite Forall_forall in Hevents. by apply Hevents.
  - apply (sends_quiet _ k); [by apply sends_refl|done|]. destruct Hk. by split; try apply Forall_nil_2.
Qed.

(** ** The server connection *)

Lemma cache_fits msg (c : RoomCache) :
  numbers_fit msg -> fits 4 (_id c) -> Forall (fits 4) (_members c) ->
  fits 4 (_id (cache_incoming c msg)) /\ Forall (fits 4) (_members (cache_incoming c msg)).
Proof.
  intros Hmsg Hid Hmembers. destruct msg; cbn in *; try done.
  - split; [done|by apply Forall_singleton].
  - split; [done|]. apply Forall_app. split; [done|by apply Forall_singleton].
  - case_bool_decide; [done|]. split; [done|]. rewrite Forall_forall in *.
    intros j Hj. apply list_elem_of_filter in Hj as [_ Hj]. by apply Hmembers.
Qed.

Lemma tidy_cache msg k :
  numbers_fit msg -> tidy k -> tidy (set_room_cache (cache_incoming (_room_cache k) msg) k).
Proof. intros Hmsg [Hid Hmembers Hlinks Hevents]. destruct (cache_fits msg _ Hmsg Hid Hmembers). by split. Qed.

Lemma wlp_load_bool rep (Q : bool -> Client -> Prop) k : (forall b, Q b k) -> wlp (load_bool rep) Q k.
Proof. unfold wlp, load_bool. intros HQ. destruct (read_bool rep); [apply HQ|done]. Qed.

Lemma sending_CacheRoomState msg k :
  numbers_fit msg -> cache_incoming (_room_cache k) msg = cache_room_state msg (_room_cache k) ->
  tidy k -> sending (CacheRoomState msg) k.
Proof.
  intros Hmsg Hsame Hk. pose proof (sends_refl k Hk) as Hkk. pose proof (tidy_cache msg k Hmsg Hk) as Hcache.
  rewrite Hsame in Hcache. unfold sending, CacheRoomState.
  destruct msg; wsteps; try (by apply (sends_quiet _ k)); try by apply sending_ClearRoomState.
  - case_bool_decide; [by apply sending_ClearRoomState|]. wsteps.
    eapply wlp_mono; [apply (wlp_sends _ k); [by apply sending_DestroyLink|by apply (sends_quiet _ k)]|].
    intros ? k1 Hk1. wsteps. by apply (sends_ext _ k1).
  - do 2 (apply wlp_load_bool; intros _; wsteps). by apply (sends_quiet _ k).
Qed.

Lemma sending_Incoming msg k : numbers_fit msg -> tidy k -> sending (Incoming msg) k.
Proof.
  intros Hmsg Hk. pose proof (sends_refl k Hk) as Hkk. unfold sending, Incoming.
  assert (cache_incoming (_room_cache k) msg = cache_room_state msg (_room_cache k) ->
    wlp (CacheRoomState msg ;; modify (fun c => set_inbox (_inbox c ++ [msg]) c)) (fun _ => sends k) k) as Hrest.
  { intros Hsame. wstep. eapply wlp_mono; [by apply sending_CacheRoomState|]. intros ? k1 Hk1. wsteps. by apply (sends_ext _ k1). }
  destruct msg; try (by apply Hrest); wsteps.
  - apply (sends_quiet _ k); [done|done|]. exact (tidy_cache _ k Hmsg Hk).
  - apply sending_HandleP2PSignal; [apply Hmsg|done].
  - by apply (sends_ext _ k).
Qed.

Lemma sending_carve_loop fuel remaining k : tidy k -> sending (carve_loop fuel remaining) k.
Proof.
  revert remaining k. induction fuel as [|fuel IH]; intros remaining k Hk; pose proof (sends_refl k Hk) as Hkk;
    unfold sending; cbn [carve_loop]; case_bool_decide; try by wsteps.
  assert (forall k1, sends k k1 -> wlp (DisconnectServer ;; ret None : M Client (option (list byte))) (fun _ => sends k) k1)
    as Hstop.
  { intros k1 Hk1. wstep. eapply wlp_mono; [apply (wlp_sends _ k k1); [apply sending_DisconnectServer, Hk1|done]|].
    intros ? k2 Hk2. by wsteps. }
  destruct (DecodeFrameHeader _) as [[len more]|]; [|by apply Hstop]. case_bool_decide; [by wsteps|]. wsteps.
  destruct (AppendFragment _ _) as [body|] eqn:Happend; [|by apply Hstop]. wsteps.
  assert (sends k (set_rx_msg body k)) as Hk1 by (by apply (sends_ext _ k)).
  destruct more; [apply wlp_sends; [apply IH, Hk1|done]|].
  destruct (deserialize body) as [msg|] eqn:Hread.
  - apply deserialize_acceptable, acceptable_inv in Hread as [Hmsg _].
    2:{ unfold AppendFragment in Happend. case_bool_decide; [done|]. injection Happend as <-. rewrite sizeN_app. lia. }
    wsteps. eapply wlp_mono.
    + apply (wlp_sends _ k); [apply sending_Incoming; [done|]|by apply (sends_ext _ (set_rx_msg body k))]. by apply (tidy_ext k).
    + intros ? k2 Hk2. apply wlp_sends; [apply IH, Hk2|done].
  - do 2 wstep. apply Hstop. by apply (sends_ext _ (set_rx_msg body k)).
Qed.

Lemma sending_CarveServer k : tidy k -> sending CarveServer k.
Proof.
  intros Hk. unfold sending, CarveServer. wsteps. eapply wlp_mono; [by apply sending_carve_loop|].
  intros [kept|] k1 Hk1; wsteps; [by apply (sends_ext _ k1)|done].
Qed.

Lemma sending_DrainServer chunks lost k : tidy k -> sending (DrainServer chunks lost) k.
Proof.
  intros Hk. unfold sending, DrainServer. wstep. eapply wlp_intro; [apply drain_run|].
  set (k1 := set_rx _ k). assert (sends k k1) as Hk1 by (apply (sends_ext _ k); [by apply sends_refl|done..]).
  destruct lost; [|by wsteps]. apply wlp_sends; [apply sending_DisconnectServer, Hk1|done].
Qed.

(** [Poll] up to the point where it writes. *)
Lemma sending_Poll chunks lost k : tidy k -> sending (Poll chunks lost []) k.
Proof.
  intros Hk. unfold sending, Poll. wsteps. destruct (socket_open k); cbn [negb]; wsteps; [|by apply sends_refl].
  eapply wlp_mono; [by apply sending_DrainServer|]. intros [] k1 Hk1; cbn [negb]; wsteps; [|done].
  eapply wlp_mono; [apply (wlp_sends _ k k1); [apply sending_CarveServer, Hk1|done]|].
  intros [] k2 Hk2; cbn [negb]; wsteps; [|done].
  eapply wlp_mono; [apply (wlp_sends _ k k2); [apply sending_PollPeers, Hk2|done]|].
  intros ? k3 Hk3. cbn [FlushServer]. wsteps. by case_bool_decide; wsteps.
Qed.

(** ** What goes out *)

(** The bytes [FlushServer] writes of [pending]. *)
Fixpoint flushed (answers : list write_answer) (pending : list byte) : list byte :=
  if bool_decide (pending = []) then []
  else
    match answers with
    | Sent n :: rest => take n pending ++ flushed rest (drop n pending)
    | _ => []
    end.

Lemma FlushServer_written answers k :
  tidy k -> wlp (FlushServer answers) (fun _ k' => tidy k' /\
    exists msgs, flushed answers (tx k) ++ tx k' = tx k ++ frame_all msgs /\ Forall sendable msgs) k.
Proof.
  assert (forall k, tidy k -> tidy k /\ exists msgs, tx k = tx k ++ frame_all msgs /\ Forall sendable msgs) as Hnone.
  { intros k0 Hk0. split; [done|]. exists []. by rewrite app_nil_r. }
  revert k. induction answers as [|[n| |] answers IH]; intros k Hk; cbn [FlushServer flushed]; wsteps;
    case_bool_decide; cbn [app]; wsteps; try by apply Hnone.
  - eapply wlp_mono; [apply (IH (set_tx (drop n (tx k)) k)); by apply (tidy_ext k)|].
    intros ok k' (Hk' & msgs & Htx & Hmsgs). split; [done|]. exists msgs. split; [|done]. cbn [tx set_tx] in Htx.
    by rewrite <-app_assoc, Htx, app_assoc, take_drop.
  - exact (sending_DisconnectServer k Hk).
Qed.

(** A poll is a poll that writes nothing, and then the writes. *)
Lemma Poll_split chunks lost answers k :
  Poll chunks lost answers k = (ok ← Poll chunks lost []; if (ok : bool) then FlushServer answers else ret false) k.
Proof.
  unfold Poll, mbind, M_bind, bind. cbn [gets]. destruct (socket_open k); cbn [negb]; [|done].
  destruct (DrainServer chunks lost k) as [[] k1| |]; cbn [negb]; [|done..].
  destruct (CarveServer k1) as [[] k2| |]; cbn [negb]; [|done..].
  destruct (PollPeers k2) as [? k3| |]; [|done..]. cbn [FlushServer]. unfold mbind, M_bind, bind. cbn [gets].
  by case_bool_decide.
Qed.

(** The bytes a poll hands to the socket. *)
Definition poll_written (chunks : list (list byte)) (lost : bool) (answers : list write_answer) (k : Client) : list byte :=
  match Poll chunks lost [] k with
  | Done true k1 => flushed answers (tx k1)
  | _ => []
  end.

Lemma Poll_sends chunks lost answers k ok k' :
  tidy k -> Poll chunks lost answers k = Done ok k' ->
  tidy k' /\ exists msgs, poll_written chunks lost answers k ++ tx k' = tx k ++ frame_all msgs /\ Forall sendable msgs.
Proof.
  intros Hk Hrun. rewrite Poll_split in Hrun. apply bind_done_inv in Hrun as (ok1 & k1 & Hpoll & Hflush).
  destruct (wlp_done _ _ _ _ _ (sending_Poll chunks lost k Hk) Hpoll) as [Hk1 (msgs1 & Htx1 & Hmsgs1)].
  unfold poll_written. rewrite Hpoll. destruct ok1.
  - destruct (wlp_done _ _ _ _ _ (FlushServer_written answers k1 Hk1) Hflush) as (Hk' & msgs & Htx & Hmsgs).
    split; [done|]. exists (msgs1 ++ msgs). rewrite Htx, Htx1, frame_all_app, app_assoc. split; [done|]. by apply Forall_app.
  - injection Hflush as _ <-. split; [done|]. by exists msgs1.
Qed.
End Mesh.
