(* ===== verification/ChatOrder.v ===== *)
(** Chat: members of a room are sent the same lines in the same order. *)
From S2P Require Import Prelude Wire Protocol Framing Stream RoomCache Server ServerExec Lobby WellFormed.
From S2P Require Import Refine ServerInv Rules Authority Mirror Sendable Session SessionInv Scheduler Turns.
Local Open Scope N_scope.
#[local] Opaque FrameMessage.

Definition is_chat (m : Proto.ServerMessage) : bool :=
  match m with Proto.RoomChat _ _ => true | _ => false end.
Definition chats (l : list Proto.ServerMessage) : list Proto.ServerMessage := List.filter is_chat l.

Lemma chats_app l1 l2 : chats (l1 ++ l2) = chats l1 ++ chats l2.
Proof. apply List.filter_app. Qed.

(** No line among what is sent. *)
Definition no_chat (l : outgoing) : Prop := Forall (fun im => is_chat im.2 = false) l.

Lemma told_no_chat i l : no_chat l -> chats (told i l) = [].
Proof.
  unfold no_chat, told. induction 1 as [|[j m] l Hm _ IH]; [done|]. rewrite filter_cons. cbn in *.
  case_decide; cbn; [by rewrite Hm|done].
Qed.

Lemma no_chat_to_all ids m : is_chat m = false -> no_chat (to_all ids m).
Proof. intros Hm. unfold no_chat, to_all. by rewrite Forall_fmap, Forall_forall. Qed.

Section Chats.
Context (s : Server) (p : ptr) (c : Connection.t).

Lemma no_chat_one i m : is_chat m = false -> no_chat [(i, m)].
Proof. intros Hm. by apply Forall_singleton. Qed.

Lemma no_chat_reject e ctx : no_chat (d_sent (reject s c e ctx)).
Proof. by apply no_chat_one. Qed.

Lemma no_chat_none : no_chat (d_sent (no_delta s)).
Proof. apply Forall_nil_2. Qed.

Lemma no_chat_announce code r m : is_chat m = false -> no_chat (d_sent (announce s code r m)).
Proof. apply no_chat_to_all. Qed.

Lemma no_chat_leave d q i code : no_chat (d_sent d) -> no_chat (d_sent (lobby_leave d q i code)).
Proof.
  intros Hd. unfold lobby_leave. destruct (d_rooms d !! code) as [r|]; [|done].
  destruct (Room.members _); [done|]. case_bool_decide; cbn [d_sent send with_rooms move];
    unfold no_chat; rewrite !Forall_app; split_and!; try done; by apply no_chat_to_all.
Qed.

Lemma no_chat_as_host k : (forall code r, no_chat (d_sent (k code r))) -> no_chat (d_sent (as_host s c k)).
Proof.
  intros Hk. unfold as_host, in_room. destruct (rooms s !! _) as [r|]; [|by apply no_chat_one].
  case_bool_decide; [by apply no_chat_one|apply Hk].
Qed.

Create HintDb chat.
#[local] Hint Resolve no_chat_one no_chat_reject no_chat_none no_chat_announce no_chat_leave : chat.

Lemma no_chat_remove target m enter : is_chat m = false -> no_chat (d_sent (lobby_remove s c target m enter)).
Proof.
  intros Hm. apply no_chat_as_host. intros code r. destruct (connections s !! target); [|by apply no_chat_one].
  case_bool_decide; [|by apply no_chat_one]. by apply no_chat_leave, no_chat_one.
Qed.

Lemma no_chat_hydration code r : no_chat (hydration (Connection.id c) code r).
Proof.
  unfold hydration, no_chat. rewrite !Forall_app. split_and!.
  - by apply Forall_singleton.
  - by rewrite Forall_fmap, Forall_forall.
  - by repeat constructor.
  - by rewrite Forall_fmap, Forall_forall.
  - rewrite Forall_concat, Forall_fmap, Forall_forall. intros mkv _. cbn. by rewrite Forall_fmap, Forall_forall.
Qed.

(** A handler sends a line to the whole room, or no line at all. *)
Lemma lobby_message_chats `{!RoomRng} fuel msg d :
  lobby_message fuel s p c msg = Some d ->
  (exists text r, rooms s !! Connection.room c = Some r /\
    d_sent d = to_all (Room.members r) (Proto.RoomChat (Connection.id c) text)) \/ no_chat (d_sent d).
Proof.
  intros Hd. lobby_cases msg Hd; auto with chat.
  - right. by apply no_chat_one.
  - unfold lobby_create in Hd. destruct (negb _); [injection Hd as <-; right; by apply no_chat_one|].
    destruct (first_free _ _ _ _) as [[code k]|]; [|done]. injection Hd as <-. right. by repeat constructor.
  - right. unfold lobby_join. repeat (case_match; try by apply no_chat_one). cbn [d_sent move with_rooms send no_delta app].
    unfold no_chat. rewrite Forall_app. split; [by apply no_chat_to_all|apply no_chat_hydration].
  - unfold lobby_chat, in_room. destruct (rooms s !! Connection.room c) as [r|]; [left; eauto|right; by apply no_chat_one].
  - right. case_match; [by apply no_chat_one|]. by apply no_chat_leave, no_chat_one.
  - right. apply no_chat_as_host. intros code r. repeat case_match; auto with chat.
  - right. unfold lobby_set_member_data, in_room. repeat case_match; auto with chat.
  - right. by apply no_chat_remove.
  - right. apply no_chat_as_host. intros code r. repeat case_match; auto with chat.
  - right. apply no_chat_as_host. intros code r. repeat case_match; auto with chat.
  - right. apply no_chat_as_host. intros code r. case_match; [by apply no_chat_one|]. cbv zeta.
    case_match; [apply no_chat_none|by apply no_chat_announce].
  - right. by apply no_chat_remove.
  - right. unfold lobby_signal, in_room. repeat case_match; auto with chat. by apply no_chat_one.
Qed.
End Chats.

Section Order.
Context `{!RoomRng}.

Lemma act_chats s p c d code r i1 i2 :
  wf s -> session_act s p c d -> rooms s !! code = Some r -> i1 ∈ Room.members r -> i2 ∈ Room.members r ->
  chats (told i1 (d_sent d)) = chats (told i2 (d_sent d)).
Proof.
  intros Hwf Hact Hr H1 H2.
  assert (no_chat (d_sent d) -> chats (told i1 (d_sent d)) = chats (told i2 (d_sent d))) as Hnone.
  { intros Hno. by rewrite !told_no_chat. }
  destruct Hact as [|_|fuel msg d Hs Hmsg Hd|Hs].
  - done.
  - apply Hnone. by repeat constructor.
  - destruct (lobby_message_chats s p c fuel msg d Hd) as [(text & r0 & Hr0 & ->)|Hno]; [|by apply Hnone].
    rewrite !told_to_all by apply (room_nodup _ _ (wf_rooms _ Hwf _ _ Hr0)).
    assert (forall i, i ∈ Room.members r -> i ∈ Room.members r0 -> r0 = r) as Hone.
    { intros i Hi Hi0. destruct (wf_members _ Hwf _ _ _ Hr Hi) as (q & t & Hq & Ht & Hcode).
      destruct (wf_members _ Hwf _ _ _ Hr0 Hi0) as (q' & t' & Hq' & Ht' & Hcode'). simplify_eq. congruence. }
    destruct (decide (i1 ∈ Room.members r0)) as [Hi1|Hi1], (decide (i2 ∈ Room.members r0)) as [Hi2|Hi2]; try done.
    + rewrite (Hone i1) in Hi2 by done. done.
    + rewrite (Hone i2) in Hi1 by done. done.
  - apply Hnone. unfold departure. destruct (str_empty _); [apply no_chat_none|]. apply no_chat_leave, no_chat_none.
Qed.

(** All that was or will be sent to the client at [p]. *)
Definition sent_to (y : Sys) (p : ptr) : list byte :=
  match heap (server y) !! p, tasks y !! p with
  | Some c, Some t => pipeline c (Task.writer t)
  | _, _ => []
  end.

(** The client at [p] is connected and in the room [code]. *)
Definition in_touch (y : Sys) (p : ptr) (code : string) : Prop :=
  exists c t, conn_at y p c t /\ live t /\ Connection.room c = code.

(** The client at [p] is sent [new] on the way from [y] to [y']. *)
Definition hears (y y' : Sys) (p : ptr) (new : list Proto.ServerMessage) : Prop :=
  sent_to y' p = sent_to y p ++ frame_all new /\ Forall genuine new.

Lemma hears_nothing y y' p : sent_to y' p = sent_to y p -> hears y y' p [].
Proof. intros Hsame. split; [by rewrite app_nil_r|apply Forall_nil_2]. Qed.

Lemma hears_trans y1 y2 y3 p l1 l2 : hears y1 y2 p l1 -> hears y2 y3 p l2 -> hears y1 y3 p (l1 ++ l2).
Proof. intros [E1 H1] [E2 H2]. split; [by rewrite E2, E1, frame_all_app, app_assoc|by apply Forall_app]. Qed.

Lemma in_touch_member y p code : sys_ok y -> code <> EmptyString -> in_touch y p code ->
  exists c r, heap (server y) !! p = Some c /\ connections (server y) !! Connection.id c = Some p /\
    rooms (server y) !! code = Some r /\ Connection.id c ∈ Room.members r.
Proof.
  intros Hy Hcode (c & t & [Hc Ht] & _ & <-). destruct (wf_conns _ (ok_wf _ Hy) _ _ Hc Hcode) as (Hid & r & Hr & Hin).
  by exists c, r.
Qed.

Lemma turn_hears y y' p c t t' f d q code :
  sys_ok y -> turn y y' p c t t' f d -> in_touch y q code -> code <> EmptyString -> in_touch y' q code ->
  exists cq, heap (server y) !! q = Some cq /\ hears y y' q (told (Connection.id cq) (d_sent d)).
Proof.
  intros Hy Hturn Hq Hcode (cq' & tq' & Hat' & [Hw' _] & _).
  destruct (in_touch_member y q code Hy Hcode Hq) as (cq & r & Hcq & Hid & Hr & Hin).
  destruct (proj1 (ok_tasks _ Hy q) (mk_is_Some _ _ Hcq)) as [tq Htq].
  assert (conn_at y q cq tq) as Hat by done. exists cq. split; [done|].
  destruct (turn_moves _ _ _ _ _ _ _ _ _ _ _ Hturn Hat) as (c2 & t2 & Hat2 & _ & Hmoves).
  destruct (conn_at_unique _ _ _ _ _ _ Hat' Hat2) as [-> ->]. pose proof (moves_writes _ _ _ _ _ Hmoves) as Hwrites.
  rewrite decide_False in Hwrites by done. destruct Hwrites as [Hpipe _]. unfold hears, sent_to.
  destruct Hat as [-> ->], Hat' as [-> ->]. rewrite Hpipe, (reaching_told _ (ok_wf _ Hy) _ _ _ Hid).
  split; [done|]. by apply told_genuine, (turn_genuine y y' p c t t' f d).
Qed.

Lemma step_hears y y' p1 p2 code :
  sys_ok y -> sys_step y y' -> code <> EmptyString ->
  in_touch y p1 code -> in_touch y p2 code -> in_touch y' p1 code -> in_touch y' p2 code ->
  exists new1 new2, hears y y' p1 new1 /\ hears y y' p2 new2 /\ chats new1 = chats new2.
Proof.
  intros Hy Hstep Hcode H1 H2 H1' H2'.
  assert ((forall p, in_touch y p code -> sent_to y' p = sent_to y p) ->
    exists new1 new2, hears y y' p1 new1 /\ hears y y' p2 new2 /\ chats new1 = chats new2) as Hquiet.
  { intros Hsame. exists [], []. split_and!; [by apply hears_nothing, Hsame..|done]. }
  destruct Hstep as [y p bytes|y _|y|y y' Hstep]; [apply Hquiet..|]; try done.
  - intros q (c & t & [Hc Ht] & _). unfold sent_to, arrive, update_socket, update_conn. cbn. rewrite lookup_alter, Ht, Hc.
    case_decide as Hpq; [|done]. subst q. by rewrite Hc.
  - intros q (c & t & [Hc Ht] & _). destruct (ok_ids _ Hy _ _ Hc) as [_ Hless]. unfold sent_to, accept. cbn.
    by rewrite !lookup_insert_ne by lia.
  - destruct (io_step_turn _ _ Hy Hstep) as (p & c & t & t' & f & d & Hturn).
    destruct (turn_hears y y' p c t t' f d p1 code Hy Hturn H1 Hcode H1') as (c1 & Hc1 & Hhears1).
    destruct (turn_hears y y' p c t t' f d p2 code Hy Hturn H2 Hcode H2') as (c2 & Hc2 & Hhears2).
    destruct (in_touch_member y p1 code Hy Hcode H1) as (c1' & r & Hc1' & _ & Hr & Hin1).
    destruct (in_touch_member y p2 code Hy Hcode H2) as (c2' & r' & Hc2' & _ & Hr' & Hin2). simplify_eq.
    eexists _, _. split; [exact Hhears1|]. split; [exact Hhears2|].
    apply (act_chats (update_conn p f (server y)) p (f c) d code r); [|apply (turn_act _ _ _ _ _ _ _ _ Hturn)|done..].
    apply wf_update_conn; [|apply (ok_wf _ Hy)]. destruct Hturn as [[Hc _] Hid Hroom]. intros c0 Hc0. by simplify_eq.
Qed.

(** A run through which both clients stay connected and in the room. *)
Definition together (p1 p2 : ptr) (code : string) (y : Sys) : Prop :=
  ids_left y /\ in_touch y p1 code /\ in_touch y p2 code.
Definition runs_together (p1 p2 : ptr) (code : string) : Sys -> Sys -> Prop :=
  rtc (fun y1 y2 => sys_step y1 y2 /\ together p1 p2 code y1 /\ together p1 p2 code y2).

Definition in_touch_b (y : Sys) (p : ptr) (code : string) : bool :=
  match heap (server y) !! p, tasks y !! p with
  | Some c, Some (Task.mk (Reading _ _) w) => bool_decide (w <> Finished) && bool_decide (Connection.room c = code)
  | _, _ => false
  end.

Lemma in_touch_b_sound y p code : in_touch_b y p code = true -> in_touch y p code.
Proof.
  unfold in_touch_b. destruct (heap (server y) !! p) as [c|] eqn:Hc; [|done].
  destruct (tasks y !! p) as [[[|body at_point|] w]|] eqn:Ht; try done.
  intros [Hw%bool_decide_eq_true Hroom%bool_decide_eq_true]%andb_true_iff.
  exists c, (Task.mk (Reading body at_point) w). split; [done|]. split; [|done]. split; [done|eauto].
Qed.

Definition together_b (p1 p2 : ptr) (code : string) (y : Sys) : bool :=
  ids_left_b y && in_touch_b y p1 code && in_touch_b y p2 code.

Lemma together_b_sound p1 p2 code y : together_b p1 p2 code y = true -> together p1 p2 code y.
Proof.
  intros [[Hleft H1]%andb_true_iff H2]%andb_true_iff.
  split_and!; [by apply bool_decide_eq_true in Hleft|by apply in_touch_b_sound..].
Qed.

Lemma run_together p1 p2 code l y y' :
  together_b p1 p2 code y = true -> run_all run_sys (together_b p1 p2 code) l y = Some y' -> runs_together p1 p2 code y y'.
Proof.
  intros Hy%together_b_sound Hrun. unfold runs_together.
  apply (run_all_sound run_sys (together_b p1 p2 code) sys_step (together p1 p2 code) l); try done;
    [apply run_sys_sound|apply together_b_sound].
Qed.
End Order.

(** ** Properties *)

(** Claim C11: members of a room are sent the same chat.  However the io context
    runs the sessions and whatever anyone sends, as long as two clients stay
    connected and in one room, what the server queues for them are frames of
    messages among which the chat lines are the same, in the same order - their
    own lines included. *)
Theorem chat_order_agrees `{!RoomRng} (cfg : ServerConfig) (y y' : Sys) (p1 p2 : ptr) (code : string) :
  config_ok cfg -> reachable cfg y -> code <> EmptyString -> runs_together p1 p2 code y y' ->
  exists new1 new2, sent_to y' p1 = sent_to y p1 ++ frame_all new1 /\ Forall genuine new1 /\
    sent_to y' p2 = sent_to y p2 ++ frame_all new2 /\ Forall genuine new2 /\ chats new1 = chats new2.
Proof.
  intros Hcfg Hy%reachable_ok Hcode Hruns; [|done].
  enough (exists new1 new2, hears y y' p1 new1 /\ hears y y' p2 new2 /\ chats new1 = chats new2)
    as (new1 & new2 & [E1 H1] & [E2 H2] & E) by (by exists new1, new2).
  induction Hruns as [y|y1 y2 y3 (Hstep & (_ & H1 & H2) & Hleft & H1' & H2') _ IH].
  - exists [], []. split_and!; [by apply hears_nothing..|done].
  - destruct (step_hears y1 y2 p1 p2 code Hy Hstep Hcode H1 H2 H1' H2') as (l1 & l2 & Hl1 & Hl2 & E12).
    destruct IH as (m1 & m2 & Hm1 & Hm2 & E); [by apply (sys_step_ok y1)|].
    exists (l1 ++ m1), (l2 ++ m2). split_and!; [by apply (hears_trans _ y2)..|]. by rewrite !chats_app, E12, E.
Qed.

(** The two clients of [DemoSys] each say a line. *)
Lemma chat_order_agrees_witness :
  exists new1 new2,
    sent_to DemoSys.talked 0%nat = sent_to DemoSys.joined 0%nat ++ frame_all new1 /\
    sent_to DemoSys.talked 1%nat = sent_to DemoSys.joined 1%nat ++ frame_all new2 /\ chats new1 = chats new2 /\
    sent_to DemoSys.talked 1%nat =
      sent_to DemoSys.joined 1%nat ++ frame_all [Proto.RoomChat 1 "hi"; Proto.RoomChat 2 "hello"].
Proof.
  destruct (@chat_order_agrees Demo.rng Demo.config DemoSys.joined DemoSys.talked 0%nat 1%nat DemoSys.code
    DemoSys.config_fits DemoSys.two_joined_reachable) as (new1 & new2 & E1 & _ & E2 & _ & E).
  - vm_compute. discriminate.
  - apply (run_together 0%nat 1%nat DemoSys.code DemoSys.to_talk); vm_compute; reflexivity.
  - exists new1, new2. split_and!; [exact E1|exact E2|exact E|vm_compute; reflexivity].
Defined.
