(* ===== verification/Reader.v ===== *)
(** [ReadLoop] as a reader of a stream: the messages it hands on, whatever the
    pieces the stream arrives in, and how it ends on a message that is too long. *)
From S2P Require Import Prelude Wire Protocol Framing Stream RoomCache Server ServerExec Lobby WellFormed.
From S2P Require Import Refine ServerInv Rules Session SessionInv.
Local Open Scope N_scope.
#[local] Opaque FrameMessage.

(** ** The loop *)

Section Loop.
Context `{!RoomRng}.

(** [ReadLoop]'s [while (true)], for as long as its reads complete with the bytes
    that are there; every turn is [read_loop].  A turn that reads no bytes is
    followed by one that does, so that twice the bytes and one more are enough
    turns. *)
Fixpoint read_due (turns fuel : nat) (conn : ptr) (pt : session_point) : M Server session_point :=
  match pt with
  | Reading body at_point =>
      c ← get_conn conn;
      if bool_decide (sizeN (sk_in (Connection.socket c)) < needed at_point) then ret pt
      else
        match turns with
        | O => loops
        | S turns' =>
            pt' ← read_loop fuel conn body at_point;
            read_due turns' fuel conn pt'
        end
  | _ => ret pt
  end.

(** The socket receives [chunks] one after the other, and [ReadLoop] reads each
    as far as it goes before the next one comes; a session that ended receives
    nothing. *)
Fixpoint receive (fuel : nat) (conn : ptr) (pt : session_point) (chunks : list (list byte)) : M Server session_point :=
  match pt, chunks with
  | Reading _ _, chunk :: rest =>
      modify (update_socket conn (fun k => set_sk_in (sk_in k ++ chunk) k)) ;;
      c ← get_conn conn;
      pt' ← read_due (S (2 * length (sk_in (Connection.socket c)))) fuel conn pt;
      receive fuel conn pt' rest
  | _, _ => ret pt
  end.

(** Nothing but steps of the system. *)
Lemma with_task_stays conn t y : tasks y !! conn = Some t -> with_task conn t (server y) y = y.
Proof. intros Ht. rewrite (task_with_same conn t) by done. by destruct y. Qed.

Lemma with_task_twice conn t t' s s' y : with_task conn t' s' (with_task conn t s y) = with_task conn t' s' y.
Proof. unfold with_task. cbn. by rewrite insert_insert_eq. Qed.

Lemma read_due_steps turns fuel conn pt w y pt' s' :
  tasks y !! conn = Some (Task.mk pt w) -> read_due turns fuel conn pt (server y) = Done pt' s' ->
  rtc sys_step y (with_task conn (Task.mk pt' w) s' y).
Proof.
  revert pt y. induction turns as [|turns IH]; intros pt y Ht;
    (destruct pt as [|body at_point|]; cbn [read_due]; try (intros [= <- <-]; by rewrite with_task_stays));
    unfold get_conn, mbind, M_bind, bind; destruct (heap (server y) !! conn) as [c|] eqn:Hc; try done;
    case_bool_decide as Hshort; try (intros [= <- <-]; by rewrite with_task_stays); try done.
  destruct (read_loop fuel conn body at_point (server y)) as [pt1 s1| |] eqn:Hrun; [|done..]. intros Hrest.
  set (y1 := with_task conn (Task.mk pt1 w) s1 y).
  rewrite <-(with_task_twice conn (Task.mk pt1 w) _ s1). fold y1.
  apply (rtc_l _ _ y1); [|apply (IH pt1); [apply lookup_insert_eq|done]].
  apply step_io, io_works, (step_read y conn c body at_point w fuel); done || lia.
Qed.

Lemma receive_steps fuel conn chunks pt w y pt' s' :
  tasks y !! conn = Some (Task.mk pt w) -> receive fuel conn pt chunks (server y) = Done pt' s' ->
  rtc sys_step y (with_task conn (Task.mk pt' w) s' y).
Proof.
  revert pt y. induction chunks as [|chunk chunks IH]; intros pt y Ht;
    (destruct pt as [|body at_point|]; cbn [receive]; try (intros [= <- <-]; by rewrite with_task_stays)).
  rewrite bind_modify. intros (c & s1 & Hget & (pt1 & s2 & Hdue & Hrun)%bind_done_inv)%bind_done_inv.
  unfold get_conn in Hget. destruct (heap _ !! conn); [|done]. injection Hget as _ <-. set (y1 := arrive conn chunk y).
  apply (rtc_l _ _ y1); [constructor|]. etransitivity; [exact (read_due_steps _ _ _ _ w y1 _ _ Ht Hdue)|].
  pose proof (IH pt1 (with_task conn (Task.mk pt1 w) s2 y1) (lookup_insert_eq _ _ _) Hrun) as Hrest.
  by rewrite with_task_twice in Hrest.
Qed.
End Loop.

(** ** The stream *)

(** Between two frames of the stream, or behind the header of one. *)
Inductive expects : list byte -> read_point -> list byte -> list Proto.ServerMessage -> Prop :=
| expects_header body bytes msgs : pending body bytes msgs -> expects body AwaitHeader bytes msgs
| expects_body body frag (more : bool) rest m ms :
    sizeN frag <= Proto.max_message_size ->
    AppendFragment body frag = Some (body ++ frag) ->
    (if more then pending (body ++ frag) rest (m :: ms) else body ++ frag = serialize m /\ pending [] rest ms) ->
    expects body (AwaitBody (sizeN frag) more) (frag ++ rest) (m :: ms).

(** A read that completes is the header of a frame or its fragment, and leaves
    the reader waiting for the rest of the stream. *)
Lemma on_read_expects body at_point have later msgs :
  Forall sendable msgs -> expects body at_point (have ++ later) msgs -> needed at_point <= sizeN have ->
  let rest := drop (N.to_nat (needed at_point)) have in
  match on_read body (take (N.to_nat (needed at_point)) have) at_point with
  | Await body' at_point' => expects body' at_point' (rest ++ later) msgs
  | Handle m => exists ms, msgs = m :: ms /\ expects [] AwaitHeader (rest ++ later) ms
  | Return => False
  end.
Proof.
  intros Hmsgs Hexp Hneeded rest. unfold rest. clear rest.
  inversion Hexp as [? ? ? Hp|? frag more rest m ms Hfrag Happend Hmore]; subst; cbn [needed on_read] in *.
  - destruct msgs as [|m ms].
    { apply pending_nil in Hp as [_ [-> ->]%app_nil]. by destruct Hneeded. }
    apply Forall_cons in Hmsgs as [Hm Hms].
    destruct (pending_next _ _ _ _ Hm Hp) as (frag & more & rest & Heq & Hfrag & Happend & Hmore).
    apply app_prefix in Heq as (have' & -> & Heq); [|by rewrite sizeN_frame_header].
    rewrite take_header, drop_header. unfold on_header. rewrite decode_header by done.
    rewrite bool_decide_false.
    2:{ unfold AppendFragment in Happend. case_bool_decide; [done|lia]. }
    rewrite Heq. by constructor.
  - apply Forall_cons in Hmsgs as [Hm Hms].
    match goal with Heq : _ ++ _ = have ++ later |- _ => symmetry in Heq;
      apply app_prefix in Heq as (have' & -> & <-); [|done] end.
    rewrite take_sizeN_app, drop_sizeN_app. unfold on_body. destruct more; [by constructor|].
    destruct Hmore as [-> Hrest]. rewrite deserialize_serialize by apply Hm. exists ms. split; [done|by constructor].
Qed.

(** What a completed read uses up. *)
Definition weight (at_point : read_point) (have : list byte) : nat :=
  (2 * length have + match at_point with AwaitHeader => 0 | AwaitBody _ _ => 1 end)%nat.

Lemma on_read_weight body at_point have :
  needed at_point <= sizeN have ->
  let rest := drop (N.to_nat (needed at_point)) have in
  match on_read body (take (N.to_nat (needed at_point)) have) at_point with
  | Await _ at_point' => (weight at_point' rest < weight at_point have)%nat
  | Handle _ => (weight AwaitHeader rest < weight at_point have)%nat
  | Return => True
  end.
Proof.
  intros Hneeded rest. unfold weight, rest. destruct at_point as [|len more]; cbn [on_read needed] in *.
  - unfold on_header. destruct (DecodeFrameHeader _) as [[len more]|]; [|done]. case_bool_decide; [done|].
    rewrite length_drop. unfold sizeN, frame_header_size in *. lia.
  - unfold on_body. destruct more; [|destruct (deserialize _); try done]; rewrite length_drop; lia.
Qed.

Lemma expects_done body at_point kept msgs :
  Forall sendable msgs -> expects body at_point kept msgs -> sizeN kept < needed at_point ->
  msgs = [] /\ body = [] /\ at_point = AwaitHeader /\ kept = [].
Proof.
  intros Hmsgs Hexp Hkept. destruct Hexp as [body bytes msgs Hp|body frag more rest m ms Hfrag Happend Hmore].
  - destruct (pending_incomplete body bytes msgs Hmsgs Hp) as (-> & -> & ->); [by left|done].
  - cbn in Hkept. rewrite sizeN_app in Hkept. lia.
Qed.

(** *** A message that is too long *)

(** The reader is at or inside the frames of a message whose size, with what
    it has of it already, exceeds [max_reassembled_size]. *)
Inductive doomed : list byte -> read_point -> list byte -> Prop :=
| doomed_header body rest stream tail :
    framed rest stream -> max_reassembled_size < sizeN body + sizeN rest ->
    sizeN body <= max_reassembled_size -> doomed body AwaitHeader (stream ++ tail)
| doomed_body body frag rest stream tail :
    framed rest stream -> max_reassembled_size < sizeN body + sizeN frag + sizeN rest ->
    sizeN body + sizeN frag <= max_reassembled_size ->
    doomed body (AwaitBody (sizeN frag) true) (frag ++ stream ++ tail).

Lemma framed_header rest stream : framed rest stream ->
  exists frag (more : bool) rest' stream', stream = frame_header (sizeN frag) more ++ frag ++ stream' /\
    rest = frag ++ rest' /\ sizeN frag <= Proto.max_message_size /\
    if more then framed rest' stream' else rest' = [].
Proof.
  destruct 1 as [frag Hfrag|frag rest stream Hfrag Hne Hframed].
  - exists frag, false, [], []. by rewrite !app_nil_r.
  - exists frag, true, rest, stream. split_and!; try done. by rewrite Hfrag.
Qed.

Lemma doomed_enough body at_point bytes : doomed body at_point bytes -> needed at_point <= sizeN bytes.
Proof.
  destruct 1 as [body rest stream tail Hframed|body frag rest stream tail Hframed]; cbn [needed].
  - destruct (framed_header _ _ Hframed) as (frag & more & rest' & stream' & -> & _).
    rewrite !sizeN_app, sizeN_frame_header. lia.
  - rewrite sizeN_app. lia.
Qed.

Lemma on_read_doomed body at_point have later :
  doomed body at_point (have ++ later) -> needed at_point <= sizeN have ->
  let rest := drop (N.to_nat (needed at_point)) have in
  match on_read body (take (N.to_nat (needed at_point)) have) at_point with
  | Await body' at_point' => doomed body' at_point' (rest ++ later)
  | Return => True
  | Handle _ => False
  end.
Proof.
  intros Hdoom Hneeded. cbv zeta. inversion Hdoom as [? rest stream tail Hframed Hbig Hsmall Hb Hp Heq
    |? frag rest stream tail Hframed Hbig Hsmall Hb Hp Heq]; subst; cbn [needed on_read] in *; symmetry in Heq.
  - destruct (framed_header _ _ Hframed) as (frag & more & rest' & stream' & -> & -> & Hfrag & Hmore).
    rewrite <-!app_assoc in Heq. apply app_prefix in Heq as (have' & -> & Heq); [|by rewrite sizeN_frame_header].
    rewrite take_header, drop_header. unfold on_header. rewrite decode_header by done.
    case_bool_decide; [done|]. rewrite Heq. rewrite sizeN_app in Hbig. destruct more.
    + apply (doomed_body body frag rest'); [done|lia|lia].
    + subst rest'. change (sizeN []) with 0 in *. lia.
  - apply app_prefix in Heq as (have' & -> & Heq); [|done].
    rewrite take_sizeN_app, drop_sizeN_app, Heq. unfold on_body.
    apply (doomed_header _ rest); rewrite ?sizeN_app; done || lia.
Qed.

(** First [msgs], and then a message that is too long. *)
Definition refuses (body : list byte) (at_point : read_point) (bytes : list byte) (msgs : list Proto.ServerMessage) : Prop :=
  match msgs with
  | [] => doomed body at_point bytes
  | _ => exists front tail, bytes = front ++ tail /\ expects body at_point front msgs /\ doomed [] AwaitHeader tail
  end.

Lemma expects_enough body at_point bytes m ms :
  sendable m -> expects body at_point bytes (m :: ms) -> needed at_point <= sizeN bytes.
Proof.
  intros Hm Hexp. inversion Hexp as [? ? ? Hp|? frag]; subst; cbn [needed].
  - destruct (pending_next _ _ _ _ Hm Hp) as (frag & more & rest & -> & _).
    rewrite sizeN_app, sizeN_frame_header. lia.
  - rewrite sizeN_app. lia.
Qed.

Lemma refuses_enough body at_point bytes msgs :
  Forall sendable msgs -> refuses body at_point bytes msgs -> needed at_point <= sizeN bytes.
Proof.
  destruct msgs as [|m ms]; [by intros _; apply doomed_enough|].
  intros [Hm _]%Forall_cons (front & tail & -> & Hexp & _).
  rewrite sizeN_app. pose proof (expects_enough _ _ _ _ _ Hm Hexp). lia.
Qed.

Lemma refuses_app body at_point front tail msgs :
  expects body at_point front msgs -> doomed [] AwaitHeader tail -> refuses body at_point (front ++ tail) msgs.
Proof.
  intros Hexp Htail. destruct msgs as [|m ms]; [|by exists front, tail].
  inversion Hexp as [? ? ? Hp|]; subst. by apply pending_nil in Hp as [-> ->].
Qed.

Lemma on_read_refuses body at_point have later msgs :
  Forall sendable msgs -> refuses body at_point (have ++ later) msgs -> needed at_point <= sizeN have ->
  let rest := drop (N.to_nat (needed at_point)) have in
  match on_read body (take (N.to_nat (needed at_point)) have) at_point with
  | Await body' at_point' => refuses body' at_point' (rest ++ later) msgs
  | Handle m => exists ms, msgs = m :: ms /\ refuses [] AwaitHeader (rest ++ later) ms
  | Return => msgs = []
  end.
Proof.
  intros Hmsgs Hr Hneeded. cbv zeta. destruct msgs as [|m ms].
  { pose proof (on_read_doomed body at_point have later Hr Hneeded) as Hnext. cbv zeta in Hnext.
    by destruct (on_read _ _ _). }
  destruct Hr as (front & tail & Heq & Hexp & Htail). pose proof Hmsgs as [Hm _]%Forall_cons.
  pose proof (expects_enough _ _ _ _ _ Hm Hexp) as Henough.
  set (n := N.to_nat (needed at_point)).
  assert (take n have = take n front /\ drop n have ++ later = drop n front ++ tail) as [Htake Hdrop].
  { unfold sizeN, n in *. rewrite <-(take_app_le have later), <-(take_app_le front tail), Heq by lia. split; [done|].
    rewrite <-drop_app_le, Heq by lia. apply drop_app_le. lia. }
  rewrite Htake, Hdrop. pose proof (on_read_expects body at_point front [] (m :: ms) Hmsgs) as Hnext.
  rewrite app_nil_r in Hnext. specialize (Hnext Hexp Henough). cbv zeta in Hnext. fold n in Hnext.
  rewrite app_nil_r in Hnext.
  destruct (on_read _ _ _) as [body' at_point'|m'|]; [|destruct Hnext as (ms' & [= <- <-] & Hnext)|done].
  - by apply (refuses_app body').
  - exists ms. split; [done|]. by apply refuses_app.
Qed.

(** ** The loop on a stream *)

(** The server with [bytes] received on the connection [p] and not yet read. *)
Definition holding (p : ptr) (bytes : list byte) (s : Server) : Server := update_socket p (set_sk_in bytes) s.

Section Driver.
Context `{!RoomRng} (p : ptr).

Lemma holding_heap s c bytes : heap s !! p = Some c ->
  heap (holding p bytes s) !! p = Some (Connection.set_socket (set_sk_in bytes (Connection.socket c)) c).
Proof. intros Hc. exact (lookup_update_conn _ _ _ _ Hc). Qed.

Lemma holding_holding s a b : holding p a (holding p b s) = holding p a s.
Proof. unfold holding, update_socket. by rewrite update_update. Qed.

Lemma holding_same s c : heap s !! p = Some c -> holding p (sk_in (Connection.socket c)) s = s.
Proof.
  intros Hc. apply server_eq; try done. intros q. unfold holding, update_socket, update_conn. cbn.
  rewrite lookup_alter. case_decide as Hq; [subst q|done]. rewrite Hc. cbn. clear Hc. destruct c as [? ? [? ? ?] ? ? ?]. reflexivity.
Qed.

Lemma holding_commit s d bytes : commit (holding p bytes s) d = holding p bytes (commit s d).
Proof.
  apply server_eq; try done. intros q. rewrite heap_commit. unfold holding, update_socket.
  destruct (decide (q = p)) as [->|Hq].
  - unfold update_conn. cbn [heap set_heap]. rewrite !lookup_alter_eq, heap_commit. by destruct (heap s !! p).
  - rewrite !lookup_update_conn_ne, heap_commit by done. by destruct (heap s !! q).
Qed.

Lemma holding_sender s c bytes : sender s p c ->
  sender (holding p bytes s) p (Connection.set_socket (set_sk_in bytes (Connection.socket c)) c).
Proof. intros [Hwf Hc Hid]. split; [by apply wf_update_conn|by apply holding_heap|done]. Qed.

(** No handler looks at what was received. *)
Lemma HandleMessage_holding s c fuel msg bytes : sender s p c ->
  HandleMessage fuel p msg (holding p bytes s) = (HandleMessage fuel p msg ;; modify (holding p bytes)) s.
Proof.
  intros Hs. pose proof (holding_sender s c bytes Hs) as [Hwf' Hc' _]. destruct Hs as [Hwf Hc _].
  unfold mbind, M_bind, bind. rewrite (exec_HandleMessage _ Hwf' _ _ Hc'), (exec_HandleMessage _ Hwf _ _ Hc).
  rewrite (lobby_message_ext _ s _ _ c), (reads_no_bool_ext s _ c) by done.
  destruct (lobby_message fuel s p c msg); [by rewrite holding_commit|by destruct (reads_no_bool _ _ _)].
Qed.

Lemma HandleMessage_sender s c fuel msg s' : sender s p c -> HandleMessage fuel p msg s = Done tt s' -> exists c', sender s' p c'.
Proof.
  intros Hs Hrun. destruct (sender_message _ _ _ _ _ _ Hs Hrun) as (d & _ & -> & Hwf'). destruct Hs as [_ Hc Hid].
  exists (conn_after s d p c). split; [done|by rewrite heap_commit, Hc|done].
Qed.

Lemma handle_all_sender s c fuel msgs s' : sender s p c ->
  for_each msgs (HandleMessage fuel p) s = Done tt s' -> exists c', sender s' p c'.
Proof.
  revert s c. induction msgs as [|m ms IH]; intros s c Hs; [intros [= <-]; by exists c|].
  intros ([] & s1 & Hrun & Hrest)%bind_done_inv. destruct (HandleMessage_sender _ _ _ _ _ Hs Hrun) as [c1 Hs1].
  by apply (IH s1 c1).
Qed.

Lemma handle_all_holding s c fuel msgs bytes : sender s p c ->
  for_each msgs (HandleMessage fuel p) (holding p bytes s) = (for_each msgs (HandleMessage fuel p) ;; modify (holding p bytes)) s.
Proof.
  revert s c. induction msgs as [|m ms IH]; intros s c Hs; [done|]. cbn [for_each].
  pose proof (HandleMessage_holding s c fuel m bytes Hs) as Hm. unfold mbind, M_bind, bind in *. rewrite Hm.
  destruct (HandleMessage fuel p m s) as [[] s1| |] eqn:Hrun; [|done..].
  destruct (HandleMessage_sender _ _ _ _ _ Hs Hrun) as [c1 Hs1]. apply (IH s1 c1 Hs1).
Qed.

(** Where the loop stops: at a read that has to wait, or at the end of the
    session. *)
Definition stops (stop : option (list byte * read_point)) : M Server session_point :=
  match stop with
  | Some (body, at_point) => ret (Reading body at_point)
  | None => session_end p ;; ret Ended
  end.

(** One turn of the loop. *)
Lemma get_conn_holding {A} s c have (k : Connection.t -> M Server A) : heap s !! p = Some c ->
  (get_conn p ≫= k) (holding p have s) =
  k (Connection.set_socket (set_sk_in have (Connection.socket c)) c) (holding p have s).
Proof. intros Hc. apply bind_done. unfold get_conn. by rewrite (holding_heap s c). Qed.

Lemma read_loop_holding fuel body at_point s c have : heap s !! p = Some c ->
  read_loop fuel p body at_point (holding p have s) =
  let s' := holding p (drop (N.to_nat (needed at_point)) have) s in
  match on_read body (take (N.to_nat (needed at_point)) have) at_point with
  | Await body' at_point' => Done (Reading body' at_point') s'
  | Handle msg => (HandleMessage fuel p msg ;; ret (Reading [] AwaitHeader)) s'
  | Return => (session_end p ;; ret Ended) s'
  end.
Proof.
  intros Hc. unfold read_loop. rewrite (get_conn_holding s c) by done.
  cbn [Connection.socket Connection.set_socket set_sk_in sk_in]. rewrite bind_modify.
  fold (holding p (drop (N.to_nat (needed at_point)) have) (holding p have s)). rewrite holding_holding.
  by destruct (on_read _ _ _).
Qed.

Lemma read_due_turn turns fuel body at_point s c have : heap s !! p = Some c -> needed at_point <= sizeN have ->
  read_due (S turns) fuel p (Reading body at_point) (holding p have s) =
  let s' := holding p (drop (N.to_nat (needed at_point)) have) s in
  match on_read body (take (N.to_nat (needed at_point)) have) at_point with
  | Await body' at_point' => read_due turns fuel p (Reading body' at_point') s'
  | Handle msg => (HandleMessage fuel p msg ;; read_due turns fuel p (Reading [] AwaitHeader)) s'
  | Return => (session_end p ;; ret Ended) s'
  end.
Proof.
  intros Hc Hneeded. cbn [read_due]. rewrite (get_conn_holding s c) by done.
  cbn [Connection.socket Connection.set_socket set_sk_in sk_in]. rewrite bool_decide_false by lia.
  unfold mbind, M_bind, bind. rewrite (read_loop_holding _ _ _ s c) by done. cbv zeta.
  destruct (on_read _ _ _) as [body' at'|msg|]; [done|..]; unfold mbind, M_bind, bind.
  - by destruct (HandleMessage _ _ _ _).
  - destruct (session_end _ _); [|done..]. by destruct turns.
Qed.

(** A description of the bytes to come that every turn keeps; [may_end] says that
    [ReadLoop] may return. *)
Context (stream : list byte -> read_point -> list byte -> list Proto.ServerMessage -> Prop) (may_end : Prop).
Hypothesis stream_step : forall body at_point have later msgs,
  Forall sendable msgs -> stream body at_point (have ++ later) msgs -> needed at_point <= sizeN have ->
  let rest := drop (N.to_nat (needed at_point)) have in
  match on_read body (take (N.to_nat (needed at_point)) have) at_point with
  | Await body' at_point' => stream body' at_point' (rest ++ later) msgs
  | Handle m => exists ms, msgs = m :: ms /\ stream [] AwaitHeader (rest ++ later) ms
  | Return => may_end /\ msgs = []
  end.

(** After [done] were handled, with [todo] to come. *)
Definition stopped_at (stop : option (list byte * read_point)) (left later : list byte) (todo : list Proto.ServerMessage) : Prop :=
  match stop with
  | Some (body, at_point) => stream body at_point (left ++ later) todo /\ sizeN left < needed at_point
  | None => may_end /\ todo = []
  end.

Lemma read_due_stream turns fuel body at_point have later msgs :
  (weight at_point have <= turns)%nat -> Forall sendable msgs -> stream body at_point (have ++ later) msgs ->
  exists dn todo stop left, msgs = dn ++ todo /\ stopped_at stop left later todo /\
    forall s c, sender s p c -> read_due turns fuel p (Reading body at_point) (holding p have s) =
      (for_each dn (HandleMessage fuel p) ;; modify (holding p left) ;; stops stop) s.
Proof.
  revert body at_point have msgs. induction turns as [|turns IH]; intros body at_point have msgs Hturns Hmsgs Hstream;
    (destruct (decide (sizeN have < needed at_point)) as [Hshort|Hshort];
      [exists [], msgs, (Some (body, at_point)), have; split_and!; [done..|]; intros s c [_ Hc _];
       cbn [read_due]; rewrite (get_conn_holding s c) by done;
       by rewrite bool_decide_true|]); apply N.nlt_ge in Hshort;
    pose proof (on_read_weight body at_point have Hshort) as Hless; cbv zeta in Hless.
  - unfold weight in Hturns. destruct at_point; [|lia]. destruct have; [|cbn in Hturns; lia]. by destruct Hshort.
  - pose proof (stream_step body at_point have later msgs Hmsgs Hstream Hshort) as Hnext. cbv zeta in Hnext.
    pose proof (fun s c => read_due_turn turns fuel body at_point s c have) as Hturn. cbv zeta in Hturn.
    destruct (on_read _ _ _) as [body' at'|m|].
    + destruct (IH body' at' (drop (N.to_nat (needed at_point)) have) msgs ltac:(lia) Hmsgs Hnext) as (dn & todo & stop & left & Hsplit & Hstop & Hrun).
      exists dn, todo, stop, left. split_and!; [done..|]. intros s c Hs. rewrite (Hturn s c) by (done || apply Hs).
      by apply (Hrun s c).
    + destruct Hnext as (ms & -> & Hnext). apply Forall_cons in Hmsgs as [_ Hms].
      destruct (IH [] AwaitHeader (drop (N.to_nat (needed at_point)) have) ms ltac:(lia) Hms Hnext) as (dn & todo & stop & left & -> & Hstop & Hrun).
      exists (m :: dn), todo, stop, left. split_and!; [done..|]. intros s c Hs. rewrite (Hturn s c) by (done || apply Hs).
      pose proof (HandleMessage_holding s c fuel m (drop (N.to_nat (needed at_point)) have) Hs) as Hm.
      cbn [for_each]. unfold mbind, M_bind, bind in *. rewrite Hm.
      destruct (HandleMessage fuel p m s) as [[] s1| |] eqn:Hhandled; [|done..]. cbn [modify].
      destruct (HandleMessage_sender _ _ _ _ _ Hs Hhandled) as [c1 Hs1]. exact (Hrun s1 c1 Hs1).
    + destruct Hnext as [Hend ->]. exists [], [], None, (drop (N.to_nat (needed at_point)) have).
      split_and!; [done..|]. intros s c Hs. by rewrite (Hturn s c) by (done || apply Hs).
Qed.

Lemma receive_stream fuel body at_point kept chunks msgs :
  Forall sendable msgs -> stream body at_point (kept ++ concat chunks) msgs -> sizeN kept < needed at_point ->
  exists dn todo stop left, msgs = dn ++ todo /\ stopped_at stop left [] todo /\
    forall s c, sender s p c -> receive fuel p (Reading body at_point) chunks (holding p kept s) =
      (for_each dn (HandleMessage fuel p) ;; modify (holding p left) ;; stops stop) s.
Proof.
  revert body at_point kept msgs. induction chunks as [|chunk chunks IH]; intros body at_point kept msgs Hmsgs Hstream Hkept.
  { by exists [], msgs, (Some (body, at_point)), kept. }
  cbn [concat] in Hstream. rewrite app_assoc in Hstream. set (have := kept ++ chunk) in *.
  destruct (read_due_stream (S (2 * length have)) fuel body at_point have (concat chunks) msgs)
    as (dn & todo & stop & left & -> & Hstop & Hrun); [destruct at_point; unfold weight; lia|done|done|].
  assert (forall s c, sender s p c -> receive fuel p (Reading body at_point) (chunk :: chunks) (holding p kept s) =
    (for_each dn (HandleMessage fuel p) ;; modify (holding p left) ;; pt ← stops stop; receive fuel p pt chunks) s) as Hfirst.
  { intros s c Hs. cbn [receive]. rewrite bind_modify.
    assert (update_socket p (fun k => set_sk_in (sk_in k ++ chunk) k) (holding p kept s) = holding p have s) as ->
      by (unfold holding, update_socket; by rewrite update_update).
    rewrite (get_conn_holding s c) by apply Hs. cbn [Connection.socket Connection.set_socket set_sk_in sk_in].
    pose proof (Hrun s c Hs) as Hdue. unfold mbind, M_bind, bind in *. rewrite Hdue.
    destruct (for_each dn _ s) as [[] s1| |]; [|done..]. cbn [modify]. by destruct (stops stop _). }
  destruct stop as [[body' at']|].
  - destruct Hstop as [Hnext Hshort]. apply Forall_app in Hmsgs as [_ Htodo].
    destruct (IH body' at' left todo Htodo Hnext Hshort) as (dn' & todo' & stop' & left' & -> & Hstop' & Hrun').
    exists (dn ++ dn'), todo', stop', left'. split_and!; [by rewrite app_assoc|done|]. intros s c Hs.
    rewrite (Hfirst s c Hs). unfold mbind, M_bind, bind. rewrite (for_each_app dn dn'). unfold mbind, M_bind, bind. cbn [stops].
    destruct (for_each dn _ s) as [[] s1| |] eqn:Hhandled; [|done..]. cbn [modify ret].
    destruct (handle_all_sender _ _ _ _ _ Hs Hhandled) as [c1 Hs1]. exact (Hrun' s1 c1 Hs1).
  - exists dn, todo, None, left. split_and!; [done..|]. intros s c Hs. rewrite (Hfirst s c Hs).
    unfold mbind, M_bind, bind. cbn [stops]. destruct (for_each dn _ s) as [[] s1| |]; [|done..]. cbn [modify].
    unfold mbind, M_bind, bind. destruct (session_end p _); [|done..]. by destruct chunks.
Qed.
End Driver.

Section Received.
Context `{!RoomRng} (p : ptr) (s : Server) (c : Connection.t) (Hs : sender s p c) (Hin : sk_in (Connection.socket c) = []).

Lemma holding_nothing : holding p [] s = s.
Proof. rewrite <-Hin. by apply holding_same, Hs. Qed.

Lemma receive_all fuel chunks msgs :
  Forall sendable msgs -> expects [] AwaitHeader (concat chunks) msgs ->
  receive fuel p (Reading [] AwaitHeader) chunks s = (for_each msgs (HandleMessage fuel p) ;; ret (Reading [] AwaitHeader)) s.
Proof.
  intros Hmsgs Hexp.
  destruct (receive_stream p expects False) with (fuel := fuel) (body := @nil byte) (at_point := AwaitHeader)
    (kept := @nil byte) (chunks := chunks) (msgs := msgs) as (dn & todo & stop & left & -> & Hstop & Hrun); [|done..|].
  { intros body at_point have later ms Hms Hms' Hneeded. pose proof (on_read_expects _ _ _ _ _ Hms Hms' Hneeded) as Hnext.
    cbv zeta in *. by destruct (on_read _ _ _). }
  destruct stop as [[body at_point]|]; [|by destruct Hstop]. destruct Hstop as [Hrest Hshort]. rewrite app_nil_r in Hrest.
  apply Forall_app in Hmsgs as [_ Htodo]. destruct (expects_done _ _ _ _ Htodo Hrest Hshort) as (-> & -> & -> & ->).
  specialize (Hrun s c Hs). rewrite holding_nothing in Hrun. rewrite Hrun, app_nil_r.
  pose proof (handle_all_holding p s c fuel dn [] Hs) as Hsame. rewrite holding_nothing in Hsame.
  unfold mbind, M_bind, bind in *. rewrite Hsame at 2. by destruct (for_each _ _ s) as [[] s1| |].
Qed.

Lemma receive_refused fuel chunks msgs :
  Forall sendable msgs -> refuses [] AwaitHeader (concat chunks) msgs ->
  exists left, receive fuel p (Reading [] AwaitHeader) chunks s =
    (for_each msgs (HandleMessage fuel p) ;; modify (holding p left) ;; session_end p ;; ret Ended) s.
Proof.
  intros Hmsgs Hrefuses.
  destruct (receive_stream p refuses True) with (fuel := fuel) (body := @nil byte) (at_point := AwaitHeader)
    (kept := @nil byte) (chunks := chunks) (msgs := msgs) as (dn & todo & stop & left & -> & Hstop & Hrun); [|done..|].
  { intros body at_point have later ms Hms Hms' Hneeded. pose proof (on_read_refuses _ _ _ _ _ Hms Hms' Hneeded) as Hnext.
    cbv zeta in *. by destruct (on_read _ _ _). }
  apply Forall_app in Hmsgs as [_ Htodo]. destruct stop as [[body at_point]|].
  - destruct Hstop as [Hrest Hshort]. rewrite app_nil_r in Hrest. apply refuses_enough in Hrest; [lia|done].
  - destruct Hstop as [_ ->]. rewrite app_nil_r. exists left.
    specialize (Hrun s c Hs). rewrite holding_nothing in Hrun. exact Hrun.
Qed.
End Received.

(** ** Properties *)

(** Claim C14: however a client's byte stream is cut into reads, [ReadLoop] does
    with it what handling its messages one after the other does, and nothing
    else: it waits in the middle of a header or a fragment as long as it takes,
    puts fragments together again, hands every message the client framed to
    [HandleMessage], once and in order, and once all bytes have arrived it is
    back at the start of a frame with an empty buffer and nothing left over. *)
Theorem server_reads_the_stream `{!RoomRng} (fuel : nat) (s : Server) (p : ptr) (c : Connection.t)
    (msgs : list Proto.ServerMessage) (chunks : list (list byte)) :
  sender s p c -> sk_in (Connection.socket c) = [] ->
  Forall sendable msgs -> concat chunks = frame_all msgs ->
  receive fuel p (Reading [] AwaitHeader) chunks s =
  (for_each msgs (HandleMessage fuel p) ;; ret (Reading [] AwaitHeader)) s.
Proof.
  intros Hs Hin Hmsgs Hchunks. apply (receive_all p s c); [done..|]. rewrite Hchunks. constructor. apply pending_all.
Qed.

(** Member 2 sends a chat line of two fragments and leaves, in reads of 300
    bytes: it is in no room, and the reader is between two frames. *)
Lemma server_reads_the_stream_witness :
  let text := str_of_bytes (repeat x41 1500) in
  let bytes := frame_all [Proto.RoomChat 0 text; Proto.LeaveRoom] in
  let chunks := [take 300 bytes; take 300 (drop 300 bytes); take 300 (drop 600 bytes); take 300 (drop 900 bytes);
     take 300 (drop 1200 bytes); drop 1500 bytes] in
  match @receive Demo.rng 0 1%nat (Reading [] AwaitHeader) chunks Demo.server with
  | Done pt s' => pt = Reading [] AwaitHeader /\ (Connection.room <$> heap s' !! 1%nat) = Some EmptyString
  | _ => False
  end.
Proof.
  intros text bytes chunks.
  rewrite (@server_reads_the_stream Demo.rng 0 Demo.server 1%nat (Demo.conn 2 "WXYZ")
    [Proto.RoomChat 0 text; Proto.LeaveRoom] chunks).
  - vm_compute. split; reflexivity.
  - split; [apply wf_check_sound; vm_compute; reflexivity|reflexivity..].
  - reflexivity.
  - repeat constructor; vm_compute; discriminate.
  - vm_compute. reflexivity.
Defined.

Lemma deserialize_joinable rep rest : deserialize (x11 :: rep :: rest) = Ok (Proto.SetRoomJoinable rep).
Proof. unfold deserialize. cbn [dec Proto.message_codec variant]. unfold variant_dec. by rewrite dec_u8. Qed.

Lemma on_read_joinable body bytes at_point opened : on_read body bytes at_point = Handle (Proto.SetRoomJoinable opened) <->
  exists len rest, at_point = AwaitBody len false /\ body ++ bytes = x11 :: opened :: rest.
Proof.
  split.
  - destruct at_point as [|len more]; cbn [on_read].
    + unfold on_header. destruct (DecodeFrameHeader _) as [[]|]; [|done]. by case_bool_decide.
    + unfold on_body. destruct more; [done|]. destruct (deserialize _) as [msg|] eqn:Hread; [|done]. intros [= ->].
      apply message_canonical in Hread as [_ [rest ->]]. by exists len, rest.
  - intros (len & rest & -> & Hbody). cbn [on_read]. unfold on_body. by rewrite Hbody, (deserialize_joinable opened rest).
Qed.

(** Claim C36: what a client can do to the server with a byte that is no [bool].
    The archive copies the byte of a [SetRoomJoinable] into the message whatever
    it is; so when a read of [ReadLoop] completes, what follows is undefined
    behaviour exactly if it completes a body whose first byte is 17, the index
    of [SetRoomJoinable], and whose second is neither 0 nor 1, and the sender
    hosts a room: [HandleSetRoomJoinable] gets as far as comparing the [bool].
    In all other cases - other clients, [RoomAccessChanged], whose [bool]s the
    server does not read, bodies cut short - the code after the read follows no
    dangling pointer and reads no undefined value. *)
Theorem read_undefined_iff `{!RoomRng} (fuel : nat) (s : Server) (p : ptr) (c : Connection.t)
    (body : list byte) (at_point : read_point) :
  sender s p c ->
  read_loop fuel p body at_point s = Dangling <->
  exists len rep rest r, at_point = AwaitBody len false /\
    body ++ take (N.to_nat len) (sk_in (Connection.socket c)) = x11 :: rep :: rest /\ read_bool rep = None /\
    rooms s !! Connection.room c = Some r /\ Room.host r = Connection.id c.
Proof.
  intros Hs. pose proof (read_loop_holding p fuel body at_point s c (sk_in (Connection.socket c)) (sender_heap _ _ _ Hs)) as Hrun.
  rewrite holding_same in Hrun by apply Hs. rewrite Hrun. cbv zeta. set (left := drop _ _). set (bytes := take _ _).
  pose proof (on_read_joinable body bytes at_point) as Hiff. pose proof (holding_sender p s c left Hs) as [Hwf' Hc' _].
  destruct (on_read body bytes at_point) as [body' at'|msg|] eqn:Hread.
  - split; [done|]. intros (len & rep & rest & r & -> & Hbody & _). by pose proof (proj2 (Hiff rep) (ex_intro _ len (ex_intro _ rest (conj eq_refl Hbody)))).
  - transitivity (reads_no_bool s c msg = true).
    + unfold mbind, M_bind, bind. rewrite (exec_HandleMessage _ Hwf' _ _ Hc'), (lobby_message_ext _ s _ _ c), (reads_no_bool_ext s _ c) by done.
      destruct (lobby_message fuel s p c msg) as [d|] eqn:Hd; [|by destruct (reads_no_bool s c msg)].
      split; [done|]. intros Hbad. by destruct msg; try done; cbn [lobby_message] in Hd; rewrite Hbad in Hd.
    + split.
      * destruct msg; try done. cbn. intros [Hhosts Hbad%bool_decide_eq_true]%andb_prop.
        destruct (proj1 (Hiff opened) eq_refl) as (len & rest & -> & Hbody). unfold hosts in Hhosts.
        destruct (rooms s !! Connection.room c) as [r|] eqn:Hr; [|done]. apply bool_decide_eq_true in Hhosts.
        by exists len, opened, rest, r.
      * intros (len & rep & rest & r & -> & Hbody & Hbad & Hr & Hhost).
        pose proof (proj2 (Hiff rep) (ex_intro _ len (ex_intro _ rest (conj eq_refl Hbody)))) as [= ->].
        cbn. unfold hosts. rewrite Hr. by rewrite !bool_decide_true.
  - split; [|intros (len & rep & rest & r & -> & Hbody & _); by pose proof (proj2 (Hiff rep) (ex_intro _ len (ex_intro _ rest (conj eq_refl Hbody))))].
    unfold mbind, M_bind, bind. by rewrite (session_end_run p _ _ Hc').
Qed.

(** The host of [Demo.server]'s room sends the two bytes 17 and 2. *)
Lemma read_undefined_iff_witness :
  @read_loop Demo.rng 0 0%nat [] (AwaitBody 2 false) (holding 0%nat [x11; x02] Demo.server) = Dangling.
Proof.
  apply (@read_undefined_iff Demo.rng 0 (holding 0%nat [x11; x02] Demo.server) 0%nat
    (Connection.set_socket (mkSocket true [x11; x02] []) (Demo.conn 1 "WXYZ")) [] (AwaitBody 2 false)).
  - split; [apply wf_check_sound; vm_compute; reflexivity|reflexivity..].
  - exists 2, x02, [], (default (Room.fresh "" 0) (rooms Demo.server !! "WXYZ")).
    split_and!; vm_compute; reflexivity.
Defined.
