(* ===== verification/Rest.v ===== *)
(** The server comes to rest.

    Whatever order the io context completes operations in, and whichever of them
    fail, the coroutines stop when nothing new comes from outside: every step
    uses up bytes received, or, without touching any reader, something of one
    writer's queue. *)
From S2P Require Import Prelude Wire Protocol Framing Stream RoomCache Server ServerExec Lobby WellFormed.
From S2P Require Import Refine ServerInv Rules RoomCodes Sendable Session SessionInv Scheduler Turns Reader.
Local Open Scope N_scope.
#[local] Opaque FrameMessage.

(** ** Sums over the connections *)

Definition total (m : ptr -> nat) (n : nat) : nat := sum_list_with m (seq 0 n).

Lemma total_same m m' n : (forall q : ptr, (q < n)%nat -> m' q = m q) -> total m' n = total m n.
Proof.
  intros Hsame. unfold total. induction n as [|n IH]; [done|]. rewrite seq_S, !sum_list_with_app. cbn.
  rewrite (Hsame n) by lia. rewrite IH; [done|]. intros q Hq. apply Hsame. lia.
Qed.

Lemma total_less m m' n (p : ptr) :
  (p < n)%nat -> (m' p < m p)%nat -> (forall q : ptr, q <> p -> m' q = m q) -> (total m' n < total m n)%nat.
Proof.
  intros Hp Hless Hsame. induction n as [|n IH]; [lia|]. destruct (decide (p = n)) as [->|Hne].
  - pose proof (total_same m m' n) as Heq. unfold total in *. rewrite seq_S, !sum_list_with_app. cbn.
    rewrite Heq; [lia|]. intros q Hq. apply Hsame. lia.
  - unfold total in *. rewrite seq_S, !sum_list_with_app. cbn. rewrite (Hsame n) by done. specialize (IH ltac:(lia)). lia.
Qed.

(** ** What is left to do *)

(** For the reader of a session that has [input] in its socket's buffer. *)
Definition session_left (pt : session_point) (input : list byte) : nat :=
  match pt with
  | Spawned => 2 * length input + 2
  | Reading _ at_point => S (weight at_point input)
  | Ended => 0
  end.

(** For a writer. *)
Definition writer_left (c : Connection.t) (w : writer_point) : nat :=
  match w with
  | NotSpawned | Finished => 0
  | Waiting => 4 * length (Connection.out c) + (if Connection.wake c then 0 else 1)
  | Writing _ => 4 * length (Connection.out c) + 2
  end.

Definition at_conn (m : Connection.t -> Task.t -> nat) (y : Sys) (p : ptr) : nat :=
  match heap (server y) !! p, tasks y !! p with
  | Some c, Some t => m c t
  | _, _ => 0%nat
  end.

Definition to_read (y : Sys) : nat :=
  total (at_conn (fun c t => session_left (Task.session t) (sk_in (Connection.socket c))) y) (heap_next (server y)).
Definition to_write (y : Sys) : nat :=
  total (at_conn (fun c t => writer_left c (Task.writer t)) y) (heap_next (server y)).

Section Rest.
Context `{!RoomRng}.

(** ** Every step leaves less *)

Lemma at_conn_at m y p c t : conn_at y p c t -> at_conn m y p = m c t.
Proof. unfold at_conn. by intros [-> ->]. Qed.

Lemma conn_in_range y p c t : sys_ok y -> conn_at y p c t -> (p < heap_next (server y))%nat.
Proof. intros Hy [Hc _]. by destruct (ok_ids _ Hy _ _ Hc). Qed.

(** A step of [ReadLoop] or [Session] leaves its own reader less, and the other
    readers what they had. *)
Lemma turn_to_read y y' p c t t' f d :
  sys_ok y -> turn y y' p c t t' f d ->
  (session_left (Task.session t') (sk_in (Connection.socket (f c))) < session_left (Task.session t) (sk_in (Connection.socket c)))%nat ->
  (to_read y' < to_read y)%nat.
Proof.
  intros Hy Hturn Hless. unfold to_read. rewrite (turn_next _ _ _ _ _ _ _ _ Hturn).
  pose proof (turn_at _ _ _ _ _ _ _ _ Hturn) as Hat. apply (total_less _ _ _ p); [by apply (conn_in_range y p c t)| |].
  - rewrite (at_conn_at _ y p c t Hat).
    destruct (turn_moves _ _ _ _ _ _ _ _ _ _ _ Hturn Hat) as (c' & tp' & Hat' & Hc' & _).
    rewrite (at_conn_at _ y' p c' tp' Hat'). rewrite decide_True in Hc' by done. rewrite Hc'. cbn.
    destruct Hat' as [_ Ht']. rewrite (turn_tasks _ _ _ _ _ _ _ _ Hturn), lookup_insert_eq in Ht'. by injection Ht' as <-.
  - intros q Hq. unfold at_conn. rewrite (turn_tasks _ _ _ _ _ _ _ _ Hturn), lookup_insert_ne by done.
    rewrite (turn_heap _ _ _ _ _ _ _ _ Hturn), heap_commit, lookup_update_conn_ne by done.
    destruct (heap (server y) !! q); [|done]. by destruct (tasks y !! q).
Qed.

Lemma read_loop_left y p c body at_point w fuel pt' s' :
  sys_ok y -> conn_at y p c (Task.mk (Reading body at_point) w) ->
  needed at_point <= sizeN (sk_in (Connection.socket c)) ->
  read_loop fuel p body at_point (server y) = Done pt' s' ->
  exists c', heap s' !! p = Some c' /\
    (session_left pt' (sk_in (Connection.socket c')) < session_left (Reading body at_point) (sk_in (Connection.socket c)))%nat.
Proof.
  intros Hy [Hc Ht] Hneeded Hrun. pose proof (on_read_weight body at_point _ Hneeded) as Hweight. cbv zeta in Hweight.
  unfold read_loop in Hrun. rewrite (bind_done _ _ _ c (server y)) in Hrun by (unfold get_conn; by rewrite Hc).
  rewrite bind_modify in Hrun. unfold update_socket in Hrun.
  change (fun c0 : Connection.t => _) with (consume (needed at_point) c) in Hrun.
  pose proof (lookup_update_conn (server y) p (consume (needed at_point) c) c Hc) as Hc1.
  destruct (on_read body _ at_point) as [body' at_point'|msg|].
  - injection Hrun as <- <-. eexists. split; [exact Hc1|]. exact (proj1 (Nat.succ_lt_mono _ _) Hweight).
  - apply bind_done_inv in Hrun as ([] & s1 & Hrun & Hret). injection Hret as <- <-.
    pose proof (reading_sender y Hy p c body at_point w Hc Ht (consume (needed at_point) c) eq_refl eq_refl) as Hs.
    destruct (sender_message _ _ _ _ _ _ Hs Hrun) as (d & _ & -> & _).
    rewrite heap_commit, Hc1. eexists. split; [done|]. exact (proj1 (Nat.succ_lt_mono _ _) Hweight).
  - apply bind_done_inv in Hrun as ([] & s1 & Hrun & Hret). injection Hret as <- <-.
    rewrite (session_end_run p (consume (needed at_point) c c)) in Hrun by done. injection Hrun as <-.
    cbn [heap set_connections]. rewrite heap_commit, (lookup_update_conn _ p shut _ Hc1). eexists. split; [done|]. apply Nat.lt_0_succ.
Qed.

Lemma turn_socket y y' p c t t' f d c' :
  turn y y' p c t t' f d -> heap (server y') !! p = Some c' -> Connection.socket c' = Connection.socket (f c).
Proof.
  intros Hturn Hc'. destruct (turn_at _ _ _ _ _ _ _ _ Hturn) as [Hc _].
  rewrite (turn_heap _ _ _ _ _ _ _ _ Hturn), heap_commit, (lookup_update_conn _ p f c Hc) in Hc'. by injection Hc' as <-.
Qed.

(** A step of [WriteLoop] touches no reader. *)
Lemma writer_to_write y p c pt w w' g :
  sys_ok y -> conn_at y p c (Task.mk pt w) -> sk_in (Connection.socket (g c)) = sk_in (Connection.socket c) ->
  (writer_left (g c) w' < writer_left c w)%nat ->
  let y' := with_task p (Task.mk pt w') (update_conn p g (server y)) y in
  to_read y' = to_read y /\ (to_write y' < to_write y)%nat.
Proof.
  intros Hy Hat Hin Hless y'. pose proof Hat as [Hc Ht].
  assert (conn_at y' p (g c) (Task.mk pt w')) as Hat' by (split; cbn; [by rewrite lookup_alter_eq, Hc|apply lookup_insert_eq]).
  assert (forall m (q : ptr), q <> p -> at_conn m y' q = at_conn m y q) as Hothers.
  { intros m q Hq. unfold at_conn. cbn. by rewrite lookup_alter_ne, lookup_insert_ne. }
  split.
  - apply (total_same _ _ (heap_next (server y))). intros q _. destruct (decide (q = p)) as [->|Hq]; [|by apply Hothers].
    rewrite (at_conn_at _ _ _ _ _ Hat'), (at_conn_at _ _ _ _ _ Hat). cbn. by rewrite Hin.
  - apply (total_less _ _ (heap_next (server y)) p); [by apply (conn_in_range y p c (Task.mk pt w))| |intros q; apply Hothers].
    by rewrite (at_conn_at _ _ _ _ _ Hat'), (at_conn_at _ _ _ _ _ Hat).
Qed.

(** [WriteLoop], from one suspension to the next. *)
Lemma write_loop_left y p c pt w w' g s' :
  sys_ok y -> conn_at y p c (Task.mk pt w) ->
  sk_in (Connection.socket (g c)) = sk_in (Connection.socket c) -> Connection.out (g c) = Connection.out c ->
  (4 * length (Connection.out c) < writer_left c w)%nat ->
  write_loop p (update_conn p g (server y)) = Done w' s' ->
  let y' := with_task p (Task.mk pt w') s' y in
  to_read y' = to_read y /\ (to_write y' < to_write y)%nat.
Proof.
  intros Hy Hat Hin Hout Hless Hrun. pose proof Hat as [Hc _].
  rewrite (write_loop_run p (g c)) in Hrun by (by apply lookup_update_conn).
  destruct (Connection.closing (g c)); [|destruct (Connection.out (g c)) as [|frame rest] eqn:Hqueue]; injection Hrun as <- <-;
    rewrite ?update_update; (eapply (writer_to_write y p c pt w); [done|done|done|]); cbn; rewrite ?Hqueue; rewrite <-?Hout in Hless; cbn in *; lia.
Qed.

Lemma io_step_leaves_less y y' : sys_ok y -> io_step y y' ->
  (to_read y' < to_read y)%nat \/ to_read y' = to_read y /\ (to_write y' < to_write y)%nat.
Proof.
  intros Hy [Hstep|Hstep].
  - destruct Hstep as [y p w s' Ht Hrun|y p c body at_point w fuel pt' s' Ht Hc Hneeded Hrun
      |y p c pt w' s' Ht Hc Hwake Hrun|y p c pt frame w' s' Ht Hc Hopen Hrun].
    + left. destruct (ok_task y p _ Hy Ht) as (c & Hc & _).
      destruct (start_turn y p c w s' Hy (conj Hc Ht) Hrun) as (f & d & Hturn).
      apply (turn_to_read _ _ _ _ _ _ _ _ Hy Hturn). pose proof (turn_reads _ _ _ _ _ _ _ _ Hturn) as Hreads.
      cbn [Task.session] in *. inversion Hreads. unfold session_left, weight. lia.
    + left. destruct (read_turn y p c body at_point w fuel pt' s' Hy (conj Hc Ht) Hneeded Hrun) as (f & d & Hturn).
      destruct (read_loop_left y p c body at_point w fuel pt' s' Hy (conj Hc Ht) Hneeded Hrun) as (c' & Hc' & Hless).
      apply (turn_to_read _ _ _ _ _ _ _ _ Hy Hturn). by rewrite <-(turn_socket _ _ _ _ _ _ _ _ c' Hturn).
    + right. eapply (write_loop_left y p c pt Waiting w' (fun c => c)); try done; cbn; [rewrite Hwake; lia|].
      by rewrite (update_conn_id _ _ c).
    + right. eapply (write_loop_left y p c pt (Writing frame) w'); [done|done| | | |exact Hrun]; try done. cbn. lia.
  - destruct Hstep as [y p body at_point w s' Ht Hrun|y p pt frame sent Ht];
      destruct (ok_task y p _ Hy Ht) as (c & Hc & _).
    + left. destruct (end_turn y p c body at_point w (fun c => c) s' Hy (conj Hc Ht)) as (f & d & Hturn); try done.
      { by rewrite (update_conn_id _ _ c). }
      apply (turn_to_read _ _ _ _ _ _ _ _ Hy Hturn). cbn. lia.
    + right. eapply (writer_to_write y p c pt (Writing frame) Finished); try done. cbn. lia.
Qed.

(** ** Rest *)

Lemma comes_to_rest y : sys_ok y -> Acc (fun y2 y1 => io_step y1 y2) y.
Proof.
  intros Hy. remember (to_read y) as i eqn:Hi. remember (to_write y) as j eqn:Hj. revert j y Hy Hi Hj.
  induction (lt_wf i) as [i _ IHi]. intros j. induction (lt_wf j) as [j _ IHj]. intros y Hy -> ->.
  constructor. intros y' Hstep. pose proof (io_step_ok y y' Hy Hstep) as Hy'.
  destruct (io_step_leaves_less y y' Hy Hstep) as [Hless|[Hsame Hless]].
  - by apply (IHi _ Hless (to_write y')).
  - by apply (IHj _ Hless).
Qed.

(** No completion is due. *)
Definition at_rest (y : Sys) : Prop := forall y', ~ io_work y y'.

Lemma write_loop_runs p c s : heap s !! p = Some c -> exists w' s', write_loop p s = Done w' s'.
Proof.
  intros Hc. rewrite (write_loop_run p c s Hc). destruct (Connection.closing c); [eauto|]. destruct (Connection.out c); eauto.
Qed.

Lemma rest_spawned y p c w : sys_ok y -> at_rest y -> ~ conn_at y p c (Task.mk Spawned w).
Proof.
  intros Hy Hrest [Hc Ht]. destruct (ok_conns _ Hy _ _ _ Hc Ht) as [(_ & Hw & _ & Hout & Hclosing & _) _]. cbn in Hw. subst w.
  eapply Hrest, (step_session y p); [done|]. exact (session_start_run p c (server y) Hc Hclosing Hout).
Qed.

Lemma rest_writer y p c pt w : sys_ok y -> at_rest y -> conn_at y p c (Task.mk pt w) -> pt <> Spawned ->
  w = Finished \/ (w = Waiting /\ Connection.out c = [] /\ Connection.closing c = false) \/
  (exists frame, w = Writing frame /\ sk_open (Connection.socket c) = false).
Proof.
  intros Hy Hrest [Hc Ht] Hpt. destruct (ok_conns _ Hy _ _ _ Hc Ht) as [Hsession Hwake].
  destruct w as [| |frame|]; [|right; left|right; right|by left].
  - unfold session_ok in Hsession. cbn in Hsession. destruct pt; [done| |]; by destruct Hsession as (_ & [] & _).
  - split; [done|]. destruct (Connection.wake c) eqn:Hpending; [by apply Hwake|]. exfalso.
    destruct (write_loop_runs p c (server y) Hc) as (w' & s' & Hrun). by eapply Hrest, (step_woken y p c pt w' s').
  - exists frame. split; [done|]. destruct (sk_open (Connection.socket c)) eqn:Hopen; [|done]. exfalso.
    set (f := fun c => Connection.set_socket (set_sk_out (sk_out (Connection.socket c) ++ frame) (Connection.socket c)) c).
    destruct (write_loop_runs p (f c) (update_conn p f (server y))) as (w' & s' & Hrun); [by apply lookup_update_conn|].
    by eapply Hrest, (step_written y p c pt frame w' s').
Qed.

(** Why a reader does not go on. *)
Inductive read_waits (s : Server) (c : Connection.t) (body : list byte) (at_point : read_point) : Prop :=
| waits_for_bytes :
    sizeN (sk_in (Connection.socket c)) < needed at_point -> read_waits s c body at_point
| waits_on_undefined opened : (* its own room is to be opened or closed, and the byte is no [bool] *)
    on_read body (take (N.to_nat (needed at_point)) (sk_in (Connection.socket c))) at_point = Handle (Proto.SetRoomJoinable opened) ->
    hosts s c = true -> read_bool opened = None -> read_waits s c body at_point
| waits_for_code : (* a request for a room, and no code is free *)
    on_read body (take (N.to_nat (needed at_point)) (sk_in (Connection.socket c))) at_point = Handle Proto.CreateRoom ->
    (forall fuel, first_free (rooms s) (rng s) (code_length s) fuel = None) -> read_waits s c body at_point.

Lemma lobby_message_none fuel s p c msg : lobby_message fuel s p c msg = None ->
  (msg = Proto.CreateRoom /\ first_free (rooms s) (rng s) (code_length s) fuel = None) \/
  exists opened, msg = Proto.SetRoomJoinable opened /\ hosts s c = true /\ read_bool opened = None.
Proof.
  destruct msg; try done; cbn [lobby_message].
  - unfold lobby_create. destruct (negb _); [done|]. destruct (first_free _ _ _ _) as [[]|]; [done|]. by left.
  - destruct (reads_no_bool _ _ _) eqn:Hbad; [|done]. intros _. right. exists opened.
    cbn in Hbad. by apply andb_prop in Hbad as [? ?%bool_decide_eq_true].
Qed.

Lemma rest_reader y p c body at_point w : sys_ok y -> at_rest y -> conn_at y p c (Task.mk (Reading body at_point) w) ->
  read_waits (server y) c body at_point.
Proof.
  intros Hy Hrest Hat. pose proof Hat as [Hc Ht].
  destruct (decide (needed at_point <= sizeN (sk_in (Connection.socket c)))) as [Hneeded|Hneeded]; [|apply waits_for_bytes; lia].
  set (f := consume (needed at_point) c). set (s1 := update_conn p f (server y)).
  pose proof (lookup_update_conn (server y) p f c Hc : heap s1 !! p = _) as Hc1.
  assert (forall fuel pt s', read_loop fuel p body at_point (server y) <> Done pt s') as Hstuck.
  { intros fuel pt s' Hrun. by eapply Hrest, (step_read y p c body at_point w fuel pt s'). }
  assert (forall fuel, read_loop fuel p body at_point (server y) =
    match on_read body (take (N.to_nat (needed at_point)) (sk_in (Connection.socket c))) at_point with
    | Await body' at_point' => Done (Reading body' at_point') s1
    | Handle msg => (HandleMessage fuel p msg ;; ret (Reading [] AwaitHeader)) s1
    | Return => (session_end p ;; ret Ended) s1
    end) as Hloop.
  { intros fuel. unfold read_loop. rewrite (bind_done _ _ _ c (server y)) by (unfold get_conn; by rewrite Hc).
    rewrite bind_modify. by destruct (on_read _ _ _). }
  destruct (on_read _ _ _) as [body' at_point'|msg|] eqn:Hread.
  - by destruct (Hstuck 0%nat _ _ (Hloop 0%nat)).
  - pose proof (reading_sender y Hy p c body at_point w Hc Ht f eq_refl eq_refl) as [Hwf1 _ _].
    assert (forall fuel, lobby_message fuel s1 p (f c) msg = None) as Hnone.
    { intros fuel. destruct (lobby_message fuel s1 p (f c) msg) as [d|] eqn:Hd; [|done]. exfalso.
      apply (Hstuck fuel (Reading [] AwaitHeader) (commit s1 d)). rewrite Hloop, (bind_done _ _ _ tt (commit s1 d)); [done|].
      by rewrite (exec_HandleMessage s1 Hwf1 p (f c) Hc1), Hd. }
    destruct (lobby_message_none _ _ _ _ _ (Hnone 0%nat)) as [[-> _]|(opened & -> & Hhosts & Hbad)];
      [apply waits_for_code; [done|]|by apply (waits_on_undefined _ _ _ _ opened)].
    intros fuel. by destruct (lobby_message_none _ _ _ _ _ (Hnone fuel)) as [[_ ?]|(? & [=] & _)].
  - exfalso. eapply (Hstuck 0%nat Ended). by rewrite Hloop, (bind_done _ _ _ _ _ (session_end_run p (f c) s1 Hc1)).
Qed.
End Rest.

(** ** The property *)

(** Claim C7: the server comes to rest.  From any reachable state, whatever order
    the io context completes operations in and whichever of them fail, there is
    no infinite run of the sessions without something new from outside.  And
    when nothing is due, every session has started; a session that goes on waits
    for bytes it has not got - or is undefined on its own client's
    [SetRoomJoinable], which hosts a room and sent a byte that is no [bool], or
    looks for a room code when none is free - and its writer has failed or has nothing
    left to send; the writer of a session that ended has ended too, but for a
    write that the closed socket will fail. *)
Theorem server_comes_to_rest `{!RoomRng} (cfg : ServerConfig) (y : Sys) :
  config_ok cfg -> reachable cfg y ->
  Acc (fun y2 y1 => io_step y1 y2) y /\
  forall y' p c t, rtc io_step y y' -> (forall y'', ~ io_work y' y'') ->
    heap (server y') !! p = Some c -> tasks y' !! p = Some t ->
    match Task.session t with
    | Spawned => False
    | Reading body at_point =>
        read_waits (server y') c body at_point /\
        (Task.writer t = Finished \/ Task.writer t = Waiting /\ Connection.out c = [])
    | Ended => Task.writer t = Finished \/ exists frame, Task.writer t = Writing frame
    end.
Proof.
  intros Hcfg Hy%reachable_ok; [|done]. split; [by apply comes_to_rest|].
  intros y' p c [pt w] Hruns Hrest Hc Ht.
  assert (sys_ok y') as Hy' by (clear -Hy Hruns; induction Hruns; [done|]; by apply IHHruns, (io_step_ok x)).
  pose proof (conj Hc Ht : conn_at y' p c _) as Hat. destruct (ok_conns _ Hy' _ _ _ Hc Ht) as [Hsession _].
  unfold session_ok in Hsession. cbn [Task.session Task.writer] in *. destruct pt as [|body at_point|].
  - by apply (rest_spawned y' p c w).
  - split; [by apply (rest_reader y' p c body at_point w)|].
    destruct (rest_writer y' p c _ w Hy' Hrest Hat ltac:(done)) as [?|[(? & ? & _)|(frame & _ & Hshut)]]; [by left|by right|].
    destruct Hsession as (_ & _ & _ & Hopen & _). congruence.
  - destruct (rest_writer y' p c _ w Hy' Hrest Hat ltac:(done)) as [?|[(_ & _ & Hgoes)|(frame & ? & _)]]; [by left| |right; by exists frame].
    destruct Hsession as (_ & _ & _ & Hclosing & _). congruence.
Qed.

(** The server of [DemoSys], with four frames queued for its only client: however
    it goes on, it stops, and with nothing queued if the writer has not failed. *)
Lemma server_comes_to_rest_witness :
  Acc (fun y2 y1 => @io_step Demo.rng y1 y2) DemoSys.created /\
  forall y' c body at_point, rtc (@io_step Demo.rng) DemoSys.created y' -> (forall y'', ~ @io_work Demo.rng y' y'') ->
    heap (server y') !! 0%nat = Some c -> tasks y' !! 0%nat = Some (Task.mk (Reading body at_point) Waiting) ->
    Connection.out c = [].
Proof.
  destruct (@server_comes_to_rest Demo.rng Demo.config DemoSys.created DemoSys.config_fits DemoSys.created_reachable) as [Hacc Hrest].
  split; [exact Hacc|]. intros y' c body at_point Hruns Hstop Hc Ht.
  destruct (Hrest y' 0%nat c _ Hruns Hstop Hc Ht) as [_ [Hw|[_ Hout]]]; [discriminate Hw|exact Hout].
Defined.
