(* ===== verification/Network.v ===== *)
(** The server, the clients that use the library, and the bytes between them.

    A [Node] is such a client at the other end of a server connection: its
    state, how many of the bytes the server's socket has sent it has read, and
    the bytes it has written that have not arrived.  Bytes arrive in order, any
    number at a time, whenever the network likes.  A client whose connection has
    ended in order may connect again.  A connection without a node belongs to a
    stranger, who may send anything at any time. *)
From S2P Require Import Prelude Wire Protocol Framing Stream RoomCache Server ServerExec WellFormed.
From S2P Require Import Sendable Session SessionInv Turns Reader Mirror.
From S2P Require Import Client ClientMesh ClientConn ClientSends.
Local Open Scope N_scope.
#[local] Opaque FrameMessage.

Module Node.
Record t : Type := mk {
  app : Client;
  taken : nat;
  up : list byte
}.
End Node.

Record Net : Type := mkNet {
  sys : Sys;
  nodes : gmap ptr Node.t
}.

Section Network.
Context `{!RoomRng, !Juice}.

(** What an application does between two polls, and the callbacks of the ICE
    library.  Its requests are messages the server accepts. *)
Inductive client_call : Client -> Client -> Prop :=
| call_request msg b k k' : sendable msg -> SendServer msg k = Done b k' -> client_call k k'
| call_send_p2p id data b k k' : SendP2P id data k = Done b k' -> client_call k k'
| call_next o k k' : Next k = Done o k' -> client_call k k'
| call_next_p2p o k k' : NextP2P k = Done o k' -> client_call k k'
| call_back ev k : short_event ev -> client_call k (PushJuiceEvent ev k).

(** The connection to the server stands; the server accepts it. *)
Definition connected : Client := set_socket_open true client_init.

Inductive net_step : Net -> Net -> Prop :=
| net_server n y' : io_step (sys n) y' -> net_step n (mkNet y' (nodes n))
| net_accept_failed n : net_step n (mkNet (accept_failed (sys n)) (nodes n))
| net_stranger n : accepting (sys n) = true -> net_step n (mkNet (accept (sys n)) (nodes n))
| net_strange_bytes n p bytes :
    nodes n !! p = None -> net_step n (mkNet (arrive p bytes (sys n)) (nodes n))
| net_connect n k :
    accepting (sys n) = true -> Connect (Connected true) client_init = Done true k ->
    net_step n (mkNet (accept (sys n)) (<[heap_next (server (sys n)) := Node.mk k 0 []]> (nodes n)))
| net_reconnect n p node k msgs : (* after an orderly end *)
    nodes n !! p = Some node -> socket_open (Node.app node) = false ->
    rx (Node.app node) = [] -> rx_msg (Node.app node) = [] ->
    tx (Node.app node) = frame_all msgs -> Forall sendable msgs ->
    accepting (sys n) = true -> Connect (Connected true) (Node.app node) = Done true k ->
    net_step n (mkNet (accept (sys n)) (<[heap_next (server (sys n)) := Node.mk k 0 []]> (delete p (nodes n))))
| net_deliver n p node count :
    nodes n !! p = Some node ->
    net_step n (mkNet (arrive p (take count (Node.up node)) (sys n))
      (<[p := Node.mk (Node.app node) (Node.taken node) (drop count (Node.up node))]> (nodes n)))
| net_poll n p node c chunks lost answers ok k' :
    nodes n !! p = Some node -> heap (server (sys n)) !! p = Some c -> socket_open (Node.app node) = true ->
    concat chunks `prefix_of` drop (Node.taken node) (sk_out (Connection.socket c)) ->
    Poll chunks lost answers (Node.app node) = Done ok k' ->
    net_step n (mkNet (sys n)
      (<[p := Node.mk k' (Node.taken node + length (concat chunks))
                (Node.up node ++ poll_written chunks lost answers (Node.app node))]> (nodes n)))
| net_call n p node k' :
    nodes n !! p = Some node -> client_call (Node.app node) k' ->
    net_step n (mkNet (sys n) (<[p := Node.mk k' (Node.taken node) (Node.up node)]> (nodes n))).

Definition net_init (cfg : ServerConfig) : Net := mkNet (sys_init cfg) ∅.

Definition net_reachable (cfg : ServerConfig) (n : Net) : Prop :=
  rtc (fun n1 n2 => net_step n1 n2 /\ ids_left (sys n2)) (net_init cfg) n.

(** ** The invariant *)

(** All that was or will be sent are frames of answers and events. *)
Definition said (c : Connection.t) (t : Task.t) : Prop :=
  exists msgs, Forall genuine msgs /\
    if decide (Task.writer t = Finished) then sk_out (Connection.socket c) `prefix_of` frame_all msgs
    else pipeline c (Task.writer t) = frame_all msgs.

(** The client has read [bytes]: however they go on, it has handled the messages
    they complete, and holds the rest. *)
Definition heard (bytes : list byte) (k : Client) : Prop :=
  incomplete (rx k) /\
  forall later msgs, Forall sendable msgs -> bytes ++ later = frame_all msgs ->
    exists start dn todo, blank start /\ msgs = dn ++ todo /\ _room_cache k = cache_all start dn /\
      pending (rx_msg k) (rx k ++ later) todo.

(** What [ReadLoop] will make of the bytes that arrived, are on their way or
    wait in the client. *)
Definition asks (pt : session_point) (bytes : list byte) : Prop :=
  match pt with
  | Spawned => exists todo, Forall sendable todo /\ expects [] AwaitHeader bytes todo
  | Reading body at_point => exists todo, Forall sendable todo /\ expects body at_point bytes todo
  | Ended => True
  end.

Record node_ok (c : Connection.t) (t : Task.t) (node : Node.t) : Prop := {
  node_taken : (Node.taken node <= length (sk_out (Connection.socket c)))%nat;
  node_mesh : mesh_ok (Node.app node);
  node_tidy : tidy (Node.app node);
  node_closed : socket_open (Node.app node) = false -> blank (_room_cache (Node.app node));
  node_heard : socket_open (Node.app node) = true ->
    heard (take (Node.taken node) (sk_out (Connection.socket c))) (Node.app node);
  node_asks : asks (Task.session t) (sk_in (Connection.socket c) ++ Node.up node ++ tx (Node.app node))
}.

Record net_ok (n : Net) : Prop := {
  net_sys : sys_ok (sys n);
  net_said : forall p c t, conn_at (sys n) p c t -> said c t;
  net_nodes : forall p node, nodes n !! p = Some node -> exists c t, conn_at (sys n) p c t /\ node_ok c t node
}.

(** ** Streams that go on *)

Lemma pending_extend partial bytes msgs more :
  pending partial bytes msgs -> pending partial (bytes ++ frame_all more) (msgs ++ more).
Proof.
  destruct 1 as [|partial body stream m ms Hser Hframed]; [apply pending_all|].
  rewrite <-app_assoc, <-frame_all_app. by apply (pending_some _ body).
Qed.

Lemma expects_extend body at_point bytes msgs more :
  expects body at_point bytes msgs -> expects body at_point (bytes ++ frame_all more) (msgs ++ more).
Proof.
  destruct 1 as [body bytes msgs Hp|body frag more' rest m ms Hfrag Happend Hmore].
  - constructor. by apply pending_extend.
  - rewrite <-app_assoc. apply expects_body; [done|done|]. destruct more'.
    + by apply (pending_extend _ _ (m :: ms)).
    + destruct Hmore. split; [done|by apply pending_extend].
Qed.

Lemma asks_extend pt bytes more : Forall sendable more -> asks pt bytes -> asks pt (bytes ++ frame_all more).
Proof.
  intros Hmore. destruct pt as [|body at_point|]; cbn; [| |done].
  all: intros (todo & Htodo & Hexp); exists (todo ++ more); split; [by apply Forall_app|by apply expects_extend].
Qed.

Lemma asks_reads pt bytes pt' bytes' later :
  reads pt bytes pt' bytes' -> asks pt (bytes ++ later) -> asks pt' (bytes' ++ later).
Proof.
  destruct 1 as [pt bytes|bytes|body at_point body' at_point' bytes Hneeded Hread|body at_point m bytes Hneeded Hread|];
    cbn; try done; intros (todo & Htodo & Hexp).
  - pose proof (on_read_expects body at_point bytes later todo Htodo Hexp Hneeded) as Hnext. cbv zeta in Hnext.
    rewrite Hread in Hnext. by exists todo.
  - pose proof (on_read_expects body at_point bytes later todo Htodo Hexp Hneeded) as Hnext. cbv zeta in Hnext.
    rewrite Hread in Hnext. destruct Hnext as (ms & -> & Hnext). exists ms. split; [|done].
    by apply Forall_cons in Htodo as [_ ?].
Qed.

(** ** The server's steps *)

Lemma said_moves c t c' t' new : said c t -> conn_moves c t c' t' new -> Forall genuine new -> said c' t'.
Proof.
  intros (msgs & Hmsgs & Hsaid) [_ _ _ Hwrites] Hnew. unfold said. case_decide as Hw'.
  - exists msgs. split; [done|]. etransitivity; [exact Hwrites|]. case_decide as Hw.
    + rewrite Hw. cbn. by rewrite app_nil_r.
    + rewrite <-Hsaid. unfold pipeline. rewrite app_assoc. by apply prefix_app_r.
  - destruct Hwrites as [Hpipe Hw]. rewrite decide_False in Hsaid by done. exists (msgs ++ new).
    split; [by apply Forall_app|]. by rewrite Hpipe, Hsaid, frame_all_app.
Qed.

Lemma node_moves c t c' t' new node : node_ok c t node -> conn_moves c t c' t' new -> node_ok c' t' node.
Proof.
  intros [Htaken Hmesh Htidy Hclosed Hheard Hasks] [_ Hreads [sent Hsent] _]. split; try done.
  - rewrite Hsent, length_app. lia.
  - rewrite Hsent, take_app_le by done. exact Hheard.
  - by apply (asks_reads (Task.session t) (sk_in (Connection.socket c))).
Qed.

Lemma reaching_genuine conns q l : all_genuine l -> Forall genuine (reaching conns q l).
Proof.
  intros Hl. unfold reaching. rewrite Forall_fmap. unfold all_genuine in Hl. rewrite Forall_forall in *.
  intros im Him. apply list_elem_of_filter in Him as [_ Him]. by apply Hl.
Qed.


Lemma net_server_ok n y' : net_ok n -> io_step (sys n) y' -> net_ok (mkNet y' (nodes n)).
Proof.
  intros [Hsys Hsaid Hnodes] Hstep. destruct (io_step_turn _ _ Hsys Hstep) as (p & c & t & t' & f & d & Hturn).
  pose proof (turn_genuine _ _ _ _ _ _ _ _ Hsys Hturn) as Hall. split; cbn [sys nodes].
  - by apply (io_step_ok (sys n)).
  - intros q c' t0' Hat'. destruct (turn_back _ _ _ _ _ _ _ _ _ _ _ Hturn Hat') as (cq & tq & Hat).
    destruct (turn_moves _ _ _ _ _ _ _ _ _ _ _ Hturn Hat) as (cq' & tq' & Hat1 & _ & Hmoves).
    destruct (conn_at_unique _ _ _ _ _ _ Hat1 Hat') as [-> ->].
    eapply said_moves; [by apply (Hsaid q)|exact Hmoves|by apply reaching_genuine].
  - intros q node Hnode. destruct (Hnodes q node Hnode) as (cq & tq & Hat & Hok).
    destruct (turn_moves _ _ _ _ _ _ _ _ _ _ _ Hturn Hat) as (cq' & tq' & Hat1 & _ & Hmoves).
    exists cq', tq'. split; [done|]. by eapply node_moves.
Qed.

(** *** Accepting *)

Lemma accept_at y p c t : sys_ok y -> conn_at y p c t -> p <> heap_next (server y) /\ conn_at (accept y) p c t.
Proof.
  intros Hy [Hc Ht]. destruct (ok_ids _ Hy _ _ Hc) as [_ Hless].
  assert (p <> heap_next (server y)) as Hne by lia. split; [done|]. split; cbn; by rewrite lookup_insert_ne.
Qed.

Lemma accept_new y :
  conn_at (accept y) (heap_next (server y))
    (Connection.mk (next_id (server y)) "" (mkSocket true [] []) [] false false) (Task.mk Spawned NotSpawned).
Proof. split; cbn; apply lookup_insert_eq. Qed.

Lemma accept_back y p c t : conn_at (accept y) p c t ->
  conn_at y p c t \/ (p = heap_next (server y) /\ Connection.socket c = mkSocket true [] [] /\
    Connection.out c = [] /\ t = Task.mk Spawned NotSpawned).
Proof.
  intros [Hc Ht]. cbn in Hc, Ht. destruct (decide (p = heap_next (server y))) as [->|Hne].
  - rewrite lookup_insert_eq in Hc. rewrite lookup_insert_eq in Ht. right. by simplify_eq.
  - rewrite lookup_insert_ne in Hc by done. rewrite lookup_insert_ne in Ht by done. by left.
Qed.

(** A client without leftovers, whose connection was just made. *)
Record starting (k : Client) : Prop := {
  starting_mesh : mesh_ok k;
  starting_tidy : tidy k;
  starting_open : socket_open k = true;
  starting_blank : blank (_room_cache k);
  starting_rx : rx k = [] /\ rx_msg k = [];
  starting_tx : exists msgs, tx k = frame_all msgs /\ Forall sendable msgs
}.

Lemma connected_starting : starting connected.
Proof.
  split; try done.
  - by apply (mesh_ok_ext client_init), mesh_ok_init.
  - split; cbn; try apply Forall_nil_2; [done|]. intros id. rewrite lookup_empty. by intros [].
  - by exists [].
Qed.

Lemma net_accept_ok n ns' :
  net_ok n -> ids_left (accept (sys n)) ->
  (forall p node, ns' !! p = Some node -> nodes n !! p = Some node \/
    p = heap_next (server (sys n)) /\ exists k, starting k /\ node = Node.mk k 0 []) ->
  net_ok (mkNet (accept (sys n)) ns').
Proof.
  intros [Hsys Hsaid Hnodes] Hleft Hns. split; cbn [sys nodes].
  - by apply accept_ok.
  - intros p c t [Hat|(-> & Hsk & Hout & ->)]%accept_back; [by apply (Hsaid p)|].
    exists []. split; [apply Forall_nil_2|]. cbn. unfold pipeline. by rewrite Hsk, Hout.
  - intros p node [Hnode|(-> & k & [Hmesh Htidy Hopen Hblank [Hrx Hmsg] (asked & Htx & Hasked)] & ->)]%Hns.
    + destruct (Hnodes p node Hnode) as (c & t & Hat & Hok). exists c, t. split; [by apply accept_at|done].
    + eexists _, _. split; [apply accept_new|]. split; cbn; try done.
      * intros _. split; [rewrite Hrx; by left|].
        intros later msgs _ Heq. exists (_room_cache k), [], msgs. split_and!; [done..|].
        cbn in Heq. rewrite Hrx, Hmsg, Heq. apply pending_all.
      * exists asked. split; [done|]. constructor. rewrite Htx. apply pending_all.
Qed.

(** *** Bytes arrive *)

Definition receive (bytes : list byte) (c : Connection.t) : Connection.t :=
  Connection.set_socket (set_sk_in (sk_in (Connection.socket c) ++ bytes) (Connection.socket c)) c.

Lemma arrive_at y p bytes q c t :
  conn_at y q c t -> conn_at (arrive p bytes y) q (if decide (q = p) then receive bytes c else c) t.
Proof.
  intros [Hc Ht]. split; [|done]. cbn [server arrive]. unfold update_socket. destruct (decide (q = p)) as [->|Hne].
  - by rewrite (lookup_update_conn _ _ _ c).
  - by rewrite lookup_update_conn_ne.
Qed.

Lemma arrive_back y p bytes q c t : conn_at (arrive p bytes y) q c t ->
  exists c0, conn_at y q c0 t /\ c = (if decide (q = p) then receive bytes c0 else c0).
Proof.
  intros [Hc Ht]. cbn [server arrive tasks] in Hc, Ht. unfold update_socket, update_conn in Hc. cbn [heap set_heap] in Hc.
  rewrite lookup_alter in Hc. case_decide as Hq.
  - subst q. apply fmap_Some in Hc as (c0 & Hc0 & ->). exists c0. by rewrite decide_True.
  - exists c. by rewrite decide_False by congruence.
Qed.

(** *** The client polls *)

Lemma Poll_lost chunks answers k ok k' : mesh_ok k -> Poll chunks true answers k = Done ok k' -> ok = false.
Proof.
  intros Hk. unfold Poll. rewrite bind_gets. destruct (socket_open k); cbn [negb]; [|by intros [= <- _]].
  destruct (twp_done _ _ _ (twp_DrainServer chunks true k Hk)) as (ok1 & k1 & Hrun & Hok).
  rewrite (bind_done _ _ _ _ _ Hrun). destruct ok1; [by destruct Hok|]. cbn [negb]. by intros [= <- _].
Qed.

Lemma heard_poll bytes k chunks lost answers ok k' :
  mesh_ok k -> socket_open k = true -> heard bytes k -> Poll chunks lost answers k = Done ok k' ->
  mesh_ok k' /\ (socket_open k' = false -> blank (_room_cache k')) /\
  (socket_open k' = true -> heard (bytes ++ concat chunks) k').
Proof.
  intros Hk Hopen [_ Hheard] Hrun. pose proof (uwp_done _ _ _ _ _ _ (uwp_Poll chunks lost answers k Hk Hopen) Hrun) as Hpolled.
  split; [by apply (polled_mesh_ok ok)|].
  split; [intros Hshut; destruct ok; [destruct Hpolled as (_ & ? & _); congruence|apply Hpolled]|]. intros Hopen'.
  destruct ok; [|destruct Hpolled; congruence]. destruct Hpolled as (_ & _ & Hkept). split; [done|].
  destruct lost; [by apply Poll_lost in Hrun|]. intros later msgs Hmsgs Heq. rewrite <-app_assoc in Heq.
  destruct (Hheard _ _ Hmsgs Heq) as (start & dn & todo & Hstart & -> & Hcache & Hp). apply Forall_app in Hmsgs as [_ Htodo].
  destruct (twp_done _ _ _ (twp_Poll chunks [] later todo k Hk Hopen Htodo (not_elem_of_nil _) Hp))
    as (ok1 & k1 & Hrun1 & -> & dn1 & todo1 & -> & (Hread & _) & Hk1 & Hp1 & _).
  rewrite Poll_split, (bind_done _ _ _ _ _ Hrun1) in Hrun.
  destruct (twp_done _ _ _ (twp_FlushServer answers k1 Hk1)) as (ok2 & k2 & Hrun2 & Hrx & Hmsg & Hok2).
  rewrite Hrun in Hrun2. injection Hrun2 as <- <-. destruct Hok2 as (_ & Hview & _).
  apply view_inv in Hview as (Hcache2 & _). exists start, (dn ++ dn1), todo1. rewrite <-app_assoc, Hrx, Hmsg, Hcache2, Hread, Hcache.
  split_and!; [done|done|by rewrite cache_all_app|done].
Qed.

(** *** The application *)

Lemma client_call_view k k' :
  client_call k k' -> mesh_ok k -> mesh_ok k' /\ _room_cache k' = _room_cache k /\ rx k' = rx k /\ rx_msg k' = rx_msg k /\
    socket_open k' = socket_open k.
Proof.
  intros Hcall Hk. destruct Hcall as [msg b k k' _ Hrun|id data b k k' Hrun|o k k' Hrun|o k k' Hrun|ev k _].
  - by injection Hrun as _ <-.
  - destruct (twp_done _ _ _ (twp_SendP2P id data k Hk)) as (b0 & k0 & Hrun0 & Hk0 & Hview).
    rewrite Hrun in Hrun0. injection Hrun0 as _ <-. apply view_inv in Hview as (-> & -> & -> & _ & ->). done.
  - unfold Next in Hrun. rewrite bind_gets in Hrun.
    destruct (_inbox k); by injection Hrun as _ <-.
  - unfold NextP2P in Hrun. rewrite bind_gets in Hrun.
    destruct (_p2p_inbox k); by injection Hrun as _ <-.
  - done.
Qed.

Lemma client_call_sends `{!ShortSdp} k k' : client_call k k' -> tidy k -> sends k k'.
Proof.
  intros Hcall Hk. pose proof (sends_refl k Hk) as Hkk.
  destruct Hcall as [msg b k k' Hmsg Hrun|id data b k k' Hrun|o k k' Hrun|o k k' Hrun|ev k Hev].
  - by apply (wlp_done _ _ _ _ _ (sending_SendServer msg k Hk Hmsg) Hrun).
  - by apply (wlp_done _ _ _ _ _ (sending_SendP2P id data k Hk) Hrun).
  - unfold Next in Hrun. rewrite bind_gets in Hrun. destruct (_inbox k); injection Hrun as _ <-; [done|by apply (sends_ext _ k)].
  - unfold NextP2P in Hrun. rewrite bind_gets in Hrun.
    destruct (_p2p_inbox k); injection Hrun as _ <-; [done|by apply (sends_ext _ k)].
  - apply (sends_quiet _ k); [done|done|]. destruct Hk. split; try done. cbn. apply Forall_app. split; [done|by apply Forall_singleton].
Qed.

(** ** Every step *)

Lemma net_arrive_ok n p bytes ns' :
  net_ok n ->
  (forall q node, ns' !! q = Some node -> exists c t, conn_at (sys n) q c t /\
    node_ok (if decide (q = p) then receive bytes c else c) t node) ->
  net_ok (mkNet (arrive p bytes (sys n)) ns').
Proof.
  intros [Hsys Hsaid Hnodes] Hns. split; cbn [sys nodes].
  - by apply step_arrive_ok.
  - intros q c t Hat. apply arrive_back in Hat as (c0 & Hat & ->). destruct (Hsaid q c0 t Hat) as (msgs & Hmsgs & Hc0).
    exists msgs. split; [done|]. by destruct (decide (q = p)).
  - intros q node Hnode. destruct (Hns q node Hnode) as (c & t & Hat & Hok).
    eexists _, t. split; [by apply arrive_at|done].
Qed.

Lemma net_update_ok n p c t node :
  net_ok n -> conn_at (sys n) p c t -> node_ok c t node -> net_ok (mkNet (sys n) (<[p := node]> (nodes n))).
Proof.
  intros [Hsys Hsaid Hnodes] Hat Hok. split; cbn [sys nodes]; [done|done|].
  intros q node' [[<- <-]|[Hne Hnode]]%lookup_insert_Some; [by exists c, t|by apply Hnodes].
Qed.

Lemma net_deliver_ok n p node count :
  net_ok n -> nodes n !! p = Some node ->
  net_ok (mkNet (arrive p (take count (Node.up node)) (sys n))
    (<[p := Node.mk (Node.app node) (Node.taken node) (drop count (Node.up node))]> (nodes n))).
Proof.
  intros Hn Hnode. apply net_arrive_ok; [done|]. intros q node' [[<- <-]|[Hne Hnode']]%lookup_insert_Some.
  - destruct (net_nodes _ Hn p node Hnode) as (c & t & Hat & [Htaken Hmesh Htidy Hclosed Hheard Hasks]). exists c, t. split; [done|].
    rewrite decide_True by done. split; try done. cbn.
    rewrite <-app_assoc, (app_assoc (take count _)), take_drop. exact Hasks.
  - destruct (net_nodes _ Hn q node' Hnode') as (c & t & Hat & Hok). exists c, t. by rewrite decide_False by congruence.
Qed.

Lemma net_poll_ok `{!ShortSdp} n p node c chunks lost answers ok k' :
  net_ok n -> nodes n !! p = Some node -> heap (server (sys n)) !! p = Some c -> socket_open (Node.app node) = true ->
  concat chunks `prefix_of` drop (Node.taken node) (sk_out (Connection.socket c)) ->
  Poll chunks lost answers (Node.app node) = Done ok k' ->
  net_ok (mkNet (sys n) (<[p := Node.mk k' (Node.taken node + length (concat chunks))
    (Node.up node ++ poll_written chunks lost answers (Node.app node))]> (nodes n))).
Proof.
  intros Hn Hnode Hc Hopen [rest Hchunks] Hrun.
  destruct (net_nodes _ Hn p node Hnode) as (c0 & t & Hat & [Htaken Hmesh Htidy Hclosed Hheard Hasks]).
  assert (c0 = c) as -> by (destruct Hat; congruence). apply (net_update_ok n p c t); [done|done|].
  pose proof (f_equal length Hchunks) as Hlen. rewrite length_drop, length_app in Hlen.
  destruct (heard_poll _ _ _ _ _ _ _ Hmesh Hopen (Hheard Hopen) Hrun) as (Hmesh' & Hclosed' & Hheard').
  destruct (Poll_sends _ _ _ _ _ _ Htidy Hrun) as [Htidy' (msgs & Htx & Hmsgs)].
  split; cbn [Node.app Node.taken Node.up]; [lia|done|done|done| |].
  - intros Hopen'. specialize (Hheard' Hopen').
    replace (take _ (sk_out _)) with (take (Node.taken node) (sk_out (Connection.socket c)) ++ concat chunks); [done|].
    rewrite <-take_take_drop, Hchunks, take_app_length. done.
  - rewrite <-app_assoc, Htx, !app_assoc, <-(app_assoc _ (Node.up node)). by apply asks_extend.
Qed.

Lemma net_call_ok `{!ShortSdp} n p node k' :
  net_ok n -> nodes n !! p = Some node -> client_call (Node.app node) k' ->
  net_ok (mkNet (sys n) (<[p := Node.mk k' (Node.taken node) (Node.up node)]> (nodes n))).
Proof.
  intros Hn Hnode Hcall. destruct (net_nodes _ Hn p node Hnode) as (c & t & Hat & [Htaken Hmesh Htidy Hclosed Hheard Hasks]).
  apply (net_update_ok n p c t); [done|done|].
  destruct (client_call_view _ _ Hcall Hmesh) as (Hmesh' & Hcache & Hrx & Hmsg & Hopen).
  destruct (client_call_sends _ _ Hcall Htidy) as [Htidy' (msgs & Htx & Hmsgs)].
  split; cbn [Node.app Node.taken Node.up]; [done|done|done|by rewrite Hcache, Hopen| |].
  - unfold heard. rewrite Hcache, Hrx, Hmsg, Hopen. exact Hheard.
  - rewrite Htx, !app_assoc, <-(app_assoc _ (Node.up node)). by apply asks_extend.
Qed.

Lemma net_step_ok `{!ShortSdp} n n' : net_ok n -> net_step n n' -> ids_left (sys n') -> net_ok n'.
Proof.
  intros Hn Hstep Hleft.
  destruct Hstep as [n y' Hstep|n|n _|n p bytes Hp|n k _ Hk|n p node k msgs Hnode Hshut Hrx Hmsg Htx Hmsgs _ Hk|n p node count Hnode|n p node c chunks lost answers ok k' Hnode Hc Hopen Hchunks Hrun
    |n p node k' Hnode Hcall].
  - by apply net_server_ok.
  - destruct Hn. split; [by apply accept_failed_ok|done|done].
  - apply net_accept_ok; [done|done|]. by left.
  - apply net_arrive_ok; [done|]. intros q node Hnode. destruct (net_nodes _ Hn q node Hnode) as (c & t & Hat & Hok).
    exists c, t. by rewrite decide_False by congruence.
  - apply net_accept_ok; [done|done|]. injection Hk as <-.
    intros q node [[<- <-]|[_ Hnode]]%lookup_insert_Some; [|by left].
    right. split; [done|]. exists connected. split; [apply connected_starting|done].
  - apply net_accept_ok; [done|done|]. injection Hk as <-.
    destruct (net_nodes _ Hn p node Hnode) as (c & t & _ & [_ Hmesh Htidy Hclosed _ _]).
    intros q node' [[<- <-]|[_ [_ Hnode']%lookup_delete_Some]]%lookup_insert_Some; [|by left].
    right. split; [done|]. eexists. split; [|done].
    split; [done|by apply (tidy_ext (Node.app node))|done|by apply Hclosed|done|by exists msgs].
  - by apply net_deliver_ok.
  - by apply (net_poll_ok n p node c chunks lost answers ok k').
  - by apply net_call_ok.
Qed.

Lemma net_init_ok cfg : config_ok cfg -> net_ok (net_init cfg).
Proof.
  intros Hcfg. pose proof (sys_init_ok cfg Hcfg) as Hsys. split; [done| |].
  - intros p c t [Hc Ht]. cbn in Ht. unfold sys_init, Run in Ht. cbn in Ht. by rewrite lookup_empty in Ht.
  - intros p node. cbn. by rewrite lookup_empty.
Qed.

Lemma net_reachable_ok `{!ShortSdp} cfg n : config_ok cfg -> net_reachable cfg n -> net_ok n.
Proof.
  intros Hcfg. unfold net_reachable. generalize (net_init_ok cfg Hcfg). generalize (net_init cfg).
  induction 2 as [|n1 n2 n3 [Hstep Hleft] _ IH]; [done|]. by apply IH, (net_step_ok n1).
Qed.

(** What the network does to the server is what the world may do to it. *)
Lemma net_step_sys n n' : net_step n n' -> rtc sys_step (sys n) (sys n').
Proof.
  destruct 1; cbn [sys]; try apply rtc_refl; apply rtc_once.
  - by apply step_io.
  - apply step_accept_failed.
  - by apply step_accept.
  - apply step_arrive.
  - by apply step_accept.
  - by apply step_accept.
  - apply step_arrive.
Qed.
End Network.
