(* ===== verification/NetRuns.v ===== *)
(** Running the server with its clients: [run_net] executes a step of the
    network and is sound for [net_step].  [DemoNet] is a computed run of two
    clients who meet in a room. *)
From S2P Require Import Prelude Wire Protocol Framing Stream RoomCache Server ServerExec WellFormed.
From S2P Require Import Sendable Session SessionInv Scheduler Turns.
From S2P Require Import Client ClientMesh ClientConn ClientSends Network.
Local Open Scope N_scope.

Inductive net_action : Type :=
| Serve (a : io_action)
| Dial
| Deliver (p : ptr) (count : nat)
| PollClient (p : ptr) (count : nat) (answers : list write_answer)
| Request (p : ptr) (msg : Proto.ServerMessage)
| HangUp (p : ptr)
| Redial (p : ptr).

(** Requests whose numbers, size and [bool] fit. *)
Definition request_fits (msg : Proto.ServerMessage) : bool :=
  bool_decide (wire_size msg <= max_reassembled_size) &&
  match msg with
  | Proto.CreateRoom | Proto.LeaveRoom | Proto.JoinRoom _ _ | Proto.SetRoomData _ _ | Proto.SetMemberData _ _
  | Proto.SetRoomPassword _ => true
  | Proto.SetRoomJoinable opened => bool_decide (has_value opened)
  | Proto.RoomChat i _ | Proto.KickMember i | Proto.BanMember i | Proto.TransferHost i => bool_decide (i < 2 ^ 32)
  | _ => false
  end.

Lemma request_fits_sendable msg : request_fits msg = true -> sendable msg.
Proof.
  intros [Hsize%bool_decide_eq_true Hfit]%andb_true_iff. apply sendable_intro; [|done].
  destruct msg; try done; by apply bool_decide_eq_true in Hfit.
Qed.

Section NetRuns.
Context `{!RoomRng, !Juice}.

Definition run_net (a : net_action) (n : Net) : option Net :=
  match a with
  | Serve a => y' ← run_io a (sys n); Some (mkNet y' (nodes n))
  | Dial =>
      if accepting (sys n)
      then Some (mkNet (accept (sys n)) (<[heap_next (server (sys n)) := Node.mk connected 0 []]> (nodes n)))
      else None
  | Deliver p count =>
      node ← nodes n !! p;
      Some (mkNet (arrive p (take count (Node.up node)) (sys n))
        (<[p := Node.mk (Node.app node) (Node.taken node) (drop count (Node.up node))]> (nodes n)))
  | PollClient p count answers =>
      node ← nodes n !! p; c ← heap (server (sys n)) !! p;
      let chunks := [take count (drop (Node.taken node) (sk_out (Connection.socket c)))] in
      match socket_open (Node.app node), Poll chunks false answers (Node.app node) with
      | true, Done ok k' => Some (mkNet (sys n)
          (<[p := Node.mk k' (Node.taken node + length (concat chunks))
               (Node.up node ++ poll_written chunks false answers (Node.app node))]> (nodes n)))
      | _, _ => None
      end
  | Request p msg =>
      node ← nodes n !! p;
      if request_fits msg
      then match SendServer msg (Node.app node) with
           | Done _ k' => Some (mkNet (sys n) (<[p := Node.mk k' (Node.taken node) (Node.up node)]> (nodes n)))
           | _ => None
           end
      else None
  | HangUp p =>
      node ← nodes n !! p; c ← heap (server (sys n)) !! p;
      match socket_open (Node.app node), Poll [] true [] (Node.app node) with
      | true, Done ok k' => Some (mkNet (sys n)
          (<[p := Node.mk k' (Node.taken node + length (concat ([] : list (list byte))))
               (Node.up node ++ poll_written [] true [] (Node.app node))]> (nodes n)))
      | _, _ => None
      end
  | Redial p =>
      node ← nodes n !! p;
      let k := Node.app node in
      if accepting (sys n) && negb (socket_open k) && bool_decide (rx k = []) && bool_decide (rx_msg k = []) && bool_decide (tx k = [])
      then match Connect (Connected true) k with
           | Done true k' =>
               Some (mkNet (accept (sys n)) (<[heap_next (server (sys n)) := Node.mk k' 0 []]> (delete p (nodes n))))
           | _ => None
           end
      else None
  end.

Lemma run_net_sound a n n' : run_net a n = Some n' -> net_step n n'.
Proof.
  destruct a as [a| |p count|p count answers|p msg|p|p]; cbn [run_net]; unfold mbind, option_bind.
  - destruct (run_io a (sys n)) as [y'|] eqn:Hrun; [|done]. intros [= <-]. by apply net_server, (run_io_sound a).
  - destruct (accepting (sys n)) eqn:Haccepting; [|done]. intros [= <-]. by apply net_connect.
  - destruct (nodes n !! p) as [node|] eqn:Hnode; [|done]. intros [= <-]. by apply net_deliver.
  - destruct (nodes n !! p) as [node|] eqn:Hnode; [|done]. destruct (heap (server (sys n)) !! p) as [c|] eqn:Hc; [|done].
    destruct (socket_open (Node.app node)) eqn:Hopen; [|done].
    destruct (Poll _ false answers (Node.app node)) as [ok k'| |] eqn:Hrun; [|done..]. intros [= <-].
    apply (net_poll n p node c [take count (drop (Node.taken node) (sk_out (Connection.socket c)))] false answers ok k'); try done.
    cbn [concat]. rewrite app_nil_r. apply prefix_take.
  - destruct (nodes n !! p) as [node|] eqn:Hnode; [|done]. destruct (request_fits msg) eqn:Hfits; [|done].
    intros [= <-]. apply (net_call n p node); [done|]. apply (call_request msg true); [by apply request_fits_sendable|done].
  - destruct (nodes n !! p) as [node|] eqn:Hnode; [|done]. destruct (heap (server (sys n)) !! p) as [c|] eqn:Hc; [|done].
    destruct (socket_open (Node.app node)) eqn:Hopen; [|done].
    destruct (Poll [] true [] (Node.app node)) as [ok k'| |] eqn:Hrun; [|done..]. intros [= <-].
    apply (net_poll n p node c [] true [] ok k'); try done. apply prefix_nil.
  - destruct (nodes n !! p) as [node|] eqn:Hnode; [|done]. destruct (_ && _) eqn:Htests; [|done]. cbn [Connect].
    intros [= <-]. rewrite !andb_true_iff, !bool_decide_eq_true, negb_true_iff in Htests.
    destruct Htests as ((((? & ?) & ?) & ?) & ?). by apply (net_reconnect n p node _ []).
Qed.

Definition net_left_b (n : Net) : bool := ids_left_b (sys n).

Lemma run_net_runs l n n' : net_left_b n = true -> run_all run_net net_left_b l n = Some n' ->
  rtc (fun n1 n2 => net_step n1 n2 /\ ids_left (sys n2)) n n'.
Proof.
  intros Hn Hrun. eapply (rtc_subrel _ _ _ _);
    [|eapply (run_all_sound _ _ net_step (fun n => ids_left (sys n))); [apply run_net_sound| | |exact Hrun]].
  - by intros n1 n2 (? & _ & ?).
  - intros n1 Hn1. by apply bool_decide_eq_true in Hn1.
  - by apply bool_decide_eq_true in Hn.
Qed.

Lemma run_net_reachable cfg l n : run_all run_net net_left_b l (net_init cfg) = Some n -> net_reachable cfg n.
Proof.
  apply run_net_runs. apply bool_decide_eq_true. unfold net_init, sys_init, Init. cbn [sys Run server].
  by case_bool_decide.
Qed.
End NetRuns.

(** ** Two clients *)

Module DemoNet.
#[local] Existing Instance Demo.rng.
#[local] Existing Instance DemoClient.juice.

#[export] Instance short_sdp : @ShortSdp DemoClient.juice.
Proof. by vm_compute. Qed.

Definition serves (l : list io_action) : list net_action := Serve <$> l.
Definition writes_all (p : ptr) (n : nat) : list net_action := repeat (Serve (Write p)) n.

(** The first one makes a room. *)
Definition to_room : list net_action :=
  [Dial; Serve (Start 0%nat); Request 0%nat Proto.CreateRoom; PollClient 0%nat 0 [Sent 3; Sent 100];
   Deliver 0%nat 4; Serve (Read 0%nat 0); Deliver 0%nat 100; Serve (Read 0%nat 0)] ++ writes_all 0%nat 5.
Definition room : Net := default (net_init Demo.config) (run_all run_net net_left_b to_room (net_init Demo.config)).
Definition code : string :=
  match heap (server (sys room)) !! 0%nat with Some c => Connection.room c | None => "" end.

(** The second one joins it, and both read what the server has for them, the
    first one in two pieces. *)
Definition to_meet : list net_action :=
  to_room ++ [Dial; Serve (Start 1%nat); Request 1%nat (Proto.JoinRoom code ""); PollClient 1%nat 0 [Sent 100];
   Deliver 1%nat 100; Serve (Read 1%nat 0); Serve (Read 1%nat 0); PollClient 0%nat 30 []].
Definition met : Net := default room (run_all run_net net_left_b to_meet (net_init Demo.config)).
Definition to_settle : list net_action :=
  writes_all 0%nat 2 ++ writes_all 1%nat 7 ++ [PollClient 0%nat 1000 []; PollClient 1%nat 1000 []].
Definition quiet : Net := default met (run_all run_net net_left_b (to_meet ++ to_settle) (net_init Demo.config)).

Lemma met_reachable : net_reachable Demo.config met.
Proof. apply (run_net_reachable Demo.config to_meet). vm_compute. reflexivity. Qed.

Lemma quiet_reachable : net_reachable Demo.config quiet.
Proof. apply (run_net_reachable Demo.config (to_meet ++ to_settle)). vm_compute. reflexivity. Qed.

Definition client (n : Net) (p : ptr) : Client := from_option Node.app client_init (nodes n !! p).

(** The second one loses its connection, connects again and comes back. *)
Definition to_return : list net_action :=
  to_meet ++ to_settle ++ [HangUp 1%nat; Serve (ReadFails 1%nat); Redial 1%nat; Serve (Start 2%nat);
   Request 2%nat (Proto.JoinRoom code ""); PollClient 2%nat 0 [Sent 100]; Deliver 2%nat 100;
   Serve (Read 2%nat 0); Serve (Read 2%nat 0)] ++ writes_all 0%nat 3 ++ writes_all 2%nat 7 ++
  [PollClient 0%nat 1000 []; PollClient 2%nat 1000 []].
Definition returned : Net := default quiet (run_all run_net net_left_b to_return (net_init Demo.config)).

Lemma returned_reachable : net_reachable Demo.config returned.
Proof. apply (run_net_reachable Demo.config to_return). vm_compute. reflexivity. Qed.

(** It is a new client to the server; the other one has seen it leave and come. *)
Example returned_members :
  Members (client returned 2%nat) = [3; 1] /\ Members (client returned 0%nat) = [1; 3] /\ nodes returned !! 1%nat = None.
Proof. split_and!; vm_compute; reflexivity. Qed.
End DemoNet.
