(* ===== verification/Settle.v ===== *)
(** Clients that have read everything, and the runs that bring clients there:
    the writers empty their queues, and the clients poll. *)
From S2P Require Import Prelude Wire Protocol Framing Stream RoomCache Server ServerExec Lobby WellFormed.
From S2P Require Import Refine ServerInv Rules Authority Mirror Sendable Session SessionInv Scheduler Turns Reader.
From S2P Require Import Client ClientMesh ClientConn ClientSends Network NetRuns.
Local Open Scope N_scope.
#[local] Opaque FrameMessage.

Section Settle.
Context `{!RoomRng, !Juice, !ShortSdp}.

(** The library client at [p] has read everything the server has for it. *)
Definition settled (n : Net) (p : ptr) (k : Client) : Prop :=
  exists node c t, nodes n !! p = Some node /\ Node.app node = k /\ socket_open k = true /\
    conn_at (sys n) p c t /\ live t /\
    in_hand (Task.writer t) = [] /\ Connection.out c = [] /\
    Node.taken node = length (sk_out (Connection.socket c)).

(** A check of [settled]. *)
Definition settled_b (n : Net) (p : ptr) : bool :=
  match nodes n !! p, heap (server (sys n)) !! p, tasks (sys n) !! p with
  | Some node, Some c, Some (Task.mk (Reading _ _) w) =>
      socket_open (Node.app node) && bool_decide (w <> Finished) && bool_decide (in_hand w = []) &&
      bool_decide (Connection.out c = []) && bool_decide (Node.taken node = length (sk_out (Connection.socket c)))
  | _, _, _ => false
  end.

Lemma settled_b_sound n p : settled_b n p = true -> settled n p (DemoNet.client n p).
Proof.
  unfold settled_b, DemoNet.client. destruct (nodes n !! p) as [node|] eqn:Hnode; [|done].
  destruct (heap (server (sys n)) !! p) as [c|] eqn:Hc; [|done].
  destruct (tasks (sys n) !! p) as [[[|body at_point|] w]|] eqn:Ht; try done.
  rewrite !andb_true_iff, !bool_decide_eq_true. intros ((((Hopen & Hw) & Hhand) & Hout) & Htaken).
  exists node, c, (Task.mk (Reading body at_point) w). split_and!; try done. split; [done|eauto].
Qed.

Lemma live_up_to_date y p c t : sys_ok y -> conn_at y p c t -> live t -> up_to_date (server y) c (Task.writer t).
Proof.
  intros Hy [Hc Ht] [Hw (body & at_point & Hpt)]. destruct (ok_conns _ Hy _ _ _ Hc Ht) as [Hsession _].
  unfold session_ok in Hsession. rewrite Hpt in Hsession. by apply Hsession.
Qed.

(** ** Clients that have read everything *)

Lemma vector_erase_cons_perm i l : i ∈ l -> NoDup l -> i :: vector_erase i l ≡ₚ l.
Proof.
  intros Hi Hnd. apply NoDup_Permutation; [|done|].
  - apply NoDup_cons. split; [|by apply NoDup_filter]. intros Hin. by apply list_elem_of_filter in Hin as [? _].
  - intros j. rewrite elem_of_cons. unfold vector_erase. rewrite list_elem_of_filter. destruct (decide (j = i)); naive_solver.
Qed.

Lemma settled_sees n p k : net_ok n -> settled n p k ->
  exists c t, conn_at (sys n) p c t /\ live t /\ _room_cache k = seen_by (server (sys n)) c /\
    rx_msg k = [] /\ rx k = [].
Proof.
  intros Hn (node & c & t & Hnode & <- & Hopen & Hat & Hlive & Hhand & Hout & Htaken). exists c, t. split; [done|]. split; [done|].
  destruct (live_up_to_date _ _ _ _ (net_sys _ Hn) Hat Hlive) as (msgs & Hpipe & Hmsgs & Hseen).
  destruct (net_nodes _ Hn p node Hnode) as (c' & t' & Hat' & Hok). destruct (conn_at_unique _ _ _ _ _ _ Hat Hat') as [-> ->].
  destruct (node_heard _ _ _ Hok Hopen) as [Hkept Hheard]. rewrite Htaken, firstn_all in Hheard.
  unfold pipeline in Hpipe. change (match _ with Writing frame => frame | _ => [] end) with (in_hand (Task.writer t)) in Hpipe.
  rewrite Hhand, Hout in Hpipe. cbn [app concat] in Hpipe.
  destruct (Hheard [] msgs (genuine_sendable _ Hmsgs)) as (start & dn & todo & Hstart & -> & Hcache & Hp); [exact Hpipe|].
  rewrite app_nil_r in Hp. apply genuine_sendable, Forall_app in Hmsgs as [_ Htodo].
  destruct (pending_incomplete _ _ _ Htodo Hp Hkept) as (-> & ? & ?). rewrite app_nil_r in Hseen. split; [by rewrite Hcache, Hseen|done].
Qed.

(** A client in a room lists the room's members, itself first. *)
Lemma settled_room n p k : net_ok n -> settled n p k -> RoomId k <> EmptyString ->
  Id k = N.of_nat p + 1 /\ exists r, rooms (server (sys n)) !! RoomId k = Some r /\ room_ok (RoomId k) r /\
    _room_cache k = image (Id k) (RoomId k) r /\ Members k ≡ₚ Room.members r /\ Id k ∈ Room.members r.
Proof.
  intros Hn Hsettled. destruct (settled_sees n p k Hn Hsettled) as (c & t & [Hc _] & _ & Hcache & _).
  pose proof (net_sys _ Hn) as Hsys. pose proof (ok_wf _ Hsys) as Hwf.
  unfold RoomId, Id, my_id, Members. rewrite Hcache. unfold seen_by.
  destruct (rooms (server (sys n)) !! Connection.room c) as [r|] eqn:Hr; [|by intros []].
  cbn [_room image _id no_image _members]. intros Hroom. split; [by apply (ok_ids _ Hsys)|]. exists r.
  destruct (wf_conns _ Hwf _ _ Hc Hroom) as (_ & r' & Hr' & Hin). simplify_eq. split_and!; try done.
  - by apply (wf_rooms _ Hwf).
  - apply vector_erase_cons_perm; [done|]. apply (room_nodup (Connection.room c)), (wf_rooms _ Hwf _ _ Hr).
Qed.

(** What the client has not read of its connection is the rest of frames. *)
Lemma unread_frames n p node c t bytes :
  net_ok n -> nodes n !! p = Some node -> conn_at (sys n) p c t -> socket_open (Node.app node) = true ->
  bytes `prefix_of` drop (Node.taken node) (sk_out (Connection.socket c)) ->
  incomplete (rx (Node.app node)) /\ mesh_ok (Node.app node) /\
  exists todo later, Forall genuine todo /\ pending (rx_msg (Node.app node)) (rx (Node.app node) ++ bytes ++ later) todo.
Proof.
  intros Hn Hnode Hat Hopen [rest Hbytes].
  destruct (net_nodes _ Hn p node Hnode) as (c' & t' & Hat' & Hok). destruct (conn_at_unique _ _ _ _ _ _ Hat Hat') as [-> ->].
  destruct (node_heard _ _ _ Hok Hopen) as [Hkept Hheard]. split_and!; [done|apply Hok|].
  destruct (net_said _ Hn p c t Hat) as (msgs & Hmsgs & Hsaid).
  assert (exists more, sk_out (Connection.socket c) ++ more = frame_all msgs) as [more Hmore].
  { case_decide; [destruct Hsaid as [more ->]; eauto|]. unfold pipeline in Hsaid. eauto. }
  destruct (Hheard (bytes ++ rest ++ more) msgs (genuine_sendable _ Hmsgs)) as (_ & dn & todo & _ & -> & _ & Hp).
  { by rewrite (app_assoc bytes), <-Hbytes, app_assoc, take_drop. }
  apply Forall_app in Hmsgs as [_ Htodo]. by exists todo, (rest ++ more).
Qed.

(** ** Everything can be read *)

(** The step is about [p] and changes no room. *)
Record only (p : ptr) (y y' : Sys) : Prop := {
  only_lobby : lobby (server y') = lobby (server y);
  only_next : heap_next (server y') = heap_next (server y);
  only_others : forall q, q <> p -> heap (server y') !! q = heap (server y) !! q /\ tasks y' !! q = tasks y !! q
}.

Lemma only_rooms p y y' : only p y y' -> rooms (server y') = rooms (server y).
Proof. by intros [[=] _ _]. Qed.

Lemma only_refl p y : only p y y.
Proof. by split. Qed.

Lemma only_trans p y1 y2 y3 : only p y1 y2 -> only p y2 y3 -> only p y1 y3.
Proof.
  intros [R1 N1 O1] [R2 N2 O2]. split; [congruence|congruence|]. intros q Hq.
  destruct (O1 q Hq), (O2 q Hq). split; congruence.
Qed.

Lemma only_update p f t y : only p y (with_task p t (update_conn p f (server y)) y).
Proof. split; try done. intros q Hq. split; cbn; [by apply lookup_alter_ne|by apply lookup_insert_ne]. Qed.

(** The steps a writer has before it until its queue is empty. *)
Definition backlog (c : Connection.t) (t : Task.t) : nat :=
  (2 * length (Connection.out c) + match Task.writer t with Writing _ => 1 | _ => 0 end)%nat.

Section Writer.
Context (y : Sys) (Hy : sys_ok y) (p : ptr) (c : Connection.t) (body : list byte) (at_point : read_point).
Context (w : writer_point) (Hat : conn_at y p c (Task.mk (Reading body at_point) w)).
Let task (w : writer_point) : Task.t := Task.mk (Reading body at_point) w.

(** [y'] is [y] with some of the backlog written. *)
Definition advances (y' : Sys) : Prop :=
  only p y y' /\ exists c' w', conn_at y' p c' (task w') /\ w' <> Finished /\
    Connection.id c' = Connection.id c /\ Connection.room c' = Connection.room c /\
    sk_in (Connection.socket c') = sk_in (Connection.socket c) /\
    pipeline c' w' = pipeline c w /\ (backlog c' (task w') < backlog c (task w))%nat.

Lemma writer_goes_on f :
  Connection.id (f c) = Connection.id c -> Connection.room (f c) = Connection.room c ->
  Connection.closing (f c) = Connection.closing c -> Connection.out (f c) = Connection.out c ->
  sk_in (Connection.socket (f c)) = sk_in (Connection.socket c) ->
  sk_out (Connection.socket (f c)) = sk_out (Connection.socket c) ++ in_hand w ->
  (w = Waiting /\ Connection.out c <> []) \/ (exists frame, w = Writing frame) ->
  exists w' s', write_loop p (update_conn p f (server y)) = Done w' s' /\ advances (with_task p (task w') s' y).
Proof.
  intros Hid Hroom Hcl Hout Hskin Hsk Hcases. pose proof Hat as [Hc Ht].
  destruct (ok_conns _ Hy _ _ _ Hc Ht) as [(_ & _ & Hclosing & _) _].
  rewrite (write_loop_run p (f c)), Hcl, Hclosing, Hout by (by apply lookup_update_conn).
  assert (forall c' g, g (f c) = c' -> conn_at (with_task p (task (if Connection.out c is frame :: _ then Writing frame else Waiting))
    (update_conn p (fun c => g (f c)) (server y)) y) p c' (task (if Connection.out c is frame :: _ then Writing frame else Waiting))) as Hat'.
  { intros c' g <-. split; cbn; [by rewrite lookup_alter_eq, Hc|apply lookup_insert_eq]. }
  unfold advances, backlog in *. destruct (Connection.out c) as [|frame rest] eqn:Hqueue; eexists _, _; (split; [done|]); rewrite update_update;
    (split; [apply only_update|]).
  - eexists _, Waiting. split; [by apply (Hat' _ (Connection.set_wake true))|]. split_and!; try done.
    + unfold pipeline. cbn. by rewrite Hsk, <-app_assoc, Hout, Hqueue.
    + destruct Hcases as [[_ []]|[frame ->]]; [done|]. cbn. rewrite Hout. cbn. lia.
  - eexists _, (Writing frame). split; [by apply (Hat' _ (Connection.set_out rest))|]. split_and!; try done.
    + unfold pipeline. cbn. by rewrite Hsk, <-app_assoc, Hqueue.
    + cbn. destruct Hcases as [[-> _]|[frame' ->]]; lia.
Qed.

End Writer.

Lemma writer_progress y p c body at_point w :
  sys_ok y -> conn_at y p c (Task.mk (Reading body at_point) w) -> w <> Finished ->
  (in_hand w = [] /\ Connection.out c = []) \/ exists y', io_work y y' /\ advances y p c body at_point w y'.
Proof.
  intros Hy Hat Hw. pose proof Hat as [Hc Ht]. destruct (ok_conns _ Hy _ _ _ Hc Ht) as [(_ & Hspawned & Hclosing & Hopen & _) Hwake].
  destruct w as [| |frame|]; [done| | |done].
  - destruct (decide (Connection.out c = [])) as [Hout|Hout]; [by left|right].
    assert (Connection.wake c = false) as Hdue.
    { destruct (Connection.wake c) eqn:Hpending; [|done]. by destruct (Hwake Hpending) as (_ & Hnil & _). }
    destruct (writer_goes_on y Hy p c body at_point Waiting Hat (fun c => c)) as (w' & s' & Hrun & Hadv); try done; [by rewrite app_nil_r|by left|].
    rewrite (update_conn_id _ _ c) in Hrun by done. eexists. by split; [apply (step_woken y p c (Reading body at_point) w' s')|].
  - right. set (f := fun c => Connection.set_socket (set_sk_out (sk_out (Connection.socket c) ++ frame) (Connection.socket c)) c).
    destruct (writer_goes_on y Hy p c body at_point (Writing frame) Hat f) as (w' & s' & Hrun & Hadv); try done; [by right; exists frame|].
    eexists. by split; [apply (step_written y p c (Reading body at_point) frame w' s')|].
Qed.

(** The system is left to itself: what is under way arrives, the coroutines go
    on and the clients poll; nobody calls, connects, drops or fails. *)
Inductive goes_on : Net -> Net -> Prop :=
| on_server n y' : io_work (sys n) y' -> goes_on n (mkNet y' (nodes n))
| on_deliver n p node count :
    nodes n !! p = Some node ->
    goes_on n (mkNet (arrive p (take count (Node.up node)) (sys n))
      (<[p := Node.mk (Node.app node) (Node.taken node) (drop count (Node.up node))]> (nodes n)))
| on_poll n p node c chunks answers ok k' :
    nodes n !! p = Some node -> heap (server (sys n)) !! p = Some c -> socket_open (Node.app node) = true ->
    concat chunks `prefix_of` drop (Node.taken node) (sk_out (Connection.socket c)) -> WriteFailed ∉ answers ->
    Poll chunks false answers (Node.app node) = Done ok k' ->
    goes_on n (mkNet (sys n)
      (<[p := Node.mk k' (Node.taken node + length (concat chunks))
                (Node.up node ++ poll_written chunks false answers (Node.app node))]> (nodes n))).

Lemma goes_on_step n n' : goes_on n n' -> net_step n n'.
Proof.
  destruct 1 as [n y' Hstep|n p node count Hnode|n p node c chunks answers ok k' Hnode Hc Hopen Hchunks _ Hrun].
  - by apply net_server, io_works.
  - by apply net_deliver.
  - by apply (net_poll n p node c chunks false answers ok k').
Qed.

(** A run of the system left to itself, with ids to spare in every state. *)
Definition runs : Net -> Net -> Prop := rtc (fun n1 n2 => goes_on n1 n2 /\ ids_left (sys n2)).

Lemma runs_reach n n' : runs n n' -> rtc (fun n1 n2 => net_step n1 n2 /\ ids_left (sys n2)) n n'.
Proof. apply rtc_subrel. intros n1 n2 [Hstep%goes_on_step ?]. done. Qed.

Lemma runs_step n1 n2 n3 : goes_on n1 n2 -> ids_left (sys n2) -> runs n2 n3 -> runs n1 n3.
Proof. intros Hstep Hleft Hrun. by apply (rtc_l _ n1 n2). Qed.

Lemma runs_ok n n' : net_ok n -> runs n n' -> net_ok n'.
Proof.
  intros Hn Hrun. revert Hn. induction Hrun as [|n1 n2 n3 [Hstep%goes_on_step Hleft] _ IH]; [done|].
  intros Hn. by apply IH, (net_step_ok n1).
Qed.

Lemma only_left p y y' : only p y y' -> ids_left y -> ids_left y'.
Proof. intros [_ Hnext _]. unfold ids_left. by rewrite Hnext. Qed.

(** The writer of one connection empties its queue. *)
Lemma writer_drains n p c body at_point w :
  net_ok n -> ids_left (sys n) -> conn_at (sys n) p c (Task.mk (Reading body at_point) w) -> w <> Finished ->
  exists y' c' w', runs n (mkNet y' (nodes n)) /\ only p (sys n) y' /\
    conn_at y' p c' (Task.mk (Reading body at_point) w') /\ w' <> Finished /\
    Connection.id c' = Connection.id c /\ Connection.room c' = Connection.room c /\
    sk_in (Connection.socket c') = sk_in (Connection.socket c) /\
    pipeline c' w' = pipeline c w /\ in_hand w' = [] /\ Connection.out c' = [].
Proof.
  intros Hn Hleft Hat Hw. remember (backlog c (Task.mk (Reading body at_point) w)) as m eqn:Hm.
  revert n c w Hn Hleft Hat Hw Hm. induction (lt_wf m) as [m _ IH]. intros n c w Hn Hleft Hat Hw ->.
  destruct (writer_progress _ p c body at_point w (net_sys _ Hn) Hat Hw)
    as [[Hhand Hout]|(y1 & Hstep & Honly & c1 & w1 & Hat1 & Hw1 & Hid1 & Hroom1 & Hin1 & Hpipe1 & Hless)].
  - exists (sys n), c, w. split_and!; try done. destruct n. apply rtc_refl.
  - pose proof (only_left _ _ _ Honly Hleft) as Hleft1. pose proof (on_server n y1 Hstep) as Hnet.
    destruct (IH _ Hless (mkNet y1 (nodes n)) c1 w1) as (y' & c' & w' & Hruns & Honly' & Hat' & Hw' & Hid' & Hroom' & Hin' & Hpipe' & Hdone);
      try done; [by apply (net_step_ok n); [..|apply goes_on_step|]|].
    exists y', c', w'. split_and!; try done; [by apply (runs_step _ (mkNet y1 (nodes n)))|by apply (only_trans _ _ y1)|congruence..| |];
      apply Hdone.
Qed.

(** A client that can settle: its session and its connection stand. *)
Definition standing (n : Net) (p : ptr) (c : Connection.t) : Prop :=
  exists node t, nodes n !! p = Some node /\ socket_open (Node.app node) = true /\ conn_at (sys n) p c t /\ live t.

(** [n'] is [n] but for the connection and the node [p]. *)
Record only_at (p : ptr) (n n' : Net) : Prop := {
  at_sys : only p (sys n) (sys n');
  at_nodes : forall q, q <> p -> nodes n' !! q = nodes n !! q
}.

Lemma only_at_trans p n1 n2 n3 : only_at p n1 n2 -> only_at p n2 n3 -> only_at p n1 n3.
Proof.
  intros [S1 N1] [S2 N2]. split; [by apply (only_trans p _ (sys n2))|].
  intros q Hq. rewrite N2 by done. by apply N1.
Qed.

(** ** What a client will have in its inbox *)

(** The client [i], in the room [code], once it has read what the server has
    sent and queued for it. *)
Definition due (n : Net) (q : ptr) (i : N) (code : string) (inbox : list Proto.ServerMessage) : Prop :=
  exists node c t msgs, nodes n !! q = Some node /\ socket_open (Node.app node) = true /\
    conn_at (sys n) q c t /\ live t /\ Connection.id c = i /\ Connection.room c = code /\ Forall genuine msgs /\
    pending (rx_msg (Node.app node)) (rx (Node.app node) ++ drop (Node.taken node) (pipeline c (Task.writer t))) msgs /\
    _inbox (Node.app node) ++ filter (fun msg => surfaced msg = true) msgs = inbox.

Lemma settled_due n q k : net_ok n -> settled n q k ->
  exists c, due n q (Connection.id c) (Connection.room c) (_inbox k) /\ _room_cache k = seen_by (server (sys n)) c.
Proof.
  intros Hn Hs. destruct (settled_sees n q k Hn Hs) as (c' & t' & Hat' & _ & Hcache & Hmsg & Hrx).
  destruct Hs as (node & c & t & Hnode & <- & Hopen & Hat & Hlive & Hhand & Hout & Htaken).
  destruct (conn_at_unique _ _ _ _ _ _ Hat Hat') as [-> ->]. exists c. split; [|done].
  exists node, c, t, []. split_and!; try done; [|by rewrite app_nil_r].
  unfold pipeline. change (match _ with Writing frame => frame | _ => [] end) with (in_hand (Task.writer t)).
  rewrite Hhand, Hout. cbn [app concat]. rewrite app_nil_r, Htaken, drop_all, Hmsg, Hrx. constructor.
Qed.

Lemma due_settled n q k i code inbox : net_ok n -> settled n q k -> due n q i code inbox ->
  _inbox k = inbox /\ forall c, Connection.id c = i -> Connection.room c = code -> _room_cache k = seen_by (server (sys n)) c.
Proof.
  intros Hn Hs (node & c & t & msgs & Hnode & _ & Hat & _ & Hid & Hroom & Hmsgs & Hp & <-).
  destruct (settled_sees n q k Hn Hs) as (c1 & t1 & Hat1 & _ & Hcache & Hmsg & Hrx).
  destruct (conn_at_unique _ _ _ _ _ _ Hat Hat1) as [-> ->].
  destruct Hs as (node' & c' & t' & Hnode' & <- & _ & Hat' & _ & Hhand & Hout & Htaken).
  destruct (conn_at_unique _ _ _ _ _ _ Hat Hat') as [-> ->]. simplify_eq. revert Hp.
  unfold pipeline. change (match _ with Writing frame => frame | _ => [] end) with (in_hand (Task.writer t)).
  rewrite Hhand, Hout. cbn [app concat]. rewrite app_nil_r, Htaken, drop_all, Hmsg, Hrx. intros Hp.
  apply genuine_sendable in Hmsgs. destruct (pending_incomplete _ _ _ Hmsgs Hp) as [-> _]; [by left|]. rewrite app_nil_r. split; [done|].
  intros c0 Hid0 Hroom0. rewrite Hcache. apply seen_by_ext; congruence.
Qed.

Lemma only_at_due p n n' : only_at p n n' ->
  (forall i code inbox, due n p i code inbox -> due n' p i code inbox) ->
  forall q i code inbox, due n q i code inbox -> due n' q i code inbox.
Proof.
  intros [[_ _ Hothers] Hnodes] Hp q i code inbox. destruct (decide (q = p)) as [->|Hq]; [apply Hp|].
  intros (node & c & t & msgs & Hnode & ? & [Hc Ht] & ?).
  destruct (Hothers q Hq) as [Eheap Etasks]. exists node, c, t, msgs. split_and!; try tauto; [by rewrite Hnodes|].
  split; congruence.
Qed.

(** The client does not read, and the server queues [new]. *)
Lemma due_moves n n' q node c t k' up c' t' new i code code' inbox :
  net_ok n -> nodes n !! q = Some node -> conn_at (sys n) q c t ->
  nodes n' !! q = Some (Node.mk k' (Node.taken node) up) -> conn_at (sys n') q c' t' -> live t' ->
  rx k' = rx (Node.app node) -> rx_msg k' = rx_msg (Node.app node) -> _inbox k' = _inbox (Node.app node) ->
  socket_open k' = socket_open (Node.app node) ->
  Connection.id c' = Connection.id c -> Connection.room c' = code' ->
  pipeline c' (Task.writer t') = pipeline c (Task.writer t) ++ frame_all new -> Forall genuine new ->
  due n q i code inbox -> due n' q i code' (inbox ++ filter (fun msg => surfaced msg = true) new).
Proof.
  intros Hn Hnode Hat Hnode' Hat' Hlive' Hrx Hmsg Hinbox Hopen Hid Hroom Hpipe Hnew
    (node0 & c0 & t0 & msgs & Hnode0 & Hopen0 & Hat0 & _ & <- & <- & Hmsgs & Hp & <-).
  destruct (conn_at_unique _ _ _ _ _ _ Hat Hat0) as [-> ->]. simplify_eq.
  destruct (net_nodes _ Hn q node Hnode) as (c1 & t1 & Hat1 & Hok). destruct (conn_at_unique _ _ _ _ _ _ Hat Hat1) as [-> ->].
  exists (Node.mk k' (Node.taken node) up), c', t', (msgs ++ new). cbn [Node.app Node.taken].
  split_and!; [done|congruence|done|done|done|done|by apply Forall_app| |by rewrite filter_app, Hinbox, app_assoc].
  rewrite Hrx, Hmsg, Hpipe, drop_app_le, app_assoc; [by apply pending_extend|].
  unfold pipeline. rewrite length_app. pose proof (node_taken _ _ _ Hok). lia.
Qed.

(** A step about [p], whose client does not read and is sent nothing. *)
Lemma due_idle p n n' node c t k' up c' t' :
  net_ok n -> only_at p n n' -> nodes n !! p = Some node -> conn_at (sys n) p c t ->
  nodes n' !! p = Some (Node.mk k' (Node.taken node) up) -> conn_at (sys n') p c' t' -> live t' ->
  (rx k', rx_msg k', _inbox k', socket_open k') =
    (rx (Node.app node), rx_msg (Node.app node), _inbox (Node.app node), socket_open (Node.app node)) ->
  (Connection.id c', Connection.room c', pipeline c' (Task.writer t')) =
    (Connection.id c, Connection.room c, pipeline c (Task.writer t)) ->
  forall q i code inbox, due n q i code inbox -> due n' q i code inbox.
Proof.
  intros Hn Honly Hnode Hat Hnode' Hat' Hlive [= Hrx Hmsg Hinbox Hopen] [= Hid Hroom Hpipe].
  apply (only_at_due p); [done|]. intros i code inbox Hdue. rewrite <-(app_nil_r inbox).
  pose proof Hdue as (? & c0 & t0 & ? & _ & _ & Hat0 & _ & _ & Hcode & _).
  destruct (conn_at_unique _ _ _ _ _ _ Hat Hat0) as [-> ->].
  apply (due_moves n n' p node c t k' up c' t' [] i code); try done; [congruence|by rewrite app_nil_r].
Qed.

(** The client polls. *)
Lemma due_poll n p node c t chunks answers ok k' up i code inbox :
  net_ok n -> nodes n !! p = Some node -> conn_at (sys n) p c t ->
  concat chunks `prefix_of` drop (Node.taken node) (sk_out (Connection.socket c)) -> WriteFailed ∉ answers ->
  Poll chunks false answers (Node.app node) = Done ok k' -> due n p i code inbox ->
  due (mkNet (sys n) (<[p := Node.mk k' (Node.taken node + length (concat chunks)) up]> (nodes n))) p i code inbox.
Proof.
  intros Hn Hnode Hat [rest Hrest] Hwrites Hrun (node0 & c0 & t0 & msgs & Hnode0 & Hopen & Hat0 & Hlive & <- & <- & Hmsgs & Hp & <-).
  destruct (conn_at_unique _ _ _ _ _ _ Hat Hat0) as [-> ->]. simplify_eq.
  destruct (net_nodes _ Hn p node Hnode) as (c1 & t1 & Hat1 & Hok). destruct (conn_at_unique _ _ _ _ _ _ Hat Hat1) as [-> ->].
  set (later := drop (Node.taken node + length (concat chunks)) (pipeline c (Task.writer t))).
  assert (drop (Node.taken node) (pipeline c (Task.writer t)) = concat chunks ++ later) as Hdrop.
  { unfold later. rewrite <-drop_drop. unfold pipeline. rewrite drop_app_le, Hrest by apply Hok.
    by rewrite <-app_assoc, drop_app_length. }
  rewrite Hdrop in Hp.
  destruct (twp_done _ _ _ (twp_Poll chunks answers later msgs _ (node_mesh _ _ _ Hok) Hopen (genuine_sendable _ Hmsgs) Hwrites Hp))
    as (ok' & k1 & Hrun' & _ & dn & todo & -> & (_ & Hinbox & Hopen') & _ & Hp' & _).
  rewrite Hrun in Hrun'. injection Hrun' as _ <-. apply Forall_app in Hmsgs as [_ Htodo].
  eexists _, c, t, todo. split; [cbn; apply lookup_insert_eq|]. cbn [Node.app Node.taken].
  split_and!; [congruence|done..|]. by rewrite Hinbox, filter_app, app_assoc.
Qed.

(** ** The runs *)

Lemma settle_one n p c : net_ok n -> ids_left (sys n) -> standing n p c ->
  exists n' k c' t', runs n n' /\ only_at p n n' /\ settled n' p k /\ conn_at (sys n') p c' t' /\
    Connection.id c' = Connection.id c /\ Connection.room c' = Connection.room c /\
    (forall q i code inbox, due n q i code inbox -> due n' q i code inbox).
Proof.
  intros Hn Hleft (node & [pt w] & Hnode & Hopen & Hat & Hw & body & at_point & Hpt). cbn in Hw, Hpt. subst pt.
  destruct (writer_drains n p c body at_point w Hn Hleft Hat Hw)
    as (y1 & c1 & w1 & Hruns & Honly & Hat1 & Hw1 & Hid & Hroom & _ & Hpipe & Hhand & Hout).
  set (n1 := mkNet y1 (nodes n)) in *. pose proof (runs_ok _ _ Hn Hruns) as Hn1.
  set (bytes := drop (Node.taken node) (sk_out (Connection.socket c1))).
  assert (concat [bytes] = bytes) as Hconcat by apply app_nil_r.
  destruct (unread_frames n1 p node c1 _ bytes Hn1 Hnode Hat1 Hopen ltac:(done)) as (_ & Hmesh & todo & later & Htodo & Hp).
  rewrite <-Hconcat in Hp.
  destruct (twp_done _ _ _ (twp_Poll [bytes] [] later todo _ Hmesh Hopen (genuine_sendable _ Htodo) (not_elem_of_nil _) Hp))
    as (ok & k & Hrun & -> & dn & rest & _ & (_ & _ & Hopen') & _).
  set (node' := Node.mk k (Node.taken node + length (concat [bytes])) (Node.up node ++ poll_written [bytes] false [] (Node.app node))).
  assert (goes_on n1 (mkNet y1 (<[p := node']> (nodes n)))) as Hstep.
  { apply (on_poll n1 p node c1 [bytes] [] true k Hnode); [apply Hat1|done|by rewrite Hconcat|apply not_elem_of_nil|done]. }
  exists (mkNet y1 (<[p := node']> (nodes n))), k, c1, (Task.mk (Reading body at_point) w1). split_and!; try done.
  - apply (rtc_r _ n1); [done|]. split; [done|]. exact (only_left _ _ _ Honly Hleft).
  - split; [done|]. intros q Hq. cbn. by apply lookup_insert_ne.
  - exists node', c1, (Task.mk (Reading body at_point) w1). split_and!; try done.
    + cbn. apply lookup_insert_eq.
    + congruence.
    + split; [done|]. eauto.
    + cbn [Node.taken node']. rewrite Hconcat. unfold bytes. rewrite length_drop.
      destruct (net_nodes _ Hn1 p node Hnode) as (c2 & t2 & Hat2 & Hok). destruct (conn_at_unique _ _ _ _ _ _ Hat1 Hat2) as [-> _].
      pose proof (node_taken _ _ _ Hok). lia.
  - apply (only_at_due p); [split; [done|]; intros q Hq; cbn; by apply lookup_insert_ne|]. intros i code inbox Hdue.
    apply (due_poll n1 p node c1 (Task.mk (Reading body at_point) w1) [bytes] [] true); try done; [by rewrite Hconcat|set_solver|].
    revert Hdue. apply (due_idle p n n1 node c (Task.mk (Reading body at_point) w) (Node.app node) (Node.up node)
      c1 (Task.mk (Reading body at_point) w1)); try done; [by destruct node|split; [done|eauto]|cbn; congruence].
Qed.

Lemma only_at_settled p n n' q k : only_at p n n' -> q <> p -> settled n q k -> settled n' q k.
Proof.
  intros [[_ _ Hothers] Hnodes] Hq (node & c & t & Hnode & ? & ? & [Hc Ht] & ?).
  exists node, c, t. destruct (Hothers q Hq) as [Eheap Etasks].
  split_and!; try tauto; [by rewrite Hnodes|]. split; congruence.
Qed.

Lemma only_at_standing p n n' q c : only_at p n n' -> q <> p -> standing n q c -> standing n' q c.
Proof.
  intros [[_ _ Hothers] Hnodes] Hq (node & t & Hnode & ? & [Hc Ht] & ?). exists node, t.
  destruct (Hothers q Hq) as [Eheap Etasks]. split_and!; try tauto; [by rewrite Hnodes|]. split; congruence.
Qed.

(** What a client of the connection [c] can still be brought to see. *)
Definition sees (n : Net) (p : ptr) (c : Connection.t) : Prop :=
  exists k c' t', settled n p k /\ conn_at (sys n) p c' t' /\
    Connection.id c' = Connection.id c /\ Connection.room c' = Connection.room c.

Lemma only_at_sees p n n' q c : only_at p n n' -> q <> p -> sees n q c -> sees n' q c.
Proof.
  intros Honly Hq (k & c' & t' & Hk & [Hc Ht] & ?). exists k, c', t'. split; [by apply (only_at_settled p n)|].
  destruct Honly as [[_ _ Hothers] _], (Hothers q Hq) as [Eheap Etasks]. split; [|done]. split; congruence.
Qed.

Lemma settle_list l n : net_ok n -> ids_left (sys n) -> NoDup l.*1 ->
  Forall (fun pc => standing n pc.1 pc.2) l ->
  exists n', runs n n' /\ rooms (server (sys n')) = rooms (server (sys n)) /\
    Forall (fun pc => sees n' pc.1 pc.2) l /\ (forall q c, q ∉ l.*1 -> sees n q c -> sees n' q c) /\
    (forall q i code inbox, due n q i code inbox -> due n' q i code inbox).
Proof.
  revert n. induction l as [|[p c] l IH]; intros n Hn Hleft Hnd Hall.
  { exists n. split_and!; [apply rtc_refl|done..]. }
  cbn [fmap list_fmap fst] in *. apply NoDup_cons in Hnd as [Hp Hnd]. apply Forall_cons in Hall as [Hpc Hall].
  destruct (settle_one n p c Hn Hleft Hpc) as (n1 & k & c' & t' & Hruns & Honly & Hsettled & Hat & Hid & Hroom & Hdue).
  assert (forall q, q ∈ l.*1 -> q <> p) as Hother by congruence.
  destruct (IH n1) as (n' & Hruns' & Hrooms & Hsees & Hkept & Hdue'); try done.
  - by apply (runs_ok n).
  - by apply (only_left p (sys n)); [apply Honly|].
  - rewrite Forall_forall in *. intros qd Hqd. apply (only_at_standing p n); [done| |by apply Hall].
    apply Hother, list_elem_of_fmap. by exists qd.
  - exists n'. split_and!.
    + by etransitivity.
    + rewrite Hrooms. apply (only_rooms p), Honly.
    + apply Forall_cons. split; [|done]. apply Hkept; [done|]. by exists k, c', t'.
    + intros q d [Hqp Hql]%not_elem_of_cons Hq. apply Hkept; [done|]. by apply (only_at_sees p n).
    + intros q i code inbox Hq. by apply Hdue', Hdue.
Qed.

Lemma standing_cases n p : (exists c, standing n p c) \/ (forall c, ~ standing n p c).
Proof.
  destruct (nodes n !! p) as [node|] eqn:Hnode; [|by right; intros c (? & ? & ? & _); congruence].
  destruct (socket_open (Node.app node)) eqn:Hopen; [|by right; intros c (? & ? & ? & ? & _); congruence].
  destruct (heap (server (sys n)) !! p) as [c|] eqn:Hc; [|by right; intros c (? & ? & ? & ? & [? ?] & _); congruence].
  destruct (tasks (sys n) !! p) as [[pt w]|] eqn:Ht; [|by right; intros c' (? & ? & ? & ? & [? ?] & _); congruence].
  destruct (decide (w = Finished)) as [->|Hw].
  { right. intros c' (? & ? & ? & ? & [? ?] & [? _]). simplify_eq. }
  destruct pt as [|body at_point|]; try (right; intros c' (? & ? & ? & ? & [? ?] & [_ (? & ? & ?)]); by simplify_eq).
  left. exists c, node, (Task.mk (Reading body at_point) w). split_and!; try done. split; [done|eauto].
Qed.

Lemma standing_list n ps : NoDup ps ->
  exists l, NoDup l.*1 /\ Forall (fun pc => standing n pc.1 pc.2) l /\ l.*1 ⊆ ps /\ forall p, p ∈ ps -> forall c, standing n p c -> (p, c) ∈ l.
Proof.
  induction 1 as [|p ps Hp _ (l & Hnd & Hall & Hsub & Hin)].
  { exists []. split_and!; try done; [apply NoDup_nil_2|]. by intros p ?%not_elem_of_nil. }
  destruct (standing_cases n p) as [[c Hc]|Hnone].
  - exists ((p, c) :: l). cbn [fmap list_fmap fst]. split_and!.
    + apply NoDup_cons. split; [set_solver|done].
    + by apply Forall_cons.
    + set_solver.
    + intros q [->|Hq]%elem_of_cons d Hd; [|apply elem_of_cons; right; by apply Hin].
      assert (d = c) as ->; [|by left]. destruct Hc as (? & ? & _ & _ & [Hc _] & _), Hd as (? & ? & _ & _ & [Hd _] & _). congruence.
  - exists l. split_and!; try done; [set_solver|]. intros q [->|Hq]%elem_of_cons d Hd; [by destruct (Hnone d)|by apply Hin].
Qed.

Lemma net_reachable_left cfg n : net_reachable cfg n -> ids_left (sys n).
Proof.
  intros Hreach. apply rtc_inv_r in Hreach as [<-|(n0 & _ & _ & ?)]; [|done].
  unfold ids_left, net_init, sys_init, Init. cbn [sys Run server]. by case_bool_decide.
Qed.
(** Everyone who can settles. *)
Lemma settle_all n : net_ok n -> ids_left (sys n) ->
  exists n', runs n n' /\ rooms (server (sys n')) = rooms (server (sys n)) /\
    (forall p c, standing n p c -> sees n' p c) /\
    (forall q i code inbox, due n q i code inbox -> due n' q i code inbox).
Proof.
  intros Hn Hleft.
  destruct (standing_list n (elements (dom (nodes n))) (NoDup_elements _)) as (l & Hnd & Hall & _ & Hin).
  destruct (settle_list l n Hn Hleft Hnd Hall) as (n' & Hruns & Hrooms & Hsees & _ & Hdue).
  exists n'. split_and!; try done. intros p c Hc.
  assert ((p, c) ∈ l) as Hpc.
  { apply Hin; [|done]. destruct Hc as (node & t & Hnode & _). apply elem_of_elements, elem_of_dom. by exists node. }
  rewrite Forall_forall in Hsees. exact (Hsees _ Hpc).
Qed.
End Settle.
