(* ===== verification/Delivery.v ===== *)
(** A request gets through: from a client's call over its socket, [ReadLoop],
    the handler and the writers into the inboxes and caches of the others, as
    the specification [lobby_message] has it. *)
From S2P Require Import Prelude Wire Protocol Framing Stream RoomCache Server ServerExec Lobby WellFormed.
From S2P Require Import Refine ServerInv Rules Authority Mirror Sendable Session SessionInv Scheduler Turns Reader.
From S2P Require Import Client ClientMesh ClientConn ClientSends Network NetRuns Settle.
Local Open Scope N_scope.
#[local] Opaque FrameMessage.

Section Delivery.
Context `{!RoomRng, !Juice, !ShortSdp}.

(** ** The client writes *)

(** A poll that reads nothing and whose socket takes everything. *)
Lemma poll_flushes k : tidy k -> mesh_ok k -> socket_open k = true -> rx k = [] -> rx_msg k = [] ->
  exists n k' msgs, Poll [] false [Sent n] k = Done true k' /\ tx k' = [] /\
    poll_written [] false [Sent n] k = tx k ++ frame_all msgs /\ Forall sendable msgs.
Proof.
  intros Htidy Hmesh Hopen Hrx Hmsg.
  assert (pending (rx_msg k) (rx k ++ concat [] ++ []) []) as Hp by (rewrite Hrx, Hmsg; constructor).
  destruct (twp_done _ _ _ (twp_Poll [] [] [] [] k Hmesh Hopen (Forall_nil_2 _) (not_elem_of_nil _) Hp)) as (ok & k1 & Hrun & -> & _).
  destruct (wlp_done _ _ _ _ _ (sending_Poll [] false k Htidy) Hrun) as [_ (msgs & Htx & Hmsgs)].
  exists (length (tx k1)).
  assert (exists k', FlushServer [Sent (length (tx k1))] k1 = Done true k' /\ tx k' = [] /\
    flushed [Sent (length (tx k1))] (tx k1) = tx k1) as (k' & Hflush & Hempty & Hall).
  { cbn [FlushServer flushed]. unfold mbind, M_bind, bind. cbn [gets]. case_bool_decide as Htx1; [by exists k1|].
    eexists. cbn [modify gets tx set_tx]. rewrite drop_all, firstn_all, app_nil_r.
    rewrite (bool_decide_true ([] = [])) by done. done. }
  exists k', msgs. rewrite Poll_split, (bind_done _ _ _ true k1) by done. unfold poll_written. rewrite Hrun.
  split_and!; [done|done|congruence|done].
Qed.

(** ** The server reads *)

(** [ReadLoop] goes on to the next message. *)
Lemma reader_hands_on n p c body at_point w m ms :
  net_ok n -> ids_left (sys n) -> conn_at (sys n) p c (Task.mk (Reading body at_point) w) ->
  sendable m -> Forall sendable ms -> expects body at_point (sk_in (Connection.socket c)) (m :: ms) ->
  exists y' c' body' at_point', runs n (mkNet y' (nodes n)) /\ only p (sys n) y' /\
    conn_at y' p c' (Task.mk (Reading body' at_point') w) /\
    Connection.id c' = Connection.id c /\ Connection.room c' = Connection.room c /\
    Connection.out c' = Connection.out c /\ sk_out (Connection.socket c') = sk_out (Connection.socket c) /\
    expects body' at_point' (sk_in (Connection.socket c')) (m :: ms) /\
    needed at_point' <= sizeN (sk_in (Connection.socket c')) /\
    on_read body' (take (N.to_nat (needed at_point')) (sk_in (Connection.socket c'))) at_point' = Handle m.
Proof.
  intros Hn Hleft Hat Hm Hms Hexp. remember (weight at_point (sk_in (Connection.socket c))) as size eqn:Hsize.
  revert n c body at_point Hn Hleft Hat Hexp Hsize. induction (lt_wf size) as [size _ IH]. intros n c body at_point Hn Hleft Hat Hexp ->.
  pose proof (expects_enough _ _ _ _ _ Hm Hexp) as Hneeded.
  pose proof (on_read_weight body at_point _ Hneeded) as Hweight.
  pose proof (on_read_expects body at_point (sk_in (Connection.socket c)) [] (m :: ms)) as Hnext.
  rewrite app_nil_r in Hnext. specialize (Hnext (Forall_cons_2 _ _ _ Hm Hms) Hexp Hneeded). cbv zeta in Hweight, Hnext.
  destruct (on_read _ _ _) as [body1 at1|m'|] eqn:Hread; try done.
  - rewrite app_nil_r in Hnext. pose proof Hat as [Hc Ht]. rename c into c0.
    set (f := consume (needed at_point) c0).
    set (y1 := with_task p (Task.mk (Reading body1 at1) w) (update_conn p f (server (sys n))) (sys n)).
    assert (io_work (sys n) y1) as Hstep.
    { apply (step_read _ p c0 body at_point w 0 (Reading body1 at1)); try done. unfold read_loop.
      rewrite (bind_done _ _ _ c0 (server (sys n))) by (unfold get_conn; by rewrite Hc). by rewrite bind_modify, Hread. }
    pose proof (only_update p f (Task.mk (Reading body1 at1) w) (sys n)) as Honly.
    assert (goes_on n (mkNet y1 (nodes n))) as Hnet by (by apply on_server).
    pose proof (only_left _ _ _ Honly Hleft) as Hleft1.
    destruct (IH _ Hweight (mkNet y1 (nodes n)) (f c0) body1 at1) as (y' & c' & body' & at' & Hruns & Honly' & Hat' & Hid & Hroom & Hrest);
      try done; [by apply (net_step_ok n); [..|apply goes_on_step|]|split; cbn; [by rewrite lookup_alter_eq, Hc|apply lookup_insert_eq]|].
    exists y', c', body', at'. split_and!; try done; [by apply (runs_step _ (mkNet y1 (nodes n)))|by apply (only_trans _ _ y1)|apply Hrest..].
  - destruct Hnext as (ms' & [= <- <-] & _). exists (sys n), c, body, at_point.
    split_and!; try done; destruct n; apply rtc_refl.
Qed.

(** A message is handled. *)
Lemma message_turn y p c body at_point w fuel msg d :
  sys_ok y -> conn_at y p c (Task.mk (Reading body at_point) w) ->
  needed at_point <= sizeN (sk_in (Connection.socket c)) ->
  on_read body (take (N.to_nat (needed at_point)) (sk_in (Connection.socket c))) at_point = Handle msg ->
  lobby_message fuel (server y) p c msg = Some d ->
  exists y', io_work y y' /\ turn y y' p c (Task.mk (Reading body at_point) w) (Task.mk (Reading [] AwaitHeader) w)
    (consume (needed at_point) c) d.
Proof.
  intros Hy Hat Hneeded Hread Hd. pose proof Hat as [Hc Ht].
  set (f := consume (needed at_point) c). set (s1 := update_conn p f (server y)).
  assert (lobby_message fuel s1 p (f c) msg = Some d) as Hd1 by (rewrite <-Hd; by apply lobby_message_ext).
  pose proof (reading_sender y Hy p c body at_point w Hc Ht f eq_refl eq_refl) as [Hwf1 Hp1 _]. fold s1 in Hwf1, Hp1.
  eexists. split; [|exact (handle_turn y p c body at_point w fuel msg d Hy Hat Hneeded Hread Hd1)].
  apply (step_read _ p c body at_point w fuel (Reading [] AwaitHeader)); try done. unfold read_loop.
  rewrite (bind_done _ _ _ c (server y)) by (unfold get_conn; by rewrite Hc). rewrite bind_modify, Hread.
  rewrite (bind_done _ _ _ tt (commit s1 d)); [done|]. change (HandleMessage fuel p msg s1 = Done tt (commit s1 d)).
  by rewrite (exec_HandleMessage s1 Hwf1 p (f c) Hp1), Hd1.
Qed.

(** What the specification says is queued for everyone. *)
Lemma message_handled y p c body at_point w fuel msg d :
  sys_ok y -> conn_at y p c (Task.mk (Reading body at_point) w) ->
  needed at_point <= sizeN (sk_in (Connection.socket c)) ->
  on_read body (take (N.to_nat (needed at_point)) (sk_in (Connection.socket c))) at_point = Handle msg ->
  lobby_message fuel (server y) p c msg = Some d ->
  exists y', io_work y y' /\ rooms (server y') = d_rooms d /\ heap_next (server y') = heap_next (server y) /\
    all_genuine (d_sent d) /\
    forall q cq tq, conn_at y q cq tq -> live tq -> exists cq' tq', conn_at y' q cq' tq' /\ live tq' /\
      Connection.id cq' = Connection.id cq /\ Connection.room cq' = default (Connection.room cq) (d_where d !! q) /\
      pipeline cq' (Task.writer tq') = pipeline cq (Task.writer tq) ++ frame_all (told (Connection.id cq) (d_sent d)).
Proof.
  intros Hy Hat Hneeded Hread Hd. pose proof Hat as [Hc Ht].
  destruct (message_turn y p c body at_point w fuel msg d Hy Hat Hneeded Hread Hd) as (y' & Hstep & Hturn).
  exists y'. split; [done|]. split; [exact (turn_rooms _ _ _ _ _ _ _ _ Hturn)|]. split; [exact (turn_next _ _ _ _ _ _ _ _ Hturn)|].
  split; [exact (turn_genuine _ _ _ _ _ _ _ _ Hy Hturn)|]. pose proof (turn_tasks _ _ _ _ _ _ _ _ Hturn) as Htasks.
  intros q cq tq Hatq Hlive.
  destruct (turn_moves _ _ _ _ _ _ _ _ _ _ _ Hturn Hatq) as (cq' & tq' & Hatq' & Hcq' & Hmoves).
  exists cq', tq'. split; [done|].
  assert (live tq') as Hlive'.
  { destruct Hatq' as [_ Htq']. rewrite Htasks in Htq'. destruct (decide (q = p)) as [->|Hq].
    - rewrite lookup_insert_eq in Htq'. injection Htq' as <-. destruct Hatq as [_ Htq]. rewrite Ht in Htq. injection Htq as <-.
      split; [apply Hlive|]. cbn. eauto.
    - rewrite lookup_insert_ne in Htq' by done. destruct Hatq. by simplify_eq. }
  split; [done|]. split; [apply Hmoves|]. split.
  { rewrite Hcq'. cbn. by case_decide; subst. }
  pose proof (moves_writes _ _ _ _ _ Hmoves) as Hwrites. rewrite decide_False in Hwrites by apply Hlive'.
  destruct Hwrites as [-> _]. do 2 f_equal. destruct Hatq as [Hcq Htq]. destruct Hlive as (Hw & b & a & Hpt).
  destruct tq as [pt wq]. cbn in Hpt, Hw. subst pt.
  by apply (reaching_told _ (ok_wf _ Hy)), (reading_registered y Hy q cq b a wq).
Qed.

(** ** From the call to the handler *)

(** Nothing of the client is under way to the server. *)
Definition caught_up (n : Net) (p : ptr) : Prop :=
  exists node c w, nodes n !! p = Some node /\ conn_at (sys n) p c (Task.mk (Reading [] AwaitHeader) w) /\
    sk_in (Connection.socket c) = [] /\ Node.up node = [] /\ tx (Node.app node) = [].

(** A check of [caught_up]. *)
Definition caught_up_b (n : Net) (p : ptr) : bool :=
  match nodes n !! p, heap (server (sys n)) !! p, tasks (sys n) !! p with
  | Some node, Some c, Some (Task.mk (Reading [] AwaitHeader) _) =>
      bool_decide (sk_in (Connection.socket c) = []) && bool_decide (Node.up node = []) && bool_decide (tx (Node.app node) = [])
  | _, _, _ => false
  end.

Lemma caught_up_b_sound n p : caught_up_b n p = true -> caught_up n p.
Proof.
  unfold caught_up_b. destruct (nodes n !! p) as [node|] eqn:Hnode; [|done].
  destruct (heap (server (sys n)) !! p) as [c|] eqn:Hc; [|done].
  destruct (tasks (sys n) !! p) as [[[|[|? ?] [|? ?]|] w]|] eqn:Ht; try done.
  rewrite !andb_true_iff, !bool_decide_eq_true. intros [[Hin Hup] Htx]. by exists node, c, w.
Qed.

(** The client at [p], after a call of the application. *)
Definition with_client (p : ptr) (k : Client) (n : Net) : Net :=
  mkNet (sys n) (alter (fun node => Node.mk k (Node.taken node) (Node.up node)) p (nodes n)).

Lemma with_client_only p k n : only_at p n (with_client p k n).
Proof. split; [apply only_refl|]. intros q Hq. cbn. by apply lookup_alter_ne. Qed.

Lemma with_client_step p node k n :
  nodes n !! p = Some node -> client_call (Node.app node) k -> net_step n (with_client p k n).
Proof.
  intros Hnode Hcall.
  assert (with_client p k n = mkNet (sys n) (<[p := Node.mk k (Node.taken node) (Node.up node)]> (nodes n))) as ->.
  { unfold with_client. f_equal. apply map_eq. intros q. destruct (decide (q = p)) as [->|Hq].
    - by rewrite lookup_alter_eq, Hnode, lookup_insert_eq.
    - by rewrite lookup_alter_ne, lookup_insert_ne. }
  by apply (net_call n p node).
Qed.

(** All that the client at [p] has written arrives. *)
Definition arrived (p : ptr) (node : Node.t) (n : Net) : Net :=
  mkNet (arrive p (Node.up node) (sys n)) (<[p := Node.mk (Node.app node) (Node.taken node) []]> (nodes n)).

Lemma arrived_step p node n : nodes n !! p = Some node -> goes_on n (arrived p node n).
Proof.
  intros Hnode. pose proof (on_deliver n p node (length (Node.up node)) Hnode) as Hstep.
  by rewrite firstn_all, drop_all in Hstep.
Qed.

Lemma arrived_only p node n : only_at p n (arrived p node n).
Proof.
  split; [split; try done|]; intros q Hq; cbn; [|by apply lookup_insert_ne]. split; [by apply lookup_alter_ne|done].
Qed.

(** A call that only adds a request to what is to be written. *)
Record asks_for (msg : Proto.ServerMessage) (k k1 : Client) : Prop := {
  asks_call : client_call k k1;
  asks_tx : tx k1 = tx k ++ FrameMessage msg;
  asks_inbox : _inbox k1 = _inbox k
}.

Lemma SendServer_asks msg k : sendable msg -> asks_for msg k (set_tx (tx k ++ FrameMessage msg) k).
Proof. intros Hmsg. split; try done. by apply (call_request msg true). Qed.

(** The client writes a request, and it arrives. *)
Lemma request_sent n p k k1 msg :
  net_ok n -> ids_left (sys n) -> settled n p k -> caught_up n p -> asks_for msg k k1 ->
  exists n', net_step n (with_client p k1 n) /\ runs (with_client p k1 n) n' /\ ids_left (sys n') /\
    lobby (server (sys n')) = lobby (server (sys n)) /\
    (forall q i code inbox, due n q i code inbox -> due n' q i code inbox) /\
    exists node c w msgs, nodes n' !! p = Some node /\ w <> Finished /\
      conn_at (sys n') p c (Task.mk (Reading [] AwaitHeader) w) /\ Forall sendable msgs /\
      sk_in (Connection.socket c) = frame_all (msg :: msgs).
Proof.
  intros Hn Hleft Hs (node & c & w & Hnode & Hat & Hin & Hup & Htx) [Hcall Htx1 Hinbox1].
  destruct (settled_sees n p k Hn Hs) as (_ & _ & _ & _ & _ & Hrxmsg & Hrx).
  destruct Hs as (node' & c' & t' & Hnode' & <- & Hopen & Hat' & Hlive & _).
  assert (node' = node) as -> by congruence. destruct (conn_at_unique _ _ _ _ _ _ Hat Hat') as [-> ->]. clear Hnode' Hat'.
  destruct node as [k taken up]. cbn [Node.app Node.up Node.taken] in *. subst up.
  destruct (net_nodes _ Hn p _ Hnode) as (c0 & t0 & _ & Hok0).
  destruct (client_call_view _ _ Hcall (node_mesh _ _ _ Hok0)) as (_ & _ & Hrx1 & Hrxmsg1 & Hopen1). clear c0 t0 Hok0.
  cbn [Node.app] in *. rewrite Hrx in Hrx1. rewrite Hrxmsg in Hrxmsg1. rewrite Hopen in Hopen1. set (n1 := with_client p k1 n).
  assert (net_step n n1) as Hstep1 by (by apply (with_client_step p (Node.mk k taken []))).
  assert (nodes n1 !! p = Some (Node.mk k1 taken [])) as Hnode1 by (cbn; by rewrite lookup_alter_eq, Hnode).
  pose proof (net_step_ok n n1 Hn Hstep1 Hleft) as Hn1.
  destruct (net_nodes _ Hn1 p _ Hnode1) as (c0 & t0 & Hat0 & Hok). destruct (conn_at_unique _ _ _ _ _ _ Hat Hat0) as [-> ->]. clear Hat0.
  destruct (poll_flushes k1 (node_tidy _ _ _ Hok) (node_mesh _ _ _ Hok) Hopen1 Hrx1 Hrxmsg1) as (count & k2 & msgs & Hrun & _ & Hwritten & Hmsgs).
  set (node2 := Node.mk k2 (taken + length (concat ([] : list (list byte)))) ([] ++ poll_written [] false [Sent count] k1)).
  set (n2 := mkNet (sys n) (<[p := node2]> (nodes n1))).
  assert (WriteFailed ∉ [Sent count]) as Hsent by set_solver.
  pose proof (on_poll n1 p (Node.mk k1 taken []) c [] [Sent count] true k2 Hnode1 (proj1 Hat) Hopen1 (prefix_nil _) Hsent Hrun : goes_on n1 n2)
    as Hstep2.
  assert (nodes n2 !! p = Some node2) as Hnode2 by apply lookup_insert_eq.
  pose proof (net_step_ok n1 n2 Hn1 (goes_on_step _ _ Hstep2) Hleft) as Hn2.
  set (c3 := Connection.set_socket (set_sk_in (sk_in (Connection.socket c) ++ Node.up node2) (Connection.socket c)) c).
  assert (conn_at (sys (arrived p node2 n2)) p c3 (Task.mk (Reading [] AwaitHeader) w)) as Hat3.
  { destruct Hat as [Hc Ht]. split; [|done]. cbn. by rewrite lookup_alter_eq, Hc. }
  exists (arrived p node2 n2). split; [done|]. split_and!; try done.
  - apply (runs_step _ n2); [done|done|]. apply rtc_once. split; [by apply arrived_step|done].
  - intros q i code inbox Hdue.
    apply (due_idle p n n1 _ c (Task.mk (Reading [] AwaitHeader) w) k1 [] c (Task.mk (Reading [] AwaitHeader) w) Hn
      (with_client_only p k1 n) Hnode Hat) in Hdue; try done; [|cbn; congruence].
    apply (only_at_due p n1 n2) in Hdue; [|split; [apply only_refl|]; intros ? Hq; by apply lookup_insert_ne|].
    2:{ intros ???. apply (due_poll n1 p (Node.mk k1 taken []) c (Task.mk (Reading [] AwaitHeader) w) [] [Sent count] true); try done; apply prefix_nil. }
    revert Hdue. by apply (due_idle p n2 _ node2 c (Task.mk (Reading [] AwaitHeader) w) k2 [] c3 (Task.mk (Reading [] AwaitHeader) w) Hn2
      (arrived_only p node2 n2) Hnode2 Hat); [apply lookup_insert_eq|..].
  - exists (Node.mk k2 (taken + 0) []), c3, w, msgs. split_and!; try done; [apply lookup_insert_eq|apply Hlive|].
    rewrite frame_all_cons. cbn. rewrite Hin, Hwritten, Htx1, Htx. done.
Qed.

(** [ReadLoop] gets to the request. *)
Lemma request_arrives n p k k1 msg :
  net_ok n -> ids_left (sys n) -> settled n p k -> caught_up n p -> sendable msg -> asks_for msg k k1 ->
  exists n', net_step n (with_client p k1 n) /\ runs (with_client p k1 n) n' /\ ids_left (sys n') /\
    lobby (server (sys n')) = lobby (server (sys n)) /\
    (forall q i code inbox, due n q i code inbox -> due n' q i code inbox) /\
    exists c body at_point w, conn_at (sys n') p c (Task.mk (Reading body at_point) w) /\
      needed at_point <= sizeN (sk_in (Connection.socket c)) /\
      on_read body (take (N.to_nat (needed at_point)) (sk_in (Connection.socket c))) at_point = Handle msg.
Proof.
  intros Hn Hleft Hs Hup Hmsg Hasks.
  destruct (request_sent n p k k1 msg Hn Hleft Hs Hup Hasks) as (n3 & Hstep1 & Hruns & Hleft3 & Hlobby & Hdue
    & node & c & w & msgs & Hnode & Hw & Hat & Hmsgs & Hin).
  pose proof (runs_ok _ _ (net_step_ok _ _ Hn Hstep1 Hleft) Hruns) as Hn3.
  destruct (reader_hands_on n3 p c [] AwaitHeader w msg msgs Hn3 Hleft3 Hat Hmsg Hmsgs)
    as (y4 & c4 & body & at_point & Hruns4 & Honly & Hat4 & Hid & Hroom & Hout & Hsent & _ & Hneeded & Hread).
  { constructor. rewrite Hin. apply pending_all. }
  exists (mkNet y4 (nodes n3)). split; [done|]. split_and!.
  - by etransitivity.
  - by apply (only_left p (sys n3)).
  - etransitivity; [exact (only_lobby _ _ _ Honly)|done].
  - intros q i code inbox Hq. apply Hdue in Hq. revert Hq.
    apply (due_idle p n3 _ node c (Task.mk (Reading [] AwaitHeader) w) (Node.app node) (Node.up node) c4
      (Task.mk (Reading body at_point) w)); try done; [by destruct node|split; [done|eauto]|unfold pipeline; cbn; congruence].
  - by exists c4, body, at_point, w.
Qed.

(** ** From the handler to the inboxes *)

Lemma message_due n p c body at_point w fuel msg d :
  net_ok n -> ids_left (sys n) -> conn_at (sys n) p c (Task.mk (Reading body at_point) w) ->
  needed at_point <= sizeN (sk_in (Connection.socket c)) ->
  on_read body (take (N.to_nat (needed at_point)) (sk_in (Connection.socket c))) at_point = Handle msg ->
  lobby_message fuel (server (sys n)) p c msg = Some d ->
  exists n', runs n n' /\ ids_left (sys n') /\ rooms (server (sys n')) = d_rooms d /\
    forall q i code inbox, due n q i code inbox ->
      due n' q i (default code (d_where d !! q)) (inbox ++ filter (fun msg => surfaced msg = true) (told i (d_sent d))).
Proof.
  intros Hn Hleft Hat Hneeded Hread Hd.
  destruct (message_handled _ _ _ _ _ _ _ _ _ (net_sys _ Hn) Hat Hneeded Hread Hd)
    as (y & Hstep & Hrooms & Hnext & Hall & Hsent).
  assert (ids_left y) as Hleft' by (unfold ids_left; by rewrite Hnext). exists (mkNet y (nodes n)). split_and!; try done.
  - apply rtc_once. split; [by apply on_server|done].
  - intros q i code inbox Hdue. pose proof Hdue as (node & cq & tq & _ & Hnode & _ & Hatq & Hlive & <- & <- & _).
    destruct (Hsent q cq tq Hatq Hlive) as (cq' & tq' & Hatq' & Hlive' & Hid & Hroom & Hpipe).
    apply (due_moves n (mkNet y (nodes n)) q node cq tq (Node.app node) (Node.up node) cq' tq'
      (told (Connection.id cq) (d_sent d)) _ (Connection.room cq)); try done; [by destruct node|by apply told_genuine].
Qed.

(** What the server knows of a client that has read everything. *)
Lemma settled_conn n q k c : net_ok n -> settled n q k -> heap (server (sys n)) !! q = Some c ->
  due n q (Connection.id c) (Connection.room c) (_inbox k) /\ _room_cache k = seen_by (server (sys n)) c.
Proof.
  intros Hn Hs Hc. destruct (settled_due n q k Hn Hs) as (c0 & Hdue & Hcache).
  pose proof Hdue as (_ & c1 & _ & _ & _ & _ & [Hc1 _] & _ & Hid & Hroom & _). rewrite Hc in Hc1. injection Hc1 as <-.
  rewrite Hid, Hroom, Hcache. split; [done|]. by apply seen_by_ext.
Qed.

Lemma settled_known n q k c : net_ok n -> settled n q k -> heap (server (sys n)) !! q = Some c -> RoomId k <> EmptyString ->
  Connection.id c = Id k /\ Connection.room c = RoomId k.
Proof.
  intros Hn Hs Hc. destruct (settled_conn n q k c Hn Hs Hc) as [_ Hcache]. unfold Id, my_id, RoomId. rewrite Hcache.
  unfold seen_by. by destruct (rooms (server (sys n)) !! Connection.room c).
Qed.

Lemma settled_heap n q k : settled n q k -> exists c, heap (server (sys n)) !! q = Some c.
Proof. intros (_ & c & _ & _ & _ & _ & [Hc _] & _). by exists c. Qed.

(** What becomes of the client at [q], connected to the server as [c], when the
    server applies [d]. *)
Definition follows (n : Net) (d : delta) (n' : Net) : Prop :=
  rooms (server (sys n')) = d_rooms d /\
  forall q k c, settled n q k -> heap (server (sys n)) !! q = Some c ->
    exists k', settled n' q k' /\
      _inbox k' = _inbox k ++ filter (fun msg => surfaced msg = true) (told (Connection.id c) (d_sent d)) /\
      _room_cache k' = seen_by (server (sys n')) (conn_after (server (sys n)) d q c).

Lemma request_carried_out n p k k1 c msg fuel d :
  net_ok n -> ids_left (sys n) -> settled n p k -> caught_up n p -> sendable msg -> asks_for msg k k1 ->
  heap (server (sys n)) !! p = Some c -> lobby_message fuel (server (sys n)) p c msg = Some d ->
  exists n', net_step n (with_client p k1 n) /\ runs (with_client p k1 n) n' /\ follows n d n'.
Proof.
  intros Hn Hleft Hs Hup Hmsg Hasks Hc Hd.
  destruct (request_arrives n p k k1 msg Hn Hleft Hs Hup Hmsg Hasks)
    as (n4 & Hstep & Hruns & Hleft4 & Hlobby & Hdue4 & c4 & body & at_point & w & Hat & Hneeded & Hread).
  pose proof (runs_ok _ _ (net_step_ok _ _ Hn Hstep Hleft) Hruns) as Hn4.
  destruct (Hdue4 _ _ _ _ (proj1 (settled_conn n p k c Hn Hs Hc))) as (_ & c5 & t5 & _ & _ & _ & Hat5 & _ & Hid & Hroom & _).
  destruct (conn_at_unique _ _ _ _ _ _ Hat Hat5) as [-> _].
  rewrite <-(lobby_message_ext fuel _ _ p _ _ msg Hlobby Hid Hroom) in Hd.
  destruct (message_due n4 p c4 body at_point w fuel msg d Hn4 Hleft4 Hat Hneeded Hread Hd) as (n5 & Hruns5 & Hleft5 & Hrooms5 & Hdue5).
  destruct (settle_all n5 (runs_ok _ _ Hn4 Hruns5) Hleft5) as (n' & Hruns' & Hrooms' & Hsees & Hdue').
  exists n'. split; [done|]. split; [etransitivity; [exact Hruns|]; by etransitivity|].
  split; [by rewrite Hrooms'|]. intros q kq cq Hq Hcq.
  destruct (settled_conn n q kq cq Hn Hq Hcq) as [Hdue _]. apply Hdue4, Hdue5 in Hdue.
  pose proof Hdue as (node5 & cq5 & tq5 & _ & Hnode5 & Hopen5 & Hat5' & Hlive5 & _).
  destruct (Hsees q cq5) as (kq' & _ & _ & Hsettled & _); [by exists node5, tq5|].
  destruct (due_settled n' q kq' _ _ _ (runs_ok _ _ (runs_ok _ _ Hn4 Hruns5) Hruns') Hsettled (Hdue' _ _ _ _ Hdue)) as [Hinbox Hseen].
  exists kq'. split_and!; [done|done|]. by apply Hseen.
Qed.
End Delivery.

(** ** Properties *)

(** Claim C1: the whole system does what the specification says.  Take any state
    the server, its library clients and the network can get to, and a client
    that has read everything and has nothing under way.  Let it ask for anything
    the server accepts, and let [d] be what the specification [lobby_message]
    makes of the request in the server's state.  [SendServer] returns true, and
    the system left to itself - no further call, connection or failure - can get
    to a state where the rooms are those of [d], and every client that had read
    everything has read everything again: its inbox has got what [d] sends to
    it that an application is told, in order, and nothing else, and its cached
    room is the room [d] puts it in. *)
Theorem requests_are_carried_out `{!RoomRng, !Juice, !ShortSdp} (cfg : ServerConfig) (n : Net) (p : ptr) (k : Client)
    (c : Connection.t) (msg : Proto.ServerMessage) (fuel : nat) (d : delta) :
  config_ok cfg -> net_reachable cfg n -> settled n p k -> caught_up n p -> sendable msg ->
  heap (server (sys n)) !! p = Some c -> lobby_message fuel (server (sys n)) p c msg = Some d ->
  exists k1 n', SendServer msg k = Done true k1 /\ net_reachable cfg (with_client p k1 n) /\
    runs (with_client p k1 n) n' /\ rooms (server (sys n')) = d_rooms d /\
    forall q kq cq, settled n q kq -> heap (server (sys n)) !! q = Some cq ->
      exists kq', settled n' q kq' /\
        _inbox kq' = _inbox kq ++ filter (fun msg => surfaced msg = true) (told (Connection.id cq) (d_sent d)) /\
        _room_cache kq' = seen_by (server (sys n')) (conn_after (server (sys n)) d q cq).
Proof.
  intros Hcfg Hreach Hs Hup Hmsg Hc Hd. pose proof (net_reachable_ok cfg n Hcfg Hreach) as Hn.
  pose proof (net_reachable_left _ _ Hreach) as Hleft.
  destruct (request_carried_out n p k _ c msg fuel d Hn Hleft Hs Hup Hmsg (SendServer_asks msg k Hmsg) Hc Hd)
    as (n' & Hstep & Hruns & Hrooms & Hall).
  eexists _, n'. split_and!; [done|by apply (rtc_r _ n)|exact Hruns|exact Hrooms|exact Hall].
Qed.

(** In [DemoNet] the client who made the room removes the other one, who learns
    it. *)
Lemma requests_are_carried_out_witness :
  exists k1 n' k2, SendServer (Proto.KickMember 2) (DemoNet.client DemoNet.quiet 0%nat) = Done true k1 /\
    @runs Demo.rng DemoClient.juice (with_client 0%nat k1 DemoNet.quiet) n' /\ settled n' 1%nat k2 /\
    RoomId k2 = "" /\ _inbox k2 = _inbox (DemoNet.client DemoNet.quiet 1%nat) ++ [Proto.KickedByHost].
Proof.
  set (s := server (sys DemoNet.quiet)).
  set (c := default DemoSys.conn (heap s !! 0%nat)). set (c2 := default DemoSys.conn (heap s !! 1%nat)).
  set (d := default (no_delta s) (@lobby_message Demo.rng 0 s 0%nat c (Proto.KickMember 2))).
  destruct (@requests_are_carried_out Demo.rng DemoClient.juice DemoNet.short_sdp Demo.config DemoNet.quiet 0%nat
    (DemoNet.client DemoNet.quiet 0%nat) c (Proto.KickMember 2) 0 d DemoSys.config_fits DemoNet.quiet_reachable)
    as (k1 & n' & Hrun & _ & Hruns & Hrooms & Hall).
  - apply settled_b_sound. vm_compute. reflexivity.
  - apply caught_up_b_sound. vm_compute. reflexivity.
  - apply request_fits_sendable. vm_compute. reflexivity.
  - vm_compute. reflexivity.
  - vm_compute. reflexivity.
  - destruct (Hall 1%nat (DemoNet.client DemoNet.quiet 1%nat) c2) as (k2 & Hsettled & Hinbox & Hcache);
      [apply settled_b_sound; vm_compute; reflexivity|vm_compute; reflexivity|].
    exists k1, n', k2. refine (conj Hrun (conj Hruns (conj Hsettled (conj _ _)))).
    + unfold RoomId. rewrite Hcache. unfold seen_by. rewrite Hrooms. vm_compute. reflexivity.
    + rewrite Hinbox. by f_equal.
Defined.

(** Claim C3: a line of chat gets through.  Take any state the server, its
    library clients and the network can get to, a client in a room who has read
    everything and has nothing under way, and a line of at most 16375 bytes.
    [SendChat] returns true, and from the state after the call there is a run of
    the network, with no further request and no change of a room, after which
    every client of the room that had read everything - the sender among them -
    has the line in its inbox, once, under the sender's id, behind what it had,
    and sees its room as before. *)
Theorem chat_gets_through `{!RoomRng, !Juice, !ShortSdp} (cfg : ServerConfig) (n : Net) (p : ptr) (k : Client) (text : string) :
  config_ok cfg -> net_reachable cfg n -> settled n p k -> caught_up n p -> RoomId k <> EmptyString ->
  str_size text <= 16375 ->
  exists k1 n', Client_SendChat text k = Done true k1 /\
    net_reachable cfg (with_client p k1 n) /\ runs (with_client p k1 n) n' /\
    rooms (server (sys n')) = rooms (server (sys n)) /\
    forall q kq, settled n q kq -> RoomId kq = RoomId k ->
      exists kq', settled n' q kq' /\ _inbox kq' = _inbox kq ++ [Proto.RoomChat (Id k) text] /\
        _room_cache kq' = _room_cache kq.
Proof.
  intros Hcfg Hreach Hs Hup Hroom Htext. pose proof (net_reachable_ok cfg n Hcfg Hreach) as Hn.
  pose proof (net_reachable_left _ _ Hreach) as Hleft.
  assert (forall i, fits 4 i -> sendable (Proto.RoomChat i text)) as Hline.
  { intros i Hi. apply sendable_intro; [done|]. unfold wire_size. cbn [payload_size]. change max_reassembled_size with 16384. lia. }
  destruct (settled_heap n p k Hs) as [c Hc]. destruct (settled_known n p k c Hn Hs Hc Hroom) as [Hid Hcode].
  destruct (settled_room n p k Hn Hs Hroom) as (_ & r & Hr & Hok & _).
  set (d := lobby_chat (server (sys n)) c text).
  assert (d = send (no_delta (server (sys n))) (to_all (Room.members r) (Proto.RoomChat (Id k) text))) as Ed.
  { unfold d, lobby_chat, in_room. by rewrite Hcode, Hr, Hid. }
  destruct (request_carried_out n p k _ c (Proto.RoomChat 0 text) 0 d Hn Hleft Hs Hup (Hline 0 ltac:(done))
    (SendServer_asks _ k (Hline 0 ltac:(done))) Hc eq_refl) as (n' & Hstep & Hruns & Hrooms & Hall).
  eexists _, n'. split_and!; [done|by apply (rtc_r _ n)|exact Hruns|by rewrite Hrooms, Ed|]. intros q kq Hq Hsame.
  destruct (settled_heap n q kq Hq) as [cq Hcq]. destruct (Hall q kq cq Hq Hcq) as (kq' & Hq' & Hinbox & Hcache).
  destruct (settled_known n q kq cq Hn Hq Hcq ltac:(congruence)) as [Hidq _].
  destruct (settled_room n q kq Hn Hq ltac:(congruence)) as (_ & rq & Hrq & _ & _ & _ & Hin).
  rewrite Hsame, Hr in Hrq. injection Hrq as <-.
  exists kq'. split; [done|]. split.
  - rewrite Hinbox, Hidq, Ed. cbn [d_sent send no_delta app].
    by rewrite told_to_all, decide_True by (try apply (room_nodup _ _ Hok); done).
  - rewrite Hcache. destruct (settled_conn n q kq cq Hn Hq Hcq) as [_ ->]. apply seen_by_ext; [by rewrite Hrooms, Ed|done|].
    by rewrite Ed.
Qed.

(** The client who made the room of [DemoNet] says a word to the other one. *)
Lemma chat_gets_through_witness :
  let k := DemoNet.client DemoNet.quiet 0%nat in
  let k2 := DemoNet.client DemoNet.quiet 1%nat in
  exists k1 n' k2', @Client_SendChat "hi" k = Done true k1 /\
    @runs Demo.rng DemoClient.juice (with_client 0%nat k1 DemoNet.quiet) n' /\
    settled n' 1%nat k2' /\ _inbox k2' = _inbox k2 ++ [Proto.RoomChat 1 "hi"].
Proof.
  intros k k2.
  destruct (@chat_gets_through Demo.rng DemoClient.juice DemoNet.short_sdp Demo.config DemoNet.quiet 0%nat k "hi"
    DemoSys.config_fits DemoNet.quiet_reachable) as (k1 & n' & Hrun & _ & Hruns & _ & Hall).
  - apply settled_b_sound. vm_compute. reflexivity.
  - apply caught_up_b_sound. vm_compute. reflexivity.
  - vm_compute. discriminate.
  - vm_compute. discriminate.
  - destruct (Hall 1%nat k2) as (k2' & Hsettled & Hinbox & _); [apply settled_b_sound; vm_compute; reflexivity|vm_compute; reflexivity|].
    assert (Id k = 1) as Hid by (vm_compute; reflexivity). rewrite Hid in Hinbox.
    exists k1, n', k2'. exact (conj Hrun (conj Hruns (conj Hsettled Hinbox))).
Defined.
