(* ===== verification/NetworkRules.v ===== *)
(** What the server and its clients do together: they understand each other,
    and clients that have read everything agree on their room. *)
From S2P Require Import Prelude Wire Protocol Framing Stream RoomCache Server ServerExec Lobby WellFormed.
From S2P Require Import Refine ServerInv Rules Authority Mirror Sendable Session SessionInv Scheduler Turns Reader.
From S2P Require Import Client ClientMesh ClientConn ClientSends Network NetRuns Settle.
Local Open Scope N_scope.
#[local] Opaque FrameMessage.

Section Rules.
Context `{!RoomRng, !Juice, !ShortSdp}.

(** Claim C5: the server and the clients of the library understand each other.
    The network ([net_step]) lets an application make the requests that fit the
    cap of 16384 bytes on a message ([sendable]) and no longer ones, which the
    library would frame and the server refuse ([chat_length_limit]), and lets a
    client connect again only after an orderly end.  Under these conditions,
    however the network delays and cuts what they send, and with whatever
    strangers around: the server's reader never refuses a frame or a body of
    such a client, and what it hands on has the protocol's types and size and
    only [bool]s with values; and no poll of the client, whatever part of the
    server's bytes it finds, is undefined or ends the connection: it goes on,
    having handled answers and events the server sent. *)
Theorem both_sides_understand (cfg : ServerConfig) (n : Net) (p : ptr) (node : Node.t) (c : Connection.t) (t : Task.t) :
  config_ok cfg -> net_reachable cfg n -> nodes n !! p = Some node -> conn_at (sys n) p c t ->
  (forall body at_point, Task.session t = Reading body at_point ->
    needed at_point <= sizeN (sk_in (Connection.socket c)) ->
    match on_read body (take (N.to_nat (needed at_point)) (sk_in (Connection.socket c))) at_point with
    | Await _ _ => True
    | Handle msg => sendable msg
    | Return => False
    end) /\
  (socket_open (Node.app node) = true -> forall chunks answers,
    concat chunks `prefix_of` drop (Node.taken node) (sk_out (Connection.socket c)) -> WriteFailed ∉ answers ->
    exists k' msgs, Poll chunks false answers (Node.app node) = Done true k' /\ socket_open k' = true /\
      Forall genuine msgs /\ _room_cache k' = cache_all (_room_cache (Node.app node)) msgs /\
      _inbox k' = _inbox (Node.app node) ++ filter (fun msg => surfaced msg = true) msgs).
Proof.
  intros Hcfg Hn%net_reachable_ok Hnode Hat; [|done]. split.
  - intros body at_point Hpt Hneeded.
    destruct (net_nodes _ Hn p node Hnode) as (c' & t' & Hat' & Hok). destruct (conn_at_unique _ _ _ _ _ _ Hat Hat') as [-> ->].
    pose proof (node_asks _ _ _ Hok) as Hasks. rewrite Hpt in Hasks. destruct Hasks as (todo & Htodo & Hexp).
    pose proof (on_read_expects _ _ _ _ _ Htodo Hexp Hneeded) as Hnext. cbv zeta in Hnext.
    destruct (on_read _ _ _) as [|m|]; try done. destruct Hnext as (ms & -> & _). by apply Forall_cons in Htodo as [? _].
  - intros Hopen chunks answers Hchunks Hwrites.
    destruct (unread_frames n p node c t _ Hn Hnode Hat Hopen Hchunks) as (_ & Hmesh & todo & later & Htodo & Hp).
    destruct (twp_done _ _ _ (twp_Poll chunks answers later todo _ Hmesh Hopen (genuine_sendable _ Htodo) Hwrites Hp))
      as (ok & k' & Hrun & -> & dn & rest & -> & (Hcache & Hinbox & Hopen') & _).
    apply Forall_app in Htodo as [Hdn _]. exists k', dn. split_and!; try done. congruence.
Qed.

(** Claim C2: clients agree on their room.  In any state the server, its library
    clients and the network can get to - strangers connected or not, messages
    late, connections lost - take two clients that have read everything the
    server has for them and whose getters tell the same room.  They list the
    same members, each other among them, the same host, who is one of them, the
    same flags, room data and member data; and at most one of them takes itself
    for the host. *)
Theorem settled_clients_agree (cfg : ServerConfig) (n : Net) (p1 p2 : ptr) (k1 k2 : Client) :
  config_ok cfg -> net_reachable cfg n -> settled n p1 k1 -> settled n p2 k2 ->
  RoomId k1 = RoomId k2 -> RoomId k1 <> EmptyString ->
  Members k1 ≡ₚ Members k2 /\ Id k1 ∈ Members k2 /\ Id k2 ∈ Members k1 /\
  HostId k1 = HostId k2 /\ HostId k1 ∈ Members k1 /\
  RoomJoinable k1 = RoomJoinable k2 /\ RoomPassworded k1 = RoomPassworded k2 /\
  RoomData k1 = RoomData k2 /\ (forall i, MemberData i k1 = MemberData i k2) /\
  (IsHost k1 = true -> IsHost k2 = true -> p1 = p2).
Proof.
  intros Hcfg Hn%net_reachable_ok Hs1 Hs2 Hsame Hroom; [|done].
  destruct (settled_room n p1 k1 Hn Hs1 Hroom) as (Hid1 & r & Hr & Hok & Hc1 & Hm1 & Hin1).
  destruct (settled_room n p2 k2 Hn Hs2 ltac:(congruence)) as (Hid2 & r' & Hr' & _ & Hc2 & Hm2 & Hin2).
  rewrite <-Hsame, Hr in Hr'. injection Hr' as <-.
  assert (HostId k1 = Room.host r /\ HostId k2 = Room.host r) as [Hh1 Hh2] by (unfold HostId; by rewrite Hc1, Hc2).
  split_and!.
  - by rewrite Hm1, Hm2.
  - by rewrite Hm2.
  - by rewrite Hm1.
  - congruence.
  - rewrite Hm1, Hh1. apply (room_host _ _ Hok).
  - unfold RoomJoinable. by rewrite Hc1, Hc2.
  - unfold RoomPassworded. by rewrite Hc1, Hc2.
  - unfold RoomData. by rewrite Hc1, Hc2.
  - intros i. unfold MemberData. by rewrite Hc1, Hc2.
  - unfold IsHost. intros [_ Hhost1%bool_decide_eq_true]%andb_true_iff [_ Hhost2%bool_decide_eq_true]%andb_true_iff.
    unfold Id in Hid1, Hid2. lia.
Qed.

(** Claim C4: nothing gets lost on the way.  From every state the server, its
    library clients and the network can get to, the system left to itself -
    no call, no connection, no failure - can get to one with the same rooms in which every client whose session and
    connection stood has read everything, and its cached room state - id, room,
    host, members, flags, room data and member data - is its room on the
    server. *)
Theorem network_settles (cfg : ServerConfig) (n : Net) :
  config_ok cfg -> net_reachable cfg n ->
  exists n', net_reachable cfg n' /\ runs n n' /\ rooms (server (sys n')) = rooms (server (sys n)) /\
    forall p c, standing n p c -> exists k, settled n' p k /\ _room_cache k = seen_by (server (sys n)) c.
Proof.
  intros Hcfg Hreach. pose proof (net_reachable_ok cfg n Hcfg Hreach) as Hn.
  destruct (settle_all n Hn (net_reachable_left _ _ Hreach)) as (n' & Hruns & Hrooms & Hsees & _).
  exists n'. split; [unfold net_reachable; transitivity n; [done|by apply runs_reach]|]. split; [done|]. split; [done|]. intros p c Hc.
  destruct (Hsees _ _ Hc) as (k & c' & t' & Hsettled & [Hc' _] & Hid & Hroom).
  exists k. split; [done|].
  destruct (settled_sees n' p k (runs_ok _ _ Hn Hruns) Hsettled) as (c2 & t2 & [Hc2 _] & _ & Hcache & _). simplify_eq.
  rewrite Hcache. by apply seen_by_ext.
Qed.
End Rules.

(** The two clients of [DemoNet], when everything has been read. *)
Lemma settled_clients_agree_witness :
  let k1 := DemoNet.client DemoNet.quiet 0%nat in
  let k2 := DemoNet.client DemoNet.quiet 1%nat in
  Members k1 = [1; 2] /\ Members k2 = [2; 1] /\ Members k1 ≡ₚ Members k2 /\ HostId k1 = HostId k2 /\ HostId k1 = 1.
Proof.
  intros k1 k2.
  destruct (@settled_clients_agree Demo.rng DemoClient.juice DemoNet.short_sdp Demo.config DemoNet.quiet 0%nat 1%nat k1 k2
    DemoSys.config_fits DemoNet.quiet_reachable) as (Hmembers & _ & _ & Hhost & _).
  - apply settled_b_sound. vm_compute. reflexivity.
  - apply settled_b_sound. vm_compute. reflexivity.
  - vm_compute. reflexivity.
  - vm_compute. discriminate.
  - split_and!; [vm_compute; reflexivity|vm_compute; reflexivity|exact Hmembers|exact Hhost|vm_compute; reflexivity].
Defined.

(** The client who made the room has read 30 bytes of what it is sent, and finds
    seven more. *)
Lemma both_sides_understand_witness :
  let k := DemoNet.client DemoNet.met 0%nat in
  exists c k', heap (server (sys DemoNet.met)) !! 0%nat = Some c /\
    @Poll DemoClient.juice [take 7 (drop 30 (sk_out (Connection.socket c)))] false [] k = Done true k' /\ socket_open k' = true.
Proof.
  intros k. set (node := default (Node.mk connected 0 []) (nodes DemoNet.met !! 0%nat)).
  set (c := default DemoSys.conn (heap (server (sys DemoNet.met)) !! 0%nat)).
  set (t := default (Task.mk Spawned NotSpawned) (tasks (sys DemoNet.met) !! 0%nat)).
  destruct (@both_sides_understand Demo.rng DemoClient.juice DemoNet.short_sdp Demo.config DemoNet.met 0%nat node c t
    DemoSys.config_fits DemoNet.met_reachable) as [_ Hpoll].
  - vm_compute. reflexivity.
  - split; vm_compute; reflexivity.
  - destruct (Hpoll ltac:(vm_compute; reflexivity) [take 7 (drop 30 (sk_out (Connection.socket c)))] [])
      as (k' & msgs & Hrun & Hopen & _).
    + cbn [concat]. rewrite app_nil_r. assert (Node.taken node = 30%nat) as -> by (vm_compute; reflexivity). apply prefix_take.
    + intros Hin. exact (not_elem_of_nil _ Hin).
    + exists c, k'. split; [vm_compute; reflexivity|]. assert (k = Node.app node) as -> by (vm_compute; reflexivity).
      exact (conj Hrun Hopen).
Defined.

(** In [DemoNet.met] neither of the two has read that they are together. *)
Lemma network_settles_witness :
  Members (DemoNet.client DemoNet.met 0%nat) <> [1; 2] /\
  exists n' k, @net_reachable Demo.rng DemoClient.juice Demo.config n' /\ settled n' 0%nat k /\ Members k = [1; 2].
Proof.
  split; [vm_compute; discriminate|].
  destruct (@network_settles Demo.rng DemoClient.juice DemoNet.short_sdp Demo.config DemoNet.met
    DemoSys.config_fits DemoNet.met_reachable) as (n' & Hreach & _ & _ & Hsees).
  set (node := default (Node.mk connected 0 []) (nodes DemoNet.met !! 0%nat)).
  set (c := default DemoSys.conn (heap (server (sys DemoNet.met)) !! 0%nat)).
  set (t := default (Task.mk Spawned NotSpawned) (tasks (sys DemoNet.met) !! 0%nat)).
  destruct (Hsees 0%nat c) as (k & Hsettled & Hcache).
  - exists node, t. split_and!; [vm_compute; reflexivity|vm_compute; reflexivity|split; vm_compute; reflexivity|].
    split; [vm_compute; discriminate|]. exists [], AwaitHeader. vm_compute. reflexivity.
  - exists n', k. split; [exact Hreach|]. split; [exact Hsettled|]. unfold Members. rewrite Hcache. vm_compute. reflexivity.
Defined.
