(* ===== verification/Handshake.v ===== *)
(** Two peers build a link: [Client::SendP2P] on one side, the server's relay
    [Server::HandleP2PSignal], [Client::HandleP2PSignal] on the other side, and
    back.

    The two clients have libraries of their own ([Juice] instances); what the
    theorems ask of them is that the calls of a dial succeed. *)
From S2P Require Import Prelude Wire Protocol Framing Stream RoomCache Server ServerExec Lobby WellFormed.
From S2P Require Import Refine ServerInv Rules Authority RoomData Client ClientMesh ClientConn MeshRules.
Local Open Scope N_scope.
#[local] Opaque FrameMessage.

(** ** One side *)

Section Side.
Context `{!Juice}.

(** The library makes an agent and describes it, and gathering starts; the calls
    follow those in [log]. *)
Record opens (log : juice_log) (config : juice_config) (id : N) (between : agent -> list juice_call)
    (a : agent) (sdp : string) : Prop := {
  opens_create : create_answer log config = Some a;
  opens_describe : description_answer (log ++ juice_create config id (Some a) :: between a) a = Some sdp;
  opens_gather :
    gather_answer (log ++ juice_create config id (Some a) :: between a ++ [juice_get_local_description a]) a = true
}.

(** The first send to a peer. *)
Definition dials (c : Client) (id : N) (a : agent) (sdp : string) : Prop :=
  opens (calls c) (link_config (_ice c)) id (fun _ => []) a sdp.

(** The answer to a description, which is set before the agent's own is made. *)
Definition answers (c : Client) (id : N) (payload : string) (a : agent) (sdp : string) : Prop :=
  opens (calls (hung_up id c)) (link_config (_ice c)) id (fun a => [juice_set_remote_description a (c_str payload)]) a sdp.

(** The client after a dial that worked. *)
Definition dialling (id : N) (a : agent) (sdp : string) (data : list byte) (c c' : Client) : Prop :=
  links c' = <[id := PeerLink.mk a false false [data]]> (links c) /\
  tx c' = tx c ++ FrameMessage (Proto.P2PSignal id Proto.Description (c_str sdp)) /\
  calls c' = calls c ++ [juice_create (link_config (_ice c)) id (Some a); juice_get_local_description a;
    juice_gather_candidates a] /\
  view c' = view c /\ events c' = events c.

Lemma SendP2P_dialling id data c a sdp :
  ~ bad_send id data c -> links c !! id = None -> default 0 (attempts c !! id) < max_connection_attempts ->
  dials c id a sdp -> exists c', SendP2P id data c = Done true c' /\ dialling id a sdp data c c'.
Proof.
  intros [Hsize Hmember]%good_send_tests Hid Hbudget [Hcreate Hdescribe Hgather].
  enough (twp (SendP2P id data) (fun ok c' => ok = true /\ dialling id a sdp data c c') c)
    as (ok & c' & Hrun & -> & Hdone)%twp_done by (by exists c').
  unfold SendP2P. rewrite Hsize. steps. rewrite Hmember.
  steps. apply twp_FindLink. rewrite Hid, bool_decide_false by (by intros []). steps.
  pose proof (CreateLink_run id c Hbudget Hid) as Hrun. cbv zeta in Hrun. rewrite Hcreate in Hrun.
  eapply twp_intro; [exact Hrun|]. cbn [negb]. steps. set (c1 := set_links _ _).
  assert (links c1 !! id = Some (PeerLink.mk a false false [])) as Hl1 by (cbn; apply lookup_insert_eq).
  pose proof (ShareLink_run id _ c1 Hl1) as Hshare. cbv zeta in Hshare.
  cbn [PeerLink.agent calls c1 set_links set_attempts set_calls log_calls app] in Hshare. rewrite Hdescribe in Hshare.
  rewrite <-!app_assoc in Hshare. cbn [app] in Hshare, Hgather. rewrite Hgather in Hshare.
  eapply twp_intro; [exact Hshare|]. cbn [negb]. steps.
  cbn [negb]. steps. eapply twp_get_link; [exact Hl1|]. cbn [PeerLink.connected negb]. steps. unfold update_link. steps.
  split; [done|]. unfold dialling. cbn. rewrite (alter_insert_link _ _ _ _ Hl1). cbn.
  rewrite insert_insert_eq, <-?app_assoc. by split_and!.
Qed.

(** The client after answering. *)
Definition answering (id : N) (payload : string) (a : agent) (sdp : string) (c c' : Client) : Prop :=
  links c' = <[id := PeerLink.mk a true false []]> (links c) /\
  tx c' = tx c ++ FrameMessage (Proto.P2PSignal id Proto.Description (c_str sdp)) /\
  calls c' = calls (hung_up id c) ++ [juice_create (link_config (_ice c)) id (Some a);
    juice_set_remote_description a (c_str payload); juice_get_local_description a; juice_gather_candidates a] /\
  view c' = view c /\ events c' = events c.

Lemma Incoming_answering id payload c a sdp :
  waiting_link id c = None -> answers c id payload a sdp ->
  exists c', Incoming (Proto.P2PSignal id Proto.Description payload) c = Done tt c' /\ answering id payload a sdp c c'.
Proof.
  intros Hwaiting [Hcreate Hdescribe _].
  destruct (twp_done _ _ _ (description_answers id payload c Hwaiting)) as ([] & c' & Hrun & Hview & Hevents & Hafter).
  exists c'. split; [exact Hrun|]. rewrite Hcreate in Hafter. unfold answered in Hafter. rewrite Hdescribe in Hafter.
  destruct Hafter as (Hlinks & _ & Htx & Hcalls). split_and!; try done. by rewrite Hcalls, <-app_assoc.
Qed.

(** The caller's link takes the answer. *)
Lemma Incoming_waiting id payload c l :
  waiting_link id c = Some l ->
  Incoming (Proto.P2PSignal id Proto.Description payload) c = Done tt
    (set_links (<[id := PeerLink.set_remote_set true l]> (links c))
      (log_calls [juice_set_remote_description (PeerLink.agent l) (c_str payload)] c)).
Proof. apply description_waiting. Qed.

(** The agent comes up: what was queued goes out. *)
Lemma comes_up id c l :
  links c !! id = Some l ->
  exists c', HandleJuiceEvent (mkJuiceEvent (PeerLink.agent l) id (State JUICE_STATE_CONNECTED)) c = Done tt c' /\
    PeerConnectedP2P id c' = true /\ calls c' = calls c ++ (juice_send (PeerLink.agent l) <$> PeerLink.outbox l) /\
    view c' = view c /\ events c' = events c.
Proof.
  intros Hl. eexists. rewrite (HandleJuiceEvent_own _ _ l) by done. cbn [ev_kind ev_peer].
  rewrite (HandleLinkState_up _ l) by (done || by left). split_and!; [done| |done..].
  unfold PeerConnectedP2P. cbn. by rewrite lookup_insert_eq.
Qed.

(** The link takes a description that arrives while it waits, and comes up. *)
Lemma take_answer id a data payload c :
  links c !! id = Some (PeerLink.mk a false false [data]) ->
  exists c1 c2, Incoming (Proto.P2PSignal id Proto.Description (c_str payload)) c = Done tt c1 /\
    links c1 !! id = Some (PeerLink.mk a true false [data]) /\ tx c1 = tx c /\
    calls c1 = calls c ++ [juice_set_remote_description a (c_str payload)] /\
    HandleJuiceEvent (mkJuiceEvent a id (State JUICE_STATE_CONNECTED)) c1 = Done tt c2 /\
    PeerConnectedP2P id c2 = true /\ calls c2 = calls c1 ++ [juice_send a data].
Proof.
  intros Hl. assert (waiting_link id c = Some (PeerLink.mk a false false [data])) as Hwait by (unfold waiting_link; by rewrite Hl).
  pose proof (Incoming_waiting id (c_str payload) c _ Hwait) as Htake. set (c1 := set_links _ _) in Htake.
  assert (links c1 !! id = Some (PeerLink.mk a true false [data])) as Hl1 by (apply lookup_insert_eq).
  destruct (comes_up id c1 _ Hl1) as (c2 & Hup & Hconnected & Hsent & _).
  exists c1, c2. split_and!; try done. unfold c1. cbn. by rewrite c_str_c_str.
Qed.
End Side.

(** A dial whose answer arrives next. *)
Lemma dial_and_take (J : Juice) id data c a sdp payload :
  ~ bad_send id data c -> links c !! id = None -> default 0 (attempts c !! id) < max_connection_attempts ->
  dials c id a sdp ->
  exists c1 c2 c3, SendP2P id data c = Done true c1 /\
    Incoming (Proto.P2PSignal id Proto.Description (c_str payload)) c1 = Done tt c2 /\
    links c2 !! id = Some (PeerLink.mk a true false [data]) /\ tx c2 = tx c1 /\
    calls c2 = calls c1 ++ [juice_set_remote_description a (c_str payload)] /\
    HandleJuiceEvent (mkJuiceEvent a id (State JUICE_STATE_CONNECTED)) c2 = Done tt c3 /\
    calls c3 = calls c2 ++ [juice_send a data].
Proof.
  intros Hsend Hnone Hbudget Hdials.
  destruct (SendP2P_dialling id data c a sdp Hsend Hnone Hbudget Hdials) as (c1 & Hdial & Hlinks & _).
  destruct (take_answer id a data payload c1) as (c2 & c3 & ? & ? & ? & ? & ? & _ & ?); [rewrite Hlinks; apply lookup_insert_eq|].
  exists c1, c2, c3. by split_and!.
Qed.

(** ** The relay *)

(** On the server [s], the clients [i] and [j] are in one room; [p] is [i]'s
    connection. *)
Definition share_room (s : Server) (p : ptr) (i j : N) : Prop :=
  i <> j /\ exists c r, sender s p c /\ Connection.id c = i /\ rooms s !! Connection.room c = Some r /\ j ∈ Room.members r.

Lemma relays `{!RoomRng} fuel s p i j payload : share_room s p i j ->
  exists s', HandleMessage fuel p (Proto.P2PSignal j Proto.Description payload) s = Done tt s' /\
    queue s' j = queue s j ++ [FrameMessage (Proto.P2PSignal i Proto.Description payload)].
Proof.
  intros (Hne & c & r & Hs & <- & Hr & Hj).
  destruct (p2p_signal_stays_in_room s p c j Proto.Description payload Hs) as (s' & Hrun & _ & _ & Hqueue).
  exists s'. split; [done|]. pose proof Hs as [Hwf _ _]. rewrite Hqueue.
  - rewrite decide_True; [done|]. rewrite Hr. split_and!; [done|congruence|done].
  - by apply (member_client s _ r j Hwf Hr).
Qed.

(** ** A concrete pair *)

(** Clients 1 and 2 of [Demo.server], as they know their room. *)
Module DemoPair.
Definition member (i j : N) : Client :=
  set_room_cache (mkRoomCache i "WXYZ" 1 true false [i; j] ∅ ∅) (set_socket_open true client_init).
Definition first : Client := member 1 2.
Definition second : Client := member 2 1.

Lemma may_send : ~ bad_send 2 [x01] first.
Proof. apply (bool_decide_unpack _). vm_compute. exact I. Qed.
Lemma may_answer : ~ bad_send 1 [x02] second.
Proof. apply (bool_decide_unpack _). vm_compute. exact I. Qed.

Lemma server_wf : wf Demo.server.
Proof. apply wf_check_sound. vm_compute. reflexivity. Qed.

Lemma shares_first : share_room Demo.server 0%nat 1 2.
Proof.
  split; [discriminate|]. exists (Demo.conn 1 "WXYZ"), Demo.room. split_and!; [|reflexivity|reflexivity|].
  - split; [exact server_wf|reflexivity|reflexivity].
  - apply (bool_decide_unpack _). vm_compute. exact I.
Qed.
Lemma shares_second : share_room Demo.server 1%nat 2 1.
Proof.
  split; [discriminate|]. exists (Demo.conn 2 "WXYZ"), Demo.room. split_and!; [|reflexivity|reflexivity|].
  - split; [exact server_wf|reflexivity|reflexivity].
  - apply (bool_decide_unpack _). vm_compute. exact I.
Qed.

Lemma dials_first : @dials DemoClient.juice first 2 0 "sdp".
Proof. split; vm_compute; reflexivity. Qed.
Lemma dials_second : @dials DemoClient.juice second 1 0 "sdp".
Proof. split; vm_compute; reflexivity. Qed.
Lemma answers_second : @answers DemoClient.juice second 1 "sdp" 0 "sdp".
Proof. split; vm_compute; reflexivity. Qed.
End DemoPair.

(** ** Properties *)

(** One send builds the link.  Client [i] sends its first datagram to
    client [j] of its room, which has no link to [i].  Then [i]'s agent is made
    and described, the server passes the description on to [j] under [i]'s
    name, [j] makes an agent, sets that description and answers, the server
    passes the answer back, and [i]'s agent gets it - once, and at any later
    time at which its link is as it was.  Both ends then have a link whose
    agent knows the other's description; when [i]'s agent comes up, the
    datagram that was waiting is handed to it. *)
Theorem dial_is_answered `{!RoomRng} (Ja Jb : Juice) (fuel : nat) (s s' : Server) (p q : ptr) (i j : N)
    (a b : Client) (data : list byte) (aA aB : agent) (sdpA sdpB : string) :
  share_room s p i j -> share_room s' q j i ->
  ~ bad_send j data a -> links a !! j = None -> default 0 (attempts a !! j) < max_connection_attempts ->
  links b !! i = None ->
  @dials Ja a j aA sdpA -> @answers Jb b i (c_str sdpA) aB sdpB ->
  let offer := Proto.P2PSignal j Proto.Description (c_str sdpA) in
  let offered := Proto.P2PSignal i Proto.Description (c_str sdpA) in
  let answer := Proto.P2PSignal i Proto.Description (c_str sdpB) in
  let answered := Proto.P2PSignal j Proto.Description (c_str sdpB) in
  exists a1 b1 s1 s1',
    @SendP2P Ja j data a = Done true a1 /\ tx a1 = tx a ++ FrameMessage offer /\
    HandleMessage fuel p offer s = Done tt s1 /\ queue s1 j = queue s j ++ [FrameMessage offered] /\
    @Incoming Jb offered b = Done tt b1 /\ tx b1 = tx b ++ FrameMessage answer /\
    links b1 !! i = Some (PeerLink.mk aB true false []) /\ juice_set_remote_description aB (c_str sdpA) ∈ calls b1 /\
    HandleMessage fuel q answer s' = Done tt s1' /\ queue s1' i = queue s' i ++ [FrameMessage answered] /\
    links a1 !! j = Some (PeerLink.mk aA false false [data]) /\
    forall a', links a' !! j = links a1 !! j -> exists a2 a3,
      @Incoming Ja answered a' = Done tt a2 /\ links a2 !! j = Some (PeerLink.mk aA true false [data]) /\
      calls a2 = calls a' ++ [juice_set_remote_description aA (c_str sdpB)] /\
      HandleJuiceEvent (mkJuiceEvent aA j (State JUICE_STATE_CONNECTED)) a2 = Done tt a3 /\
      PeerConnectedP2P j a3 = true /\ calls a3 = calls a2 ++ [juice_send aA data].
Proof.
  intros Hs Hs' Hsend Hnone Hbudget Hnone' Hdials Hanswers offer offered answer answered.
  destruct (@SendP2P_dialling Ja j data a aA sdpA Hsend Hnone Hbudget Hdials) as (a1 & Hdial & Hlinks & Htx & _).
  destruct (relays fuel s p i j (c_str sdpA) Hs) as (s1 & Hrelay & Hqueue).
  assert (waiting_link i b = None) as Hwaiting by (unfold waiting_link; by rewrite Hnone').
  destruct (@Incoming_answering Jb i (c_str sdpA) b aB sdpB Hwaiting Hanswers) as (b1 & Hin & Hlinks' & Htx' & Hcalls' & _).
  destruct (relays fuel s' q j i (c_str sdpB) Hs') as (s1' & Hrelay' & Hqueue').
  assert (links a1 !! j = Some (PeerLink.mk aA false false [data])) as Hlink by (rewrite Hlinks; apply lookup_insert_eq).
  exists a1, b1, s1, s1'. split_and!; try done.
  - rewrite Hlinks'. apply lookup_insert_eq.
  - rewrite Hcalls', c_str_c_str. set_solver.
  - intros a' Ha'. rewrite Hlink in Ha'.
    destruct (@take_answer Ja j aA data sdpB a' Ha') as (a2 & a3 & ? & ? & _ & ? & ? & ? & ?). exists a2, a3. by split_and!.
Qed.

(** Client 1 sends one byte to client 2. *)
Lemma dial_is_answered_witness :
  exists a1 b1, @SendP2P DemoClient.juice 2 [x01] DemoPair.first = Done true a1 /\
    @Incoming DemoClient.juice (Proto.P2PSignal 1 Proto.Description "sdp") DemoPair.second = Done tt b1 /\
    links a1 !! 2 = Some (PeerLink.mk 0 false false [[x01]]) /\ links b1 !! 1 = Some (PeerLink.mk 0 true false []).
Proof.
  destruct (@dial_is_answered Demo.rng DemoClient.juice DemoClient.juice 0%nat Demo.server Demo.server 0%nat 1%nat 1 2
    DemoPair.first DemoPair.second [x01] 0 0 "sdp" "sdp" DemoPair.shares_first DemoPair.shares_second DemoPair.may_send
    eq_refl eq_refl eq_refl DemoPair.dials_first DemoPair.answers_second)
    as (a1 & b1 & _ & _ & Hdial & _ & _ & _ & Hin & _ & Hlinkb & _ & _ & _ & Hlinka & _).
  exists a1, b1. exact (conj Hdial (conj Hin (conj Hlinka Hlinkb))).
Defined.

(** Claim C30: crossed dials meet.  If both clients send to each other before either
    has heard of it, each makes an agent and offers its description; each then
    takes the other's offer as the answer to its own: no link is torn down and
    no third description is made.  Both ends have a link whose agent knows the
    other's description, and what waited on either side goes out when the
    agents come up. *)
Theorem crossed_dials_meet `{!RoomRng} (Ja Jb : Juice) (fuel : nat) (s s' : Server) (p q : ptr) (i j : N)
    (a b : Client) (dataA dataB : list byte) (aA aB : agent) (sdpA sdpB : string) :
  share_room s p i j -> share_room s' q j i ->
  ~ bad_send j dataA a -> links a !! j = None -> default 0 (attempts a !! j) < max_connection_attempts ->
  ~ bad_send i dataB b -> links b !! i = None -> default 0 (attempts b !! i) < max_connection_attempts ->
  @dials Ja a j aA sdpA -> @dials Jb b i aB sdpB ->
  exists a1 b1 s1 s1' a2 b2 a3 b3,
    @SendP2P Ja j dataA a = Done true a1 /\ @SendP2P Jb i dataB b = Done true b1 /\
    HandleMessage fuel p (Proto.P2PSignal j Proto.Description (c_str sdpA)) s = Done tt s1 /\
    queue s1 j = queue s j ++ [FrameMessage (Proto.P2PSignal i Proto.Description (c_str sdpA))] /\
    HandleMessage fuel q (Proto.P2PSignal i Proto.Description (c_str sdpB)) s' = Done tt s1' /\
    queue s1' i = queue s' i ++ [FrameMessage (Proto.P2PSignal j Proto.Description (c_str sdpB))] /\
    @Incoming Ja (Proto.P2PSignal j Proto.Description (c_str sdpB)) a1 = Done tt a2 /\
    @Incoming Jb (Proto.P2PSignal i Proto.Description (c_str sdpA)) b1 = Done tt b2 /\
    links a2 !! j = Some (PeerLink.mk aA true false [dataA]) /\ links b2 !! i = Some (PeerLink.mk aB true false [dataB]) /\
    tx a2 = tx a1 /\ tx b2 = tx b1 /\
    calls a2 = calls a1 ++ [juice_set_remote_description aA (c_str sdpB)] /\
    calls b2 = calls b1 ++ [juice_set_remote_description aB (c_str sdpA)] /\
    HandleJuiceEvent (mkJuiceEvent aA j (State JUICE_STATE_CONNECTED)) a2 = Done tt a3 /\
    HandleJuiceEvent (mkJuiceEvent aB i (State JUICE_STATE_CONNECTED)) b2 = Done tt b3 /\
    calls a3 = calls a2 ++ [juice_send aA dataA] /\ calls b3 = calls b2 ++ [juice_send aB dataB].
Proof.
  intros Hs Hs' HsendA HnoneA HbudgetA HsendB HnoneB HbudgetB HdialsA HdialsB.
  destruct (relays fuel s p i j (c_str sdpA) Hs) as (s1 & Hrelay & Hqueue).
  destruct (relays fuel s' q j i (c_str sdpB) Hs') as (s1' & Hrelay' & Hqueue').
  destruct (dial_and_take Ja j dataA a aA sdpA sdpB HsendA HnoneA HbudgetA HdialsA)
    as (a1 & a2 & a3 & HdialA & HinA & HlinkA & HtxA & HcallsA & HupA & HsentA).
  destruct (dial_and_take Jb i dataB b aB sdpB sdpA HsendB HnoneB HbudgetB HdialsB)
    as (b1 & b2 & b3 & HdialB & HinB & HlinkB & HtxB & HcallsB & HupB & HsentB).
  exists a1, b1, s1, s1', a2, b2, a3, b3. by split_and!.
Qed.

(** Clients 1 and 2 send to each other. *)
Lemma crossed_dials_meet_witness :
  exists a1 b1 a2 b2, @SendP2P DemoClient.juice 2 [x01] DemoPair.first = Done true a1 /\
    @SendP2P DemoClient.juice 1 [x02] DemoPair.second = Done true b1 /\
    links a2 !! 2 = Some (PeerLink.mk 0 true false [[x01]]) /\ links b2 !! 1 = Some (PeerLink.mk 0 true false [[x02]]).
Proof.
  destruct (@crossed_dials_meet Demo.rng DemoClient.juice DemoClient.juice 0%nat Demo.server Demo.server 0%nat 1%nat 1 2
    DemoPair.first DemoPair.second [x01] [x02] 0 0 "sdp" "sdp" DemoPair.shares_first DemoPair.shares_second DemoPair.may_send
    eq_refl eq_refl DemoPair.may_answer eq_refl eq_refl DemoPair.dials_first DemoPair.dials_second)
    as (a1 & b1 & _ & _ & a2 & b2 & _ & _ & HdialA & HdialB & _ & _ & _ & _ & _ & _ & HlinkA & HlinkB & _).
  exists a1, b1, a2, b2. exact (conj HdialA (conj HdialB (conj HlinkA HlinkB))).
Defined.
