(* ===== verification/Peering.v ===== *)
(** Two clients of the network build a peer-to-peer link.

    [Handshake] follows the calls one by one; here they are a run of the whole
    system, from [SendP2P] at one client through both sockets, [ReadLoop],
    [HandleP2PSignal], the writers and the polls of both clients. *)
From S2P Require Import Prelude Wire Protocol Framing Stream RoomCache Server ServerExec Lobby WellFormed.
From S2P Require Import Refine ServerInv Rules Authority Mirror Sendable Session SessionInv Scheduler Turns Reader.
From S2P Require Import Client ClientMesh ClientConn MeshRules ClientSends Network NetRuns Settle Delivery Handshake.
Local Open Scope N_scope.
#[local] Opaque FrameMessage.

Section Peering.
Context `{!RoomRng, !Juice, !ShortSdp}.

(** ** Polls without events *)

(** A poll that reads one message, and one that only writes; the ICE library has
    said nothing. *)
Lemma Poll_message msg c c' :
  socket_open c = true -> rx c = [] -> rx_msg c = [] -> sendable msg ->
  Incoming msg (set_rx (FrameMessage msg) c) = Done tt c' -> events c' = [] ->
  Poll [FrameMessage msg] false [] c = Done true (set_rx [] c').
Proof.
  intros Hopen Hrx Hmsg Hm Hin Hevents. unfold Poll. rewrite bind_gets, Hopen. cbn [negb].
  rewrite (bind_done _ _ _ true (set_rx (FrameMessage msg) c)) by (destruct c; cbn in *; by subst). cbn [negb].
  rewrite (bind_done _ _ _ true (set_rx [] c')).
  2:{ unfold CarveServer. rewrite bind_gets. erewrite (bind_done _ _ _ (Some []) c'); [done|].
      apply (carve_message _ [] (FrameMessage msg) msg); [done|done|done| |].
      - rewrite <-(app_nil_r (FrameMessage msg)). apply (pending_all [msg]).
      - rewrite <-Hin. f_equal. destruct c. cbn in *. by subst. }
  cbn [negb]. rewrite (bind_done _ _ _ tt (set_rx [] c')).
  2:{ unfold PollPeers. rewrite bind_gets, bind_modify. destruct c'. cbn in *. by subst. }
  cbn [FlushServer]. rewrite bind_gets. by case_bool_decide.
Qed.

Lemma Poll_writes c :
  socket_open c = true -> rx c = [] -> rx_msg c = [] -> events c = [] ->
  Poll [] false [Sent (length (tx c))] c = Done true (set_tx [] c) /\
  poll_written [] false [Sent (length (tx c))] c = tx c.
Proof.
  intros Hopen Hrx Hmsg Hevents.
  assert (Poll [] false [] c = Done true c) as Hpoll.
  { unfold Poll. rewrite bind_gets, Hopen. cbn [negb]. rewrite (bind_done _ _ _ true c) by done. cbn [negb].
    rewrite (bind_done _ _ _ true c).
    2:{ unfold CarveServer. rewrite bind_gets, Hrx. cbn. destruct c. cbn in *. by subst. }
    cbn [negb]. rewrite (bind_done _ _ _ tt c).
    2:{ unfold PollPeers. rewrite bind_gets, bind_modify, Hevents. destruct c. cbn in *. by subst. }
    cbn [FlushServer]. rewrite bind_gets. by case_bool_decide. }
  split.
  - rewrite Poll_split, (bind_done _ _ _ true c) by done. cbn [FlushServer]. rewrite bind_gets.
    case_bool_decide as Htx; [destruct c; cbn in *; by subst|]. rewrite bind_modify, drop_all. done.
  - unfold poll_written. rewrite Hpoll. cbn [flushed]. case_bool_decide as Htx; [done|].
    rewrite firstn_all, drop_all. cbn. apply app_nil_r.
Qed.

(** A poll in which the ICE library has said one thing. *)
Lemma Poll_event ev c c' :
  socket_open c = true -> rx c = [] -> rx_msg c = [] -> events c = [] ->
  HandleJuiceEvent ev c = Done tt c' -> Poll [] false [] (PushJuiceEvent ev c) = Done true c'.
Proof.
  intros Hopen Hrx Hmsg Hevents Hrun. unfold Poll. rewrite bind_gets. cbn [PushJuiceEvent socket_open set_events].
  rewrite Hopen. cbn [negb]. rewrite (bind_done _ _ _ true (PushJuiceEvent ev c)) by done. cbn [negb].
  rewrite (bind_done _ _ _ true (PushJuiceEvent ev c)).
  2:{ unfold CarveServer. rewrite bind_gets. destruct c. cbn in *. by subst. }
  cbn [negb]. rewrite (bind_done _ _ _ tt c').
  2:{ unfold PollPeers. rewrite bind_gets, bind_modify. cbn [PushJuiceEvent events set_events]. rewrite Hevents. cbn [app for_each].
      rewrite (bind_done _ _ _ tt c'); [done|]. rewrite <-Hrun. f_equal. destruct c. cbn in *. by subst. }
  cbn [FlushServer]. rewrite bind_gets. by case_bool_decide.
Qed.

(** ** Clients with nothing under way *)

(** A client between two polls: its socket stands, it holds no part of a message,
    and the ICE library has said nothing. *)
Definition composed (k : Client) : Prop :=
  socket_open k = true /\ rx k = [] /\ rx_msg k = [] /\ events k = [].

(** It has read all that the server sent and has queued, [have] has arrived of
    what it wrote, and nothing is on its way; [code] is its room. *)
Definition idle (n : Net) (p : ptr) (code : string) (k : Client) (have : list byte) : Prop :=
  exists c w, nodes n !! p = Some (Node.mk k (length (sk_out (Connection.socket c))) []) /\
    conn_at (sys n) p c (Task.mk (Reading [] AwaitHeader) w) /\ w <> Finished /\ in_hand w = [] /\
    Connection.out c = [] /\ sk_in (Connection.socket c) = have /\ Connection.room c = code /\ composed k.

(** It has read all but [msg]. *)
Definition addressed (n : Net) (p : ptr) (code : string) (k : Client) (msg : Proto.ServerMessage) : Prop :=
  exists c w taken, nodes n !! p = Some (Node.mk k taken []) /\
    conn_at (sys n) p c (Task.mk (Reading [] AwaitHeader) w) /\ w <> Finished /\
    pipeline c w = take taken (pipeline c w) ++ FrameMessage msg /\ (taken <= length (pipeline c w))%nat /\
    sk_in (Connection.socket c) = [] /\ Connection.room c = code /\ composed k.

Lemma idle_settled n p code k have : idle n p code k have -> settled n p k.
Proof.
  intros (c & w & Hnode & Hat & Hw & Hhand & Hout & _ & _ & Hopen & _). eexists _, c, _.
  split_and!; try done. split; [done|]. by exists [], AwaitHeader.
Qed.

Lemma settled_idle n p k :
  net_ok n -> settled n p k -> caught_up n p -> events k = [] -> RoomId k <> EmptyString ->
  idle n p (RoomId k) k [] /\ tx k = [].
Proof.
  intros Hn Hs (node & c & w & Hnode & Hat & Hin & Hup & Htx) Hevents Hroom.
  destruct (settled_known n p k c Hn Hs (proj1 Hat) Hroom) as [_ Hcode].
  destruct (settled_sees n p k Hn Hs) as (_ & _ & _ & _ & _ & Hmsg & Hrx).
  destruct Hs as (node' & c' & t' & Hnode' & <- & Hopen & Hat' & [Hw _] & Hhand & Hout & Htaken).
  destruct (conn_at_unique _ _ _ _ _ _ Hat Hat') as [-> ->]. simplify_eq. split; [|done].
  destruct node' as [k taken up]. cbn [Node.app Node.taken Node.up] in *. subst up taken. by exists c, w.
Qed.

Lemma only_at_idle p n n' q code k have : only_at p n n' -> q <> p -> idle n q code k have -> idle n' q code k have.
Proof.
  intros [[_ _ Hothers] Hnodes] Hq (c & w & Hnode & [Hc Ht] & ?). destruct (Hothers q Hq) as [Eheap Etasks].
  exists c, w. split_and!; try tauto; [by rewrite Hnodes|]. split; congruence.
Qed.

(** A call that has nothing to do with the socket. *)
Lemma idle_call n p code k k1 have : idle n p code k have -> composed k1 -> idle (with_client p k1 n) p code k1 have.
Proof.
  intros (c & w & Hnode & Hat & ?) Hk1. exists c, w. split_and!; try tauto; try apply Hk1.
  cbn. by rewrite lookup_alter_eq, Hnode.
Qed.

(** ** From one client to the other *)

(** The client writes, and all of it arrives. *)
Lemma idle_writes n p code k :
  ids_left (sys n) -> idle n p code k [] ->
  exists n', runs n n' /\ only_at p n n' /\ idle n' p code (set_tx [] k) (tx k).
Proof.
  intros Hleft (c & w & Hnode & Hat & Hw & Hhand & Hout & Hin & Hroom & Hcalm).
  destruct (Poll_writes k) as [Hrun Hwritten]; [by apply Hcalm..|].
  set (node1 := Node.mk (set_tx [] k) (length (sk_out (Connection.socket c)) + length (concat ([] : list (list byte)))) ([] ++ tx k)).
  set (n1 := mkNet (sys n) (<[p := node1]> (nodes n))).
  assert (WriteFailed ∉ [Sent (length (tx k))]) as Hsent by (by intros [=]%list_elem_of_singleton).
  assert (goes_on n n1) as Hstep.
  { pose proof (on_poll n p _ c [] [Sent (length (tx k))] true (set_tx [] k) Hnode (proj1 Hat) (proj1 Hcalm) (prefix_nil _)
      Hsent Hrun) as Hstep. cbn [Node.app Node.up Node.taken] in Hstep. rewrite Hwritten in Hstep. exact Hstep. }
  assert (nodes n1 !! p = Some node1) as Hnode1 by apply lookup_insert_eq.
  exists (arrived p node1 n1). split_and!.
  - apply (runs_step _ n1); [done..|]. apply rtc_once. split; [by apply arrived_step|done].
  - apply (only_at_trans _ _ n1); [|apply arrived_only]. split; [apply only_refl|]. intros q Hq. by apply lookup_insert_ne.
  - exists (Connection.set_socket (set_sk_in (sk_in (Connection.socket c) ++ tx k) (Connection.socket c)) c), w.
    destruct Hat as [Hc Ht]. split_and!; try done; try apply Hcalm.
    + cbn. rewrite lookup_insert_eq. by rewrite Nat.add_0_r.
    + split; [|done]. cbn. by rewrite lookup_alter_eq, Hc.
    + cbn. by rewrite Hin.
Qed.

(** [ReadLoop] gets to the message that has arrived, the only one. *)
Lemma idle_read n p code k msg :
  net_ok n -> ids_left (sys n) -> sendable msg -> idle n p code k (FrameMessage msg) ->
  exists y c body at_point w, runs n (mkNet y (nodes n)) /\ only p (sys n) y /\
    nodes n !! p = Some (Node.mk k (length (sk_out (Connection.socket c))) []) /\
    conn_at y p c (Task.mk (Reading body at_point) w) /\ w <> Finished /\ in_hand w = [] /\ Connection.out c = [] /\
    Connection.room c = code /\ composed k /\ needed at_point <= sizeN (sk_in (Connection.socket c)) /\
    on_read body (take (N.to_nat (needed at_point)) (sk_in (Connection.socket c))) at_point = Handle msg /\
    drop (N.to_nat (needed at_point)) (sk_in (Connection.socket c)) = [].
Proof.
  intros Hn Hleft Hmsg (c & w & Hnode & Hat & Hw & Hhand & Hout & Hin & Hroom & Hcalm).
  destruct (reader_hands_on n p c [] AwaitHeader w msg [] Hn Hleft Hat Hmsg (Forall_nil_2 _))
    as (y & c1 & body & at_point & Hruns & Honly & Hat1 & _ & Hroom1 & Hout1 & Hsent1 & Hexp & Hneeded & Hread).
  { constructor. rewrite Hin, <-(app_nil_r (FrameMessage _)). apply (pending_all [msg]). }
  exists y, c1, body, at_point, w. split_and!; try done; try apply Hcalm; [by rewrite Hsent1|congruence..|].
  pose proof (on_read_expects body at_point (sk_in (Connection.socket c1)) [] [msg]) as Hnext. rewrite app_nil_r in Hnext.
  specialize (Hnext (Forall_cons_2 _ _ _ Hmsg (Forall_nil_2 _)) Hexp Hneeded). cbv zeta in Hnext. rewrite Hread, app_nil_r in Hnext.
  destruct Hnext as (ms & [= <-] & Hdone). inversion Hdone as [? ? ? Hp|]; subst. by apply pending_nil in Hp as [_ ->].
Qed.

(** The server passes a signal on to another member of the room. *)
Lemma signal_handled n p q code k kq r payload :
  let asked := Proto.P2PSignal (N.of_nat q + 1) Proto.Description payload in
  let told := Proto.P2PSignal (N.of_nat p + 1) Proto.Description payload in
  net_ok n -> ids_left (sys n) -> p <> q -> rooms (server (sys n)) !! code = Some r -> N.of_nat q + 1 ∈ Room.members r ->
  sendable asked -> idle n p code k (FrameMessage asked) -> idle n q code kq [] ->
  exists n', runs n n' /\ ids_left (sys n') /\ rooms (server (sys n')) = rooms (server (sys n)) /\
    idle n' p code k [] /\ sendable told /\ addressed n' q code kq told.
Proof.
  intros asked told Hn Hleft Hpq Hr Hmember Hmsg Hp Hq.
  destruct (idle_read n p code k asked Hn Hleft Hmsg Hp) as (y1 & c & body & at_point & w & Hruns & Honly & Hnode & Hat & Hw
    & Hhand & Hout & Hroom & Hcalm & Hneeded & Hread & Hrest).
  set (n1 := mkNet y1 (nodes n)) in *. pose proof (runs_ok _ _ Hn Hruns) as Hn1. pose proof (only_left _ _ _ Honly Hleft) as Hleft1.
  apply (only_at_idle p n n1) in Hq; [|by split|done].
  destruct Hq as (cq & wq & Hnodeq & Hatq & Hwq & Hhandq & Houtq & Hinq & Hroomq & Hcalmq).
  pose proof (net_sys _ Hn1) as Hy1. cbn [sys n1] in Hatq, Hy1, Hleft1.
  destruct (ok_ids _ Hy1 _ _ (proj1 Hat)) as [Hidp _]. destruct (ok_ids _ Hy1 _ _ (proj1 Hatq)) as [Hidq _].
  destruct (message_turn y1 p c body at_point w 0 _ _ Hy1 Hat Hneeded Hread eq_refl) as (y2 & Hstep & Hturn).
  unfold lobby_signal, in_room in Hturn.
  rewrite (only_rooms _ _ _ Honly), Hroom, Hr, bool_decide_true, Hidp in Hturn by (rewrite Hidp; split; [lia|done]).
  fold told in Hturn. pose proof (turn_genuine _ _ _ _ _ _ _ _ Hy1 Hturn) as [[Htold _] _]%Forall_cons.
  pose proof (turn_rooms _ _ _ _ _ _ _ _ Hturn) as Hrooms. pose proof (turn_tasks _ _ _ _ _ _ _ _ Hturn) as Htasks.
  pose proof (reading_registered y1 Hy1 q cq [] AwaitHeader wq (proj1 Hatq) (proj2 Hatq)) as Hregq. rewrite Hidq in Hregq.
  destruct (turn_moves _ _ _ _ _ _ _ _ _ _ _ Hturn Hat) as (cp' & tp & Hatp & Hcp & _).
  destruct (turn_moves _ _ _ _ _ _ _ _ _ _ _ Hturn Hatq) as (cq' & tq & Hatq' & Hcq & _).
  rewrite decide_True in Hcp by done. rewrite decide_False in Hcq by done.
  assert (tp = Task.mk (Reading [] AwaitHeader) w) as -> by (destruct Hatp as [_ Htp]; rewrite Htasks, lookup_insert_eq in Htp; by simplify_eq).
  assert (tq = Task.mk (Reading [] AwaitHeader) wq) as ->
    by (destruct Hatq as [_ Htq], Hatq' as [_ Htq']; rewrite Htasks, lookup_insert_ne in Htq' by done; congruence).
  unfold conn_after in Hcp, Hcq. cbn [connections update_conn set_heap d_sent send no_delta app] in Hcp, Hcq.
  rewrite reaching_one, Hregq, decide_False in Hcp by congruence. rewrite reaching_one, Hregq, decide_True in Hcq by done.
  assert (ids_left y2) as Hleft2 by (unfold ids_left; by rewrite (turn_next _ _ _ _ _ _ _ _ Hturn)).
  exists (mkNet y2 (nodes n)). split_and!; try done.
  - apply (rtc_r _ n1); [done|]. split; [exact (on_server n1 y2 Hstep)|done].
  - cbn [sys]. rewrite Hrooms. exact (only_rooms _ _ _ Honly).
  - assert (sk_out (Connection.socket cp') = sk_out (Connection.socket c) /\ Connection.out cp' = [] /\
      sk_in (Connection.socket cp') = [] /\ Connection.room cp' = code) as (E1 & E2 & E3 & E4)
      by (rewrite Hcp; cbn; rewrite lookup_empty, Hout, Hrest; by split_and!).
    exists cp', w. rewrite E1. split_and!; try done; apply Hcalm.
  - assert (pipeline cq' wq = sk_out (Connection.socket cq) ++ FrameMessage told /\
      sk_in (Connection.socket cq') = [] /\ Connection.room cq' = code) as (E1 & E2 & E3).
    { unfold pipeline. change (match wq with Writing frame => frame | _ => [] end) with (in_hand wq).
      rewrite Hcq. cbn. rewrite lookup_empty, Hhandq, Houtq. cbn. by rewrite app_nil_r. }
    exists cq', wq, (length (sk_out (Connection.socket cq))). rewrite E1, take_app_length, length_app.
    split_and!; try done; try apply Hcalmq. lia.
Qed.

(** The client [k1] has taken [msg] over from the client [k], which left the
    socket and the queues of the ICE library alone. *)
Definition takes (msg : Proto.ServerMessage) (k k1 : Client) : Prop :=
  Incoming msg (set_rx (FrameMessage msg) k) = Done tt k1 /\ view k1 = view (set_rx (FrameMessage msg) k) /\
  events k1 = events k.

(** The writer sends the message, and the client reads it. *)
Lemma addressed_reads n p code k msg k1 :
  net_ok n -> ids_left (sys n) -> sendable msg -> addressed n p code k msg -> takes msg k k1 ->
  exists n', runs n n' /\ only_at p n n' /\ idle n' p code (set_rx [] k1) [].
Proof.
  intros Hn Hleft Hmsg (c & w & taken & Hnode & Hat & Hw & Hpipe & Htaken & Hin & Hroom & Hopen & Hrx & Hrxmsg & Hevents)
    (Hincoming & (_ & _ & Hmsg1 & _ & Hopen1)%view_inv & Hevents1). cbn in Hmsg1, Hopen1.
  destruct (writer_drains n p c [] AwaitHeader w Hn Hleft Hat Hw)
    as (y1 & c1 & w1 & Hruns & Honly & Hat1 & Hw1 & _ & Hroom1 & Hin1 & Hpipe1 & Hhand & Hout).
  assert (sk_out (Connection.socket c1) = take taken (pipeline c w) ++ FrameMessage msg) as Hsent.
  { rewrite <-Hpipe, <-Hpipe1. unfold pipeline. change (match w1 with Writing frame => frame | _ => [] end) with (in_hand w1).
    rewrite Hhand, Hout. cbn. by rewrite app_nil_r. }
  pose proof (Poll_message msg k k1 Hopen Hrx Hrxmsg Hmsg Hincoming ltac:(by rewrite Hevents1)) as Hrun.
  set (n1 := mkNet y1 (nodes n)).
  assert (goes_on n1 (mkNet y1 (<[p := Node.mk (set_rx [] k1) (length (sk_out (Connection.socket c1))) []]> (nodes n)))) as Hstep.
  { pose proof (on_poll n1 p _ c1 [FrameMessage msg] [] true (set_rx [] k1) Hnode (proj1 Hat1) Hopen) as Hstep.
    cbn [Node.app Node.taken Node.up concat] in Hstep. rewrite app_nil_r in Hstep.
    assert (length (sk_out (Connection.socket c1)) = (taken + length (FrameMessage msg))%nat) as ->
      by (rewrite Hsent, length_app, length_take_le by done; done).
    assert (poll_written [FrameMessage msg] false [] k = []) as E.
    { unfold poll_written. rewrite Hrun. cbn [flushed]. by case_bool_decide. }
    rewrite E in Hstep. apply Hstep; [|apply not_elem_of_nil|done].
    rewrite Hsent. rewrite drop_app_length' by (by rewrite length_take_le). done. }
  eexists. split; [|split; [|]].
  - apply (rtc_r _ n1); [exact Hruns|]. split; [exact Hstep|]. exact (only_left _ _ _ Honly Hleft).
  - split; [done|]. intros q Hq. by apply lookup_insert_ne.
  - exists c1, w1. split_and!; try done; [cbn; apply lookup_insert_eq|congruence..|].
    split_and!; cbn; congruence.
Qed.

(** A description gets from one client to the other. *)
Lemma signal_travels n p q code k kq r payload kq1 :
  let asked := Proto.P2PSignal (N.of_nat q + 1) Proto.Description payload in
  net_ok n -> ids_left (sys n) -> p <> q -> rooms (server (sys n)) !! code = Some r -> N.of_nat q + 1 ∈ Room.members r ->
  sendable asked -> tx k = FrameMessage asked -> idle n p code k [] -> idle n q code kq [] ->
  takes (Proto.P2PSignal (N.of_nat p + 1) Proto.Description payload) kq kq1 ->
  exists n', runs n n' /\ ids_left (sys n') /\ rooms (server (sys n')) = rooms (server (sys n)) /\
    idle n' p code (set_tx [] k) [] /\ idle n' q code (set_rx [] kq1) [].
Proof.
  intros asked Hn Hleft Hpq Hr Hmember Hmsg Htx Hp Hq Htakes.
  destruct (idle_writes n p code k Hleft Hp) as (n1 & Hruns1 & Honly1 & Hp1). rewrite Htx in Hp1.
  apply (only_at_idle p n n1) in Hq; [|done..]. pose proof (only_rooms _ _ _ (at_sys _ _ _ Honly1)) as Hrooms1.
  pose proof (runs_ok _ _ Hn Hruns1) as Hn1. pose proof (only_left _ _ _ (at_sys _ _ _ Honly1) Hleft) as Hleft1.
  destruct (signal_handled n1 p q code (set_tx [] k) kq r payload Hn1 Hleft1 Hpq) as (n2 & Hruns2 & Hleft2 & Hrooms2 & Hp2 & Htold & Hq2);
    try done; [congruence|]. pose proof (runs_ok _ _ Hn1 Hruns2) as Hn2.
  destruct (addressed_reads n2 q code kq _ kq1 Hn2 Hleft2 Htold Hq2 Htakes) as (n3 & Hruns3 & Honly3 & Hq3).
  exists n3. split_and!.
  - etransitivity; [exact Hruns1|]. by etransitivity.
  - exact (only_left _ _ _ (at_sys _ _ _ Honly3) Hleft2).
  - rewrite (only_rooms _ _ _ (at_sys _ _ _ Honly3)). congruence.
  - by apply (only_at_idle q n2).
  - done.
Qed.

(** The ICE library reports something, and the client polls. *)
Lemma event_polled n p code k ev k1 :
  ids_left (sys n) -> idle n p code k [] -> short_event ev ->
  HandleJuiceEvent ev k = Done tt k1 -> view k1 = view k -> events k1 = events k ->
  let n1 := with_client p (PushJuiceEvent ev k) n in
  exists n', net_step n n1 /\ runs n1 n' /\ only_at p n n' /\ idle n' p code k1 [].
Proof.
  intros Hleft (c & w & Hnode & Hat & Hw & Hhand & Hout & Hin & Hroom & Hopen & Hrx & Hmsg & Hevents) Hev Hrun
    (_ & Hrx1 & Hmsg1 & _ & Hopen1)%view_inv Hevents1 n1.
  pose proof (Poll_event ev k k1 Hopen Hrx Hmsg Hevents Hrun) as Hpoll.
  assert (nodes n1 !! p = Some (Node.mk (PushJuiceEvent ev k) (length (sk_out (Connection.socket c))) [])) as Hnode1
    by (cbn; by rewrite lookup_alter_eq, Hnode).
  set (n2 := mkNet (sys n) (<[p := Node.mk k1 (length (sk_out (Connection.socket c))) []]> (nodes n1))).
  assert (goes_on n1 n2) as Hstep.
  { pose proof (on_poll n1 p _ c [] [] true k1 Hnode1 (proj1 Hat) Hopen (prefix_nil _) (not_elem_of_nil _) Hpoll) as Hstep.
    cbn [Node.app Node.taken Node.up concat length] in Hstep. rewrite Nat.add_0_r in Hstep.
    assert (poll_written [] false [] (PushJuiceEvent ev k) = []) as E.
    { unfold poll_written. rewrite Hpoll. cbn [flushed]. by case_bool_decide. }
    rewrite E in Hstep. exact Hstep. }
  exists n2. split_and!.
  - by apply (with_client_step p (Node.mk k (length (sk_out (Connection.socket c))) []) _ n Hnode), call_back.
  - apply rtc_once. by split.
  - apply (only_at_trans _ _ n1); [apply with_client_only|]. split; [apply only_refl|]. intros q Hq. by apply lookup_insert_ne.
  - exists c, w. split_and!; try done; [cbn; apply lookup_insert_eq|split_and!; congruence].
Qed.

(** ** The link *)

(** What the ICE library says. *)
Definition came_up (a : agent) (id : N) : JuiceEvent := mkJuiceEvent a id (State JUICE_STATE_CONNECTED).
Definition received_data (a : agent) (id : N) (data : list byte) : JuiceEvent := mkJuiceEvent a id (Recv data).

(** The calls of a client without a link that answers an offer, and of one that
    makes an offer. *)
Definition answer_calls (k : Client) (id : N) (payload : string) (b : agent) : list juice_call :=
  [juice_create (link_config (_ice k)) id (Some b); juice_set_remote_description b (c_str payload);
   juice_get_local_description b; juice_gather_candidates b].
Definition offer_calls (k : Client) (id : N) (a : agent) : list juice_call :=
  [juice_create (link_config (_ice k)) id (Some a); juice_get_local_description a; juice_gather_candidates a].

Lemma takes_answering (id : N) payload k (b : agent) sdp :
  links k !! id = None -> answers k id payload b sdp ->
  exists k1, takes (Proto.P2PSignal id Proto.Description payload) k k1 /\
    links k1 = <[id := PeerLink.mk b true false []]> (links k) /\
    tx k1 = tx k ++ FrameMessage (Proto.P2PSignal id Proto.Description (c_str sdp)) /\
    calls k1 = calls k ++ answer_calls k id payload b.
Proof.
  intros Hnone Hanswers. set (msg := Proto.P2PSignal id Proto.Description payload).
  destruct (Incoming_answering id payload (set_rx (FrameMessage msg) k) b sdp) as (k1 & Hrun & Hlinks & Htx & Hcalls & Hview & Hevents).
  - unfold waiting_link. cbn. by rewrite Hnone.
  - unfold answers, hung_up in *. cbn. by destruct (links k !! id).
  - exists k1. split; [by split_and!|]. split_and!; [done|done|]. rewrite Hcalls. unfold hung_up. cbn. by rewrite Hnone.
Qed.

Lemma takes_waiting id payload k l :
  waiting_link id k = Some l ->
  exists k1, takes (Proto.P2PSignal id Proto.Description payload) k k1 /\
    links k1 = <[id := PeerLink.set_remote_set true l]> (links k) /\ tx k1 = tx k /\
    calls k1 = calls k ++ [juice_set_remote_description (PeerLink.agent l) (c_str payload)].
Proof.
  intros Hl. set (msg := Proto.P2PSignal id Proto.Description payload).
  pose proof (Incoming_waiting id payload (set_rx (FrameMessage msg) k) l Hl) as Hrun.
  eexists. split; [split; [exact Hrun|done]|]. done.
Qed.

Lemma sendable_description n p c log a sdp :
  net_ok n -> ids_left (sys n) -> heap (server (sys n)) !! p = Some c -> description_answer log a = Some sdp ->
  sendable (Proto.P2PSignal (N.of_nat p + 1) Proto.Description (c_str sdp)).
Proof.
  intros Hn Hleft Hc Hsdp. destruct (ok_ids _ (net_sys _ Hn) _ _ Hc) as [_ Hp]. apply sendable_signal; [|done|].
  - unfold ids_left, fits in *. cbn in *. lia.
  - etransitivity; [apply c_str_short|]. exact (description_fits _ _ _ Hsdp).
Qed.

Lemma idle_heap n p code k have : idle n p code k have -> exists c, heap (server (sys n)) !! p = Some c.
Proof. intros (c & w & _ & [Hc _] & _). by exists c. Qed.

(** A dial, its way to the other client, the answer, and its way back. *)
Lemma dial_answered n p q code k kq r data a b sdpA sdpB :
  net_ok n -> ids_left (sys n) -> p <> q -> rooms (server (sys n)) !! code = Some r ->
  N.of_nat p + 1 ∈ Room.members r -> N.of_nat q + 1 ∈ Room.members r ->
  idle n p code k [] -> idle n q code kq [] -> tx k = [] -> tx kq = [] ->
  ~ bad_send (N.of_nat q + 1) data k -> links k !! (N.of_nat q + 1) = None ->
  default 0 (attempts k !! (N.of_nat q + 1)) < max_connection_attempts -> links kq !! (N.of_nat p + 1) = None ->
  dials k (N.of_nat q + 1) a sdpA -> answers kq (N.of_nat p + 1) (c_str sdpA) b sdpB ->
  exists k1 n' k2 kq2, SendP2P (N.of_nat q + 1) data k = Done true k1 /\ net_step n (with_client p k1 n) /\
    runs (with_client p k1 n) n' /\ ids_left (sys n') /\ rooms (server (sys n')) = rooms (server (sys n)) /\
    idle n' p code k2 [] /\ idle n' q code kq2 [] /\
    links k2 !! (N.of_nat q + 1) = Some (PeerLink.mk a true false [data]) /\
    links kq2 !! (N.of_nat p + 1) = Some (PeerLink.mk b true false []) /\
    calls k1 = calls k ++ offer_calls k (N.of_nat q + 1) a /\
    calls k2 = calls k1 ++ [juice_set_remote_description a (c_str sdpB)] /\
    calls kq2 = calls kq ++ answer_calls kq (N.of_nat p + 1) (c_str sdpA) b.
Proof.
  intros Hn Hleft Hpq Hr Hmp Hmq Hp Hq Htxp Htxq Hsend Hnone Hbudget Hnone' Hdials Hanswers.
  destruct (SendP2P_dialling _ data k a sdpA Hsend Hnone Hbudget Hdials) as (k1 & Hrun & Hlinks & Htx & Hcalls & Hview & Hevents).
  pose proof (call_send_p2p _ _ _ _ _ Hrun) as Hcall.
  pose proof Hp as (c & w & Hnode & _ & _ & _ & _ & _ & _ & Hopen & Hrx & Hmsg & Hno).
  apply view_inv in Hview as (_ & Hrx1 & Hmsg1 & _ & Hopen1).
  assert (composed k1) as Hk1 by (split_and!; congruence).
  pose proof (with_client_step p _ _ n Hnode Hcall) as Hstep. set (n1 := with_client p k1 n) in *.
  pose proof (net_step_ok n n1 Hn Hstep Hleft) as Hn1.
  pose proof (idle_call n p code k k1 [] Hp Hk1) as Hp1. fold n1 in Hp1.
  apply (only_at_idle p n n1) in Hq; [|apply with_client_only|done].
  destruct (idle_heap _ _ _ _ _ Hp1) as (cp & Hcp). destruct (idle_heap _ _ _ _ _ Hq) as (cq & Hcq).
  destruct (takes_answering (N.of_nat p + 1) (c_str sdpA) kq b sdpB) as (kq1 & Htakes & Hlinksq & Htxq1 & Hset); [done..|].
  rewrite Htxp in Htx. rewrite Htxq in Htxq1. cbn [app] in Htx, Htxq1.
  destruct (signal_travels n1 p q code k1 kq r (c_str sdpA) kq1 Hn1 Hleft Hpq Hr Hmq) as (n2 & Hruns2 & Hleft2 & Hrooms2 & Hp2 & Hq2); try done.
  { exact (sendable_description n1 q cq _ _ _ Hn1 Hleft Hcq (opens_describe _ _ _ _ _ _ Hdials)). }
  pose proof (runs_ok _ _ Hn1 Hruns2) as Hn2.
  destruct (takes_waiting (N.of_nat q + 1) (c_str sdpB) (set_tx [] k1) (PeerLink.mk a false false [data])) as (k2 & Htakes2 & Hlinks2 & _ & Hcalls2).
  { unfold waiting_link. cbn. by rewrite Hlinks, lookup_insert_eq. }
  destruct (signal_travels n2 q p code (set_rx [] kq1) (set_tx [] k1) r (c_str sdpB) k2 Hn2 Hleft2) as (n3 & Hruns3 & Hleft3 & Hrooms3 & Hq3 & Hp3);
    try done; [by rewrite Hrooms2| |].
  { destruct (idle_heap _ _ _ _ _ Hp2) as (cp2 & Hcp2).
    exact (sendable_description n2 p cp2 _ _ _ Hn2 Hleft2 Hcp2 (opens_describe _ _ _ _ _ _ Hanswers)). }
  exists k1, n3, (set_rx [] k2), (set_tx [] (set_rx [] kq1)). split_and!; try done.
  - by etransitivity.
  - rewrite Hrooms3. exact Hrooms2.
  - cbn. by rewrite Hlinks2, lookup_insert_eq.
  - cbn. by rewrite Hlinksq, lookup_insert_eq.
  - cbn. by rewrite Hcalls2, c_str_c_str.
Qed.

(** The agent comes up: what waited is handed to it. *)
Lemma dial_comes_up n p code k id a data :
  ids_left (sys n) -> idle n p code k [] -> links k !! id = Some (PeerLink.mk a true false [data]) ->
  let n1 := with_client p (PushJuiceEvent (came_up a id) k) n in
  exists n' k', net_step n n1 /\ runs n1 n' /\ only_at p n n' /\ idle n' p code k' [] /\
    PeerConnectedP2P id k' = true /\ calls k' = calls k ++ [juice_send a data].
Proof.
  intros Hleft Hk Hl n1.
  destruct (comes_up id k (PeerLink.mk a true false [data]) Hl) as (k' & Hrun & Hup & Hcalls & Hview & Hevents).
  destruct (event_polled n p code k (came_up a id) k' Hleft Hk) as (n' & Hstep & Hruns & Honly & Hk'); try done.
  by exists n', k'.
Qed.

(** The agent has received a datagram: the program is handed it. *)
Lemma data_comes_in n p code k id (b : agent) data l :
  ids_left (sys n) -> idle n p code k [] -> links k !! id = Some l -> PeerLink.agent l = b ->
  let n1 := with_client p (PushJuiceEvent (received_data b id data) k) n in
  exists n' k', net_step n n1 /\ runs n1 n' /\ idle n' p code k' [] /\
    _p2p_inbox k' = _p2p_inbox k ++ [(id, data)] /\ calls k' = calls k.
Proof.
  intros Hleft Hk Hl Hb n1.
  destruct (event_polled n p code k (received_data b id data) (set_p2p_inbox (_p2p_inbox k ++ [(id, data)]) k) Hleft Hk)
    as (n' & Hstep & Hruns & _ & Hk'); try done; [by rewrite (HandleJuiceEvent_own _ _ l)|].
  by eexists n', _.
Qed.

(** Two members of one room, who have read everything. *)
Lemma settled_pair n p q k kq : net_ok n -> settled n p k -> settled n q kq -> p <> q ->
  RoomId k <> EmptyString -> RoomId kq = RoomId k ->
  Id k = N.of_nat p + 1 /\ Id kq = N.of_nat q + 1 /\ Id kq ∈ _members (_room_cache k) /\
  exists r, rooms (server (sys n)) !! RoomId k = Some r /\ Id k ∈ Room.members r /\ Id kq ∈ Room.members r.
Proof.
  intros Hn Hp Hq Hpq Hroom Hsame.
  destruct (settled_room n p k Hn Hp Hroom) as (Hidp & r & Hr & _ & Hcache & Hmembers & Hinp).
  destruct (settled_room n q kq Hn Hq) as (Hidq & r' & Hr' & _ & _ & _ & Hinq); [congruence|].
  rewrite Hsame, Hr in Hr'. injection Hr' as <-. split_and!; try done; [|by exists r].
  by rewrite <-Hmembers in Hinq.
Qed.
End Peering.

(** ** The property *)

(** Claim C8: a datagram gets through.  Take any state the server, its library
    clients and the network can get to, and two members of one room who have
    read everything, have nothing under way and no link to each other, and whose
    ICE library can make, describe and start an agent.  [SendP2P] returns true,
    and the system left to itself can build the link: the offer goes through the
    server to the other client, which answers, the answer comes back, and each
    end has a link whose agent has been given the other's description, once:
    all calls either end makes on the library are listed, in order.
    When the caller's agent comes up, the caller's next poll hands it the
    datagram; and when the other agent reports the datagram, the next poll there
    puts it into the application's inbox under the caller's id. *)
Theorem datagram_gets_through `{!RoomRng, !Juice, !ShortSdp} (cfg : ServerConfig) (n : Net) (p q : ptr) (k kq : Client)
    (data : list byte) (a b : agent) (sdpA sdpB : string) :
  config_ok cfg -> net_reachable cfg n -> p <> q ->
  settled n p k -> caught_up n p -> events k = [] -> settled n q kq -> caught_up n q -> events kq = [] ->
  RoomId k <> EmptyString -> RoomId kq = RoomId k -> data <> [] -> sizeN data <= Proto.max_p2p_message_size ->
  links k !! Id kq = None -> default 0 (attempts k !! Id kq) < max_connection_attempts -> links kq !! Id k = None ->
  dials k (Id kq) a sdpA -> answers kq (Id k) (c_str sdpA) b sdpB ->
  exists k1 n1 k2 kq2,
    SendP2P (Id kq) data k = Done true k1 /\ net_reachable cfg (with_client p k1 n) /\ runs (with_client p k1 n) n1 /\
    settled n1 p k2 /\ links k2 !! Id kq = Some (PeerLink.mk a true false [data]) /\
    calls k1 = calls k ++ offer_calls k (Id kq) a /\
    calls k2 = calls k1 ++ [juice_set_remote_description a (c_str sdpB)] /\
    settled n1 q kq2 /\ links kq2 !! Id k = Some (PeerLink.mk b true false []) /\
    calls kq2 = calls kq ++ answer_calls kq (Id k) (c_str sdpA) b /\
    let up := with_client p (PushJuiceEvent (came_up a (Id kq)) k2) n1 in
    exists n2 k3, net_step n1 up /\ runs up n2 /\ settled n2 p k3 /\ PeerConnectedP2P (Id kq) k3 = true /\
      calls k3 = calls k2 ++ [juice_send a data] /\ settled n2 q kq2 /\
      let reported := with_client q (PushJuiceEvent (received_data b (Id k) data) kq2) n2 in
      exists n3 kq3, net_step n2 reported /\ runs reported n3 /\ settled n3 q kq3 /\
        _p2p_inbox kq3 = _p2p_inbox kq2 ++ [(Id k, data)] /\ calls kq3 = calls kq2.
Proof.
  intros Hcfg Hreach Hpq Hp Hup Hno Hq Huq Hnoq Hroom Hsame Hdata Hsize Hnone Hbudget Hnone' Hdials Hanswers.
  pose proof (net_reachable_ok cfg n Hcfg Hreach) as Hn. pose proof (net_reachable_left _ _ Hreach) as Hleft.
  destruct (settled_pair n p q k kq Hn Hp Hq Hpq Hroom Hsame) as (Hidp & Hidq & Hmember & r & Hr & Hmp & Hmq).
  destruct (settled_idle n p k Hn Hp Hup Hno Hroom) as [Hip Htxp].
  destruct (settled_idle n q kq Hn Hq Huq Hnoq) as [Hiq Htxq]; [congruence|]. rewrite Hsame in Hiq.
  assert (~ bad_send (Id kq) data k) as Hgood.
  { intros [?|[?|[Heq|?]]]; [done|lia| |done]. change (Id kq = Id k) in Heq. rewrite Hidp, Hidq in Heq. lia. }
  rewrite Hidp, Hidq in *.
  destruct (dial_answered n p q (RoomId k) k kq r data a b sdpA sdpB) as (k1 & n1 & k2 & kq2 & Hrun & Hstep & Hruns & Hleft1 & _
    & Hip1 & Hiq1 & Hlink & Hlinkq & Hoffer & Hcalls & Hset); try done.
  destruct (dial_comes_up n1 p (RoomId k) k2 _ a data Hleft1 Hip1 Hlink) as (n2 & k3 & Hstep2 & Hruns2 & Honly2 & Hip2 & Hup2 & Hcalls2).
  pose proof (only_at_idle p n1 n2 q _ _ _ Honly2 (not_eq_sym Hpq) Hiq1) as Hiq2.
  destruct (data_comes_in n2 q (RoomId k) kq2 _ b data _ (only_left _ _ _ (at_sys _ _ _ Honly2) Hleft1) Hiq2 Hlinkq eq_refl)
    as (n3 & kq3 & Hstep3 & Hruns3 & Hiq3 & Hinbox & Hquiet).
  exists k1, n1, k2, kq2. split_and!; try done; [by apply (rtc_r _ n)|by eapply idle_settled..|].
  intros up. exists n2, k3. split_and!; try done; [by eapply idle_settled..|].
  intros reported. exists n3, kq3. split_and!; try done. by eapply idle_settled.
Qed.

(** In [DemoNet] the client who made the room sends a byte to the other one. *)
Lemma datagram_gets_through_witness :
  exists k1 n1 k2 kq2 n2 n3 kq3,
    @SendP2P DemoClient.juice 2 [x01] (DemoNet.client DemoNet.quiet 0%nat) = Done true k1 /\
    calls kq2 = [juice_create (link_config (_ice (DemoNet.client DemoNet.quiet 1%nat))) 1 (Some 0);
      juice_set_remote_description 0 "sdp"; juice_get_local_description 0; juice_gather_candidates 0] /\
    @runs Demo.rng DemoClient.juice (with_client 0%nat k1 DemoNet.quiet) n1 /\
    @runs Demo.rng DemoClient.juice (with_client 0%nat (PushJuiceEvent (came_up 0 2) k2) n1) n2 /\
    @runs Demo.rng DemoClient.juice (with_client 1%nat (PushJuiceEvent (received_data 0 1 [x01]) kq2) n2) n3 /\
    _p2p_inbox kq3 = _p2p_inbox kq2 ++ [(1, [x01])].
Proof.
  set (k := DemoNet.client DemoNet.quiet 0%nat). set (kq := DemoNet.client DemoNet.quiet 1%nat).
  assert (Id k = 1) as Hid by (vm_compute; reflexivity). assert (Id kq = 2) as Hidq by (vm_compute; reflexivity).
  assert (sizeN [x01] <= Proto.max_p2p_message_size) as Hsize by (vm_compute; discriminate).
  pose proof (@datagram_gets_through Demo.rng DemoClient.juice DemoNet.short_sdp Demo.config DemoNet.quiet 0%nat 1%nat k kq
    [x01] 0 0 "sdp" "sdp" DemoSys.config_fits DemoNet.quiet_reachable ltac:(discriminate)) as Hdial. rewrite Hid, Hidq in Hdial.
  destruct Hdial as (k1 & n1 & k2 & kq2 & Hrun & _ & Hruns & _ & _ & _ & _ & _ & _ & Hset & n2 & k3 & _ & Hruns2 & _ & _ & _ & _
    & n3 & kq3 & _ & Hruns3 & _ & Hinbox & _); [..|exists k1, n1, k2, kq2, n2, n3, kq3; refine (conj Hrun (conj Hset (conj Hruns (conj Hruns2 (conj Hruns3 Hinbox)))))].
  - apply settled_b_sound. vm_compute. reflexivity.
  - apply caught_up_b_sound. vm_compute. reflexivity.
  - vm_compute. reflexivity.
  - apply settled_b_sound. vm_compute. reflexivity.
  - apply caught_up_b_sound. vm_compute. reflexivity.
  - vm_compute. reflexivity.
  - vm_compute. discriminate.
  - vm_compute. reflexivity.
  - discriminate.
  - exact Hsize.
  - vm_compute. reflexivity.
  - vm_compute. reflexivity.
  - vm_compute. reflexivity.
  - split; vm_compute; reflexivity.
  - split; vm_compute; reflexivity.
Defined.
