(* ===== verification/CApi.v ===== *)
(** The C interface: [Client/src/weyvelength.cpp], its marshalling helpers
    [Client/include/private/marshal.h] and the event type of
    [Client/include/weyvelength.h].

    A [const char*] argument is [None] when it is null and else the bytes it
    points to; only those before the first null byte are the C string.  A
    [uint32_t*] the function stores a length to is [None] when it is null and
    else its contents.  A returned pointer to borrowed bytes is those bytes,
    except in an event: the pointers of a [WeyveEvent] lead into the message the
    handle keeps, so that they are read through it. *)
From S2P Require Import Prelude Wire Protocol Framing RoomCache Client.
Local Open Scope N_scope.

(** ** marshal.h *)

Definition Str (str : option string) : string :=
  match str with
  | Some s => c_str s
  | None => ""
  end.

(** [if (len) *len = (uint32_t)value]. *)
Definition store (value : N) (len : option N) : option N :=
  match len with
  | Some _ => Some (value mod 2 ^ 32)
  | None => None
  end.

Definition Bytes (value : option string) (len : option N) : option string * option N :=
  match value with
  | None => (None, store 0 len)
  | Some v => (Some v, store (str_size v) len)
  end.

(** The keys of a [std::map<std::string, std::string>] from [begin()] on: in the
    order of [std::string::operator<], which compares unsigned bytes. *)
Definition str_le (a b : string) : Prop := String.leb a b = true.
#[export] Instance str_le_dec : RelDecision str_le := fun a b => decide (String.leb a b = true).
Definition map_keys (data : gmap string string) : list string := merge_sort str_le (map_to_list data).*1.

Definition KeyAt (data : gmap string string) (index : N) (key_len : option N) : option string * option N :=
  if bool_decide (sizeN (map_keys data) <= index) then (None, store 0 key_len)
  else
    match map_keys data !! N.to_nat index with
    | Some key => (Some key, store (str_size key) key_len)
    | None => (None, key_len)
    end.

(** ** weyvelength.h: events *)

(** [WeyveRoomError]: the enumerators by their position. *)
Inductive WeyveRoomError : Type :=
| WEYVE_ROOM_ERROR_ALREADY_IN_ROOM
| WEYVE_ROOM_ERROR_NO_SUCH_ROOM
| WEYVE_ROOM_ERROR_NOT_IN_ROOM
| WEYVE_ROOM_ERROR_NOT_HOST
| WEYVE_ROOM_ERROR_BAD_ROOM_DATA
| WEYVE_ROOM_ERROR_NO_SUCH_MEMBER
| WEYVE_ROOM_ERROR_ROOM_CLOSED
| WEYVE_ROOM_ERROR_BAD_PASSWORD
| WEYVE_ROOM_ERROR_BANNED
| WEYVE_ROOM_ERROR_UNNAMED (value : N). (* in the range of the enumeration *)

Definition room_errors : list WeyveRoomError :=
  [WEYVE_ROOM_ERROR_ALREADY_IN_ROOM; WEYVE_ROOM_ERROR_NO_SUCH_ROOM; WEYVE_ROOM_ERROR_NOT_IN_ROOM;
   WEYVE_ROOM_ERROR_NOT_HOST; WEYVE_ROOM_ERROR_BAD_ROOM_DATA; WEYVE_ROOM_ERROR_NO_SUCH_MEMBER;
   WEYVE_ROOM_ERROR_ROOM_CLOSED; WEYVE_ROOM_ERROR_BAD_PASSWORD; WEYVE_ROOM_ERROR_BANNED].

(** [(WeyveRoomError)code].  The enumeration has no fixed underlying type and
    nine enumerators, so that its values are those of four bits; for any other
    the cast is undefined. *)
Definition room_error_of (code : Proto.RoomErrorCode) : option WeyveRoomError :=
  match room_errors !! N.to_nat code with
  | Some e => Some e
  | None => if bool_decide (code < 16) then Some (WEYVE_ROOM_ERROR_UNNAMED code) else None
  end.

(** [(int)error]. *)
Definition room_error_value (e : WeyveRoomError) : N :=
  match e with
  | WEYVE_ROOM_ERROR_ALREADY_IN_ROOM => 0
  | WEYVE_ROOM_ERROR_NO_SUCH_ROOM => 1
  | WEYVE_ROOM_ERROR_NOT_IN_ROOM => 2
  | WEYVE_ROOM_ERROR_NOT_HOST => 3
  | WEYVE_ROOM_ERROR_BAD_ROOM_DATA => 4
  | WEYVE_ROOM_ERROR_NO_SUCH_MEMBER => 5
  | WEYVE_ROOM_ERROR_ROOM_CLOSED => 6
  | WEYVE_ROOM_ERROR_BAD_PASSWORD => 7
  | WEYVE_ROOM_ERROR_BANNED => 8
  | WEYVE_ROOM_ERROR_UNNAMED value => value
  end.

Inductive WeyveEventType : Type :=
| WEYVE_EVENT_NONE
| WEYVE_EVENT_HEARTBEAT
| WEYVE_EVENT_ROOM_ID_ASSIGNED
| WEYVE_EVENT_ROOM_ERROR
| WEYVE_EVENT_CHAT
| WEYVE_EVENT_PEER_JOINED
| WEYVE_EVENT_PEER_LEFT
| WEYVE_EVENT_HOST_CHANGED
| WEYVE_EVENT_ROOM_DATA_CHANGED
| WEYVE_EVENT_MEMBER_DATA_CHANGED
| WEYVE_EVENT_KICKED
| WEYVE_EVENT_BANNED
| WEYVE_EVENT_ROOM_ACCESS_CHANGED.

(** The [data()] of one of the [std::string] members of the message the event
    was filled from, counted from 0. *)
Inductive data_pointer : Type :=
| DataOf (member : nat).

Module WeyveEvent.
(** The union: the member that was written last, with its fields. *)
Inductive data_t : Type :=
| heartbeat (timestamp : N)
| room_assigned (id : data_pointer) (id_len : N)
| room_error (code : WeyveRoomError) (context : data_pointer) (context_len : N)
| chat (from : N) (text : data_pointer) (text_len : N)
| peer_joined (id : N)
| peer_left (id : N)
| host_changed (id : N)
| room_data (key : data_pointer) (key_len : N) (value : data_pointer) (value_len : N)
| member_data (id : N) (key : data_pointer) (key_len : N) (value : data_pointer) (value_len : N)
| room_access (opened passworded : bool)
| uninitialised.

Record t : Type := mk {
  type : WeyveEventType;
  data : data_t
}.
End WeyveEvent.

(** [(uint32_t)s.size()]. *)
Definition size32 (s : string) : N := str_size s mod 2 ^ 32.

(** [FillEvent]: what [out] is afterwards and the result; [None] for the
    undefined cast and for the undefined read of a [bool]. *)
Definition FillEvent (msg : Proto.ServerMessage) (out : WeyveEvent.t) : option (bool * WeyveEvent.t) :=
  match msg with
  | Proto.Heartbeat timestamp =>
      Some (true, WeyveEvent.mk WEYVE_EVENT_HEARTBEAT (WeyveEvent.heartbeat timestamp))
  | Proto.AssignRoomId id =>
      Some (true, WeyveEvent.mk WEYVE_EVENT_ROOM_ID_ASSIGNED (WeyveEvent.room_assigned (DataOf 0) (size32 id)))
  | Proto.RoomError code context =>
      e ← room_error_of code;
      Some (true, WeyveEvent.mk WEYVE_EVENT_ROOM_ERROR (WeyveEvent.room_error e (DataOf 0) (size32 context)))
  | Proto.RoomChat from text =>
      Some (true, WeyveEvent.mk WEYVE_EVENT_CHAT (WeyveEvent.chat from (DataOf 0) (size32 text)))
  | Proto.PeerJoined id =>
      Some (true, WeyveEvent.mk WEYVE_EVENT_PEER_JOINED (WeyveEvent.peer_joined id))
  | Proto.PeerLeft id =>
      Some (true, WeyveEvent.mk WEYVE_EVENT_PEER_LEFT (WeyveEvent.peer_left id))
  | Proto.HostChanged id =>
      Some (true, WeyveEvent.mk WEYVE_EVENT_HOST_CHANGED (WeyveEvent.host_changed id))
  | Proto.RoomDataChanged key value =>
      Some (true, WeyveEvent.mk WEYVE_EVENT_ROOM_DATA_CHANGED
        (WeyveEvent.room_data (DataOf 0) (size32 key) (DataOf 1) (size32 value)))
  | Proto.MemberDataChanged id key value =>
      Some (true, WeyveEvent.mk WEYVE_EVENT_MEMBER_DATA_CHANGED
        (WeyveEvent.member_data id (DataOf 0) (size32 key) (DataOf 1) (size32 value)))
  | Proto.KickedByHost => Some (true, WeyveEvent.mk WEYVE_EVENT_KICKED (WeyveEvent.data out))
  | Proto.BannedByHost => Some (true, WeyveEvent.mk WEYVE_EVENT_BANNED (WeyveEvent.data out))
  | Proto.RoomAccessChanged opened passworded =>
      o ← read_bool opened;
      p ← read_bool passworded;
      Some (true, WeyveEvent.mk WEYVE_EVENT_ROOM_ACCESS_CHANGED (WeyveEvent.room_access o p))
  | _ => Some (false, out)
  end.

(** ** weyvelength.cpp *)

Module WeyveClient.
Record t : Type := mk {
  client : Client;
  event : Proto.ServerMessage;
  p2p : list byte
}.
Definition set_client (v : Client) (c : t) : t := mk v (event c) (p2p c).
Definition set_event (v : Proto.ServerMessage) (c : t) : t := mk (client c) v (p2p c).
Definition set_p2p (v : list byte) (c : t) : t := mk (client c) (event c) v.
End WeyveClient.

(** [client->client.f(...)]. *)
Definition on_client {A} (m : M Client A) : M WeyveClient.t A := fun c =>
  match m (WeyveClient.client c) with
  | Done a k => Done a (WeyveClient.set_client k c)
  | Dangling => Dangling
  | Loops => Loops
  end.

(** *** Lifecycle *)

Definition weyve_client_create : WeyveClient.t := WeyveClient.mk client_init (Proto.Heartbeat 0) [].

(** [delete client]: the handle as its destructor leaves it; null is a no-op. *)
Definition weyve_client_destroy : M (option WeyveClient.t) unit := fun handle =>
  match handle with
  | None => Done tt None
  | Some c =>
      match on_client Client_destructor c with
      | Done _ c' => Done tt (Some c')
      | Dangling => Dangling
      | Loops => Loops
      end
  end.

(** [ClientConfig], and the network's answer to it. *)
Record ClientConfig : Type := mkClientConfig {
  host : string;
  port : N
}.

Definition weyve_connect (network : ClientConfig -> connect_answer) (host : option string) (port : N) :
    M WeyveClient.t bool :=
  let config := mkClientConfig "127.0.0.1" 0 in
  let config := match host with Some h => mkClientConfig (c_str h) (CApi.port config) | None => config end in
  let config := mkClientConfig (CApi.host config) port in
  on_client (Connect (network config)).

Section Calls.
Context `{!Juice}.

Definition weyve_poll (chunks : list (list byte)) (lost : bool) (answers : list write_answer) :
    M WeyveClient.t bool :=
  on_client (Poll chunks lost answers).

(** The loop of [weyve_next]: it ends with the inbox, which the caller's fuel
    covers. *)
Fixpoint next_loop (fuel : nat) (out : WeyveEvent.t) : M WeyveClient.t (bool * WeyveEvent.t) :=
  match fuel with
  | O => loops
  | S fuel' =>
      next ← on_client Next;
      match next with
      | None => ret (false, out)
      | Some msg =>
          modify (WeyveClient.set_event msg) ;;
          match FillEvent msg out with
          | None => dangling
          | Some (true, out') => ret (true, out')
          | Some (false, out') => next_loop fuel' out'
          end
      end
  end.

Definition weyve_next (out : WeyveEvent.t) : M WeyveClient.t (bool * WeyveEvent.t) :=
  pending ← gets (fun c => length (_inbox (WeyveClient.client c)));
  next_loop (S pending) out.

Definition weyve_send_heartbeat (timestamp : N) : M WeyveClient.t bool :=
  on_client (SendServer (Proto.Heartbeat timestamp)).

(** *** Rooms *)

Definition weyve_create_room : M WeyveClient.t bool := on_client Client_CreateRoom.
Definition weyve_join_room (id password : option string) : M WeyveClient.t bool :=
  on_client (Client_JoinRoom (Str id) (Str password)).
Definition weyve_leave_room : M WeyveClient.t bool := on_client Client_LeaveRoom.
Definition weyve_kick_member (id : N) : M WeyveClient.t bool := on_client (Client_KickMember id).
Definition weyve_ban_member (id : N) : M WeyveClient.t bool := on_client (Client_BanMember id).
Definition weyve_transfer_host (id : N) : M WeyveClient.t bool := on_client (Client_TransferHost id).
Definition weyve_set_room_joinable (opened : bool) : M WeyveClient.t bool :=
  on_client (Client_SetRoomJoinable opened).
Definition weyve_set_room_password (password : option string) : M WeyveClient.t bool :=
  on_client (Client_SetRoomPassword (Str password)).
Definition weyve_send_chat (text : option string) : M WeyveClient.t bool :=
  on_client (Client_SendChat (Str text)).
Definition weyve_set_room_data (key value : option string) : M WeyveClient.t bool :=
  on_client (Client_SetRoomData (Str key) (Str value)).
Definition weyve_delete_room_data (key : option string) : M WeyveClient.t bool :=
  on_client (Client_DeleteRoomData (Str key)).
Definition weyve_set_member_data (key value : option string) : M WeyveClient.t bool :=
  on_client (Client_SetMemberData (Str key) (Str value)).
Definition weyve_delete_member_data (key : option string) : M WeyveClient.t bool :=
  on_client (Client_DeleteMemberData (Str key)).

(** *** Peer to peer *)

(** [data] is the memory behind the pointer; reading past it is undefined. *)
Definition weyve_send_p2p (id : N) (data : list byte) (len : N) : M WeyveClient.t bool :=
  if bool_decide (sizeN data < len) then dangling
  else on_client (SendP2P id (take (N.to_nat len) data)).

(** The bytes the returned pointer leads to, [*from] and [*len]. *)
Definition weyve_next_p2p (from len : option N) : M WeyveClient.t (option (list byte) * option N * option N) :=
  next ← on_client NextP2P;
  match next with
  | None => ret (None, from, len)
  | Some (sender, msg) =>
      modify (WeyveClient.set_p2p msg) ;;
      ret (Some msg, store sender from, store (sizeN msg) len)
  end.

Definition weyve_peer_connected (id : N) (c : WeyveClient.t) : bool := PeerConnectedP2P id (WeyveClient.client c).
End Calls.

(** *** Cached room state *)

Definition weyve_id (c : WeyveClient.t) : N := Id (WeyveClient.client c).
Definition weyve_host_id (c : WeyveClient.t) : N := HostId (WeyveClient.client c).
Definition weyve_is_host (c : WeyveClient.t) : bool := IsHost (WeyveClient.client c).
Definition weyve_room_joinable (c : WeyveClient.t) : bool := RoomJoinable (WeyveClient.client c).
Definition weyve_room_passworded (c : WeyveClient.t) : bool := RoomPassworded (WeyveClient.client c).

Definition weyve_room_id (c : WeyveClient.t) (len : option N) : string * option N :=
  let room := RoomId (WeyveClient.client c) in
  (room, store (str_size room) len).

Definition weyve_members (c : WeyveClient.t) (count : option N) : list N * option N :=
  let members := Members (WeyveClient.client c) in
  (members, store (sizeN members) count).

Definition weyve_room_data (c : WeyveClient.t) (key : option string) (value_len : option N) :
    option string * option N :=
  Bytes (RoomData_at (Str key) (WeyveClient.client c)) value_len.

Definition weyve_room_data_count (c : WeyveClient.t) : N :=
  N.of_nat (size (RoomData (WeyveClient.client c))) mod 2 ^ 32.

Definition weyve_room_data_key_at (c : WeyveClient.t) (index : N) (key_len : option N) :
    option string * option N :=
  KeyAt (RoomData (WeyveClient.client c)) index key_len.

Definition weyve_member_data (c : WeyveClient.t) (id : N) (key : option string) (value_len : option N) :
    option string * option N :=
  Bytes (MemberData_at id (Str key) (WeyveClient.client c)) value_len.

Definition weyve_member_data_count (c : WeyveClient.t) (id : N) : N :=
  match MemberData id (WeyveClient.client c) with
  | Some data => N.of_nat (size data) mod 2 ^ 32
  | None => 0
  end.

Definition weyve_member_data_key_at (c : WeyveClient.t) (id index : N) (key_len : option N) :
    option string * option N :=
  match MemberData id (WeyveClient.client c) with
  | None => (None, store 0 key_len)
  | Some data => KeyAt data index key_len
  end.

(** ** What a C program reads *)

(** The [std::string] members of a message, in the order of their declaration. *)
Definition strings_of (msg : Proto.ServerMessage) : list string :=
  match msg with
  | Proto.AssignRoomId id => [id]
  | Proto.JoinRoom id password => [id; password]
  | Proto.RoomError _ context => [context]
  | Proto.RoomChat _ text => [text]
  | Proto.SetRoomData key value | Proto.RoomDataChanged key value
  | Proto.SetMemberData key value | Proto.MemberDataChanged _ key value => [key; value]
  | Proto.SetRoomPassword password => [password]
  | Proto.P2PSignal _ _ payload => [payload]
  | _ => []
  end.

(** The byte range of a pointer and a length, read while [msg] is the message
    behind the pointer; [None] if it runs over the end. *)
Definition range (msg : Proto.ServerMessage) (p : data_pointer) (len : N) : option string :=
  let '(DataOf member) := p in
  s ← strings_of msg !! member;
  if bool_decide (len <= str_size s) then Some (String.substring 0 (N.to_nat len) s) else None.

(** An event read by its [type], as the header tells the caller to: the message
    it stands for. *)
Definition read_event (c : WeyveClient.t) (ev : WeyveEvent.t) : option Proto.ServerMessage :=
  let msg := WeyveClient.event c in
  match WeyveEvent.type ev, WeyveEvent.data ev with
  | WEYVE_EVENT_HEARTBEAT, WeyveEvent.heartbeat timestamp => Some (Proto.Heartbeat timestamp)
  | WEYVE_EVENT_ROOM_ID_ASSIGNED, WeyveEvent.room_assigned id id_len => Proto.AssignRoomId <$> range msg id id_len
  | WEYVE_EVENT_ROOM_ERROR, WeyveEvent.room_error code context context_len =>
      Proto.RoomError (room_error_value code) <$> range msg context context_len
  | WEYVE_EVENT_CHAT, WeyveEvent.chat from text text_len => Proto.RoomChat from <$> range msg text text_len
  | WEYVE_EVENT_PEER_JOINED, WeyveEvent.peer_joined id => Some (Proto.PeerJoined id)
  | WEYVE_EVENT_PEER_LEFT, WeyveEvent.peer_left id => Some (Proto.PeerLeft id)
  | WEYVE_EVENT_HOST_CHANGED, WeyveEvent.host_changed id => Some (Proto.HostChanged id)
  | WEYVE_EVENT_ROOM_DATA_CHANGED, WeyveEvent.room_data key key_len value value_len =>
      k ← range msg key key_len;
      Proto.RoomDataChanged k <$> range msg value value_len
  | WEYVE_EVENT_MEMBER_DATA_CHANGED, WeyveEvent.member_data id key key_len value value_len =>
      k ← range msg key key_len;
      Proto.MemberDataChanged id k <$> range msg value value_len
  | WEYVE_EVENT_KICKED, _ => Some Proto.KickedByHost
  | WEYVE_EVENT_BANNED, _ => Some Proto.BannedByHost
  | WEYVE_EVENT_ROOM_ACCESS_CHANGED, WeyveEvent.room_access opened passworded =>
      Some (Proto.RoomAccessChanged opened passworded)
  | _, _ => None
  end.

(** The messages a server sends for the application: the kinds of event. *)
Definition is_event (msg : Proto.ServerMessage) : bool :=
  match msg with
  | Proto.Heartbeat _ | Proto.AssignRoomId _ | Proto.RoomError _ _ | Proto.RoomChat _ _
  | Proto.PeerJoined _ | Proto.PeerLeft _ | Proto.HostChanged _ | Proto.RoomDataChanged _ _
  | Proto.MemberDataChanged _ _ _ | Proto.KickedByHost | Proto.BannedByHost
  | Proto.RoomAccessChanged _ _ => true
  | _ => false
  end.
