(* ===== verification/CApiRules.v ===== *)
(** The C interface: a C program learns what the C++ client would hand out, and
    finds the keys it may look up. *)
From S2P Require Import Prelude Wire Protocol Framing RoomCache Client ClientMesh ClientConn CApi.
From Stdlib Require Import OrderedTypeEx.
Local Open Scope N_scope.

(** ** The order of keys *)

Definition str_lt (a b : string) : Prop := String.compare a b = Lt.

#[export] Instance str_le_total : Total str_le.
Proof. intros a b. apply String.leb_total. Qed.

Lemma str_lt_trans a b c : str_lt a b -> str_lt b c -> str_lt a c.
Proof. unfold str_lt. intros Hab%String_as_OT.cmp_lt Hbc%String_as_OT.cmp_lt.
  apply String_as_OT.cmp_lt. exact (String_as_OT.lt_trans _ _ _ Hab Hbc). Qed.

Lemma str_le_iff a b : str_le a b <-> str_lt a b \/ a = b.
Proof.
  unfold str_le, str_lt, String.leb. destruct (String.compare a b) eqn:Hcmp; split; try done; try (by left).
  - intros _. right. by apply String.compare_eq_iff.
  - intros [?|<-]; [done|]. pose proof (proj2 (String_as_OT.cmp_eq a a) eq_refl) as Heq. unfold String_as_OT.cmp in Heq. congruence.
Qed.

#[export] Instance str_le_transitive : Transitive str_le.
Proof.
  intros a b c [Hab| ->]%str_le_iff; [|done]. intros [Hbc| ->]%str_le_iff; apply str_le_iff; left; [|done].
  by apply (str_lt_trans a b c).
Qed.

Lemma map_keys_permutation data : map_keys data ≡ₚ (map_to_list data).*1.
Proof. apply merge_sort_Permutation. Qed.

Lemma length_map_keys data : length (map_keys data) = size data.
Proof. by rewrite map_keys_permutation, length_fmap, length_map_to_list. Qed.

Lemma elem_of_map_keys data k : k ∈ map_keys data <-> is_Some (data !! k).
Proof.
  rewrite map_keys_permutation, list_elem_of_fmap. split.
  - intros ([k' v] & -> & Hv%elem_of_map_to_list). by exists v.
  - intros [v Hv%elem_of_map_to_list]. by exists (k, v).
Qed.

(** The iteration order of the map is strictly increasing. *)
Lemma map_keys_increasing data : StronglySorted str_lt (map_keys data).
Proof.
  assert (NoDup (map_keys data)) as Hnodup by (rewrite map_keys_permutation; apply NoDup_fst_map_to_list).
  pose proof (StronglySorted_merge_sort str_le (map_to_list data).*1) as Hsorted. fold (map_keys data) in Hsorted.
  revert Hnodup. induction Hsorted as [|k keys _ IH Hk]; [constructor|]. intros [Hnew Hkeys]%NoDup_cons.
  constructor; [by apply IH|]. apply Forall_forall. intros k' Hk'.
  rewrite Forall_forall in Hk. destruct (proj1 (str_le_iff k k') (Hk k' Hk')) as [?| ->]; done.
Qed.

(** ** C strings *)

(** No null byte inside. *)
Definition null_free (s : string) : Prop := c_str s = s.

Lemma c_str_null_free s : null_free (c_str s).
Proof. apply c_str_c_str. Qed.

Lemma Str_null_free str : null_free (Str str).
Proof. destruct str as [s|]; [apply c_str_null_free|done]. Qed.

Lemma Str_id s : null_free s -> Str (Some s) = s.
Proof. done. Qed.

(** ** Events *)

(** The strings of a message are shorter than 4 GiB. *)
Definition presentable (msg : Proto.ServerMessage) : Prop := Forall (fun s => str_size s < 2 ^ 32) (strings_of msg).

#[export] Instance presentable_dec msg : Decision (presentable msg) := Forall_dec _ _.

(** An error code outside the range of [WeyveRoomError], or a byte outside that
    of [bool]. *)
Definition foreign_value (msg : Proto.ServerMessage) : bool :=
  match msg with
  | Proto.RoomError code _ => bool_decide (16 <= code)
  | Proto.RoomAccessChanged _ _ => negb (bool_decide (readable msg))
  | _ => false
  end.

Lemma room_error_of_foreign code : 16 <= code -> room_error_of code = None.
Proof.
  intros Hcode. unfold room_error_of. rewrite lookup_ge_None_2 by (cbn; lia). by rewrite bool_decide_false by lia.
Qed.

(** The C enumerators have the numbers of the protocol's codes. *)
Lemma room_error_of_value code : code < 16 -> exists e, room_error_of code = Some e /\ room_error_value e = code.
Proof.
  intros Hcode. unfold room_error_of. destruct (room_errors !! N.to_nat code) as [e|] eqn:He.
  - exists e. split; [done|]. assert (code < 9) as Hnamed.
    { apply lookup_lt_Some in He. cbn in He. lia. }
    assert (forall i e, room_errors !! i = Some e -> room_error_value e = N.of_nat i) as Hall.
    { intros i e'. do 9 (destruct i as [|i]; [by intros [= <-]|]). done. }
    rewrite (Hall _ _ He). lia.
  - exists (WEYVE_ROOM_ERROR_UNNAMED code). by rewrite bool_decide_true.
Qed.

Lemma substring_all s : String.substring 0 (String.length s) s = s.
Proof. induction s as [|a s IH]; [done|]. cbn. by rewrite IH. Qed.

Lemma range_member msg i s :
  strings_of msg !! i = Some s -> str_size s < 2 ^ 32 -> range msg (DataOf i) (size32 s) = Some s.
Proof.
  intros Hs Hsize. unfold range, size32. rewrite Hs. cbn. rewrite N.mod_small by done.
  rewrite bool_decide_true by done. unfold str_size. by rewrite Nat2N.id, substring_all.
Qed.

Ltac read_ranges :=
  cbn [read_event WeyveEvent.type WeyveEvent.data WeyveClient.event WeyveClient.set_event];
  repeat (erewrite range_member by (reflexivity || tauto);
          cbn [mbind option_bind fmap option_fmap option_map]);
  reflexivity.

(** Filling an event loses nothing: read through the message it was filled from,
    it says what the message says. *)
Lemma fill_event_read msg out c :
  presentable msg -> is_event msg = true -> foreign_value msg = false ->
  exists out', FillEvent msg out = Some (true, out') /\ read_event (WeyveClient.set_event msg c) out' = Some msg.
Proof.
  intros Hfit Hevent Hforeign. unfold presentable in Hfit. destruct msg; try done; cbn [strings_of] in Hfit;
    rewrite ?Forall_cons in Hfit; try (by eexists).
  all: try (eexists; split; [done|]; read_ranges).
  - unfold foreign_value in Hforeign. apply bool_decide_eq_false in Hforeign.
    destruct (room_error_of_value code) as (e & He & Hvalue); [lia|].
    eexists. split; [cbn; by rewrite He|]. rewrite <- Hvalue at 2. read_ranges.
  - unfold foreign_value in Hforeign. apply negb_false_iff, bool_decide_eq_true in Hforeign as [[o Ho] [p Hp]].
    exists (WeyveEvent.mk WEYVE_EVENT_ROOM_ACCESS_CHANGED (WeyveEvent.room_access o p)).
    split; [cbn [FillEvent]; by rewrite Ho, Hp|]. by rewrite (read_bool_some _ _ Ho), (read_bool_some _ _ Hp).
Qed.

Lemma fill_event_skips msg out : is_event msg = false -> FillEvent msg out = Some (false, out).
Proof. by destruct msg. Qed.

Lemma fill_event_foreign msg out : foreign_value msg = true -> FillEvent msg out = None.
Proof.
  destruct msg; try done; unfold foreign_value; cbn [FillEvent].
  - intros Hcode%bool_decide_eq_true. by rewrite room_error_of_foreign.
  - intros Hno%negb_true_iff%bool_decide_eq_false. cbn [readable] in Hno. unfold has_value in Hno.
    destruct (read_bool opened); [|done]. destruct (read_bool passworded); [|done]. exfalso. eauto.
Qed.

(** ** [weyve_next] *)

Definition inbox (c : WeyveClient.t) : list Proto.ServerMessage := _inbox (WeyveClient.client c).

(** The handle after [weyve_next] took messages from the inbox. *)
Definition taken (msg : Proto.ServerMessage) (rest : list Proto.ServerMessage) (c : WeyveClient.t) : WeyveClient.t :=
  WeyveClient.set_event msg (WeyveClient.set_client (set_inbox rest (WeyveClient.client c)) c).

Section Next.
Context `{!Juice}.

Lemma on_client_next_empty c : inbox c = [] -> on_client Next c = Done None c.
Proof. intros Hempty. unfold on_client, Next. rewrite bind_gets. fold (inbox c). rewrite Hempty. by destruct c. Qed.

Lemma on_client_next_cons c msg rest : inbox c = msg :: rest ->
  on_client Next c = Done (Some msg) (WeyveClient.set_client (set_inbox rest (WeyveClient.client c)) c).
Proof. intros Hinbox. unfold on_client, Next. rewrite bind_gets. fold (inbox c). by rewrite Hinbox. Qed.

(** One round of the loop. *)
Lemma next_loop_empty fuel out c : inbox c = [] -> next_loop (S fuel) out c = Done (false, out) c.
Proof. intros Hempty. cbn [next_loop]. by rewrite (bind_done _ _ _ None c) by by apply on_client_next_empty. Qed.

Lemma next_loop_cons fuel out c msg rest : inbox c = msg :: rest ->
  next_loop (S fuel) out c =
    match FillEvent msg out with
    | None => Dangling
    | Some (true, out') => Done (true, out') (taken msg rest c)
    | Some (false, out') => next_loop fuel out' (taken msg rest c)
    end.
Proof.
  intros Hinbox. cbn [next_loop]. rewrite (bind_done _ _ _ _ _ (on_client_next_cons c msg rest Hinbox)).
  rewrite bind_modify. by destruct (FillEvent msg out) as [[[] out']|].
Qed.

(** Everything but the inbox and the message kept for the caller stays. *)
Definition only_took (c c' : WeyveClient.t) : Prop :=
  WeyveClient.client c' = set_inbox (inbox c') (WeyveClient.client c) /\ WeyveClient.p2p c' = WeyveClient.p2p c.

#[export] Instance only_took_preorder : PreOrder only_took.
Proof.
  split.
  - intros c. split; [|done]. unfold inbox. by destruct (WeyveClient.client c).
  - intros c1 c2 c3 [H1 H1'] [H2 H2']. split; [|by rewrite H2']. rewrite H2 at 1. rewrite H1. done.
Qed.

Lemma only_took_taken msg rest c : only_took c (taken msg rest c).
Proof. done. Qed.

Lemma next_loop_run fuel out c :
  (length (inbox c) < fuel)%nat -> Forall presentable (inbox c) ->
  match List.filter is_event (inbox c) with
  | [] => exists c', next_loop fuel out c = Done (false, out) c' /\ inbox c' = [] /\ only_took c c'
  | msg :: msgs =>
      if foreign_value msg then next_loop fuel out c = Dangling
      else exists out' c', next_loop fuel out c = Done (true, out') c' /\ only_took c c' /\
        read_event c' out' = Some msg /\ List.filter is_event (inbox c') = msgs /\ Forall presentable (inbox c') /\
        (length (inbox c') < length (inbox c))%nat
  end.
Proof.
  revert c. induction fuel as [|fuel IH]; intros c Hfuel Hfit; [lia|]. destruct (inbox c) as [|msg rest] eqn:Hinbox.
  { exists c. split_and!; [by apply next_loop_empty|done|reflexivity]. }
  apply Forall_cons in Hfit as [Hmsg Hrest]. cbn [List.filter]. rewrite (next_loop_cons _ _ _ msg rest) by done.
  destruct (is_event msg) eqn:Hevent.
  - destruct (foreign_value msg) eqn:Hforeign; [by rewrite fill_event_foreign|].
    destruct (fill_event_read msg out (WeyveClient.set_client (set_inbox rest (WeyveClient.client c)) c))
      as (out' & -> & Hread); [done..|]. exists out', (taken msg rest c).
    split_and!; try done. cbn. lia.
  - rewrite fill_event_skips by done. cbn [length] in Hfuel.
    specialize (IH (taken msg rest c) ltac:(cbn; lia) Hrest). change (inbox (taken msg rest c)) with rest in IH.
    destruct (List.filter is_event rest) as [|msg' msgs].
    + destruct IH as (c' & -> & Hempty & Htook). exists c'. split_and!; [done..|]. by transitivity (taken msg rest c).
    + destruct (foreign_value msg'); [done|]. destruct IH as (out' & c' & -> & Htook & ? & ? & ? & Hlen).
      exists out', c'. split_and!; try done. cbn; lia.
Qed.

(** The loop of a C program, [while (weyve_next(client, &event))]: what it reads
    out of each event. *)
Fixpoint read_events (fuel : nat) (out : WeyveEvent.t) : M WeyveClient.t (list (option Proto.ServerMessage)) :=
  match fuel with
  | O => loops
  | S fuel' =>
      next ← weyve_next out;
      let '(ok, out') := next in
      if (ok : bool) then
        msg ← gets (fun c => read_event c out');
        msgs ← read_events fuel' out';
        ret (msg :: msgs)
      else ret []
  end.

(** The loop of a C++ program, [while (client.Next(msg))], and of the messages it
    takes those for the application. *)
Fixpoint next_messages (fuel : nat) : M Client (list Proto.ServerMessage) :=
  match fuel with
  | O => loops
  | S fuel' =>
      next ← Next;
      match next with
      | None => ret []
      | Some msg => msgs ← next_messages fuel'; ret (if is_event msg then msg :: msgs else msgs)
      end
  end.

Lemma weyve_next_loop out c : weyve_next out c = next_loop (S (length (inbox c))) out c.
Proof. done. Qed.

Lemma read_events_run fuel out c :
  (length (inbox c) < fuel)%nat -> Forall presentable (inbox c) ->
  Forall (fun m => foreign_value m = false) (List.filter is_event (inbox c)) ->
  exists c', read_events fuel out c = Done (Some <$> List.filter is_event (inbox c)) c' /\ inbox c' = [] /\ only_took c c'.
Proof.
  revert out c. induction fuel as [|fuel IH]; intros out c Hfuel Hfit Hours; [lia|]. cbn [read_events].
  pose proof (next_loop_run (S (length (inbox c))) out c ltac:(lia) Hfit) as Hrun. rewrite <- weyve_next_loop in Hrun.
  destruct (List.filter is_event (inbox c)) as [|msg msgs].
  - destruct Hrun as (c' & Hrun & Hempty & Htook). exists c'. by rewrite (bind_done _ _ _ _ _ Hrun).
  - apply Forall_cons in Hours as [Hmsg Hmsgs]. rewrite Hmsg in Hrun.
    destruct Hrun as (out' & c1 & Hrun & Htook & Hread & Hrest & Hfit' & Hlen).
    destruct (IH out' c1) as (c' & Hevents & Hempty & Htook'); [lia|done|by rewrite Hrest|]. rewrite Hrest in Hevents.
    exists c'. split_and!; [|done|by transitivity c1].
    rewrite (bind_done _ _ _ _ _ Hrun), bind_gets, Hread. by rewrite (bind_done _ _ _ _ _ Hevents).
Qed.

Lemma next_messages_run fuel k : (length (_inbox k) < fuel)%nat ->
  next_messages fuel k = Done (List.filter is_event (_inbox k)) (set_inbox [] k).
Proof.
  revert k. induction fuel as [|fuel IH]; intros k Hfuel; [lia|]. cbn [next_messages].
  destruct (_inbox k) as [|msg rest] eqn:Hinbox.
  - rewrite (bind_done _ _ _ None k); [by destruct k; cbn in *; subst|]. unfold Next. by rewrite bind_gets, Hinbox.
  - rewrite (bind_done _ _ _ (Some msg) (set_inbox rest k)) by (unfold Next; by rewrite bind_gets, Hinbox).
    rewrite (bind_done _ _ _ _ _ (IH (set_inbox rest k) ltac:(cbn in *; lia))). cbn [List.filter set_inbox _inbox].
    by destruct (is_event msg).
Qed.
End Next.

(** ** Cached data by index *)

Lemma key_at_spec data i len : sizeN (map_keys data) < 2 ^ 32 ->
  KeyAt data i len =
    match map_keys data !! N.to_nat i with
    | Some key => (Some key, store (str_size key) len)
    | None => (None, store 0 len)
    end.
Proof.
  intros _. unfold KeyAt. case_bool_decide as Hpast.
  - rewrite lookup_ge_None_2; [done|]. unfold sizeN in Hpast. lia.
  - destruct (map_keys data !! N.to_nat i) eqn:Hkey; [done|]. apply lookup_ge_None_1 in Hkey. unfold sizeN in Hpast. lia.
Qed.

(** A handle over a client with the given inbox and room data. *)
Module DemoApi.
Definition handle (msgs : list Proto.ServerMessage) (data : gmap string string) : WeyveClient.t :=
  WeyveClient.set_client
    (set_inbox msgs (set_room_cache (mkRoomCache 1 "WXYZ" 1 true false [1; 2] data ∅) client_init)) weyve_client_create.
Definition out : WeyveEvent.t := WeyveEvent.mk WEYVE_EVENT_NONE WeyveEvent.uninitialised.
Definition msgs : list Proto.ServerMessage :=
  [Proto.RoomChat 2 "hi"; Proto.LeaveRoom; Proto.RoomError 4 ""; Proto.KickedByHost].
Definition odd_key : string := str_of_bytes [x61; x00; x62].
Definition data : gmap string string := <[odd_key := "hidden"]> {[ "map" := "arena" ]}.
End DemoApi.

(** ** Properties *)

(** Claim C19: the C interface is equivalent to the C++ client.  A C program that
    calls [weyve_next] until it returns false, and reads each event by its type
    through the pointers in it, gets exactly the messages a C++ program gets
    for the application from [Next], in the same order; both loops end, and the
    client is in the same state behind either. *)
Theorem c_events_are_next_messages `{!Juice} (c : WeyveClient.t) (out : WeyveEvent.t) :
  Forall presentable (inbox c) -> Forall (fun m => foreign_value m = false) (List.filter is_event (inbox c)) ->
  exists msgs k c',
    next_messages (S (length (inbox c))) (WeyveClient.client c) = Done msgs k /\
    read_events (S (length (inbox c))) out c = Done (Some <$> msgs) c' /\
    WeyveClient.client c' = k /\ WeyveClient.p2p c' = WeyveClient.p2p c.
Proof.
  intros Hfit Hours. destruct (read_events_run (S (length (inbox c))) out c) as (c' & Hevents & Hempty & [Hclient Hp2p]);
    [lia|done..|].
  exists (List.filter is_event (inbox c)), (set_inbox [] (WeyveClient.client c)), c'.
  split_and!; [by apply next_messages_run; unfold inbox; lia|done| |done]. by rewrite Hclient, Hempty.
Qed.

(** Three events; a request, which no server sends, is skipped. *)
Lemma c_events_are_next_messages_witness :
  exists msgs k c',
    @next_messages 5 (WeyveClient.client (DemoApi.handle DemoApi.msgs ∅)) = Done msgs k /\
    @read_events 5 DemoApi.out (DemoApi.handle DemoApi.msgs ∅) = Done (Some <$> msgs) c' /\
    WeyveClient.client c' = k /\ WeyveClient.p2p c' = [].
Proof.
  apply (@c_events_are_next_messages DemoClient.juice (DemoApi.handle DemoApi.msgs ∅) DemoApi.out);
    apply (bool_decide_unpack _); vm_compute; exact I.
Defined.

(** Claim C39: one call of [weyve_next].  It ends; it skips what is not for the
    application; it returns false exactly when nothing is left, and leaves the
    caller's event as it was; otherwise the event says what the message said.
    Only values that the wire format lets through make the call undefined: an
    error code outside the range of [WeyveRoomError], and a [bool] of a
    [RoomAccessChanged] that is neither 0 nor 1. *)
Theorem weyve_next_outcome `{!Juice} (c : WeyveClient.t) (out : WeyveEvent.t) :
  Forall presentable (inbox c) ->
  match List.filter is_event (inbox c) with
  | [] => exists c', weyve_next out c = Done (false, out) c' /\ inbox c' = [] /\ only_took c c'
  | msg :: msgs =>
      if foreign_value msg then weyve_next out c = Dangling
      else exists out' c', weyve_next out c = Done (true, out') c' /\ only_took c c' /\
        read_event c' out' = Some msg /\ List.filter is_event (inbox c') = msgs
  end.
Proof.
  intros Hfit. pose proof (next_loop_run (S (length (inbox c))) out c ltac:(lia) Hfit) as Hrun.
  rewrite <- weyve_next_loop in Hrun. destruct (List.filter is_event (inbox c)) as [|msg msgs]; [done|].
  destruct (foreign_value msg); [done|]. destruct Hrun as (out' & c' & ? & ? & ? & ? & _). by exists out', c'.
Qed.

(** A server that sends error 200 makes the client undefined. *)
Lemma weyve_next_outcome_witness :
  @weyve_next DemoApi.out (DemoApi.handle [Proto.LeaveRoom; Proto.RoomError 200 ""] ∅) = Dangling.
Proof.
  apply (@weyve_next_outcome DemoClient.juice (DemoApi.handle [Proto.LeaveRoom; Proto.RoomError 200 ""] ∅) DemoApi.out).
  apply (bool_decide_unpack _). vm_compute. exact I.
Defined.

(** Claim C40: walking the room data by index.  The indices below
    [weyve_room_data_count] give every key of the cached room data exactly once,
    in increasing byte order, each with its length, and any other index null;
    a key without null bytes, passed back to [weyve_room_data], gives its value.
    A key with a null byte inside, which any C++ member can set, is listed as
    well, but no argument names it: passed back, it asks for the part before
    the null byte. *)
Theorem room_data_keys_by_index (c : WeyveClient.t) :
  sizeN (map_keys (RoomData (WeyveClient.client c))) < 2 ^ 32 ->
  exists keys, StronglySorted str_lt keys /\ (forall k, k ∈ keys <-> is_Some (RoomData (WeyveClient.client c) !! k)) /\
    weyve_room_data_count c = sizeN keys /\
    (forall i len, weyve_room_data_key_at c i len =
      match keys !! N.to_nat i with
      | Some key => (Some key, store (str_size key) len)
      | None => (None, store 0 len)
      end) /\
    (forall key len, key ∈ keys -> null_free key -> exists value, RoomData (WeyveClient.client c) !! key = Some value /\
      weyve_room_data c (Some key) len = (Some value, store (str_size value) len)) /\
    (forall key, key ∈ keys -> ~ null_free key -> (forall arg, Str arg <> key) /\
      forall len, weyve_room_data c (Some key) len = Bytes (RoomData_at (c_str key) (WeyveClient.client c)) len).
Proof.
  intros Hcount. exists (map_keys (RoomData (WeyveClient.client c))). split_and!.
  - apply map_keys_increasing.
  - intros k. apply elem_of_map_keys.
  - unfold weyve_room_data_count. unfold sizeN in *. rewrite length_map_keys in *. by apply N.mod_small.
  - intros i len. by apply key_at_spec.
  - intros key len [value Hvalue]%elem_of_map_keys Hfree. exists value. split; [done|].
    unfold weyve_room_data, RoomData_at. rewrite Str_id by done. fold (RoomData (WeyveClient.client c)). by rewrite Hvalue.
  - intros key _ Hnull. split; [|done]. intros arg <-. by apply Hnull, Str_null_free.
Qed.

(** Two keys, one of them "a", null, "b": it is the first, and is not found. *)
Lemma room_data_keys_by_index_witness :
  weyve_room_data_key_at (DemoApi.handle [] DemoApi.data) 0 (Some 9) = (Some DemoApi.odd_key, Some 3) /\
  weyve_room_data (DemoApi.handle [] DemoApi.data) (Some DemoApi.odd_key) (Some 7) = (None, Some 0).
Proof.
  destruct (room_data_keys_by_index (DemoApi.handle [] DemoApi.data)) as (keys & _ & Hkeys & _ & _ & _ & Hnull);
    [vm_compute; reflexivity|].
  assert (DemoApi.odd_key ∈ keys) as Hin.
  { apply Hkeys. vm_compute. eexists. reflexivity. }
  assert (~ null_free DemoApi.odd_key) as Hodd by (unfold null_free; vm_compute; discriminate).
  split; [vm_compute; reflexivity|exact (proj2 (Hnull DemoApi.odd_key Hin Hodd) (Some 7))].
Defined.
