(* ===== verification/EndToEnd.v ===== *)
(** The server among arbitrary peers: the properties of the coroutines, and what
    a client at the other end of a connection ends up knowing. *)
From S2P Require Import Prelude Wire Protocol Framing Stream RoomCache Server ServerExec Lobby WellFormed.
From S2P Require Import Refine ServerInv Rules Authority Mirror Sendable Session SessionInv Scheduler Reader.
From S2P Require Import Client ClientMesh ClientConn CApi CApiRules.
Local Open Scope N_scope.
#[local] Opaque FrameMessage.

(** ** What a client is sent *)

(** A session that goes on and its writer: the frames sent and queued. *)
Lemma reading_up_to_date `{!RoomRng} cfg y p c body at_point w :
  config_ok cfg -> reachable cfg y -> heap (server y) !! p = Some c ->
  tasks y !! p = Some (Task.mk (Reading body at_point) w) -> w <> Finished -> up_to_date (server y) c w.
Proof.
  intros Hcfg Hy%reachable_ok Hc Ht Hw; [|done].
  destruct (ok_conns _ Hy _ _ _ Hc Ht) as [(_ & _ & _ & _ & _ & Hview) _]. by apply Hview.
Qed.

(** The client at the other end of [pipeline], once it has polled everything. *)
Lemma client_reads_pipeline `{!Juice} s c w (polls : list (list (list byte) * list write_answer)) :
  up_to_date s c w -> concat ((fun poll => concat poll.1) <$> polls) = pipeline c w ->
  Forall (fun answers => WriteFailed ∉ answers) polls.*2 ->
  exists msgs k, pipeline c w = frame_all msgs /\ Forall genuine msgs /\
    (Connect (Connected true) ;; poll_all polls) client_init = Done true k /\
    _room_cache k = seen_by s c /\ _inbox k = filter (fun msg => surfaced msg = true) msgs /\ rx k = [] /\ rx_msg k = [].
Proof.
  intros (msgs & Hpipe & Hmsgs & Hcache) Hpolls Hwrites. rewrite Hpipe in Hpolls.
  set (k0 := set_socket_open true client_init). pose proof (genuine_sendable _ Hmsgs) as Hsendable.
  destruct (poll_all_reads k0 msgs polls) as (k & Hrun & Hk & Hinbox & Hrx & Hmsg & _); try done.
  { by apply (mesh_ok_ext client_init), mesh_ok_init. }
  exists msgs, k. split_and!; try done. rewrite Hk. by apply Hcache.
Qed.

(** What the server sends for the application is what the C interface can tell. *)
Lemma genuine_event m : genuine m -> surfaced m = is_event m /\ foreign_value m = false.
Proof.
  intros [[_ Hread] Hfrom]. destruct m; try done; (split; [done|]).
  - apply bool_decide_eq_false. cbn in Hfrom. lia.
  - by apply negb_false_iff, bool_decide_eq_true.
Qed.

Lemma sendable_presentable m : sendable m -> presentable m.
Proof.
  intros [[_ Hsize] _]. unfold wire_size in Hsize. change max_reassembled_size with 16384 in Hsize.
  unfold presentable. destruct m; cbn [strings_of payload_size] in *; repeat constructor; lia.
Qed.

Lemma genuine_events msgs : Forall genuine msgs ->
  filter (fun msg => surfaced msg = true) msgs = List.filter is_event msgs.
Proof.
  induction 1 as [|m msgs Hm _ IH]; [done|]. rewrite filter_cons. cbn [List.filter].
  destruct (genuine_event m Hm) as [-> _]. rewrite IH. by destruct (is_event m).
Qed.

(** ** A connection is lost *)

(** [session_end] as the departure of the client, seen from the others. *)
Lemma session_end_others s p c j :
  sender s p c -> j <> Connection.id c -> client s j <> None ->
  let s' := set_connections (delete (Connection.id c) (connections s))
              (commit (update_conn p shut s) (departure (update_conn p shut s) p c)) in
  queue s' j = queue s j ++ (FrameMessage <$> told j (d_sent (departure (update_conn p shut s) p c))).
Proof.
  intros [Hwf Hp Hid] Hj Hclient s'. set (s1 := update_conn p shut s).
  assert (wf s1) as Hwf1 by (by apply wf_update_conn).
  assert (client s1 j = client s j) as Hsame.
  { unfold client. cbn [s1 update_conn set_heap connections heap]. destruct (connections s !! j) as [q|] eqn:Hq; [|done]. cbn.
    apply lookup_alter_ne. intros <-. destruct (wf_table _ Hwf _ _ Hq) as (c' & Hc' & Hidc). by simplify_eq. }
  assert (queue s' j = queue (commit s1 (departure s1 p c)) j) as ->.
  { unfold queue, client, s'. cbn [set_connections connections heap]. by rewrite lookup_delete_ne. }
  rewrite queue_commit by (done || by rewrite Hsame). unfold queue at 1. by rewrite Hsame.
Qed.

Lemma session_end_leaves s p c : sender s p c ->
  exists s', session_end p s = Done tt s' /\ connections s' = delete (Connection.id c) (connections s) /\
  match rooms s !! Connection.room c with
  | None => rooms s' = rooms s
  | Some r =>
      let others := filter (fun j => j <> Connection.id c) (Room.members r) in
      (others = [] -> rooms s' = delete (Connection.room c) (rooms s)) /\
      (others <> [] -> exists r', rooms s' = <[Connection.room c := r']> (rooms s) /\ succeeds (Connection.id c) r r' /\
         forall j, j ∈ others -> queue s' j = queue s j ++ (FrameMessage <$>
           Proto.PeerLeft (Connection.id c) ::
             if decide (Room.host r = Connection.id c) then [Proto.HostChanged (Room.host r')] else []))
  end.
Proof.
  intros Hs. pose proof Hs as [Hwf Hp Hid]. eexists. split; [by apply session_end_run|]. split; [done|].
  set (s1 := update_conn p shut s). change (rooms s) with (rooms s1) at 1.
  destruct (rooms s1 !! Connection.room c) as [r|] eqn:Hr.
  2:{ destruct (str_empty (Connection.room c)) eqn:Hempty; [by unfold departure; rewrite Hempty|].
      destruct (wf_conns _ Hwf _ _ Hp (not_empty _ Hempty)) as (_ & r & Hr' & _). unfold s1 in Hr. cbn in Hr. congruence. }
  pose proof (wf_rooms _ Hwf _ _ Hr) as Hok. cbv zeta.
  pose proof (session_end_others s p c) as Hothers. cbv zeta in Hothers. fold s1 in Hothers. revert Hothers.
  assert (departure s1 p c = lobby_leave (no_delta s1) p (Connection.id c) (Connection.room c)) as ->.
  { unfold departure. destruct (str_empty (Connection.room c)) eqn:Hempty; [|done].
    apply str_empty_spec in Hempty. by destruct (room_code _ _ Hok). }
  pose proof (room_nodup _ _ Hok) as Hnd. pose proof (NoDup_filter (fun j => j <> Connection.id c) _ Hnd) as Hnd'.
  destruct (lobby_leave_cases (no_delta s1) p (Connection.id c) (Connection.room c) r Hr Hnd)
    as [[Hnil ->]|(r' & Hne & Hsucc & _ & ->)]; intros Hothers; split; try done.
  intros _. exists r'. split_and!; [done|done|]. intros j Hj.
  assert (j ∈ Room.members r /\ j <> Connection.id c) as [Hjr Hji] by (apply list_elem_of_filter in Hj; tauto).
  destruct (wf_members _ Hwf _ _ _ Hr Hjr) as (q & t & Hq & Ht & _).
  rewrite Hothers; [|done|done|by unfold client; rewrite Hq; cbn; rewrite Ht]. cbn [d_sent move send with_rooms no_delta app].
  change (vector_erase (Connection.id c) (Room.members r)) with (filter (fun j => j <> Connection.id c) (Room.members r)).
  by rewrite told_farewell, decide_True by done.
Qed.

(** ** Properties *)

(** Claim C13: whatever clients connect, send and drop, in whatever order the io
    context runs the coroutines, the server stays well-formed.  A session that
    reads is registered under its own id; one that has ended is in no table and
    in no room, its socket is closed; and a reader never holds more than a
    message may have. *)
Theorem server_stays_well_formed `{!RoomRng} (cfg : ServerConfig) (y : Sys) :
  config_ok cfg -> reachable cfg y ->
  wf (server y) /\
  forall p c t, heap (server y) !! p = Some c -> tasks y !! p = Some t ->
    match Task.session t with
    | Spawned => connections (server y) !! Connection.id c = Some p
    | Reading body _ => connections (server y) !! Connection.id c = Some p /\ sizeN body <= max_reassembled_size
    | Ended => connections (server y) !! Connection.id c = None /\ sk_open (Connection.socket c) = false /\
        forall code r, rooms (server y) !! code = Some r -> Connection.id c ∉ Room.members r
    end.
Proof.
  intros Hcfg Hy%reachable_ok; [|done]. split; [apply (ok_wf _ Hy)|]. intros p c t Hc Ht.
  destruct (ok_conns _ Hy _ _ _ Hc Ht) as [Hsession _]. unfold session_ok in Hsession.
  destruct (Task.session t) as [|body at_point|].
  - apply Hsession.
  - destruct Hsession as (? & _ & _ & _ & Hreader & _). split; [done|]. destruct at_point; cbn in Hreader; lia.
  - destruct Hsession as (Hid & _ & _ & _ & Hclosed). split_and!; [done..|]. intros code r Hr Hin.
    destruct (wf_members _ (ok_wf _ Hy) _ _ _ Hr Hin) as (q & _ & Hq & _). congruence.
Qed.

(** The client of [DemoSys], which has asked for a room and is its host. *)
Lemma server_stays_well_formed_witness :
  connections (server DemoSys.created) !! 1 = Some 0%nat /\ wf (server DemoSys.created).
Proof.
  destruct (@server_stays_well_formed Demo.rng Demo.config DemoSys.created DemoSys.config_fits DemoSys.created_reachable)
    as [Hwf Hall].
  pose proof (Hall 0%nat DemoSys.conn (Task.mk (Reading [] AwaitHeader) Waiting) ltac:(vm_compute; reflexivity)
    ltac:(vm_compute; reflexivity)) as Hsession.
  exact (conj (proj1 Hsession) Hwf).
Defined.

(** Claim C17: no wake-up is lost.  In no reachable state does a writer sleep while
    frames wait in its queue or its session is over: the completion of its
    timer wait is due, and when it runs, the writer takes the first frame, in
    the order they were queued, or ends. *)
Theorem writers_are_woken `{!RoomRng} (cfg : ServerConfig) (y : Sys) (p : ptr) (c : Connection.t) (pt : session_point) :
  config_ok cfg -> reachable cfg y -> heap (server y) !! p = Some c -> tasks y !! p = Some (Task.mk pt Waiting) ->
  Connection.out c <> [] \/ Connection.closing c = true ->
  exists w' s', sys_step y (with_task p (Task.mk pt w') s' y) /\
    match Connection.closing c, Connection.out c with
    | true, _ => w' = Finished
    | false, frame :: rest => w' = Writing frame /\ heap s' !! p = Some (Connection.set_out rest c)
    | false, [] => False
    end.
Proof.
  intros Hcfg Hy%reachable_ok Hc Ht Hwork; [|done].
  destruct (ok_conns _ Hy _ _ _ Hc Ht) as [_ Hwake].
  assert (Connection.wake c = false) as Hdue.
  { destruct (Connection.wake c) eqn:Hpending; [|done]. destruct (Hwake Hpending) as (_ & ? & ?).
    destruct Hwork; congruence. }
  pose proof (write_loop_run p c (server y) Hc) as Hrun.
  destruct (Connection.closing c) eqn:Hclosing.
  - exists Finished, (server y). split; [by apply step_io, io_works, (step_woken y p c pt)|done].
  - destruct (Connection.out c) as [|frame rest] eqn:Hout; [by destruct Hwork|].
    eexists (Writing frame), _. split; [by apply step_io, io_works, (step_woken y p c pt)|]. split; [done|].
    by apply lookup_update_conn.
Qed.

(** Four frames wait for the writer of the client in [DemoSys]. *)
Lemma writers_are_woken_witness :
  length (Connection.out DemoSys.conn) = 4%nat /\
  exists w' s', @sys_step Demo.rng DemoSys.created (with_task 0%nat (Task.mk (Reading [] AwaitHeader) w') s' DemoSys.created) /\
    match Connection.closing DemoSys.conn, Connection.out DemoSys.conn with
    | true, _ => w' = Finished
    | false, frame :: rest => w' = Writing frame /\ heap s' !! 0%nat = Some (Connection.set_out rest DemoSys.conn)
    | false, [] => False
    end.
Proof.
  split; [vm_compute; reflexivity|].
  apply (@writers_are_woken Demo.rng Demo.config DemoSys.created 0%nat DemoSys.conn (Reading [] AwaitHeader)
    DemoSys.config_fits DemoSys.created_reachable); [vm_compute; reflexivity|vm_compute; reflexivity|].
  left. vm_compute. discriminate.
Defined.

(** Clients see their rooms.  Take any reachable state of the server
    and any client whose session goes on and whose connection has not failed:
    once the client has polled all the bytes that were sent or are queued for
    it, in whatever pieces they arrive, its cached room state - id, room, host,
    members, flags, room data and member data - is its room as the server has
    it, or no room if it is in none, and its receive buffers are empty. *)
Theorem clients_see_their_rooms `{!RoomRng, !Juice} (cfg : ServerConfig) (y : Sys) (p : ptr) (c : Connection.t)
    (body : list byte) (at_point : read_point) (w : writer_point)
    (polls : list (list (list byte) * list write_answer)) :
  config_ok cfg -> reachable cfg y ->
  heap (server y) !! p = Some c -> tasks y !! p = Some (Task.mk (Reading body at_point) w) -> w <> Finished ->
  concat ((fun poll => concat poll.1) <$> polls) = pipeline c w -> Forall (fun answers => WriteFailed ∉ answers) polls.*2 ->
  exists k, (Connect (Connected true) ;; poll_all polls) client_init = Done true k /\
    _room_cache k = seen_by (server y) c /\ rx k = [] /\ rx_msg k = [].
Proof.
  intros Hcfg Hy Hc Ht Hw Hpolls Hwrites. pose proof (reading_up_to_date cfg y p c body at_point w Hcfg Hy Hc Ht Hw) as Hup.
  destruct (client_reads_pipeline (server y) c w polls Hup Hpolls Hwrites) as (_ & k & _ & _ & ? & ? & _ & ? & ?). by exists k.
Qed.

(** The client of [DemoSys] polls what waits for it, cut behind the first two
    bytes, and knows that it is alone in its room. *)
Lemma clients_see_their_rooms_witness :
  let bytes := pipeline DemoSys.conn Waiting in
  exists k, (Connect (Connected true) ;; @poll_all DemoClient.juice [([take 2 bytes; drop 2 bytes], [])]) client_init = Done true k /\
    _room_cache k = seen_by (server DemoSys.created) DemoSys.conn /\ rx k = [] /\ rx_msg k = [].
Proof.
  intros bytes.
  apply (@clients_see_their_rooms Demo.rng DemoClient.juice Demo.config DemoSys.created 0%nat DemoSys.conn [] AwaitHeader Waiting
    [([take 2 bytes; drop 2 bytes], [])] DemoSys.config_fits DemoSys.created_reachable).
  - vm_compute. reflexivity.
  - vm_compute. reflexivity.
  - discriminate.
  - vm_compute. reflexivity.
  - apply Forall_cons_2; [|apply Forall_nil_2]. intros Hin. exact (not_elem_of_nil _ Hin).
Defined.

(** Claim C16: the server speaks its protocol.  In every reachable state, all that
    was sent to a client whose session goes on, is being written or is queued
    for it is a sequence of frames of messages that have the types of the
    protocol - ids of 32 bits, strings whose lengths fit, [bool]s that are 0 or
    1 - and the size a client
    accepts, and that are answers and events, never requests, with one of the
    nine error codes. *)
Theorem server_output_is_typed `{!RoomRng} (cfg : ServerConfig) (y : Sys) (p : ptr) (c : Connection.t)
    (body : list byte) (at_point : read_point) (w : writer_point) :
  config_ok cfg -> reachable cfg y ->
  heap (server y) !! p = Some c -> tasks y !! p = Some (Task.mk (Reading body at_point) w) -> w <> Finished ->
  exists msgs, pipeline c w = frame_all msgs /\
    Forall (fun m => valid_message m /\ readable m /\ wire_size m <= max_reassembled_size /\ from_server m) msgs.
Proof.
  intros Hcfg Hy Hc Ht Hw. destruct (reading_up_to_date cfg y p c body at_point w Hcfg Hy Hc Ht Hw) as (msgs & Hpipe & Hmsgs & _).
  exists msgs. split; [done|]. eapply Forall_impl; [exact Hmsgs|]. by intros m [[[? ?] ?] ?].
Qed.

(** The greeting and the answers to the client of [DemoSys]. *)
Lemma server_output_is_typed_witness :
  exists msgs, concat (Connection.out DemoSys.conn) = frame_all msgs /\
    Forall (fun m => valid_message m /\ readable m /\ wire_size m <= max_reassembled_size /\ from_server m) msgs.
Proof.
  destruct (@server_output_is_typed Demo.rng Demo.config DemoSys.created 0%nat DemoSys.conn [] AwaitHeader Waiting
    DemoSys.config_fits DemoSys.created_reachable) as (msgs & Hpipe & Hmsgs);
    [vm_compute; reflexivity|vm_compute; reflexivity|discriminate|].
  exists msgs. refine (conj (eq_trans _ Hpipe) Hmsgs). vm_compute. reflexivity.
Defined.

(** Claim C10: a C program sees the room.  Take any reachable state of the server,
    a client whose session goes on, and the handle of a C program at the other
    end, which has polled all bytes that were sent or are queued for it.  Its
    loop over [weyve_next] ends, is never undefined, and reads exactly the
    messages the server sent for the application, in order, each of them as it
    was sent; and its getters then tell its id and its room as the server has
    them. *)
Theorem c_program_sees_its_room `{!RoomRng, !Juice} (cfg : ServerConfig) (y : Sys) (p : ptr) (c : Connection.t)
    (body : list byte) (at_point : read_point) (w : writer_point)
    (polls : list (list (list byte) * list write_answer)) (out : WeyveEvent.t) :
  config_ok cfg -> reachable cfg y ->
  heap (server y) !! p = Some c -> tasks y !! p = Some (Task.mk (Reading body at_point) w) -> w <> Finished ->
  concat ((fun poll => concat poll.1) <$> polls) = pipeline c w -> Forall (fun answers => WriteFailed ∉ answers) polls.*2 ->
  exists msgs k h,
    pipeline c w = frame_all msgs /\
    (Connect (Connected true) ;; poll_all polls) (WeyveClient.client weyve_client_create) = Done true k /\
    read_events (S (length (_inbox k))) out (WeyveClient.set_client k weyve_client_create)
      = Done (Some <$> List.filter is_event msgs) h /\
    weyve_id h = Connection.id c /\
    match rooms (server y) !! Connection.room c with
    | None => (weyve_room_id h None).1 = "" /\ (weyve_members h None).1 = []
    | Some r =>
        (weyve_room_id h None).1 = Connection.room c /\ weyve_host_id h = Room.host r /\
        (weyve_members h None).1 = Connection.id c :: filter (fun j => j <> Connection.id c) (Room.members r) /\
        weyve_room_joinable h = Room.open r /\ weyve_room_passworded h = negb (str_empty (Room.password r)) /\
        forall key, null_free key -> (weyve_room_data h (Some key) None).1 = Room.data r !! key /\
          forall i, (weyve_member_data h i (Some key) None).1 = Room.member_data r !! i ≫= (fun slots => slots !! key)
    end.
Proof.
  intros Hcfg Hy Hc Ht Hw Hpolls Hwrites. pose proof (reading_up_to_date cfg y p c body at_point w Hcfg Hy Hc Ht Hw) as Hup.
  destruct (client_reads_pipeline (server y) c w polls Hup Hpolls Hwrites)
    as (msgs & k & Hpipe & Hgenuine & Hrun & Hcache & Hinbox & _). rewrite genuine_events in Hinbox by done.
  set (h0 := WeyveClient.set_client k weyve_client_create). change (_inbox k) with (inbox h0) in *.
  assert (Forall genuine (inbox h0)) as Hin.
  { rewrite Hinbox. apply Forall_forall. intros m Hm%list_elem_of_In. apply List.filter_In in Hm as [Hm%list_elem_of_In _].
    rewrite Forall_forall in Hgenuine. by apply Hgenuine. }
  assert (List.filter is_event (inbox h0) = List.filter is_event msgs) as Hevents.
  { rewrite Hinbox. clear. induction msgs as [|m msgs IH]; [done|]. cbn.
    destruct (is_event m) eqn:Hm; [cbn; rewrite Hm; by f_equal|done]. }
  destruct (read_events_run (S (length (inbox h0))) out h0) as (h & Hread & _ & [Hclient _]); [lia| | |].
  { eapply Forall_impl; [exact Hin|]. intros m [Hm _]. by apply sendable_presentable. }
  { rewrite Hevents. apply Forall_forall. intros m Hm%list_elem_of_In. apply List.filter_In in Hm as [Hm%list_elem_of_In _].
    rewrite Forall_forall in Hgenuine. apply genuine_event. by apply Hgenuine. }
  exists msgs, k, h. rewrite Hevents in Hread. split_and!; try done.
  all: unfold weyve_id, weyve_room_id, weyve_members, weyve_host_id, weyve_room_joinable, weyve_room_passworded, weyve_room_data,
    weyve_member_data, MemberData_at, MemberData, RoomData_at, Id, my_id, RoomId, Members, HostId, RoomJoinable, RoomPassworded; cbn [fst];
    rewrite Hclient; cbn [_room_cache set_inbox h0 WeyveClient.client WeyveClient.set_client]; rewrite Hcache;
    unfold seen_by; destruct (rooms (server y) !! Connection.room c) as [r|]; try done.
  split_and!; try done. intros key Hfree. rewrite Str_id by done. cbn. split; [by destruct (Room.data r !! key)|].
  intros i. destruct (Room.member_data r !! i) as [slots|]; [|done]. cbn. by destruct (slots !! key).
Qed.

(** The client of [DemoSys]: four messages, two of them events. *)
Lemma c_program_sees_its_room_witness :
  let bytes := pipeline DemoSys.conn Waiting in
  exists k h msgs,
    (Connect (Connected true) ;; @poll_all DemoClient.juice [([bytes], [])]) client_init = Done true k /\
    @read_events (S (length (_inbox k))) DemoApi.out (WeyveClient.set_client k weyve_client_create)
      = Done (Some <$> List.filter is_event msgs) h /\
    weyve_id h = 1.
Proof.
  intros bytes.
  destruct (@c_program_sees_its_room Demo.rng DemoClient.juice Demo.config DemoSys.created 0%nat DemoSys.conn [] AwaitHeader Waiting
    [([bytes], [])] DemoApi.out DemoSys.config_fits DemoSys.created_reachable) as (msgs & k & h & _ & Hrun & Hread & Hid & _).
  - vm_compute. reflexivity.
  - vm_compute. reflexivity.
  - discriminate.
  - vm_compute. reflexivity.
  - apply Forall_cons_2; [|apply Forall_nil_2]. intros Hin. exact (not_elem_of_nil _ Hin).
  - exists k, h, msgs. exact (conj Hrun (conj Hread Hid)).
Defined.

(** Claim C18: a lost connection leaves its room.  In every reachable state, when
    the pending read of a session fails, the session ends: the client is taken
    out of the connection table; the last member closes its room; otherwise the
    room goes on with the others in their order, a departed host is succeeded by
    the longest-standing member, and the others are told. *)
Theorem lost_connection_leaves `{!RoomRng} (cfg : ServerConfig) (y : Sys) (p : ptr) (c : Connection.t)
    (body : list byte) (at_point : read_point) (w : writer_point) :
  config_ok cfg -> reachable cfg y ->
  heap (server y) !! p = Some c -> tasks y !! p = Some (Task.mk (Reading body at_point) w) ->
  let i := Connection.id c in
  exists s', sys_step y (with_task p (Task.mk Ended w) s' y) /\ connections s' = delete i (connections (server y)) /\
    match rooms (server y) !! Connection.room c with
    | None => rooms s' = rooms (server y)
    | Some r =>
        let others := filter (fun j => j <> i) (Room.members r) in
        (others = [] -> rooms s' = delete (Connection.room c) (rooms (server y))) /\
        (others <> [] -> exists r', rooms s' = <[Connection.room c := r']> (rooms (server y)) /\ succeeds i r r' /\
           forall j, j ∈ others -> queue s' j = queue (server y) j ++ (FrameMessage <$>
             Proto.PeerLeft i :: if decide (Room.host r = i) then [Proto.HostChanged (Room.host r')] else []))
    end.
Proof.
  intros Hcfg Hy%reachable_ok Hc Ht i; [|done]. destruct (ok_conns _ Hy _ _ _ Hc Ht) as [(Hid & _) _].
  destruct (session_end_leaves (server y) p c) as (s' & Hrun & Hconns & Hrooms); [by split; [apply (ok_wf _ Hy)| |]|].
  exists s'. split; [by apply step_io, io_fails, (step_read_failed y p body at_point w)|]. by split.
Qed.

(** The only client of [DemoSys] drops: its room is closed. *)
Lemma lost_connection_leaves_witness :
  exists s', @sys_step Demo.rng DemoSys.created (with_task 0%nat (Task.mk Ended Waiting) s' DemoSys.created) /\
    rooms (server DemoSys.created) !! Connection.room DemoSys.conn <> None /\
    connections s' = delete (Connection.id DemoSys.conn) (connections (server DemoSys.created)).
Proof.
  destruct (@lost_connection_leaves Demo.rng Demo.config DemoSys.created 0%nat DemoSys.conn [] AwaitHeader Waiting
    DemoSys.config_fits DemoSys.created_reachable) as (s' & Hstep & Hconns & _);
    [vm_compute; reflexivity|vm_compute; reflexivity|].
  exists s'. refine (conj Hstep (conj _ Hconns)). vm_compute. discriminate.
Defined.

(** Claim C15: how long a chat line may be.  [SendChat] takes a text of any size
    and returns true.  If it has at most 16375 bytes, the server handles the
    request between what was sent before and after it, and reads on.  If it is
    longer, the server handles what was sent before and then ends the session,
    without an answer, however the bytes arrive: [ReadLoop] returns, and the
    request and all that follow it are lost. *)
Theorem chat_length_limit `{!RoomRng} (fuel : nat) (k : Client) (text : string) (before after : list Proto.ServerMessage)
    (s : Server) (p : ptr) (c : Connection.t) (chunks : list (list byte)) :
  tx k = frame_all before -> Forall sendable before -> Forall sendable after ->
  sender s p c -> sk_in (Connection.socket c) = [] ->
  exists k', Client_SendChat text k = Done true k' /\
    (concat chunks = tx k' ++ frame_all after ->
     if bool_decide (str_size text <= 16375)
     then receive fuel p (Reading [] AwaitHeader) chunks s =
       (for_each (before ++ [Proto.RoomChat 0 text] ++ after) (HandleMessage fuel p) ;; ret (Reading [] AwaitHeader)) s
     else exists left, receive fuel p (Reading [] AwaitHeader) chunks s =
       (for_each before (HandleMessage fuel p) ;; modify (holding p left) ;; session_end p ;; ret Ended) s).
Proof.
  intros Htx Hbefore Hafter Hs Hin. eexists. split; [done|]. cbn [tx set_tx]. rewrite Htx, <-app_assoc. intros Hchunks.
  assert (wire_size (Proto.RoomChat 0 text) = str_size text + 9) as Hsize by (unfold wire_size; cbn [payload_size]; lia).
  case_bool_decide as Hfits.
  - apply (receive_all p s c); [done..| |].
    + apply Forall_app. split; [done|]. apply Forall_cons. split; [|done]. apply sendable_intro; [done|].
      rewrite Hsize. change max_reassembled_size with 16384. lia.
    + rewrite Hchunks. constructor. rewrite <-frame_all_cons, <-frame_all_app. apply pending_all.
  - apply (receive_refused p s c); [done..|]. rewrite Hchunks. apply refuses_app; [constructor; apply pending_all|].
    apply (doomed_header [] (serialize (Proto.RoomChat 0 text))); [apply FrameMessage_framed|rewrite size_serialize, Hsize|done].
    rewrite sizeN_nil. change max_reassembled_size with 16384. lia.
Qed.

(** Member 2 sends one byte too many, and a request to leave behind it: its
    session has ended and it is not connected any more. *)
Lemma chat_length_limit_witness :
  let text := str_of_bytes (repeat x41 (N.to_nat 16376)) in
  let chunks := [FrameMessage (Proto.RoomChat 0 text); FrameMessage Proto.LeaveRoom] in
  match @receive Demo.rng 0 1%nat (Reading [] AwaitHeader) chunks Demo.server with
  | Done pt s' => pt = Ended /\ connections s' !! 2 = None
  | _ => False
  end.
Proof.
  intros text chunks.
  destruct (@chat_length_limit Demo.rng 0 client_init text [] [Proto.LeaveRoom] Demo.server 1%nat (Demo.conn 2 "WXYZ") chunks)
    as (k' & Hrun & Hread).
  - reflexivity.
  - apply Forall_nil_2.
  - repeat constructor; vm_compute; discriminate.
  - split; [apply wf_check_sound; vm_compute; reflexivity|reflexivity..].
  - reflexivity.
  - injection Hrun as <-. assert (str_size text = 16376) as Hsize by (unfold text; rewrite str_size_of_bytes; vm_compute; reflexivity).
    rewrite Hsize in Hread. destruct (Hread eq_refl) as [left ->]. vm_compute. split; reflexivity.
Defined.
